(* ===== verification/_CoqProject ===== *)
-Q . S2P
Prelude.v
Text.v
GameTypes.v
GameClock.v
TerminalResult.v
GameStateMachine.v
ChessEngine.v
Json.v
JsonText.v
Tokens.v
Database.v
Schema.v
GameplayRepository.v
GameLifecycleRepository.v
GameRepository.v
GameDeadlines.v
RealtimeErrors.v
Redis.v
Programs.v
World.v
Identity.v
SessionRepository.v
SessionServices.v
SessionActions.v
SessionInvariant.v
SessionTokens.v
SessionMaintenance.v
SessionExamples.v
MatchmakingScripts.v
Presence.v
Matchmaking.v
Snapshots.v
Protocol.v
ProtocolCodec.v
RealtimeProtocol.v
RateLimits.v
Connections.v
Application.v
Config.v
EphemeralState.v
GameServices.v
Realtime.v
Gateway.v
HttpApi.v
RealtimeExamples.v
Reconciliation.v
GameSystem.v
GameInvariant.v
GameRuns.v
CacheInvariant.v
CacheTriples.v
CacheMatchmaking.v
CacheGames.v
CacheSessions.v
CacheRealtime.v
CacheEdge.v
CacheSafety.v
