(* ===== verification/Prelude.v ===== *)
(** * CluChess backend: verification library

    CluChess is a two-player online chess server. Guests are matched, get ready,
    play a timed game over a socket, may lose their connection and come back,
    resign, run out of time or never show up. The games are in a database; Redis
    holds the queue, who is online, and what speeds up the way back to a game, and
    may be lost at any time. Any number of server processes share both. This
    library models the part of the server that admits guests, matches them and decides
    games: the domain of [src/src/modules/game/domain], the chess adapter of
    [src/src/modules/chess], the repositories of
    [src/src/modules/game/infrastructure] over the transaction layer of
    [src/src/modules/persistence], the Lua scripts and services of
    [src/src/modules/matchmaking] and [src/src/modules/presence], the application
    services of [src/src/modules/game], the guests themselves in
    [src/src/modules/session] and [src/src/modules/identity], the socket gateway of
    [src/src/modules/realtime], and the configuration and lifecycle of the process in
    [src/src/common].

    ** Files and the code they model

    - [Prelude]: results and transactions as monads, JavaScript numbers and dates,
      sorting, the tactics [js_bool], [js_step], [js_ret], [js_cases].
    - [Text]: strings as lists of characters: classes of characters, [split], [trim],
      UUIDs, base64url.
    - [GameTypes]: [game.types.ts], the records of the ports under
      [game/application/ports], [chess-engine.ts], and the error classes.
    - [GameClock]: [game-clock.ts]. A clock is a record of the two times, the
      increment, the running colour and the start of the turn.
    - [TerminalResult]: [terminal-result.ts], from what happened to the outcome.
    - [GameStateMachine]: [game-state-machine.ts], the transition table and
      [transitionGame]; [lifecycle_step] is the table as a step relation, the
      abstract specification the repositories are compared with.
    - [ChessEngine]: [chessjs.engine.ts]. The library chess.js is the class [ChessJs],
      what the adapter relies on the class [ChessJsLaws]; [SampleChess] is an
      instance, used by the witnesses.
    - [Json]: JSON values and the zod parsers the repositories read stored replies
      with. The test for a UUID is the class [Zod]. [JsonText]: a printer and a parser of
      JSON, an instance of what [JSON.stringify] and [JSON.parse] promise.
    - [Tokens]: [jwt-token.service.ts]. The signature scheme is the class [NodeCrypto].
    - [Database]: the tables, the queries, [transaction.service.ts] and
      [database-errors.ts]. The error objects Prisma throws are the class [Prisma].
    - [Schema]: the CHECK constraints and the trigger function of the migration.
    - [GameplayRepository] (module [Gameplay]): [prisma-gameplay.repository.ts], that
      is [submitMove].
    - [GameLifecycleRepository] (module [Lifecycle]):
      [prisma-game-lifecycle.repository.ts], that is resignation, session reset,
      disconnection, reconnection, the adjudication of timeouts, no-shows and
      abandonments, and the queries for deadlines.
    - [GameRepository] (module [Games]): [prisma-game.repository.ts], that is
      allocation, readiness, start, the versioned update, and reading games.
    - [GameDeadlines]: [game-deadline.service.ts], the timers in the server's memory,
      as a state machine that moves between the awaits of the code.
    - [Redis]: the keyspace and the commands the code uses, as the class [Redis] with
      the laws [RedisLaws]; the names of the keys; [MapRedis] is an instance, used by
      the witnesses.
    - [Programs]: asynchronous programs as trees of atomic actions, what they do when
      they run alone ([alone]), what they guarantee under interference ([wp]), and
      machines of many programs ([machine_step], [adequacy]).
    - [World]: the database and the keyspace together, the configuration, and the
      actions on them, with all the ways an answer can fail to arrive.
    - [Identity]: [identity.service.ts], [name-reservation.service.ts], the catalogs and
      the filter of bad words.
    - [SessionRepository] (module [Sessions]): [prisma-guest-session.repository.ts], with
      the CHECK constraints of its two tables.
    - [SessionServices]: [session.service.ts], [session-revocation.service.ts],
      [session-authentication.service.ts], [session-maintenance.service.ts].
      [SessionActions] is a logic for what their actions do, [SessionInvariant] the
      invariant of the tables, [SessionTokens] is about the tokens they issue and revoke,
      [SessionMaintenance] about the job; [SessionExamples] holds sample runs.
    - [RealtimeErrors]: [protocol.constants.ts], [realtime.errors.ts], [realtime.types.ts].
      [Protocol]: the messages between client and server, their schemas in
      [protocol.schemas.ts], and the objects the services make of them. [ProtocolCodec]
      (module [Codec]): which messages are valid, and that exactly these go through.
      [RealtimeProtocol]: [realtime-protocol.service.ts].
    - [RateLimits]: [realtime-rate-limit.service.ts], [session-rate-limit.service.ts] and
      [recovery-rate-limit.service.ts], over the counters of Redis (class
      [RedisCounters]).
    - [Connections]: [connection-registry.service.ts] and
      [realtime-authentication.service.ts], that is the handshake of a socket.
    - [Application]: [application-lifecycle.service.ts], the work in flight and the drain
      of a process, as a state machine, and the windows of [drainConnections].
    - [Config]: [config.schema.ts] with its defaults and refinements, and the check of the
      key files. The URL parser and the file system are the classes [NodeUrl] and
      [FileSystem].
    - [MatchmakingScripts] (module [Scripts]): the seven Lua scripts of
      [matchmaking/infrastructure/lua] and [matchmaking-script.service.ts].
    - [Presence]: [presence.service.ts].
    - [Matchmaking]: [game-allocation.service.ts] (module [Allocation]) and
      [matchmaking.service.ts] (module [Matchmaking]); module [Settlement] is its
      theory.
    - [Snapshots]: [game-snapshot.presenter.ts] and the schema of its payload in
      [protocol.schemas.ts].
    - [EphemeralState] (module [Ephemeral]): [game-ephemeral-state.service.ts].
    - [GameServices] (module [Services]): [game-room.service.ts],
      [game-move.service.ts], [game-lifecycle.service.ts] and
      [game-recovery.service.ts].
    - [Realtime]: [matchmaking-realtime.service.ts], [game-lifecycle-delivery.service.ts],
      [realtime-error-mapper.service.ts] and the rooms of [broadcast.service.ts], as
      programs of the type [Talk], that act and tell sockets and rooms ([Output]).
    - [Gateway]: [realtime.gateway.ts] and [active-game-lookup.service.ts].
      [RealtimeExamples] holds sample commands.
    - [HttpApi]: the endpoints of sessions and of recovery, that is [session.controller.ts],
      [session.schemas.ts], [session-auth.guard.ts], [session-exception.filter.ts],
      [recovery.controller.ts], [recovery.schemas.ts], [recovery-exception.filter.ts] and
      [correlation-id.middleware.ts]; [serve] takes a request to its answer.
    - [Reconciliation]: [game-reconciliation.service.ts].
    - [GameSystem]: the operations of the three repositories as one transition
      system, the effects they can have, and the refinement of the lifecycle.
    - [GameInvariant]: the invariant of the database and its preservation.
    - [GameRuns]: what holds along runs, and the sample run of the witnesses.
    - [CacheInvariant] (module [Cache]): the invariant of the keyspace, and that every
      script keeps it. [CacheTriples]: a logic for programs that keep it under
      interference. [CacheMatchmaking], [CacheGames], [CacheSessions]: every program
      of the services does. [CacheRealtime]: a logic for programs that also tell sockets
      and rooms, and the commands in it; [CacheEdge]: the gateway and the endpoints in
      it, and who gets to see which game. [CacheSafety]: the machine of all of them, and
      what its states satisfy.

    ** How the model reads

    A database is the record [DB]: games by id, players, moves, assignments by
    guest, commands by (game, event id), guest sessions. A transaction is a
    function of the database that returns a value and a database, or throws;
    [run] discards what a throwing transaction wrote and turns the error into a
    [DatabaseError], as [TransactionService.run] does. An operation of a
    repository is a function of the environment [Env] (the reading of the
    database's clock, the time of [updatedAt], the ids the database generates),
    its input and the database. Each transaction locks its game row first, so
    transactions on the same game run one after the other. What an operation
    reads before the lock, or after its transaction failed, it reads from
    another argument ([before], [later]): nothing is assumed about what happened
    in between.

    A service is a program of the type [Prog]: a tree of actions on the [World], each of
    them atomic (a transaction, a script, a command) and each with an argument [Ext]
    for what it finds out from outside: the clock, fresh ids, whether the database and
    Redis are reached and whether their answer arrives. Between two actions, that is
    at each [await], anything may happen. [Promise.all] runs its parts one after the
    other, in the order in which they are started. A script is a function of the
    keyspace; keys expire and are evicted by moves of the environment, so that no
    theorem relies on a time to live.

    Times are milliseconds since the epoch. The four-byte integers of the
    database overflow where the code computes with them ([lockGameClock]); the
    version counter and stored clocks are unbounded here (an update that PostgreSQL would
    refuse as out of range is accepted), and statements about
    [transitionGame] ask for versions that are safe integers. A string is its UTF-8 bytes;
    where the code takes a length, it is the number of UTF-16 units ([js_length]). Every recursion is
    structural, on the history of moves, on a list of rows or reservations, or on the
    turns the source bounds its loops by, but for the parser of JSON, whose fuel is the
    length of the text ([read_print] shows that this is enough for what was printed).

    ** What the theorems show

    - The clock: every operation keeps it well formed; the flag falls exactly at
      the deadline, in all three functions that can notice; pauses shift it; time
      is conserved over any run of moves.
    - Outcomes and lifecycle: the outcome table, which events are contradictory,
      what a transition can do, and that terminal statuses are final.
    - The chess adapter: an evaluated move is the next move of the replayed game;
      which error blames whom.
    - The database layer: the SQL clock agrees with the domain clock, and when its
      integers overflow; the classification of errors.
    - Moves: what a committed move writes; a failed one writes nothing; a retry gets
      the stored reply; the clock alone decides a legal move.
    - Endings: each adjudication fires exactly when it should, with the right
      outcome; disconnection and reconnection cancel out; the schedule of deadlines
      and the scan for due games agree.
    - The scheduler: in every interleaving a game has at most one timer, the current
      one; a cancelled game stays cancelled; a timer is armed for the right moment.
    - Allocation and readiness: all or nothing, repeatable, no guest in two games;
      two ready players start a game once.
    - The whole: every operation refines the lifecycle, up to the two exceptions the
      theorem names; versions identify states; every reachable state satisfies the
      invariant and the schema's constraints, and its histories replay; finished
      games are final; acknowledged moves are durable; a move and a timeout exclude
      each other.
    - Matching: the two guests who have waited longest among those who can play are
      reserved, the others keep their places, and a guest is dropped for a reason.
      Presence counts exactly the live connections. Processing a reservation always
      settles it, with a game for both guests or with both back where the database
      says they are, even when the answer of the allocation was lost.
    - Guests: the tables of sessions and their commands are sound in every interleaving,
      and what is on record stays; a request that was answered with a token is answered with
      that token again when it is retried; every
      token handed out verifies, as the session it was issued for, for exactly its time;
      nothing verifies that was not signed; a mark of a revoked session outlives every
      token it covers, its tokens are refused but for the repetition of the reset, and
      the job restores lost marks.
    - Messages: a message is read back as it was sent exactly when it is valid, and what
      the schemas accept is valid; which messages of clients are refused and how.
    - Rate limits: in a window of a caller the requests that pass are the first ones of
      the limit, up to those to which Redis gave no answer: these pass the limits of realtime
      commands and of recovery, and are refused by that of sessions. The window ends by
      itself.
    - Connections: the live connections of an address are bounded, up to late heartbeats;
      who passes the handshake showed a live token, and is counted and present.
    - Commands: whatever a client sends with a callback is answered exactly once, with a
      valid message that belongs to it, unless it fails with an error whose numbers the
      protocol cannot carry; an accepted move is announced exactly once, as it
      was stored.
    - The process: the work in flight is counted exactly, and a drain waits for it; an
      accepted configuration has every variable of the schema and each in its range, and its
      times in the order the services rely on.
    - Requests: every HTTP request is answered, with its own correlation id, by a body
      of its schema or by an error whose status is that of its code.
    - Everything together: however the events of sockets, the requests, the jobs, the ends of
      games that ran out of time and the programs of all services are interleaved, stopped and cut off from the database and
      from Redis, what Redis holds is sound: nobody is pointed to a game of others, and every
      reservation is readable. And only players follow games: sockets join only the rooms of
      their guests' games, events about a game reach only its players, and a request
      is answered with a game only for a guest who plays it.

    ** What is not modelled

    Left aside because they are wiring or third-party code: the Prisma client and the
    modules of NestJS, the HTTP and socket transports (who is in which room, the adapter
    that joins the rooms of several processes, the disconnection of a guest's sockets),
    the frameworks that call the controllers and filters, logging, metrics, telemetry and the health
    checks with their three HTTP routes, and the timers that start the jobs. Error messages are not modelled where no
    client sees them; the ones a client sees, and the code takes from an error, are the
    class [ErrorMessages]. The foreign keys from the tables of games to [guest_sessions],
    and the constraints of [moves] and [game_commands], are not stated. Not shown, though
    the definitions would allow it: that a recovered snapshot is the current one, and that
    reconciliation converges. *)

From stdpp Require Export base tactics gmap strings list fin_maps.
From Stdlib Require Export ZArith Lia Sorting.Sorted.

(** ** Results of code that may throw *)

(** A computation that returns a value or throws an exception [E]. *)
Inductive result (E A : Type) : Type :=
| Ok (a : A)
| Err (e : E).
Arguments Ok {E A} a.
Arguments Err {E A} e.

#[export] Instance result_ret E : MRet (result E) := fun A a => Ok a.
#[export] Instance result_bind E : MBind (result E) :=
  fun A B f m => match m with Ok a => f a | Err e => Err e end.
#[export] Instance result_fmap E : FMap (result E) :=
  fun A B f m => match m with Ok a => Ok (f a) | Err e => Err e end.

Definition is_ok {E A} (r : result E A) : bool :=
  match r with Ok _ => true | Err _ => false end.

(** [try { m } catch (e) { h e }] *)
Definition try_catch {E A} (m : result E A) (h : E -> result E A) : result E A :=
  match m with Ok a => Ok a | Err e => h e end.

(** ** Computations that also change a state

    A transaction maps the state it starts from to a result; when it throws,
    the state it had built is lost, which is what a rolled back database
    transaction does. *)
Definition tx (S E A : Type) : Type := S -> result E (A * S).

#[export] Instance tx_ret S E : MRet (tx S E) := fun A a s => Ok (a, s).
#[export] Instance tx_bind S E : MBind (tx S E) :=
  fun A B f m s => match m s with Ok (a, s') => f a s' | Err e => Err e end.

Definition tx_throw {S E A} (e : E) : tx S E A := fun _ => Err e.
Definition tx_read {S E A} (f : S -> A) : tx S E A := fun s => Ok (f s, s).
Definition tx_write {S E} (f : S -> S) : tx S E () := fun s => Ok ((), f s).
Definition tx_lift {S E A} (r : result E A) : tx S E A :=
  fun s => match r with Ok a => Ok (a, s) | Err e => Err e end.

(** ** Notation of the sources' comparison operators *)
Declare Scope js_scope.
Delimit Scope js_scope with js.
Notation "a === b" := (bool_decide (a = b)) (at level 70, no associativity) : js_scope.
Notation "a !== b" := (negb (bool_decide (a = b))) (at level 70, no associativity) : js_scope.

(** [list.includes(x)] *)
Definition includes {A} `{EqDecision A} (l : list A) (x : A) : bool :=
  bool_decide (x ∈ l).

(** [value ?? null] and [x === null] on optional values *)
Definition isNull {A} (o : option A) : bool :=
  match o with None => true | Some _ => false end.

(** ** Sorting, as [ORDER BY] and [sort()] use it *)
Section OrderBy.
Context {A : Type} (leb : A -> A -> bool).

Fixpoint insertBy (x : A) (l : list A) : list A :=
  match l with
  | [] => [x]
  | y :: l => if leb x y then x :: y :: l else y :: insertBy x l
  end.

Definition orderBy (l : list A) : list A := foldr insertBy [] l.

Lemma insertBy_perm x l : insertBy x l ≡ₚ x :: l.
Proof.
  induction l as [|y l IH]; simpl; [done|]. case_match; [done|].
  rewrite IH. apply Permutation_swap.
Qed.

Lemma orderBy_perm l : orderBy l ≡ₚ l.
Proof. induction l as [|x l IH]; simpl; [done|]. by rewrite insertBy_perm, IH. Qed.

Lemma orderBy_sorted l :
  StronglySorted (fun x y => leb x y = true) l -> orderBy l = l.
Proof.
  induction 1 as [|x l Hs IH Hx]; simpl; [done|]. rewrite IH.
  destruct l as [|y l]; simpl; [done|]. inversion Hx; subst. by rewrite H1.
Qed.

Lemma insertBy_sorted x l :
  (forall x y, leb x y = true \/ leb y x = true) ->
  (forall x y z, leb x y = true -> leb y z = true -> leb x z = true) ->
  StronglySorted (fun x y => leb x y = true) l ->
  StronglySorted (fun x y => leb x y = true) (insertBy x l).
Proof.
  intros Htot Htr. induction 1 as [|y l Hs IH Hy]; simpl; [repeat constructor|].
  destruct (leb x y) eqn:E.
  - constructor; [by constructor|]. constructor; [done|].
    eapply Forall_impl; [exact Hy|]. eauto.
  - constructor; [done|]. rewrite insertBy_perm. constructor; [|done].
    destruct (Htot x y); congruence.
Qed.

Lemma orderBy_StronglySorted l :
  (forall x y, leb x y = true \/ leb y x = true) ->
  (forall x y z, leb x y = true -> leb y z = true -> leb x z = true) ->
  StronglySorted (fun x y => leb x y = true) (orderBy l).
Proof.
  intros Htot Htr. induction l as [|x l IH]; simpl; [constructor|].
  by apply insertBy_sorted.
Qed.

Lemma insertBy_map (f : A -> A) x l :
  (forall x y, leb (f x) (f y) = leb x y) ->
  insertBy (f x) (map f l) = map f (insertBy x l).
Proof.
  intros Hf. induction l as [|y l IH]; simpl; [done|].
  rewrite Hf, IH. by destruct (leb x y).
Qed.

Lemma orderBy_map (f : A -> A) l :
  (forall x y, leb (f x) (f y) = leb x y) -> orderBy (map f l) = map f (orderBy l).
Proof.
  intros Hf. induction l as [|x l IH]; simpl; [done|]. by rewrite IH, insertBy_map.
Qed.

(** Sorting when the new element belongs at the end. *)
Lemma orderBy_snoc l x :
  Forall (fun y => leb y x = true) l -> orderBy (l ++ [x]) = orderBy l ++ [x].
Proof.
  induction 1 as [|y l Hy _ IH]; simpl; [done|]. rewrite IH.
  generalize (orderBy l) as m. intros m.
  induction m as [|z m IHm]; simpl; [by rewrite Hy|].
  rewrite IHm. by destruct (leb y z).
Qed.
End OrderBy.

Lemma filter_map_same {A} (P : A -> Prop) `{forall x, Decision (P x)} (f : A -> A) l :
  (forall x, P (f x) <-> P x) -> filter P (map f l) = map f (filter P l).
Proof.
  intros Hf. induction l as [|x l IH]; simpl; [done|].
  destruct (decide (P x)) as [Hx|Hx].
  - rewrite !filter_cons_True by (rewrite ?Hf; done). simpl. by rewrite IH.
  - rewrite !filter_cons_False by (rewrite ?Hf; done). done.
Qed.

(** ** Strings *)

(** The string from position [n] on is [sub] followed by something. *)
Fixpoint startsWith (sub s : string) : bool :=
  match sub, s with
  | EmptyString, _ => true
  | String c sub, String d s => Ascii.eqb c d && startsWith sub s
  | _, _ => false
  end.

Fixpoint contains (sub s : string) : bool :=
  startsWith sub s || match s with EmptyString => false | String _ s => contains sub s end.

(** The case folding of a regular expression's [i] flag on ASCII letters. *)
Definition lower (c : Ascii.ascii) : Ascii.ascii :=
  let n := Ascii.nat_of_ascii c in
  if (Nat.leb 65 n && Nat.leb n 90)%nat then Ascii.ascii_of_nat (n + 32) else c.

Fixpoint toLower (s : string) : string :=
  match s with EmptyString => EmptyString | String c s => String (lower c) (toLower s) end.

(** [s.length]: the number of UTF-16 code units. A character has one, or two if its
    UTF-8 has four bytes; bytes other than the first of a character add nothing. *)
Definition utf16_units (c : Ascii.ascii) : nat :=
  match c with
  | Ascii.Ascii _ _ _ _ _ _ false true => 0
  | Ascii.Ascii _ _ _ _ true true true true => 2
  | _ => 1
  end.

Fixpoint js_length (s : string) : nat :=
  match s with EmptyString => 0 | String c s => utf16_units c + js_length s end.

Lemma js_length_app s t : js_length (String.append s t) = js_length s + js_length t.
Proof. induction s as [|c s IH]; [done|]. simpl. rewrite IH. lia. Qed.

(** The text is encoded in UTF-8 as far as lengths go: a first byte of four has three
    more. *)
Example js_length_samples :
  js_length "abc" = 3 /\ js_length "é" = 1 /\ js_length "😀" = 2.
Proof. done. Qed.

(** ** Numbers *)
Local Open Scope Z_scope.

Definition MAX_SAFE_INTEGER : Z := 9007199254740991.

(** [Number.isSafeInteger] on integral numbers. *)
Definition isSafeInteger (n : Z) : bool :=
  (- MAX_SAFE_INTEGER <=? n) && (n <=? MAX_SAFE_INTEGER).

(** The largest absolute time value of a [Date]; anything beyond is an
    invalid date, whose [getTime()] is [NaN]. *)
Definition MAX_DATE_MS : Z := 8640000000000000.

(** A [Date]: [None] is the invalid date. *)
Definition Date : Type := option Z.
Definition newDate (ms : Z) : Date :=
  if (- MAX_DATE_MS <=? ms) && (ms <=? MAX_DATE_MS) then Some ms else None.
Definition getTime (d : Date) : option Z := d.

(** PostgreSQL's four-byte [INTEGER]. *)
Definition INT4_MAX : Z := 2147483647.
Definition int4 (n : Z) : bool := (- INT4_MAX - 1 <=? n) && (n <=? INT4_MAX).

Lemma isSafeInteger_true n :
  isSafeInteger n = true <-> - MAX_SAFE_INTEGER <= n <= MAX_SAFE_INTEGER.
Proof. unfold isSafeInteger. rewrite andb_true_iff. lia. Qed.

Lemma isSafeInteger_false n :
  isSafeInteger n = false <-> n < - MAX_SAFE_INTEGER \/ MAX_SAFE_INTEGER < n.
Proof. unfold isSafeInteger. rewrite andb_false_iff. lia. Qed.

Lemma int4_true n : int4 n = true <-> - INT4_MAX - 1 <= n <= INT4_MAX.
Proof. unfold int4. rewrite andb_true_iff. lia. Qed.

Lemma includes_true {A} `{EqDecision A} (l : list A) x :
  includes l x = true <-> x ∈ l.
Proof. unfold includes. by rewrite bool_decide_eq_true. Qed.

Lemma includes_false {A} `{EqDecision A} (l : list A) x :
  includes l x = false <-> x ∉ l.
Proof. unfold includes. by rewrite bool_decide_eq_false. Qed.

Lemma isNull_true {A} (o : option A) : isNull o = true <-> o = None.
Proof. by destruct o. Qed.

Lemma isNull_false {A} (o : option A) : isNull o = false <-> is_Some o.
Proof. destruct o; simpl; split; intros; [done|done|done|by destruct H]. Qed.

(** ** Symbolic execution of the monads *)

Lemma result_bind_Ok {E A B} (m : result E A) (k : A -> result E B) b :
  (m ≫= k) = Ok b <-> exists a, m = Ok a /\ k a = Ok b.
Proof. destruct m; simpl; naive_solver. Qed.

Lemma tx_bind_Ok {S E A B} (m : tx S E A) (k : A -> tx S E B) s r :
  (m ≫= k) s = Ok r <-> exists a s', m s = Ok (a, s') /\ k a s' = Ok r.
Proof.
  unfold mbind, tx_bind. destruct (m s) as [[a s']|e] eqn:E1; naive_solver.
Qed.

Lemma tx_bind_eval {S E A B} (m : tx S E A) (k : A -> tx S E B) s a s' :
  m s = Ok (a, s') -> (m ≫= k) s = k a s'.
Proof. intros H. unfold mbind, tx_bind. by rewrite H. Qed.

(** Turns boolean guards of the context into propositions. *)
Ltac js_bool :=
  repeat match goal with
  | H : andb _ _ = true |- _ => apply andb_true_iff in H as [? ?]
  | H : andb _ _ = false |- _ => apply andb_false_iff in H
  | H : orb _ _ = false |- _ => apply orb_false_iff in H as [? ?]
  | H : orb _ _ = true |- _ => apply orb_true_iff in H
  | H : negb _ = true |- _ => apply negb_true_iff in H
  | H : negb _ = false |- _ => apply negb_false_iff in H
  | H : bool_decide _ = true |- _ => apply bool_decide_eq_true in H
  | H : bool_decide _ = false |- _ => apply bool_decide_eq_false in H
  | H : includes _ _ = true |- _ => apply includes_true in H
  | H : includes _ _ = false |- _ => apply includes_false in H
  | H : isNull _ = true |- _ => apply isNull_true in H
  | H : isNull _ = false |- _ => apply isNull_false in H as [? ?]
  | H : (_ <? _) = true |- _ => apply Z.ltb_lt in H
  | H : (_ <? _) = false |- _ => apply Z.ltb_ge in H
  | H : (_ <=? _) = true |- _ => apply Z.leb_le in H
  | H : (_ <=? _) = false |- _ => apply Z.leb_gt in H
  | H : (_ =? _) = true |- _ => apply Z.eqb_eq in H
  | H : (_ =? _) = false |- _ => apply Z.eqb_neq in H
  | H : isSafeInteger _ = true |- _ => apply isSafeInteger_true in H
  | H : isSafeInteger _ = false |- _ => apply isSafeInteger_false in H
  end.

(** One case split on the branch a hypothesis or the goal is blocked on. *)
Ltac js_step :=
  match goal with
  | H : context [match ?x with _ => _ end] |- _ =>
      first [ is_var x; destruct x | let E := fresh "E" in destruct x eqn:E ];
      simplify_eq/=
  | |- context [match ?x with _ => _ end] =>
      first [ is_var x; destruct x | let E := fresh "E" in destruct x eqn:E ];
      simplify_eq/=
  end.

(** Reduces the unit and throw of the monads, so that results of different
    shape can be told apart. *)
Ltac js_ret :=
  cbv [mret result_ret tx_ret tx_throw tx_read tx_write tx_lift] in *; simplify_eq/=.

Ltac js_cases := js_ret; repeat (js_step; try done); js_ret; js_bool.

Create HintDb cluchess.
