(* ===== verification/Text.v ===== *)
(** * Strings

    The string operations of the standard library the sources use: character
    classes and the regular expressions made of them, [split], [trim]
    and base64url. A string is its UTF-8 bytes. *)

From S2P Require Export Prelude.
From Stdlib Require Import Ascii DecimalString DecimalZ.
Local Open Scope char_scope.
Local Open Scope string_scope.
Local Open Scope list_scope.

Definition chars (s : string) : list ascii := String.list_ascii_of_string s.
Definition text (l : list ascii) : string := String.string_of_list_ascii l.

Lemma text_chars s : text (chars s) = s.
Proof. apply String.string_of_list_ascii_of_string. Qed.

Lemma chars_text l : chars (text l) = l.
Proof. apply String.list_ascii_of_string_of_list_ascii. Qed.

Lemma length_chars s : length (chars s) = String.length s.
Proof. induction s as [|c s IH]; [done|]. simpl. by f_equal. Qed.

Lemma length_text l : String.length (text l) = length l.
Proof. by rewrite <-length_chars, chars_text. Qed.

(** Numbers *)
Lemma to_int_norm n : Z.to_int n <> Decimal.Pos Decimal.Nil /\ Z.to_int n <> Decimal.Neg Decimal.Nil.
Proof.
  split; intros Hn; pose proof (DecimalZ.of_to n) as Ho; rewrite Hn in Ho; simpl in Ho; subst;
    discriminate Hn.
Qed.

Lemma int_of_string_of_int n : NilZero.int_of_string (NilZero.string_of_int (Z.to_int n)) = Some (Z.to_int n).
Proof. apply NilZero.isi; apply to_int_norm. Qed.

Lemma chars_app s t : chars (s +:+ t) = chars s ++ chars t.
Proof. induction s as [|c s IH]; [done|]. simpl. f_equal. exact IH. Qed.

Lemma length_str_app s t : String.length (s +:+ t) = (String.length s + String.length t)%nat.
Proof. by rewrite <-!length_chars, chars_app, length_app. Qed.

Lemma str_app_assoc (s t u : string) : s +:+ (t +:+ u) = (s +:+ t) +:+ u.
Proof. induction s as [|c s IH]; [done|]. exact (f_equal (String c) IH). Qed.

(** ** Character classes and patterns *)

Definition char_in (lo hi c : ascii) : bool :=
  (nat_of_ascii lo <=? nat_of_ascii c)%nat && (nat_of_ascii c <=? nat_of_ascii hi)%nat.
Definition is_char (d c : ascii) : bool := Ascii.eqb d c.
Definition digit : ascii -> bool := char_in "0" "9".
Definition lowercase (c : ascii) : bool := char_in "a" "z" c.
Definition uppercase (c : ascii) : bool := char_in "A" "Z" c.

(** [[0-9a-f]] with the flag [i] *)
Definition hex (c : ascii) : bool := digit c || char_in "A" "F" c || char_in "a" "f" c.

(** A pattern of one character class per character. *)
Fixpoint matches (classes : list (ascii -> bool)) (l : list ascii) : bool :=
  match classes, l with
  | [], [] => true
  | p :: classes, c :: l => p c && matches classes l
  | _, _ => false
  end.

(** The pattern of a UUID whose version is in a class, with the flag [i]. *)
Definition uuid_classes (version : ascii -> bool) : list (ascii -> bool) :=
  repeat hex 8 ++ [is_char "-"] ++ repeat hex 4 ++ [is_char "-"] ++
  version :: repeat hex 3 ++ [is_char "-"] ++
  (fun c => char_in "8" "9" c || char_in "A" "B" c || char_in "a" "b" c) :: repeat hex 3 ++
  [is_char "-"] ++ repeat hex 12.

(** ** Space *)

Definition is_space (c : ascii) : bool :=
  existsb (fun n => (nat_of_ascii c =? n)%nat) [9; 10; 11; 12; 13; 32; 160]%nat.
Fixpoint drop_spaces (l : list ascii) : list ascii :=
  match l with c :: l' => if is_space c then drop_spaces l' else l | [] => [] end.
Definition trim (s : string) : string :=
  text (rev (drop_spaces (rev (drop_spaces (chars s))))).

(** ** Suffixes *)

Definition endsWith (s suffix : string) : bool :=
  let l := chars s in
  let n := String.length suffix in
  (n <=? length l)%nat && bool_decide (drop (length l - n) l = chars suffix).

(** [basename] of a file name without a directory. *)
Definition basename (name extension : string) : string :=
  if endsWith name extension && negb (bool_decide (name = extension))
  then text (take (String.length name - String.length extension) (chars name)) else name.

(** ** Splitting *)

Fixpoint str_split (sep : ascii) (s : string) : list string :=
  match s with
  | EmptyString => [""]
  | String c s =>
      if is_char sep c then "" :: str_split sep s
      else match str_split sep s with
           | x :: l => String c x :: l
           | [] => [String c ""]
           end
  end.

Definition free_of (sep : ascii) (s : string) : bool := forallb (fun c => negb (is_char sep c)) (chars s).

Lemma str_split_free sep s : free_of sep s = true -> str_split sep s = [s].
Proof.
  induction s as [|c s IH]; [done|]. unfold free_of in *. simpl.
  intros [Hc Hs]%andb_true_iff. apply negb_true_iff in Hc. rewrite Hc. by rewrite IH.
Qed.

Lemma str_split_app sep s t :
  free_of sep s = true -> str_split sep (s +:+ String sep t) = s :: str_split sep t.
Proof.
  induction s as [|c s IH]; unfold free_of in *; simpl.
  - intros _. unfold is_char. by rewrite Ascii.eqb_refl.
  - intros [Hc Hs]%andb_true_iff. apply negb_true_iff in Hc. rewrite Hc. by rewrite IH.
Qed.

(** [parts.join(sep)] *)
Fixpoint str_join (sep : ascii) (parts : list string) : string :=
  match parts with
  | [] => ""
  | [x] => x
  | x :: parts => x +:+ String sep (str_join sep parts)
  end.

Lemma str_split_nonempty sep s : str_split sep s <> [].
Proof. destruct s as [|c s]; simpl; [done|]. destruct (is_char sep c), (str_split sep s); done. Qed.

Lemma str_join_split sep s : str_join sep (str_split sep s) = s.
Proof.
  induction s as [|c s IH]; [done|]. simpl. unfold is_char.
  pose proof (str_split_nonempty sep s). destruct (Ascii.eqb_spec sep c) as [<-|];
    destruct (str_split sep s) as [|x [|y l]]; simpl in *; by rewrite <-?IH.
Qed.

(** ** base64url *)

Definition sextet : Type := bool * bool * bool * bool * bool * bool.

Definition sextet_nat (s : sextet) : nat :=
  let '(a, b, c, d, e, f) := s in
  (Nat.b2n a * 32 + Nat.b2n b * 16 + Nat.b2n c * 8 + Nat.b2n d * 4 + Nat.b2n e * 2 + Nat.b2n f)%nat.

Definition alphabet : string := "ABCDEFGHIJKLMNOPQRSTUVWXYZabcdefghijklmnopqrstuvwxyz0123456789-_".

Definition encode_sextet (s : sextet) : ascii := default "A"%char (String.get (sextet_nat s) alphabet).

Definition all_sextets : list sextet :=
  let bools := [false; true] in
  a ← bools; b ← bools; c ← bools; d ← bools; e ← bools; f ← bools; [(a, b, c, d, e, f)].

Definition decode_char (c : ascii) : option sextet :=
  List.find (fun s => Ascii.eqb (encode_sextet s) c) all_sextets.

Fixpoint encode_bytes (l : list ascii) : list ascii :=
  match l with
  | Ascii a0 a1 a2 a3 a4 a5 a6 a7 :: Ascii b0 b1 b2 b3 b4 b5 b6 b7 ::
    Ascii c0 c1 c2 c3 c4 c5 c6 c7 :: l =>
      encode_sextet (a7, a6, a5, a4, a3, a2) :: encode_sextet (a1, a0, b7, b6, b5, b4) ::
      encode_sextet (b3, b2, b1, b0, c7, c6) :: encode_sextet (c5, c4, c3, c2, c1, c0) ::
      encode_bytes l
  | [Ascii a0 a1 a2 a3 a4 a5 a6 a7; Ascii b0 b1 b2 b3 b4 b5 b6 b7] =>
      [encode_sextet (a7, a6, a5, a4, a3, a2); encode_sextet (a1, a0, b7, b6, b5, b4);
       encode_sextet (b3, b2, b1, b0, false, false)]
  | [Ascii a0 a1 a2 a3 a4 a5 a6 a7] =>
      [encode_sextet (a7, a6, a5, a4, a3, a2); encode_sextet (a1, a0, false, false, false, false)]
  | [] => []
  end.

Fixpoint decode_sextets (l : list sextet) : list ascii :=
  match l with
  | (a7, a6, a5, a4, a3, a2) :: (a1, a0, b7, b6, b5, b4) ::
    (b3, b2, b1, b0, c7, c6) :: (c5, c4, c3, c2, c1, c0) :: l =>
      Ascii a0 a1 a2 a3 a4 a5 a6 a7 :: Ascii b0 b1 b2 b3 b4 b5 b6 b7 ::
      Ascii c0 c1 c2 c3 c4 c5 c6 c7 :: decode_sextets l
  | [(a7, a6, a5, a4, a3, a2); (a1, a0, b7, b6, b5, b4); (b3, b2, b1, b0, _, _)] =>
      [Ascii a0 a1 a2 a3 a4 a5 a6 a7; Ascii b0 b1 b2 b3 b4 b5 b6 b7]
  | [(a7, a6, a5, a4, a3, a2); (a1, a0, _, _, _, _)] => [Ascii a0 a1 a2 a3 a4 a5 a6 a7]
  | _ => []
  end.

(** [Buffer.from(s).toString('base64url')] *)
Definition base64url (s : string) : string := text (encode_bytes (chars s)).

(** [Buffer.from(s, 'base64url').toString()]; characters outside the alphabet are
    skipped. *)
Definition from_base64url (s : string) : string := text (decode_sextets (omap decode_char (chars s))).

(** [/^[A-Za-z0-9_-]+$/] *)
Definition base64url_char (c : ascii) : bool :=
  lowercase c || uppercase c || digit c || is_char "_" c || is_char "-" c.
Definition BASE64URL_PATTERN (s : string) : bool :=
  negb (bool_decide (s = "")) && forallb base64url_char (chars s).

Lemma decode_encode_sextet s : decode_char (encode_sextet s) = Some s.
Proof. by destruct s as [[[[[[] []] []] []] []] []]. Qed.

Lemma encode_sextet_char s : base64url_char (encode_sextet s) = true.
Proof. by destruct s as [[[[[[] []] []] []] []] []]. Qed.

(** Three bytes at a time. *)
Lemma bytes_ind (P : list ascii -> Prop) :
  P [] -> (forall a, P [a]) -> (forall a b, P [a; b]) ->
  (forall a b c l, P l -> P (a :: b :: c :: l)) -> forall l, P l.
Proof.
  intros H0 H1 H2 H3. fix IH 1. intros [|a [|b [|c l]]]; [exact H0|exact (H1 a)|exact (H2 a b)|].
  exact (H3 a b c l (IH l)).
Qed.

Lemma decode_encode_bytes l : decode_sextets (omap decode_char (encode_bytes l)) = l.
Proof.
  induction l as [|a|a b|a b c l IH] using bytes_ind; [done|..];
    destruct a as [a0 a1 a2 a3 a4 a5 a6 a7]; try destruct b as [b0 b1 b2 b3 b4 b5 b6 b7];
    try destruct c as [c0 c1 c2 c3 c4 c5 c6 c7]; cbn [encode_bytes omap list_omap];
    rewrite !decode_encode_sextet; cbn [decode_sextets]; by rewrite ?IH.
Qed.

Lemma encode_bytes_chars l : forallb base64url_char (encode_bytes l) = true.
Proof.
  induction l as [|a|a b|a b c l IH] using bytes_ind; [done|..];
    destruct a; try destruct b; try destruct c; cbn [encode_bytes forallb];
    rewrite !encode_sextet_char; simpl; done.
Qed.

(** What was encoded is read back. *)
Lemma from_base64url_base64url s : from_base64url (base64url s) = s.
Proof.
  unfold from_base64url, base64url. by rewrite chars_text, decode_encode_bytes, text_chars.
Qed.

Lemma base64url_units c : base64url_char c = true -> utf16_units c = 1%nat.
Proof. by destruct c as [[] [] [] [] [] [] [] []]. Qed.

Lemma js_length_base64url s : forallb base64url_char (chars s) = true -> js_length s = String.length s.
Proof.
  induction s as [|c s IH]; [done|]. simpl. intros [Hc Hs]%andb_true_iff.
  by rewrite base64url_units, IH.
Qed.

Lemma js_length_encoded s : js_length (base64url s) = String.length (base64url s).
Proof.
  apply js_length_base64url. unfold base64url. by rewrite chars_text, encode_bytes_chars.
Qed.

Lemma base64url_pattern s : s <> "" -> BASE64URL_PATTERN (base64url s) = true.
Proof.
  intros Hs. unfold BASE64URL_PATTERN, base64url. rewrite chars_text, encode_bytes_chars, andb_true_r.
  destruct s as [|c s]; [done|]. apply negb_true_iff, bool_decide_eq_false_2. simpl.
  destruct c, (chars s) as [|[] [|[] ?]]; done.
Qed.

Lemma base64url_free s : free_of "." (base64url s) = true.
Proof.
  unfold free_of, base64url. rewrite chars_text. apply forallb_forall. intros c Hc.
  pose proof (proj1 (forallb_forall _ _) (encode_bytes_chars (chars s)) c Hc) as H.
  apply negb_true_iff. unfold is_char. destruct (Ascii.eqb_spec "." c) as [<-|]; done.
Qed.
