(* ===== verification/GameTypes.v ===== *)
(** * Game vocabulary

    The types of [src/src/modules/game/domain/game.types.ts], the records of
    the repository ports under [game/application/ports/], and the errors of
    [game.errors.ts], [game-service.errors.ts], [chess.errors.ts] and
    [database-errors.ts].

    The TypeScript string unions become inductive types; a union member keeps
    its spelling. [toString] gives the string a value of the union is at run
    time, which is what the database columns hold. *)

From S2P Require Export Prelude.
Local Open Scope string_scope.
Local Open Scope Z_scope.

(** ** game.types.ts *)

Inductive GameStatus : Type :=
| CREATED | WAITING_FOR_PLAYERS | READY | IN_PROGRESS | RECONNECTING
| COMPLETED | ABANDONED | EXPIRED.

Inductive PlayerColor : Type := b | w.

Inductive GameResult : Type := black_win | draw | void | white_win.

Inductive BoardTermination : Type :=
| checkmate | fifty_move | insufficient_material | stalemate
| threefold_repetition.

Inductive GameTermination : Type :=
| abandonment
| board (t : BoardTermination)
| double_abandon
| no_show
| resignation
| timeout.

#[export] Instance GameStatus_eq_dec : EqDecision GameStatus.
Proof. solve_decision. Defined.
#[export] Instance PlayerColor_eq_dec : EqDecision PlayerColor.
Proof. solve_decision. Defined.
#[export] Instance GameResult_eq_dec : EqDecision GameResult.
Proof. solve_decision. Defined.
#[export] Instance BoardTermination_eq_dec : EqDecision BoardTermination.
Proof. solve_decision. Defined.
#[export] Instance GameTermination_eq_dec : EqDecision GameTermination.
Proof. solve_decision. Defined.

Definition GAME_STATUSES : list GameStatus :=
  [CREATED; WAITING_FOR_PLAYERS; READY; IN_PROGRESS; RECONNECTING; COMPLETED;
   ABANDONED; EXPIRED].

Definition oppositeColor (color : PlayerColor) : PlayerColor :=
  if decide (color = w) then b else w.

(** The strings the union members are. *)
Class ToString (A : Type) := toString : A -> string.

#[export] Instance GameStatus_toString : ToString GameStatus := fun s =>
  match s with
  | CREATED => "CREATED"
  | WAITING_FOR_PLAYERS => "WAITING_FOR_PLAYERS"
  | READY => "READY"
  | IN_PROGRESS => "IN_PROGRESS"
  | RECONNECTING => "RECONNECTING"
  | COMPLETED => "COMPLETED"
  | ABANDONED => "ABANDONED"
  | EXPIRED => "EXPIRED"
  end.

#[export] Instance PlayerColor_toString : ToString PlayerColor := fun c =>
  match c with b => "b" | w => "w" end.

#[export] Instance GameResult_toString : ToString GameResult := fun r =>
  match r with
  | black_win => "black_win" | draw => "draw" | void => "void"
  | white_win => "white_win"
  end.

#[export] Instance BoardTermination_toString : ToString BoardTermination := fun t =>
  match t with
  | checkmate => "checkmate"
  | fifty_move => "fifty_move"
  | insufficient_material => "insufficient_material"
  | stalemate => "stalemate"
  | threefold_repetition => "threefold_repetition"
  end.

#[export] Instance GameTermination_toString : ToString GameTermination := fun t =>
  match t with
  | abandonment => "abandonment"
  | board t => toString t
  | double_abandon => "double_abandon"
  | no_show => "no_show"
  | resignation => "resignation"
  | timeout => "timeout"
  end.

(** ** The colour a column or a JSON field holds

    [isColor] of the repositories: [value === 'b' || value === 'w'], a type
    guard that gives the value the type [PlayerColor]. *)
Definition isColor (value : string) : option PlayerColor :=
  if decide (value = "b") then Some b
  else if decide (value = "w") then Some w
  else None.

Lemma isColor_toString c : isColor (toString c) = Some c.
Proof. by destruct c. Qed.

Lemma isColor_Some s c : isColor s = Some c <-> s = toString c.
Proof.
  split; [|intros ->; apply isColor_toString].
  unfold isColor. repeat case_decide; naive_solver.
Qed.

Lemma oppositeColor_involutive c : oppositeColor (oppositeColor c) = c.
Proof. by destruct c. Qed.

Lemma oppositeColor_ne c : oppositeColor c <> c.
Proof. by destruct c. Qed.

Lemma GameStatus_toString_inj (s t : GameStatus) :
  toString s = toString t -> s = t.
Proof. destruct s, t; naive_solver. Qed.

(** The statuses of a game that is over, and of one that still holds the
    players' assignments. *)
Definition terminalStatuses : list GameStatus := [ABANDONED; COMPLETED; EXPIRED].
Definition activeStatuses : list GameStatus :=
  [CREATED; WAITING_FOR_PLAYERS; READY; IN_PROGRESS; RECONNECTING].

(** ** Errors *)

Inductive GameDomainErrorCode : Type :=
| ILLEGAL_GAME_TRANSITION | INVALID_CLOCK_STATE | INVALID_GAME_STATE
| INVALID_TERMINAL_EVENT.

Inductive GameServiceErrorCode : Type :=
| ALLOCATION_MISMATCH | CLOCK_EXPIRED | DEPENDENCY_UNAVAILABLE
| GAME_ALREADY_ENDED | GAME_NOT_FOUND | GAME_STATE_CORRUPT
| GAME_UNAVAILABLE | GUEST_ALREADY_IN_GAME | GUEST_NOT_ELIGIBLE
| IDEMPOTENCY_KEY_REUSED | ILLEGAL_MOVE | NOT_A_PLAYER | NOT_YOUR_TURN
| STALE_GAME_VERSION.

Inductive ResponseType : Type := move_rejected | server_error.

(** [GameServiceError], without its message text. *)
Record GameServiceError : Type := mkGameServiceError {
  gse_code : GameServiceErrorCode;
  gse_retryable : bool;
  gse_authoritativeVersion : option Z;
  gse_responseType : ResponseType
}.

Inductive ChessEngineErrorCode : Type :=
| CHESS_GAME_STATE_CORRUPT | CHESS_ILLEGAL_MOVE | CHESS_INVALID_INITIAL_POSITION.

Inductive DatabaseErrorKind : Type :=
| Constraint | Retryable | Unavailable | Unique | Unknown.

#[export] Instance GameServiceErrorCode_eq_dec : EqDecision GameServiceErrorCode.
Proof. solve_decision. Defined.
#[export] Instance DatabaseErrorKind_eq_dec : EqDecision DatabaseErrorKind.
Proof. solve_decision. Defined.
#[export] Instance ChessEngineErrorCode_eq_dec : EqDecision ChessEngineErrorCode.
Proof. solve_decision. Defined.

(** What a [catch] clause may see. The first four constructors are the
    program's own error classes; [ENative] is any other object, with the
    [code], [message] and [cause] properties it has; [EOther] is a thrown
    value that is not an object. *)
Inductive NativeKind : Type :=
| PrismaKnownRequest | PrismaInitialization | PlainObject.

Inductive exn : Type :=
| EGameDomain (code : GameDomainErrorCode)
| EGameService (error : GameServiceError)
| EChessEngine (code : ChessEngineErrorCode)
| EDatabase (kind : DatabaseErrorKind) (retryable : bool)
| ENative (kind : NativeKind) (code message : option string) (cause : exn)
| EOther.

(** ** game.repository.ts, gameplay.repository.ts, game-lifecycle.repository.ts *)

Record GameplayClock : Type := mkGameplayClock {
  gpc_blackMs : Z;
  gpc_observedAt : Z;
  gpc_running : option PlayerColor;
  gpc_whiteMs : Z
}.

Record AcceptedMove : Type := mkAcceptedMove {
  am_check : bool;
  am_clientMoveId : string;
  am_clocks : GameplayClock;
  am_fenAfter : string;
  am_gameId : string;
  am_gameVersion : Z;
  am_ply : Z;
  am_san : string;
  am_turn : PlayerColor;
  am_uci : string
}.

Record StartedGame : Type := mkStartedGame {
  sg_clocks : GameplayClock;
  sg_gameId : string;
  sg_gameVersion : Z;
  sg_initialFen : string
}.

Record EndedGame : Type := mkEndedGame {
  eg_clocks : GameplayClock;
  eg_finalFen : string;
  eg_gameId : string;
  eg_gameVersion : Z;
  eg_pgn : string;
  eg_result : GameResult;
  eg_termination : GameTermination
}.

Record MoveSubmission : Type := mkMoveSubmission {
  ms_accepted : AcceptedMove;
  ms_duplicate : bool;
  ms_ended : option EndedGame;
  ms_guestSessionIds : string * string;
  ms_started : option StartedGame
}.

Record TerminalSubmission : Type := mkTerminalSubmission {
  ts_duplicate : bool;
  ts_ended : EndedGame;
  ts_guestSessionIds : string * string
}.

Record PlayerDisconnected : Type := mkPlayerDisconnected {
  pd_color : PlayerColor;
  pd_gameId : string;
  pd_gameVersion : Z;
  pd_graceDeadline : Z
}.

Record PlayerReconnected : Type := mkPlayerReconnected {
  pr_color : PlayerColor;
  pr_gameId : string;
  pr_gameVersion : Z
}.

Record ResignGame : Type := mkResignGame {
  rg_eventId : string;
  rg_expectedVersion : Z;
  rg_gameId : string;
  rg_guestSessionId : string
}.

Record GraceState : Type := mkGraceState {
  gs_dueGuestSessionIds : list string;
  gs_guestSessionIds : string * string
}.

(** ** chess-engine.ts *)

Inductive PromotionPiece : Type := pb | pn | pq | pr.

#[export] Instance PromotionPiece_toString : ToString PromotionPiece := fun p =>
  match p with pb => "b" | pn => "n" | pq => "q" | pr => "r" end.

Record MoveInput : Type := mkMoveInput {
  mi_from : string;
  mi_promotion : option PromotionPiece;
  mi_to : string
}.

Record AppliedMove : Type := mkAppliedMove {
  ap_capture : bool;
  ap_check : bool;
  ap_color : PlayerColor;
  ap_fenAfter : string;
  ap_fenBefore : string;
  ap_plyNumber : Z;
  ap_san : string;
  ap_uci : string
}.

Inductive GameOver : Type :=
| NotOver
| Over (reason : BoardTermination) (winner : option PlayerColor).

Record EvaluateMoveInput : Type := mkEvaluateMoveInput {
  ei_expectedCurrentFen : string;
  ei_history : list string;
  ei_initialFen : string;
  ei_move : MoveInput
}.

Record MoveEvaluation : Type := mkMoveEvaluation {
  me_applied : AppliedMove;
  me_gameOver : GameOver;
  me_pgn : string
}.

Record ReplayedPosition : Type := mkReplayedPosition {
  rp_fen : string;
  rp_gameOver : GameOver;
  rp_pgn : string;
  rp_plyCount : Z;
  rp_turn : PlayerColor
}.

Record SubmitMove : Type := mkSubmitMove {
  sm_clientMoveId : string;
  sm_expectedVersion : Z;
  sm_gameId : string;
  sm_guestSessionId : string;
  sm_move : MoveInput
}.
