(* ===== verification/GameClock.v ===== *)
(** * The game clock

    [src/src/modules/game/domain/game-clock.ts]: one definition per function.
    Durations are integers; [isSafeInteger] is the test the code makes on
    them (a fractional or [NaN] duration, which that test also refuses, has no
    representation here). Dates may be invalid. *)

From S2P Require Export GameTypes.
Local Open Scope Z_scope.

Record GameClock : Type := mkGameClock {
  gc_blackMs : Z;
  gc_incrementMs : Z;
  gc_running : option PlayerColor;
  gc_turnStartedAt : option Date;
  gc_whiteMs : Z
}.

Record ClockView : Type := mkClockView {
  cv_blackMs : Z;
  cv_observedAt : Date;
  cv_running : option PlayerColor;
  cv_whiteMs : Z
}.

(** [ClockAdmission]; [PauseClockResult] has [Paused] in place of [Accepted]. *)
Inductive ClockAdmission : Type :=
| Accepted (clock : GameClock) (elapsedMs : Z)
| FlagFall (clock : GameClock) (elapsedMs : Z) (flagged : PlayerColor).

Inductive PauseClockResult : Type :=
| Paused (clock : GameClock) (elapsedMs : Z)
| PauseFlagFall (clock : GameClock) (elapsedMs : Z) (flagged : PlayerColor).

Notation invalidClock := (Err (EGameDomain INVALID_CLOCK_STATE)) (only parsing).

Definition assertDuration (value : Z) : result exn () :=
  if negb (isSafeInteger value) || (value <? 0) then invalidClock else mret ().

Definition assertPositiveDuration (value : Z) : result exn () :=
  _ ← assertDuration value;
  if value =? 0 then invalidClock else mret ().

(** [Number.isFinite(timestamp.getTime())]; the time value is handed on to
    the caller, which reads it through [getTime()] again in the source. *)
Definition assertTimestamp (timestamp : Date) : result exn Z :=
  match getTime timestamp with None => invalidClock | Some ms => mret ms end.

Definition assertClock (clock : GameClock) : result exn () :=
  _ ← assertDuration (gc_whiteMs clock);
  _ ← assertDuration (gc_blackMs clock);
  _ ← assertDuration (gc_incrementMs clock);
  let hasRunningColor := negb (isNull (gc_running clock)) in
  let hasStartedAt := negb (isNull (gc_turnStartedAt clock)) in
  if negb (eqb hasRunningColor hasStartedAt) then invalidClock else
  match gc_turnStartedAt clock with
  | None => mret ()
  | Some startedAt => _ ← assertTimestamp startedAt; mret ()
  end.

Definition checkedAdd (left right : Z) : result exn Z :=
  let sum := left + right in
  if negb (isSafeInteger sum) then invalidClock else mret sum.

Definition remainingFor (clock : GameClock) (color : PlayerColor) : Z :=
  if decide (color = w) then gc_whiteMs clock else gc_blackMs clock.

Definition withRemaining (clock : GameClock) (color : PlayerColor) (remainingMs : Z)
    : GameClock :=
  if decide (color = w)
  then mkGameClock (gc_blackMs clock) (gc_incrementMs clock) (gc_running clock)
         (gc_turnStartedAt clock) remainingMs
  else mkGameClock remainingMs (gc_incrementMs clock) (gc_running clock)
         (gc_turnStartedAt clock) (gc_whiteMs clock).

(** The object spread that replaces [running] and [turnStartedAt]. *)
Definition withTurn (clock : GameClock) (running : option PlayerColor)
    (turnStartedAt : option Date) : GameClock :=
  mkGameClock (gc_blackMs clock) (gc_incrementMs clock) running turnStartedAt
    (gc_whiteMs clock).

Definition requireRunning (clock : GameClock) : result exn PlayerColor :=
  _ ← assertClock clock;
  match gc_running clock with None => invalidClock | Some c => mret c end.

Definition elapsedAt (clock : GameClock) (observedAt : Date) : result exn Z :=
  observedMs ← assertTimestamp observedAt;
  match gc_turnStartedAt clock with
  | None => invalidClock
  | Some startedAt =>
      startedMs ← assertTimestamp startedAt;
      mret (Z.max 0 (observedMs - startedMs))
  end.

Definition flagFallClock (clock : GameClock) (flagged : PlayerColor) : GameClock :=
  withTurn (withRemaining clock flagged 0) None None.

(** ** The exported functions *)

Definition createGameClock (initialMs incrementMs : Z) : result exn GameClock :=
  _ ← assertPositiveDuration initialMs;
  _ ← assertDuration incrementMs;
  mret (mkGameClock initialMs incrementMs None None initialMs).

Definition resumeClock (clock : GameClock) (running : PlayerColor) (startedAt : Date)
    : result exn GameClock :=
  _ ← assertClock clock;
  startedMs ← assertTimestamp startedAt;
  if negb (isNull (gc_running clock)) || negb (isNull (gc_turnStartedAt clock))
  then invalidClock else
  if remainingFor clock running =? 0 then invalidClock else
  mret (withTurn clock (Some running) (Some (newDate startedMs))).

Definition pauseClock (clock : GameClock) (observedAt : Date)
    : result exn PauseClockResult :=
  running ← requireRunning clock;
  elapsedMs ← elapsedAt clock observedAt;
  let remaining := remainingFor clock running in
  if remaining <=? elapsedMs
  then mret (PauseFlagFall (flagFallClock clock running) elapsedMs running)
  else mret (Paused (withTurn (withRemaining clock running (remaining - elapsedMs))
                       None None) elapsedMs).

Definition admitMoveOnClock (clock : GameClock) (mover : PlayerColor)
    (serverReceivedAt : Date) : result exn ClockAdmission :=
  running ← requireRunning clock;
  if negb (bool_decide (running = mover)) then invalidClock else
  elapsedMs ← elapsedAt clock serverReceivedAt;
  let remaining := remainingFor clock mover in
  if remaining <=? elapsedMs
  then mret (FlagFall (flagFallClock clock mover) elapsedMs mover)
  else
    afterIncrement ← checkedAdd (remaining - elapsedMs) (gc_incrementMs clock);
    receivedMs ← assertTimestamp serverReceivedAt;
    mret (Accepted
            (withTurn (withRemaining clock mover afterIncrement)
               (Some (oppositeColor mover)) (Some (newDate receivedMs)))
            elapsedMs).

Definition checkFlagFall (clock : GameClock) (observedAt : Date)
    : result exn ClockAdmission :=
  running ← requireRunning clock;
  elapsedMs ← elapsedAt clock observedAt;
  if remainingFor clock running <=? elapsedMs
  then mret (FlagFall (flagFallClock clock running) elapsedMs running)
  else mret (Accepted clock elapsedMs).

Definition clockViewAt (clock : GameClock) (observedAt : Date) : result exn ClockView :=
  _ ← assertClock clock;
  observedMs ← assertTimestamp observedAt;
  match gc_running clock with
  | None =>
      mret (mkClockView (gc_blackMs clock) (newDate observedMs) None (gc_whiteMs clock))
  | Some running =>
      elapsedMs ← elapsedAt clock observedAt;
      let remaining := Z.max 0 (remainingFor clock running - elapsedMs) in
      let viewed := withRemaining clock running remaining in
      mret (mkClockView (gc_blackMs viewed) (newDate observedMs) (Some running)
              (gc_whiteMs viewed))
  end.

Definition clockDeadline (clock : GameClock) : result exn (option Date) :=
  _ ← assertClock clock;
  match gc_running clock, gc_turnStartedAt clock with
  | Some running, Some startedAt =>
      startedMs ← assertTimestamp startedAt;
      mret (Some (newDate (startedMs + remainingFor clock running)))
  | _, _ => mret None
  end.

(** * Theory of the clock *)

(** A well-formed clock: what [assertClock] accepts, with the start time a
    representable date. *)
Definition date_range (ms : Z) : Prop := - MAX_DATE_MS <= ms <= MAX_DATE_MS.

Definition clock_ok (c : GameClock) : Prop :=
  0 <= gc_whiteMs c <= MAX_SAFE_INTEGER /\
  0 <= gc_blackMs c <= MAX_SAFE_INTEGER /\
  0 <= gc_incrementMs c <= MAX_SAFE_INTEGER /\
  match gc_running c, gc_turnStartedAt c with
  | None, None => True
  | Some _, Some (Some ms) => date_range ms
  | _, _ => False
  end.

Lemma newDate_range ms : date_range ms -> newDate ms = Some ms.
Proof.
  unfold date_range, newDate. intros H.
  rewrite (proj2 (andb_true_iff _ _)); [done|]. rewrite !Z.leb_le. lia.
Qed.

Lemma assertDuration_Ok n :
  assertDuration n = Ok () <-> 0 <= n <= MAX_SAFE_INTEGER.
Proof.
  unfold assertDuration, MAX_SAFE_INTEGER. split.
  - intros H. js_cases. unfold MAX_SAFE_INTEGER in *. lia.
  - intros H. rewrite (proj2 (isSafeInteger_true n)) by (unfold MAX_SAFE_INTEGER; lia).
    simpl. by rewrite (proj2 (Z.ltb_ge n 0)) by lia.
Qed.

Lemma assertDuration_eval n :
  0 <= n <= MAX_SAFE_INTEGER -> assertDuration n = Ok ().
Proof. apply assertDuration_Ok. Qed.

Lemma assertClock_eval c : clock_ok c -> assertClock c = Ok ().
Proof.
  intros (Hw & Hb & Hi & Hr). unfold assertClock.
  rewrite !assertDuration_eval by done. simpl.
  destruct (gc_running c) as [r|], (gc_turnStartedAt c) as [[ms|]|]; naive_solver.
Qed.

(** [assertClock] rejects every clock that is not well formed, up to the
    range of the start time. *)
Lemma assertClock_Ok c :
  assertClock c = Ok () ->
  (forall ms, gc_turnStartedAt c = Some (Some ms) -> date_range ms) -> clock_ok c.
Proof.
  unfold assertClock, clock_ok. intros H Hd.
  apply result_bind_Ok in H as ([] & Hw%assertDuration_Ok & H).
  apply result_bind_Ok in H as ([] & Hb%assertDuration_Ok & H).
  apply result_bind_Ok in H as ([] & Hi%assertDuration_Ok & H).
  destruct (gc_running c), (gc_turnStartedAt c) as [[ms|]|]; simpl in *; naive_solver.
Qed.

Lemma remainingFor_range c color :
  clock_ok c -> 0 <= remainingFor c color <= MAX_SAFE_INTEGER.
Proof. intros (? & ? & _). unfold remainingFor. by case_decide. Qed.

Lemma remainingFor_withRemaining c color r :
  remainingFor (withRemaining c color r) color = r.
Proof. unfold remainingFor, withRemaining. by repeat case_decide. Qed.

Lemma remainingFor_withRemaining_ne c color color' r :
  color <> color' ->
  remainingFor (withRemaining c color r) color' = remainingFor c color'.
Proof. unfold remainingFor, withRemaining. by destruct color, color'. Qed.

Lemma remainingFor_withTurn c r s color :
  remainingFor (withTurn c r s) color = remainingFor c color.
Proof. done. Qed.

Lemma withRemaining_ok c color r rn st :
  clock_ok c -> 0 <= r <= MAX_SAFE_INTEGER ->
  match rn, st with
  | None, None => True | Some _, Some (Some ms) => date_range ms | _, _ => False
  end ->
  clock_ok (withTurn (withRemaining c color r) rn st).
Proof.
  intros (Hw & Hb & Hi & _) Hr Ht. unfold clock_ok, withRemaining.
  case_decide; simpl; auto.
Qed.

Lemma clocks_sum_withRemaining c color r rn st :
  gc_whiteMs (withTurn (withRemaining c color r) rn st) +
  gc_blackMs (withTurn (withRemaining c color r) rn st) =
  gc_whiteMs c + gc_blackMs c - remainingFor c color + r.
Proof. unfold remainingFor, withRemaining. case_decide; simpl; lia. Qed.

Lemma incrementMs_withRemaining c color r rn st :
  gc_incrementMs (withTurn (withRemaining c color r) rn st) = gc_incrementMs c.
Proof. unfold withRemaining. by case_decide. Qed.

(** The elapsed time a running clock charges at [t]. *)
Definition elapsed (s t : Z) : Z := Z.max 0 (t - s).

Section running.
Context (c : GameClock) (p : PlayerColor) (s : Z).
Hypothesis Hok : clock_ok c.
Hypothesis Hrun : gc_running c = Some p.
Hypothesis Hstart : gc_turnStartedAt c = Some (Some s).

Lemma requireRunning_eval : requireRunning c = Ok p.
Proof.
  unfold requireRunning. by rewrite (assertClock_eval _ Hok); simpl; rewrite Hrun.
Qed.

Lemma elapsedAt_eval t : elapsedAt c (Some t) = Ok (elapsed s t).
Proof. unfold elapsedAt. simpl. by rewrite Hstart. Qed.

Lemma start_range : date_range s.
Proof. destruct Hok as (_ & _ & _ & H). by rewrite Hrun, Hstart in H. Qed.

(** The three ways a move can meet the clock of the player to move. *)
Lemma admitMoveOnClock_eval t :
  date_range t ->
  admitMoveOnClock c p (Some t) =
    let e := elapsed s t in
    let rest := remainingFor c p - e + gc_incrementMs c in
    if remainingFor c p <=? e
    then Ok (FlagFall (withTurn (withRemaining c p 0) None None) e p)
    else if MAX_SAFE_INTEGER <? rest then Err (EGameDomain INVALID_CLOCK_STATE)
    else Ok (Accepted (withTurn (withRemaining c p rest)
                         (Some (oppositeColor p)) (Some (Some t))) e).
Proof.
  intros Ht. unfold admitMoveOnClock. rewrite requireRunning_eval. simpl.
  rewrite bool_decide_true by done. simpl. rewrite elapsedAt_eval. simpl.
  destruct (Z.leb_spec (remainingFor c p) (elapsed s t)); [done|].
  unfold checkedAdd.
  pose proof (remainingFor_range c p Hok). pose proof Hok as (_ & _ & ? & _).
  assert (0 <= elapsed s t) by (unfold elapsed; lia).
  destruct (Z.ltb_spec MAX_SAFE_INTEGER
              (remainingFor c p - elapsed s t + gc_incrementMs c)).
  - rewrite (proj2 (isSafeInteger_false _)) by lia. done.
  - rewrite (proj2 (isSafeInteger_true _)) by (unfold MAX_SAFE_INTEGER in *; lia).
    simpl. by rewrite newDate_range.
Qed.

Lemma checkFlagFall_eval t :
  checkFlagFall c (Some t) =
    if remainingFor c p <=? elapsed s t
    then Ok (FlagFall (flagFallClock c p) (elapsed s t) p)
    else Ok (Accepted c (elapsed s t)).
Proof.
  unfold checkFlagFall. rewrite requireRunning_eval. simpl.
  rewrite elapsedAt_eval. simpl. by case_match.
Qed.

Lemma pauseClock_eval t :
  pauseClock c (Some t) =
    if remainingFor c p <=? elapsed s t
    then Ok (PauseFlagFall (flagFallClock c p) (elapsed s t) p)
    else Ok (Paused (withTurn (withRemaining c p (remainingFor c p - elapsed s t))
                       None None) (elapsed s t)).
Proof.
  unfold pauseClock. rewrite requireRunning_eval. simpl.
  rewrite elapsedAt_eval. simpl. by case_match.
Qed.

Lemma clockViewAt_eval t :
  date_range t ->
  clockViewAt c (Some t) =
    let viewed := withRemaining c p (Z.max 0 (remainingFor c p - elapsed s t)) in
    Ok (mkClockView (gc_blackMs viewed) (Some t) (Some p) (gc_whiteMs viewed)).
Proof.
  intros Ht. unfold clockViewAt. rewrite (assertClock_eval _ Hok). simpl.
  rewrite Hrun, elapsedAt_eval. simpl. by rewrite newDate_range.
Qed.

Lemma clockDeadline_eval :
  clockDeadline c = Ok (Some (newDate (s + remainingFor c p))).
Proof.
  unfold clockDeadline. rewrite (assertClock_eval _ Hok). simpl.
  by rewrite Hrun, Hstart.
Qed.
End running.

#[export] Hint Resolve remainingFor_range assertClock_eval newDate_range : cluchess.

Definition admission_clock (a : ClockAdmission) : GameClock :=
  match a with Accepted c _ => c | FlagFall c _ _ => c end.
Definition pause_clock (r : PauseClockResult) : GameClock :=
  match r with Paused c _ => c | PauseFlagFall c _ _ => c end.

(** Case split a well-formed clock that turned out to be running. *)
Lemma clock_ok_running c p :
  clock_ok c -> gc_running c = Some p ->
  exists s, gc_turnStartedAt c = Some (Some s) /\ date_range s.
Proof.
  intros (_ & _ & _ & H) Hr. rewrite Hr in H.
  destruct (gc_turnStartedAt c) as [[s|]|]; naive_solver.
Qed.

Lemma requireRunning_Ok c p : requireRunning c = Ok p -> gc_running c = Some p.
Proof.
  unfold requireRunning. intros (? & _ & H)%result_bind_Ok.
  by destruct (gc_running c); inversion H.
Qed.

Lemma flagFallClock_ok c p : clock_ok c -> clock_ok (flagFallClock c p).
Proof. intros H. apply withRemaining_ok; [done| unfold MAX_SAFE_INTEGER; lia |done]. Qed.
#[export] Hint Resolve flagFallClock_ok : cluchess.

Lemma createGameClock_ok initialMs incrementMs c :
  createGameClock initialMs incrementMs = Ok c ->
  clock_ok c /\ 0 < initialMs /\ gc_running c = None /\
  forall p, remainingFor c p = initialMs.
Proof.
  unfold createGameClock, assertPositiveDuration.
  intros ([] & H1 & H)%result_bind_Ok.
  apply result_bind_Ok in H1 as ([] & Hd%assertDuration_Ok & H1).
  apply result_bind_Ok in H as ([] & Hi%assertDuration_Ok & H).
  simplify_eq/=. js_cases. unfold clock_ok. simpl.
  split_and!; try done; try lia. by intros [].
Qed.

Lemma resumeClock_ok c p s c' :
  clock_ok c -> date_range s -> resumeClock c p (Some s) = Ok c' ->
  gc_running c = None /\ remainingFor c p <> 0 /\
  c' = withTurn c (Some p) (Some (Some s)) /\ clock_ok c'.
Proof.
  intros Hok Hs. unfold resumeClock. rewrite assertClock_eval by done. simpl.
  intros H. js_cases. rewrite newDate_range by done.
  destruct Hok as (? & ? & ? & _). unfold clock_ok. simpl. split_and!; try done; lia.
Qed.

Lemma admitMoveOnClock_ok c p t a :
  clock_ok c -> date_range t -> admitMoveOnClock c p (Some t) = Ok a ->
  clock_ok (admission_clock a).
Proof.
  intros Hok Ht H.
  pose proof H as (r & Hr%requireRunning_Ok & H')%result_bind_Ok.
  case_bool_decide; simpl in H'; [|done]. subst r.
  destruct (clock_ok_running _ _ Hok Hr) as (s & Hs & Hsr).
  rewrite (admitMoveOnClock_eval c p s) in H by done. cbv zeta in H.
  case_match; simplify_eq/=; [by apply flagFallClock_ok|].
  case_match; simplify_eq/=. js_bool.
  pose proof (remainingFor_range c p Hok). pose proof Hok as (_ & _ & ? & _).
  apply withRemaining_ok; [done| unfold elapsed in *; lia |done].
Qed.

(** An accepted move leaves no clock below zero, whatever clock it started on. *)
Lemma admitMoveOnClock_nonneg c p t c' elapsedMs :
  admitMoveOnClock c p t = Ok (Accepted c' elapsedMs) ->
  0 <= gc_whiteMs c' /\ 0 <= gc_blackMs c' /\ 0 <= gc_incrementMs c.
Proof.
  unfold admitMoveOnClock, requireRunning, assertClock. intros H.
  apply result_bind_Ok in H as (r & Hr & H).
  apply result_bind_Ok in Hr as ([] & Ha & _).
  apply result_bind_Ok in Ha as ([] & Hw%assertDuration_Ok & Ha).
  apply result_bind_Ok in Ha as ([] & Hb%assertDuration_Ok & Ha).
  apply result_bind_Ok in Ha as ([] & Hi%assertDuration_Ok & _).
  case_bool_decide; simpl in H; [subst r|done].
  apply result_bind_Ok in H as (e & _ & H). case_match; [done|].
  apply result_bind_Ok in H as (n & Hn & H).
  apply result_bind_Ok in H as (ms & _ & H). js_ret.
  unfold checkedAdd in Hn. case_match; [done|]. js_ret. js_bool.
  unfold withTurn, withRemaining, remainingFor in *. case_decide; simpl; lia.
Qed.

Lemma checkFlagFall_ok c t a :
  clock_ok c -> checkFlagFall c (Some t) = Ok a -> clock_ok (admission_clock a).
Proof.
  intros Hok H.
  pose proof H as (p & Hr%requireRunning_Ok & _)%result_bind_Ok.
  destruct (clock_ok_running _ _ Hok Hr) as (s & Hs & _).
  rewrite (checkFlagFall_eval c p s) in H by done.
  case_match; simplify_eq/=; auto with cluchess.
Qed.

Lemma pauseClock_ok c t a :
  clock_ok c -> pauseClock c (Some t) = Ok a -> clock_ok (pause_clock a).
Proof.
  intros Hok H.
  pose proof H as (p & Hr%requireRunning_Ok & _)%result_bind_Ok.
  destruct (clock_ok_running _ _ Hok Hr) as (s & Hs & _).
  rewrite (pauseClock_eval c p s) in H by done.
  case_match; simplify_eq/=; auto with cluchess. js_bool.
  pose proof (remainingFor_range c p Hok).
  apply withRemaining_ok; [done| unfold elapsed in *; lia |done].
Qed.

(** C23: every operation on a game clock keeps it well formed: non-negative
    safe-integer times, and a start time exactly when a colour is running. A
    clock is created stopped, with the same positive time for both colours. *)
Theorem clock_operations_well_formed c :
  (forall initialMs incrementMs, createGameClock initialMs incrementMs = Ok c ->
     clock_ok c /\ gc_running c = None /\
     remainingFor c w = remainingFor c b /\ 0 < remainingFor c w) /\
  (clock_ok c -> forall t, date_range t ->
     (forall p c', resumeClock c p (Some t) = Ok c' -> clock_ok c') /\
     (forall p a, admitMoveOnClock c p (Some t) = Ok a -> clock_ok (admission_clock a)) /\
     (forall a, checkFlagFall c (Some t) = Ok a -> clock_ok (admission_clock a)) /\
     (forall a, pauseClock c (Some t) = Ok a -> clock_ok (pause_clock a))).
Proof.
  split.
  - intros i inc H. apply createGameClock_ok in H as (? & ? & ? & Hr). by rewrite !Hr.
  - intros Hok t Ht. split_and!; intros.
    + by eapply resumeClock_ok.
    + by eapply admitMoveOnClock_ok.
    + by eapply checkFlagFall_ok.
    + by eapply pauseClock_ok.
Qed.

Definition sample_clock : GameClock :=
  mkGameClock 180000 2000 (Some w) (Some (Some 1000)) 5000.

Lemma sample_clock_ok : clock_ok sample_clock.
Proof.
  unfold sample_clock, clock_ok, date_range, MAX_SAFE_INTEGER, MAX_DATE_MS. simpl. lia.
Qed.

Lemma clock_operations_well_formed_witness :
  (exists c, createGameClock 180000 2000 = Ok c /\ clock_ok c) /\
  (exists a, admitMoveOnClock sample_clock w (Some 4000) = Ok a /\
             clock_ok (admission_clock a)).
Proof.
  split.
  - eexists. split; [reflexivity|].
    apply (proj1 (clock_operations_well_formed _) 180000 2000). reflexivity.
  - eexists. split; [reflexivity|].
    apply (proj2 (clock_operations_well_formed sample_clock) sample_clock_ok 4000
             ltac:(unfold date_range, MAX_DATE_MS; lia) ) with (p := w).
    reflexivity.
Defined.

(** C22: the flag falls exactly at the deadline. For a running clock whose
    deadline is [clockDeadline], a move is refused for time, [pauseClock] and
    [checkFlagFall] report the flag and the live view shows no time left, all at the
    deadline or after it, and none of them before it. *)
Theorem flag_falls_exactly_at_deadline c p s d t :
  clock_ok c -> gc_running c = Some p -> gc_turnStartedAt c = Some (Some s) ->
  clockDeadline c = Ok (Some (Some d)) ->
  date_range t -> s <= t ->
  ((exists c' e, admitMoveOnClock c p (Some t) = Ok (FlagFall c' e p)) <-> d <= t) /\
  ((exists c' e, pauseClock c (Some t) = Ok (PauseFlagFall c' e p)) <-> d <= t) /\
  ((exists c' e, checkFlagFall c (Some t) = Ok (FlagFall c' e p)) <-> d <= t) /\
  (exists v, clockViewAt c (Some t) = Ok v /\
     (if decide (p = w) then cv_whiteMs v else cv_blackMs v) = Z.max 0 (d - t)).
Proof.
  intros Hok Hr Hs Hd Ht Hst. rewrite (clockDeadline_eval c p s) in Hd by done.
  assert (d = s + remainingFor c p) as ->.
  { unfold newDate in Hd. case_match; naive_solver. }
  rewrite (admitMoveOnClock_eval c p s), (pauseClock_eval c p s), (checkFlagFall_eval c p s),
    (clockViewAt_eval c p s) by done. cbv zeta.
  assert (Hle : (remainingFor c p <=? elapsed s t) = (s + remainingFor c p <=? t)).
  { unfold elapsed. apply eq_true_iff_eq. rewrite !Z.leb_le. lia. }
  rewrite Hle. split_and!.
  - split; intros H.
    + destruct H as (c' & e & H). case_match; js_bool; [lia|]. by case_match.
    + rewrite (proj2 (Z.leb_le _ _)) by lia. eauto.
  - split; intros H.
    + destruct H as (c' & e & H). case_match; js_bool; [lia|done].
    + rewrite (proj2 (Z.leb_le _ _)) by lia. eauto.
  - split; intros H.
    + destruct H as (c' & e & H). case_match; js_bool; [lia|done].
    + rewrite (proj2 (Z.leb_le _ _)) by lia. eauto.
  - eexists. split; [reflexivity|]. simpl.
    unfold remainingFor, withRemaining, elapsed in *. repeat case_decide; simpl; lia.
Qed.

Lemma flag_falls_exactly_at_deadline_witness :
  (exists c' e, admitMoveOnClock sample_clock w (Some 6000) = Ok (FlagFall c' e w)) /\
  ~ (exists c' e, admitMoveOnClock sample_clock w (Some 5999) = Ok (FlagFall c' e w)).
Proof.
  split.
  - apply (flag_falls_exactly_at_deadline sample_clock w 1000 6000 6000 sample_clock_ok);
      first [reflexivity | lia | unfold date_range, MAX_DATE_MS; lia].
  - rewrite (proj1 (flag_falls_exactly_at_deadline sample_clock w 1000 6000 5999
      sample_clock_ok eq_refl eq_refl eq_refl
      ltac:(unfold date_range, MAX_DATE_MS; lia) ltac:(lia))). lia.
Defined.

(** Pausing stops the charge. A clock paused at [t] and resumed for the
    same colour at [t'] has its deadline moved by exactly the length of the
    pause (when it does not start the pause with its flag already fallen), and
    the other colour's time is untouched. *)
Theorem pause_resume_shifts_deadline c p s t t' :
  clock_ok c -> gc_running c = Some p -> gc_turnStartedAt c = Some (Some s) ->
  s <= t < s + remainingFor c p -> date_range t -> date_range t' ->
  exists c1 e c2,
    pauseClock c (Some t) = Ok (Paused c1 e) /\
    gc_running c1 = None /\ e = t - s /\
    resumeClock c1 p (Some t') = Ok c2 /\
    clockDeadline c = Ok (Some (newDate (s + remainingFor c p))) /\
    clockDeadline c2 = Ok (Some (newDate (s + remainingFor c p + (t' - t)))) /\
    remainingFor c2 (oppositeColor p) = remainingFor c (oppositeColor p).
Proof.
  intros Hok Hr Hs Hst Ht Ht'.
  pose proof (remainingFor_range c p Hok) as Hrem.
  set (c1 := withTurn (withRemaining c p (remainingFor c p - (t - s))) None None).
  set (c2 := withTurn c1 (Some p) (Some (Some t'))).
  assert (He : elapsed s t = t - s) by (unfold elapsed; lia).
  assert (Hok1 : clock_ok c1) by (apply withRemaining_ok; [done|lia|done]).
  assert (Hrem1 : remainingFor c1 p = remainingFor c p - (t - s)).
  { unfold c1. by rewrite remainingFor_withTurn, remainingFor_withRemaining. }
  assert (Hok2 : clock_ok c2).
  { destruct Hok1 as (? & ? & ? & _). unfold clock_ok, c2. simpl. auto. }
  exists c1, (t - s), c2. split_and!.
  - rewrite (pauseClock_eval c p s), He by done.
    by rewrite (proj2 (Z.leb_gt _ _)) by lia.
  - done.
  - done.
  - unfold resumeClock. rewrite assertClock_eval by done. simpl.
    rewrite Hrem1, newDate_range by done. by rewrite (proj2 (Z.eqb_neq _ _)) by lia.
  - by apply clockDeadline_eval.
  - rewrite (clockDeadline_eval c2 p t') by done. do 3 f_equal. unfold c2.
    rewrite remainingFor_withTurn, Hrem1. lia.
  - unfold c2, c1. rewrite !remainingFor_withTurn.
    by apply remainingFor_withRemaining_ne, not_eq_sym, oppositeColor_ne.
Qed.

Lemma pause_resume_shifts_deadline_witness :
  exists c1 e c2, pauseClock sample_clock (Some 3000) = Ok (Paused c1 e) /\
    resumeClock c1 w (Some 10000) = Ok c2 /\
    clockDeadline c2 = Ok (Some (newDate 13000)).
Proof.
  destruct (pause_resume_shifts_deadline sample_clock w 1000 3000 10000 sample_clock_ok
    eq_refl eq_refl ltac:(change (remainingFor sample_clock w) with 5000; lia)
    ltac:(unfold date_range, MAX_DATE_MS; lia)
    ltac:(unfold date_range, MAX_DATE_MS; lia))
    as (c1 & e & c2 & H1 & _ & _ & H2 & _ & H3 & _).
  exists c1, e, c2. split; [exact H1|]. split; [exact H2|exact H3].
Defined.

(** A run of accepted moves: the mover is the running colour each time. *)
Fixpoint play_moves (c : GameClock) (ts : list Z) : result exn GameClock :=
  match ts with
  | [] => mret c
  | t :: ts =>
      p ← requireRunning c;
      a ← admitMoveOnClock c p (Some t);
      match a with
      | Accepted c' _ => play_moves c' ts
      | FlagFall _ _ _ => Err (EGameDomain ILLEGAL_GAME_TRANSITION)
      end
  end.

(** C21: time is conserved over any run of accepted moves played at
    non-decreasing server times: what both clocks hold at the end, plus the
    wall time the run took, is what they held at the start plus one increment
    per move. The colours alternate and the last move's time starts the next
    turn. *)
Theorem accepted_moves_conserve_time ts : forall c p s c',
  clock_ok c -> gc_running c = Some p -> gc_turnStartedAt c = Some (Some s) ->
  Forall date_range ts -> StronglySorted Z.le (s :: ts) ->
  play_moves c ts = Ok c' ->
  let finish := List.last ts s in
  gc_whiteMs c' + gc_blackMs c' + (finish - s) =
    gc_whiteMs c + gc_blackMs c + Z.of_nat (length ts) * gc_incrementMs c /\
  gc_turnStartedAt c' = Some (Some finish) /\
  gc_running c' = Some (if Nat.even (length ts) then p else oppositeColor p) /\
  clock_ok c'.
Proof.
  induction ts as [|t ts IH]; intros c p s c' Hok Hr Hs Hd Hsort H.
  { simplify_eq/=. js_ret. split_and!; try done. lia. }
  inversion Hd as [|? ? Ht Hd']; subst.
  apply StronglySorted_inv in Hsort as [Hsort Hle]. inversion Hle as [|? ? Hst _]; subst.
  simpl in H. rewrite (requireRunning_eval c p) in H by done. simpl in H.
  rewrite (admitMoveOnClock_eval c p s) in H by done. simpl in H.
  set (rest := remainingFor c p - elapsed s t + gc_incrementMs c) in *.
  destruct (Z.leb_spec (remainingFor c p) (elapsed s t)); [done|].
  destruct (Z.ltb_spec MAX_SAFE_INTEGER rest); [done|].
  pose proof (remainingFor_range c p Hok). pose proof Hok as (_ & _ & Hinc & _).
  assert (He : elapsed s t = t - s) by (unfold elapsed; lia).
  eapply (IH _ (oppositeColor p) t) in H as (Hsum & Hstart & Hrun & Hok');
    [|apply withRemaining_ok; [done|unfold rest in *; lia|done]|done|done|done|done].
  assert (Hlast : List.last ts t = List.last (t :: ts) s).
  { clear. destruct ts as [|u ts]; [done|]. simpl.
    revert u. induction ts as [|v ts IH]; [done|]. intros u. apply IH. }
  rewrite Hlast in Hsum, Hstart. cbv zeta. split_and!; try done.
  - rewrite clocks_sum_withRemaining, incrementMs_withRemaining in Hsum.
    unfold rest in Hsum. simpl length. lia.
  - rewrite Hrun. simpl length. rewrite Nat.even_succ, <- Nat.negb_even.
    by destruct (Nat.even (length ts)); simpl; rewrite ?oppositeColor_involutive.
Qed.

Lemma accepted_moves_conserve_time_witness :
  exists c', play_moves sample_clock [3000; 4000; 6500] = Ok c' /\
    gc_whiteMs c' + gc_blackMs c' + 5500 = 5000 + 180000 + 3 * 2000.
Proof.
  eexists. split; [reflexivity|].
  refine (proj1 (accepted_moves_conserve_time [3000; 4000; 6500] sample_clock w 1000 _
    sample_clock_ok eq_refl eq_refl _ _ eq_refl)).
  - repeat constructor; unfold MAX_DATE_MS; lia.
  - repeat constructor; lia.
Defined.
