(* ===== verification/TerminalResult.v ===== *)
(** * Terminal results

    [src/src/modules/game/domain/terminal-result.ts]: how the outcome of a
    game is derived from the event that ends it. *)

From S2P Require Export GameTypes.
Local Open Scope Z_scope.

Inductive TerminalStatus : Type := T_ABANDONED | T_COMPLETED | T_EXPIRED.

#[export] Instance TerminalStatus_eq_dec : EqDecision TerminalStatus.
Proof. solve_decision. Defined.

(** The terminal statuses are members of [GameStatus]. *)
Definition statusOf (s : TerminalStatus) : GameStatus :=
  match s with
  | T_ABANDONED => ABANDONED | T_COMPLETED => COMPLETED | T_EXPIRED => EXPIRED
  end.

Record TerminalOutcome : Type := mkTerminalOutcome {
  to_result : GameResult;
  to_status : TerminalStatus;
  to_termination : GameTermination;
  to_winner : option PlayerColor
}.

Inductive TerminalEvent : Type :=
| BOARD (reason : BoardTermination) (winner : option PlayerColor)
| RESIGNATION (loser : PlayerColor)
| TIMEOUT (loser : PlayerColor)
| ABANDONMENT (absent : list PlayerColor)
| NO_SHOW (joined : list PlayerColor).

Definition DRAW_TERMINATIONS : list BoardTermination :=
  [fifty_move; insufficient_material; stalemate; threefold_repetition].

Notation invalidTerminalEvent := (Err (EGameDomain INVALID_TERMINAL_EVENT)) (only parsing).

(** [[...new Set(colors)]]: the distinct colours, each at its first occurrence. *)
Fixpoint uniqueColors_from (seen colors : list PlayerColor) : list PlayerColor :=
  match colors with
  | [] => []
  | c :: cs =>
      if decide (c ∈ seen) then uniqueColors_from seen cs
      else c :: uniqueColors_from (seen ++ [c]) cs
  end.

Definition uniqueColors (colors : list PlayerColor) : list PlayerColor :=
  uniqueColors_from [] colors.

Definition winnerOutcome (winner : PlayerColor) (status : TerminalStatus)
    (termination : GameTermination) : TerminalOutcome :=
  mkTerminalOutcome (if decide (winner = w) then white_win else black_win) status
    termination (Some winner).

Definition deriveAbandonment (absentInput : list PlayerColor)
    : result exn TerminalOutcome :=
  let absent := uniqueColors absentInput in
  if decide (length absent = 2%nat)
  then mret (mkTerminalOutcome void T_ABANDONED double_abandon None)
  else match head absent with
       | None => invalidTerminalEvent
       | Some loser => mret (winnerOutcome (oppositeColor loser) T_ABANDONED abandonment)
       end.

Definition deriveBoardOutcome (reason : BoardTermination) (winner : option PlayerColor)
    : result exn TerminalOutcome :=
  if decide (reason = checkmate) then
    match winner with
    | None => invalidTerminalEvent
    | Some winner => mret (winnerOutcome winner T_COMPLETED (board reason))
    end
  else if negb (includes DRAW_TERMINATIONS reason) || negb (isNull winner)
  then invalidTerminalEvent
  else mret (mkTerminalOutcome draw T_COMPLETED (board reason) None).

Definition deriveNoShow (joinedInput : list PlayerColor) : result exn TerminalOutcome :=
  let joined := uniqueColors joinedInput in
  if decide (length joined = 0%nat)
  then mret (mkTerminalOutcome void T_EXPIRED no_show None)
  else
    let winner := if decide (length joined = 1%nat) then head joined else None in
    match winner with
    | None => invalidTerminalEvent
    | Some winner => mret (winnerOutcome winner T_EXPIRED no_show)
    end.

Definition deriveTerminalOutcome (event : TerminalEvent) : result exn TerminalOutcome :=
  match event with
  | BOARD reason winner => deriveBoardOutcome reason winner
  | RESIGNATION loser => mret (winnerOutcome (oppositeColor loser) T_COMPLETED resignation)
  | TIMEOUT loser => mret (winnerOutcome (oppositeColor loser) T_COMPLETED timeout)
  | ABANDONMENT absent => deriveAbandonment absent
  | NO_SHOW joined => deriveNoShow joined
  end.

(** * Theory *)

(** An outcome whose result, status, termination and winner agree: the table
    of frozen outcomes of ADR 0006. *)
Definition outcome_consistent (o : TerminalOutcome) : Prop :=
  match to_termination o with
  | board checkmate => to_status o = T_COMPLETED /\ is_Some (to_winner o)
  | board _ => to_status o = T_COMPLETED /\ to_winner o = None /\ to_result o = draw
  | resignation | timeout => to_status o = T_COMPLETED /\ is_Some (to_winner o)
  | abandonment => to_status o = T_ABANDONED /\ is_Some (to_winner o)
  | double_abandon =>
      to_status o = T_ABANDONED /\ to_winner o = None /\ to_result o = void
  | no_show =>
      to_status o = T_EXPIRED /\ (to_winner o = None -> to_result o = void)
  end /\
  (forall c, to_winner o = Some c -> to_result o = if decide (c = w) then white_win else black_win).

Lemma uniqueColors_from_spec colors : forall seen c,
  c ∈ uniqueColors_from seen colors <-> c ∈ colors /\ c ∉ seen.
Proof.
  induction colors as [|x xs IH]; intros seen c; simpl; [set_solver|].
  case_decide; rewrite ?elem_of_cons, !IH; destruct (decide (c = x)); set_solver.
Qed.

Lemma uniqueColors_elem c colors : c ∈ uniqueColors colors <-> c ∈ colors.
Proof. unfold uniqueColors. rewrite uniqueColors_from_spec. set_solver. Qed.

Lemma uniqueColors_from_NoDup colors : forall seen, NoDup (uniqueColors_from seen colors).
Proof.
  induction colors as [|x xs IH]; intros seen; simpl; [constructor|].
  case_decide; [done|]. constructor; [|done].
  rewrite uniqueColors_from_spec. set_solver.
Qed.

(** The set of distinct colours is empty, one colour, or both. *)
Lemma uniqueColors_cases colors :
  (uniqueColors colors = [] /\ w ∉ colors /\ b ∉ colors) \/
  (exists c, uniqueColors colors = [c] /\ c ∈ colors /\ oppositeColor c ∉ colors) \/
  (length (uniqueColors colors) = 2%nat /\ w ∈ colors /\ b ∈ colors).
Proof.
  pose proof (uniqueColors_from_NoDup colors []) as Hnd.
  pose proof (fun c => uniqueColors_elem c colors) as Hel.
  unfold uniqueColors in *. set (u := uniqueColors_from [] colors) in *.
  destruct u as [|x [|y [|z u]]].
  - left. rewrite <- !Hel. set_solver.
  - right; left. exists x. rewrite <- !Hel.
    split_and!; [done|set_solver|]. destruct x; set_solver.
  - right; right. rewrite <- !Hel. apply NoDup_cons in Hnd as [Hx _].
    destruct x, y; set_solver.
  - exfalso. apply NoDup_cons in Hnd as [Hx Hnd]. apply NoDup_cons in Hnd as [Hy _].
    destruct x, y, z; set_solver.
Qed.

(** The derived outcome is the one of the frozen-outcome table. Resignation
    and timeout are won by the opponent of the loser; one absent colour loses
    by abandonment and two make a void double abandonment; a no-show is won by
    the only colour that joined and void when nobody did; a board ending is a
    checkmate with its winner or a draw without one. *)
Theorem deriveTerminalOutcome_correct event o :
  deriveTerminalOutcome event = Ok o ->
  outcome_consistent o /\
  match event with
  | BOARD reason winner =>
      to_termination o = board reason /\ to_winner o = winner
  | RESIGNATION loser =>
      to_termination o = resignation /\ to_winner o = Some (oppositeColor loser)
  | TIMEOUT loser =>
      to_termination o = timeout /\ to_winner o = Some (oppositeColor loser)
  | ABANDONMENT absent =>
      (w ∈ absent /\ b ∈ absent /\ to_termination o = double_abandon) \/
      (exists c, c ∈ absent /\ oppositeColor c ∉ absent /\
         to_termination o = abandonment /\ to_winner o = Some (oppositeColor c))
  | NO_SHOW joined =>
      to_termination o = no_show /\
      match to_winner o with
      | None => w ∉ joined /\ b ∉ joined
      | Some c => c ∈ joined /\ oppositeColor c ∉ joined
      end
  end.
Proof.
  destruct event as [reason winner|loser|loser|absent|joined]; simpl; intros H.
  - unfold deriveBoardOutcome in H. unfold outcome_consistent.
    case_decide as Hr.
    + subst. destruct winner as [c|]; [js_ret|done].
      split_and!; simpl; eauto. by intros ? [= <-].
    + destruct winner as [c|]; [by rewrite orb_true_r in H|].
      destruct reason; simpl in H; js_ret; split_and!; try done; by intros ? [=].
  - js_ret. split; [|done]. split; [simpl; eauto|by intros ? [= <-]].
  - js_ret. split; [|done]. split; [simpl; eauto|by intros ? [= <-]].
  - unfold deriveAbandonment in H.
    destruct (uniqueColors_cases absent) as [(Hu & ? & ?)|[(c & Hu & ? & ?)|(Hl & ? & ?)]].
    + by rewrite Hu in H.
    + rewrite Hu in H. simpl in H. js_ret.
      split; [split; [simpl; eauto|by intros ? [= <-]]|].
      right. exists c. by split_and!.
    + rewrite decide_True in H by done. js_ret.
      split; [split; [done|by intros ? [=]]|]. by left.
  - unfold deriveNoShow in H.
    destruct (uniqueColors_cases joined) as [(Hu & ? & ?)|[(c & Hu & ? & ?)|(Hl & ? & ?)]].
    + rewrite Hu in H. simpl in H. js_ret. split; [split; [done|by intros ? [=]]|]. done.
    + rewrite Hu in H. simpl in H. js_ret.
      split; [split; [done|by intros ? [= <-]]|]. done.
    + by rewrite Hl in H.
Qed.

Lemma deriveTerminalOutcome_correct_witness :
  outcome_consistent (mkTerminalOutcome black_win T_ABANDONED abandonment (Some b)) /\
  deriveTerminalOutcome (ABANDONMENT [w; w]) =
    Ok (mkTerminalOutcome black_win T_ABANDONED abandonment (Some b)).
Proof.
  split; [|reflexivity].
  apply (deriveTerminalOutcome_correct (ABANDONMENT [w; w])). reflexivity.
Defined.

(** An outcome is refused exactly for the contradictory events: a checkmate
    without a winner, a draw with one, an abandonment in which nobody is absent
    and a no-show in which both players joined. *)
Theorem deriveTerminalOutcome_error event :
  (exists e, deriveTerminalOutcome event = Err e) <->
  match event with
  | BOARD reason winner => (reason = checkmate <-> winner = None)
  | RESIGNATION _ | TIMEOUT _ => False
  | ABANDONMENT absent => absent = []
  | NO_SHOW joined => w ∈ joined /\ b ∈ joined
  end.
Proof.
  destruct event as [reason winner|loser|loser|absent|joined]; simpl.
  - destruct reason, winner; split; intros H; try destruct H as [e H];
      simpl in *; try done; try by eexists.
    all: naive_solver.
  - split; [|done]. by intros [e H].
  - split; [|done]. by intros [e H].
  - unfold deriveAbandonment.
    destruct (uniqueColors_cases absent) as [(-> & ? & ?)|[(c & -> & ? & ?)|(Hl & ? & ?)]].
    + split; [|by eexists]. intros _. destruct absent as [|[] ?]; set_solver.
    + simpl. split; [by intros [e H']|]. set_solver.
    + rewrite decide_True by done. split; [by intros [e H']|]. set_solver.
  - unfold deriveNoShow.
    destruct (uniqueColors_cases joined) as [(-> & ? & ?)|[(c & -> & ? & ?)|(Hl & ? & ?)]].
    + simpl. split; [by intros [e H']|]. tauto.
    + simpl. split; [by intros [e H']|]. destruct c; simpl in *; tauto.
    + rewrite Hl. simpl. split; [done|by eexists].
Qed.

(** Abandonment and no-show succeed on the inputs the repositories give them. *)
Lemma deriveAbandonment_Ok absent :
  absent <> [] -> exists o, deriveAbandonment absent = Ok o.
Proof.
  intros H. destruct (deriveAbandonment absent) as [o|e] eqn:E; [eauto|].
  destruct H. unfold deriveAbandonment in E.
  destruct (uniqueColors_cases absent) as [(Hu & ? & ?)|[(c & Hu & ? & ?)|(Hl & ? & ?)]].
  - destruct absent as [|[] ?]; set_solver.
  - by rewrite Hu in E.
  - by rewrite decide_True in E.
Qed.

Lemma deriveNoShow_Ok joined :
  ~ (w ∈ joined /\ b ∈ joined) -> exists o, deriveNoShow joined = Ok o.
Proof.
  intros H. unfold deriveNoShow.
  destruct (uniqueColors_cases joined) as [(-> & ? & ?)|[(c & -> & ? & ?)|(Hl & ? & ?)]];
    [by eexists|by eexists|tauto].
Qed.

#[export] Hint Resolve deriveAbandonment_Ok deriveNoShow_Ok : cluchess.
