(* ===== verification/GameStateMachine.v ===== *)
(** * The lifecycle state machine

    [src/src/modules/game/domain/game-state-machine.ts]: the transition table
    and the guarded transition function. *)

From S2P Require Export TerminalResult.
Local Open Scope Z_scope.

Inductive GameTransition : Type :=
| ABANDON | ACCEPT_MOVE | ACCEPT_TERMINAL_MOVE | ALLOCATE | EXPIRE_NO_SHOW
| MARK_PLAYERS_READY | PLAYER_DISCONNECTED | PLAYER_RECONNECTED | RESIGN
| START | TIME_OUT.

#[export] Instance GameTransition_eq_dec : EqDecision GameTransition.
Proof. solve_decision. Defined.

Record GameTransitionInput : Type := mkGameTransitionInput {
  ti_outcome : option TerminalOutcome;
  ti_status : GameStatus;
  ti_transition : GameTransition;
  ti_version : Z
}.

Record GameTransitionResult : Type := mkGameTransitionResult {
  tr_outcome : option TerminalOutcome;
  tr_previousStatus : GameStatus;
  tr_previousVersion : Z;
  tr_status : GameStatus;
  tr_version : Z
}.

Record TransitionRule : Type := mkTransitionRule {
  rule_from : list GameStatus;
  rule_outcomeStatus : option TerminalStatus;
  rule_to : GameStatus;
  rule_versionDelta : Z
}.

Definition TRANSITION_RULES (t : GameTransition) : TransitionRule :=
  match t with
  | ABANDON =>
      mkTransitionRule [IN_PROGRESS; RECONNECTING] (Some T_ABANDONED) ABANDONED 1
  | ACCEPT_MOVE => mkTransitionRule [IN_PROGRESS] None IN_PROGRESS 1
  | ACCEPT_TERMINAL_MOVE =>
      mkTransitionRule [IN_PROGRESS] (Some T_COMPLETED) COMPLETED 1
  | ALLOCATE => mkTransitionRule [CREATED] None WAITING_FOR_PLAYERS 0
  | EXPIRE_NO_SHOW =>
      mkTransitionRule [WAITING_FOR_PLAYERS] (Some T_EXPIRED) EXPIRED 1
  | MARK_PLAYERS_READY => mkTransitionRule [WAITING_FOR_PLAYERS] None READY 1
  | PLAYER_DISCONNECTED =>
      mkTransitionRule [IN_PROGRESS; RECONNECTING] None RECONNECTING 1
  | PLAYER_RECONNECTED => mkTransitionRule [RECONNECTING] None IN_PROGRESS 1
  | RESIGN =>
      mkTransitionRule [IN_PROGRESS; RECONNECTING] (Some T_COMPLETED) COMPLETED 1
  | START => mkTransitionRule [READY] None IN_PROGRESS 1
  | TIME_OUT =>
      mkTransitionRule [IN_PROGRESS; RECONNECTING] (Some T_COMPLETED) COMPLETED 1
  end.

(** The last test of [validateOutcome]: the termination fits the transition. *)
Definition validTermination (transition : GameTransition) (termination : GameTermination)
    : bool :=
  (bool_decide (transition = ACCEPT_TERMINAL_MOVE) &&
     includes (board <$> [checkmate; fifty_move; insufficient_material; stalemate;
                          threefold_repetition]) termination)
  || (bool_decide (transition = RESIGN) && bool_decide (termination = resignation))
  || (bool_decide (transition = TIME_OUT) && bool_decide (termination = timeout))
  || (bool_decide (transition = EXPIRE_NO_SHOW) && bool_decide (termination = no_show))
  || (bool_decide (transition = ABANDON) &&
        includes [abandonment; double_abandon] termination).

Definition validateOutcome (outcome : option TerminalOutcome) (rule : TransitionRule)
    (transition : GameTransition) : result exn () :=
  match rule_outcomeStatus rule with
  | None =>
      if negb (isNull outcome) then Err (EGameDomain INVALID_GAME_STATE) else mret ()
  | Some outcomeStatus =>
      match outcome with
      | None => Err (EGameDomain INVALID_GAME_STATE)
      | Some o =>
          if negb (bool_decide (to_status o = outcomeStatus))
          then Err (EGameDomain INVALID_GAME_STATE)
          else if negb (validTermination transition (to_termination o))
          then Err (EGameDomain INVALID_GAME_STATE)
          else mret ()
      end
  end.

Definition transitionGame (input : GameTransitionInput)
    : result exn GameTransitionResult :=
  if negb (isSafeInteger (ti_version input)) || (ti_version input <? 0)
  then Err (EGameDomain INVALID_GAME_STATE) else
  let rule := TRANSITION_RULES (ti_transition input) in
  if negb (includes (rule_from rule) (ti_status input))
  then Err (EGameDomain ILLEGAL_GAME_TRANSITION) else
  _ ← validateOutcome (ti_outcome input) rule (ti_transition input);
  let version := ti_version input + rule_versionDelta rule in
  if negb (isSafeInteger version) then Err (EGameDomain INVALID_GAME_STATE) else
  mret (mkGameTransitionResult (ti_outcome input) (ti_status input)
          (ti_version input) (rule_to rule) version).

(** * Theory *)

(** The lifecycle as a relation on (status, version), one edge of the table
    per step: the abstract specification the repositories refine. *)
Record Lifecycle : Type := mkLifecycle { lc_status : GameStatus; lc_version : Z }.

Inductive lifecycle_step (s : Lifecycle) : GameTransition -> option TerminalOutcome ->
    Lifecycle -> Prop :=
| LifecycleStep t outcome r :
    transitionGame (mkGameTransitionInput outcome (lc_status s) t (lc_version s)) = Ok r ->
    lifecycle_step s t outcome (mkLifecycle (tr_status r) (tr_version r)).

Definition terminal (s : GameStatus) : bool := includes terminalStatuses s.

Lemma terminal_spec s :
  terminal s = true <-> s = ABANDONED \/ s = COMPLETED \/ s = EXPIRED.
Proof. unfold terminal. rewrite includes_true. unfold terminalStatuses. set_solver. Qed.

(** The edges of the table: from one of the rule's sources to its target,
    carrying an outcome exactly when the target is terminal. *)
Lemma transitionGame_Ok i r :
  transitionGame i = Ok r ->
  let rule := TRANSITION_RULES (ti_transition i) in
  0 <= ti_version i <= MAX_SAFE_INTEGER /\
  ti_status i ∈ rule_from rule /\
  tr_status r = rule_to rule /\
  tr_version r = ti_version i + rule_versionDelta rule /\
  tr_version r <= MAX_SAFE_INTEGER /\
  tr_outcome r = ti_outcome i /\ tr_previousStatus r = ti_status i /\
  tr_previousVersion r = ti_version i /\
  match ti_outcome i with
  | None => rule_outcomeStatus rule = None
  | Some o => rule_outcomeStatus rule = Some (to_status o) /\
              validTermination (ti_transition i) (to_termination o) = true
  end.
Proof.
  unfold transitionGame. intros H. case_match; [done|].
  case_match; [done|]. apply result_bind_Ok in H as ([] & Hv & H).
  case_match; [done|]. js_ret. js_bool. simpl.
  unfold validateOutcome in Hv. split_and!; try done; try lia.
  destruct (rule_outcomeStatus _), (ti_outcome i); js_cases; naive_solver.
Qed.

(** Converse: the guards are exactly these. *)
Lemma transitionGame_eval i :
  let rule := TRANSITION_RULES (ti_transition i) in
  0 <= ti_version i -> ti_version i + rule_versionDelta rule <= MAX_SAFE_INTEGER ->
  ti_status i ∈ rule_from rule ->
  match ti_outcome i with
  | None => rule_outcomeStatus rule = None
  | Some o => rule_outcomeStatus rule = Some (to_status o) /\
              validTermination (ti_transition i) (to_termination o) = true
  end ->
  transitionGame i = Ok (mkGameTransitionResult (ti_outcome i) (ti_status i)
    (ti_version i) (rule_to rule) (ti_version i + rule_versionDelta rule)).
Proof.
  cbv zeta. intros H0 Hmax Hin Ho. unfold transitionGame.
  assert (0 <= rule_versionDelta (TRANSITION_RULES (ti_transition i)) <= 1)
    by (by destruct (ti_transition i); simpl; lia).
  rewrite (proj2 (isSafeInteger_true (ti_version i))) by (unfold MAX_SAFE_INTEGER in *; lia).
  rewrite (proj2 (Z.ltb_ge _ _)) by lia. simpl.
  rewrite (proj2 (includes_true _ _)) by done. simpl.
  assert (validateOutcome (ti_outcome i) (TRANSITION_RULES (ti_transition i))
            (ti_transition i) = Ok ()) as ->.
  { unfold validateOutcome. destruct (ti_outcome i) as [o|].
    - destruct Ho as [-> Hv]. by rewrite bool_decide_true, Hv.
    - by rewrite Ho. }
  simpl. by rewrite (proj2 (isSafeInteger_true _)) by (unfold MAX_SAFE_INTEGER in *; lia).
Qed.

(** A finished game never moves again. From a terminal status every
    transition is refused as illegal, whatever its outcome and version. *)
Theorem terminal_status_is_final t outcome s v :
  terminal s = true -> 0 <= v <= MAX_SAFE_INTEGER ->
  transitionGame (mkGameTransitionInput outcome s t v) =
    Err (EGameDomain ILLEGAL_GAME_TRANSITION).
Proof.
  intros Hs Hv. unfold transitionGame. simpl.
  rewrite (proj2 (isSafeInteger_true v)) by (unfold MAX_SAFE_INTEGER in *; lia).
  rewrite (proj2 (Z.ltb_ge _ _)) by lia. simpl.
  apply terminal_spec in Hs as [-> | [-> | ->]]; by destruct t.
Qed.

Lemma terminal_status_is_final_witness :
  transitionGame (mkGameTransitionInput None COMPLETED ACCEPT_MOVE 7) =
    Err (EGameDomain ILLEGAL_GAME_TRANSITION).
Proof.
  apply terminal_status_is_final; [reflexivity | unfold MAX_SAFE_INTEGER; lia].
Defined.

(** What one lifecycle step can do. The version goes up by one, except for
    the allocation step, which keeps it; a step carries a terminal outcome
    exactly when it ends the game, the outcome's status is then the new
    status, and a game never returns to a status from before it was ready. *)
Theorem lifecycle_step_effect s t outcome s' :
  lifecycle_step s t outcome s' ->
  terminal (lc_status s) = false /\
  lc_version s' = lc_version s + (if decide (t = ALLOCATE) then 0 else 1) /\
  (terminal (lc_status s') = true <-> is_Some outcome) /\
  (forall o, outcome = Some o -> lc_status s' = statusOf (to_status o)) /\
  (lc_status s' ∈ [CREATED; WAITING_FOR_PLAYERS] -> lc_status s = CREATED) /\
  lc_status s' <> CREATED.
Proof.
  intros [t' o r H]. apply transitionGame_Ok in H. simpl in *.
  destruct H as (_ & Hin & Hst & Hv & _ & _ & _ & _ & Ho).
  rewrite Hst, Hv. destruct t'; simpl in *;
    repeat (apply elem_of_cons in Hin as [Hin|Hin]; [rewrite Hin|]);
    try (by apply not_elem_of_nil in Hin);
    destruct o as [o|]; try done; split_and!; try done; intros; simplify_eq; try set_solver;
    try (destruct Ho as [Ho _]; by injection Ho as <-).
Qed.

Lemma lifecycle_step_effect_witness :
  lc_version (mkLifecycle COMPLETED 8) = 7 + 1 /\
  lifecycle_step (mkLifecycle IN_PROGRESS 7) RESIGN
    (Some (winnerOutcome b T_COMPLETED resignation)) (mkLifecycle COMPLETED 8).
Proof.
  assert (H : lifecycle_step (mkLifecycle IN_PROGRESS 7) RESIGN
    (Some (winnerOutcome b T_COMPLETED resignation)) (mkLifecycle COMPLETED 8)).
  { apply (LifecycleStep (mkLifecycle IN_PROGRESS 7) RESIGN _
      (mkGameTransitionResult (Some (winnerOutcome b T_COMPLETED resignation))
         IN_PROGRESS 7 COMPLETED 8)). reflexivity. }
  split; [|exact H].
  exact (proj1 (proj2 (lifecycle_step_effect _ _ _ _ H))).
Defined.
