(* ===== verification/ChessEngine.v ===== *)
(** * The chess engine adapter

    [src/src/modules/chess/infrastructure/chessjs.engine.ts] behind the port
    [chess-engine.ts]. The rules of chess are the [chess.js] package, which is
    a parameter: [ChessJs] is the part of its interface the adapter calls, and
    [ChessJsLaws] what its documentation promises of it. *)

From S2P Require Export GameTypes.
Local Open Scope string_scope.
Local Open Scope Z_scope.

(** ** chess.js *)

(** The object literal [{ from, promotion?, to }] given to [chess.move]. *)
Record MoveObject : Type := mkMoveObject {
  mo_from : string;
  mo_promotion : option string;
  mo_to : string
}.

(** The [Move] that [chess.move] returns. *)
Record ChessMove : Type := mkChessMove {
  cm_color : PlayerColor;
  cm_from : string;
  cm_isCapture : bool;
  cm_isEnPassant : bool;
  cm_promotion : option string;
  cm_san : string;
  cm_to : string
}.

Class ChessJs : Type := {
  Chess : Type;
  DEFAULT_POSITION : string;
  validateFen : string -> bool;
  newChess : string -> option Chess;           (* [None]: the constructor throws *)
  chess_fen : Chess -> string;
  chess_turn : Chess -> PlayerColor;
  chess_get : Chess -> string -> option string; (* the type of the piece on a square *)
  chess_move : Chess -> MoveObject -> option (ChessMove * Chess); (* [None]: throws *)
  chess_isCheck : Chess -> bool;
  chess_isCheckmate : Chess -> bool;
  chess_isStalemate : Chess -> bool;
  chess_isInsufficientMaterial : Chess -> bool;
  chess_isThreefoldRepetition : Chess -> bool;
  chess_isDrawByFiftyMoves : Chess -> bool;
  chess_setHeader : Chess -> string -> string -> Chess;
  chess_pgn : Chess -> string
}.

(** ** Regular expressions of the adapter *)

Definition in_range (lo hi : Z) (c : Ascii.ascii) : bool :=
  (lo <=? Z.of_nat (Ascii.nat_of_ascii c)) && (Z.of_nat (Ascii.nat_of_ascii c) <=? hi).

Definition is_file : Ascii.ascii -> bool := in_range 97 104.  (* [a-h] *)
Definition is_rank : Ascii.ascii -> bool := in_range 49 56.   (* [1-8] *)

(** [/^[a-h][1-8]$/] *)
Definition SQUARE_PATTERN (s : string) : bool :=
  match s with
  | String f (String r EmptyString) => is_file f && is_rank r
  | _ => false
  end.

(** [[bnqr]] *)
Definition is_promotion (c : Ascii.ascii) : bool :=
  includes ["b"; "n"; "q"; "r"] (String c EmptyString).

(** [/^[a-h][1-8][a-h][1-8](?:[bnqr])?$/] *)
Definition UCI_PATTERN (s : string) : bool :=
  match s with
  | String f1 (String r1 (String f2 (String r2 rest))) =>
      is_file f1 && is_rank r1 && is_file f2 && is_rank r2 &&
      match rest with
      | EmptyString => true
      | String p EmptyString => is_promotion p
      | _ => false
      end
  | _ => false
  end.

(** [text[1] ?? ''] *)
Definition secondChar (s : string) : string :=
  match s with String _ (String c _) => String c EmptyString | _ => "" end.

Section engine.
Context `{ChessJs}.

Definition opposite (color : PlayerColor) : PlayerColor :=
  if decide (color = w) then b else w.

Definition createPosition (initialFen : string) : result exn Chess :=
  if negb (validateFen initialFen)
  then Err (EChessEngine CHESS_INVALID_INITIAL_POSITION)
  else match newChess initialFen with
       | None => Err (EChessEngine CHESS_INVALID_INITIAL_POSITION)
       | Some chess => mret chess
       end.

(** The move object for a persisted UCI string. *)
Definition historicalMove (uci : string) : MoveObject :=
  mkMoveObject (String.substring 0 2 uci)
    (if decide (String.length uci = 5%nat)
     then Some (String.substring 4 (String.length uci - 4) uci) else None)
    (String.substring 2 2 uci).

(** The body of the loop over the history. *)
Fixpoint replayMoves (chess : Chess) (history : list string) : result exn Chess :=
  match history with
  | [] => mret chess
  | uci :: history =>
      if negb (UCI_PATTERN uci) then Err (EChessEngine CHESS_GAME_STATE_CORRUPT) else
      match chess_move chess (historicalMove uci) with
      | None => Err (EChessEngine CHESS_GAME_STATE_CORRUPT)
      | Some (_, chess) => replayMoves chess history
      end
  end.

Definition replayHistory (initialFen : string) (history : list string)
    : result exn Chess :=
  chess ← createPosition initialFen;
  replayMoves chess history.

Definition getGameOver (chess : Chess) : GameOver :=
  if chess_isCheckmate chess then Over checkmate (Some (opposite (chess_turn chess)))
  else if chess_isStalemate chess then Over stalemate None
  else if chess_isInsufficientMaterial chess then Over insufficient_material None
  else if chess_isThreefoldRepetition chess then Over threefold_repetition None
  else if chess_isDrawByFiftyMoves chess then Over fifty_move None
  else NotOver.

Definition getPgn (chess : Chess) (gameOver : GameOver) : string :=
  let result :=
    match gameOver with
    | NotOver => "*"
    | Over _ None => "1/2-1/2"
    | Over _ (Some winner) => if decide (winner = w) then "1-0" else "0-1"
    end in
  chess_pgn (chess_setHeader chess "Result" result).

(** [`${move.from}${move.to}${move.promotion ?? ''}`] *)
Definition moveUci (m : ChessMove) : string :=
  cm_from m +:+ cm_to m +:+ default "" (cm_promotion m).

(** The guard on the promotion piece: a pawn stands on the source square and
    the target is on a back rank. *)
Definition promotionAllowed (chess : Chess) (proposal : MoveInput) : bool :=
  bool_decide (chess_get chess (mi_from proposal) = Some "p") &&
  includes ["1"; "8"] (secondChar (mi_to proposal)).

(** [applyProposal] returns the move without its [fenBefore], which
    [evaluateMove] fills in; here it is handed that string. *)
Definition applyProposal (chess : Chess) (proposal : MoveInput) (plyNumber : Z)
    (fenBefore : string) : result exn (AppliedMove * Chess) :=
  if negb (SQUARE_PATTERN (mi_from proposal)) || negb (SQUARE_PATTERN (mi_to proposal))
  then Err (EChessEngine CHESS_ILLEGAL_MOVE) else
  if negb (isNull (mi_promotion proposal)) && negb (promotionAllowed chess proposal)
  then Err (EChessEngine CHESS_ILLEGAL_MOVE) else
  match chess_move chess
          (mkMoveObject (mi_from proposal) (toString <$> mi_promotion proposal)
             (mi_to proposal)) with
  | None => Err (EChessEngine CHESS_ILLEGAL_MOVE)
  | Some (move, chess) =>
      mret (mkAppliedMove
              (cm_isCapture move || cm_isEnPassant move)
              (chess_isCheck chess) (cm_color move) (chess_fen chess) fenBefore
              plyNumber (cm_san move) (moveUci move), chess)
  end.

Definition replay (initialFen : string) (history : list string)
    : result exn ReplayedPosition :=
  chess ← replayHistory initialFen history;
  let gameOver := getGameOver chess in
  mret (mkReplayedPosition (chess_fen chess) gameOver (getPgn chess gameOver)
          (Z.of_nat (length history)) (chess_turn chess)).

Definition newGame : result exn ReplayedPosition := replay DEFAULT_POSITION [].

Definition evaluateMove (input : EvaluateMoveInput) : result exn MoveEvaluation :=
  chess ← replayHistory (ei_initialFen input) (ei_history input);
  let replayedFen := chess_fen chess in
  if negb (bool_decide (replayedFen = ei_expectedCurrentFen input))
  then Err (EChessEngine CHESS_GAME_STATE_CORRUPT) else
  '(applied, chess) ← applyProposal chess (ei_move input)
                        (Z.of_nat (length (ei_history input)) + 1) replayedFen;
  let gameOver := getGameOver chess in
  mret (mkMoveEvaluation applied gameOver (getPgn chess gameOver)).
End engine.

(** What the documentation of chess.js promises about [chess.move]: the move
    is made by the side to move and passes the turn; its [from] and [to] are
    squares and its [promotion], if any, one of the four pieces; and giving
    those three fields back to [chess.move] makes the same move. *)
Class ChessJsLaws `{ChessJs} : Prop := {
  move_color : forall c m mv c', chess_move c m = Some (mv, c') -> cm_color mv = chess_turn c;
  move_turn : forall c m mv c',
    chess_move c m = Some (mv, c') -> chess_turn c' = oppositeColor (chess_turn c);
  move_squares : forall c m mv c', chess_move c m = Some (mv, c') ->
    SQUARE_PATTERN (cm_from mv) = true /\ SQUARE_PATTERN (cm_to mv) = true;
  move_promotion : forall c m mv c' p, chess_move c m = Some (mv, c') ->
    cm_promotion mv = Some p -> p ∈ ["b"; "n"; "q"; "r"];
  move_again : forall c m mv c', chess_move c m = Some (mv, c') ->
    chess_move c (mkMoveObject (cm_from mv) (cm_promotion mv) (cm_to mv)) = Some (mv, c')
}.

(** * Theory *)

Lemma opposite_oppositeColor c : opposite c = oppositeColor c.
Proof. done. Qed.

Lemma SQUARE_PATTERN_inv s :
  SQUARE_PATTERN s = true ->
  exists f r, s = String f (String r EmptyString) /\ is_file f = true /\ is_rank r = true.
Proof.
  destruct s as [|f [|r [|x s]]]; try done. intros H%andb_true_iff. eauto.
Qed.

(** The UCI string of a move chess.js made is a UCI string, and the replay
    takes it apart into the fields it was made of. *)
Lemma moveUci_replays `{ChessJs} mv :
  SQUARE_PATTERN (cm_from mv) = true -> SQUARE_PATTERN (cm_to mv) = true ->
  (forall p, cm_promotion mv = Some p -> p ∈ ["b"; "n"; "q"; "r"]) ->
  UCI_PATTERN (moveUci mv) = true /\
  historicalMove (moveUci mv) = mkMoveObject (cm_from mv) (cm_promotion mv) (cm_to mv).
Proof.
  intros (f1 & r1 & Hf & Hf1 & Hr1)%SQUARE_PATTERN_inv
         (f2 & r2 & Ht & Hf2 & Hr2)%SQUARE_PATTERN_inv Hp.
  unfold moveUci. rewrite Hf, Ht.
  destruct (cm_promotion mv) as [p|] eqn:E; simpl.
  - specialize (Hp p eq_refl).
    rewrite Hf1, Hr1, Hf2, Hr2.
    repeat (apply elem_of_cons in Hp as [Hp|Hp]; [by rewrite Hp|]).
    by apply not_elem_of_nil in Hp.
  - by rewrite Hf1, Hr1, Hf2, Hr2.
Qed.

Section theory.
Context `{ChessJsLaws}.

Lemma replayMoves_app history history' : forall chess,
  replayMoves chess (history ++ history') =
    (chess' ← replayMoves chess history; replayMoves chess' history').
Proof.
  induction history as [|uci history IH]; intros chess; simpl; [done|].
  case_match; [done|]. destruct (chess_move _ _) as [[mv c]|]; [apply IH|done].
Qed.

Lemma replayMoves_corrupt history : forall chess e,
  replayMoves chess history = Err e -> e = EChessEngine CHESS_GAME_STATE_CORRUPT.
Proof.
  induction history as [|uci history IH]; intros chess e; simpl; [done|].
  intros Hr. case_match; [by simplify_eq|].
  destruct (chess_move _ _) as [[mv c]|]; [eauto|by simplify_eq].
Qed.

Lemma applyProposal_Ok chess proposal ply fenBefore a chess' :
  applyProposal chess proposal ply fenBefore = Ok (a, chess') ->
  exists mv,
    chess_move chess (mkMoveObject (mi_from proposal)
       (toString <$> mi_promotion proposal) (mi_to proposal)) = Some (mv, chess') /\
    a = mkAppliedMove (cm_isCapture mv || cm_isEnPassant mv) (chess_isCheck chess')
          (cm_color mv) (chess_fen chess') fenBefore ply (cm_san mv) (moveUci mv) /\
    SQUARE_PATTERN (mi_from proposal) = true /\
    SQUARE_PATTERN (mi_to proposal) = true /\
    (mi_promotion proposal <> None -> promotionAllowed chess proposal = true).
Proof.
  unfold applyProposal. intros Ha.
  destruct (SQUARE_PATTERN (mi_from proposal)), (SQUARE_PATTERN (mi_to proposal));
    try done. simpl in Ha.
  destruct (mi_promotion proposal) as [p|] eqn:Ep; simpl in *.
  - destruct (promotionAllowed chess proposal); [|done]. simpl in Ha.
    destruct (chess_move _ _) as [[mv c]|] eqn:Em; js_ret. eauto 10.
  - destruct (chess_move _ _) as [[mv c]|] eqn:Em; js_ret. eauto 10.
Qed.

Lemma applyProposal_Err chess proposal ply fenBefore e :
  applyProposal chess proposal ply fenBefore = Err e ->
  e = EChessEngine CHESS_ILLEGAL_MOVE.
Proof. unfold applyProposal. intros Ha. js_cases; naive_solver. Qed.

Lemma evaluateMove_inv input ev :
  evaluateMove input = Ok ev ->
  let a := me_applied ev in
  exists chess chess',
    replayHistory (ei_initialFen input) (ei_history input) = Ok chess /\
    chess_fen chess = ei_expectedCurrentFen input /\ chess_turn chess = ap_color a /\
    replayHistory (ei_initialFen input) (ei_history input ++ [ap_uci a]) = Ok chess' /\
    chess_fen chess' = ap_fenAfter a /\ chess_turn chess' = oppositeColor (ap_color a) /\
    me_gameOver ev = getGameOver chess' /\ me_pgn ev = getPgn chess' (getGameOver chess') /\
    ap_plyNumber a = Z.of_nat (length (ei_history input)) + 1 /\
    ap_fenBefore a = ei_expectedCurrentFen input /\ UCI_PATTERN (ap_uci a) = true.
Proof.
  unfold evaluateMove, replayHistory.
  intros (chess & Hc & He)%result_bind_Ok.
  apply result_bind_Ok in Hc as (chess0 & Hp & Hc).
  case_bool_decide as Hf; simpl in He; [|done].
  apply result_bind_Ok in He as ([a chess'] & Ha & He). js_ret.
  apply applyProposal_Ok in Ha as (mv & Hm & -> & _).
  exists chess, chess'. rewrite Hp. simpl. rewrite Hc, replayMoves_app, Hc. simpl.
  destruct (move_squares _ _ _ _ Hm) as [Hsf Hst].
  destruct (moveUci_replays mv Hsf Hst (fun p => move_promotion _ _ _ _ p Hm)) as [-> ->].
  rewrite (move_again _ _ _ _ Hm). simpl.
  rewrite (move_color _ _ _ _ Hm), (move_turn _ _ _ _ Hm). done.
Qed.

Lemma getGameOver_cases chess :
  match getGameOver chess with
  | NotOver => True
  | Over checkmate winner => winner = Some (opposite (chess_turn chess))
  | Over _ winner => winner = None
  end.
Proof. unfold getGameOver. by repeat case_match; simplify_eq. Qed.

(** C24: evaluating a move and replaying the game with that move appended agree.
    When a proposal is accepted, the history before it replays to the expected
    position, and the history with the accepted move's UCI string appended
    replays to the position, the terminal status, the PGN, the ply count and
    the turn the evaluation reported: what a later request will compare its
    persisted state against. *)
Theorem evaluateMove_agrees_with_replay input ev :
  evaluateMove input = Ok ev ->
  let a := me_applied ev in
  (exists r, replay (ei_initialFen input) (ei_history input) = Ok r /\
     rp_fen r = ei_expectedCurrentFen input /\ rp_turn r = ap_color a) /\
  ap_fenBefore a = ei_expectedCurrentFen input /\
  UCI_PATTERN (ap_uci a) = true /\
  replay (ei_initialFen input) (ei_history input ++ [ap_uci a]) =
    Ok (mkReplayedPosition (ap_fenAfter a) (me_gameOver ev) (me_pgn ev)
          (ap_plyNumber a) (oppositeColor (ap_color a))).
Proof.
  intros (chess & chess' & Hc & Hf & Ht & Hc' & Hf' & Ht' & Hg & Hp & Hply & Hb & Hu)
    %evaluateMove_inv.
  simpl. unfold replay. rewrite Hc, Hc'. simpl. split_and!; try done.
  - eexists. split_and!; done.
  - rewrite Hf', Ht', Hg, Hp, Hply, length_app. simpl. do 2 f_equal. lia.
Qed.

(** Who is to blame for a refused move. An illegal-move error is reported
    only when the persisted history replays to the persisted position, so it is
    the proposal that is wrong; an invalid starting position and a history
    that does not replay, or does not reach the persisted position, are
    reported as such whatever the proposal was. *)
Theorem evaluateMove_error_classification input e :
  evaluateMove input = Err e ->
  match replayHistory (ei_initialFen input) (ei_history input) with
  | Err e' => e = e' /\
      (createPosition (ei_initialFen input) = Err (EChessEngine CHESS_INVALID_INITIAL_POSITION) /\
         e = EChessEngine CHESS_INVALID_INITIAL_POSITION \/
       is_ok (createPosition (ei_initialFen input)) = true /\
         e = EChessEngine CHESS_GAME_STATE_CORRUPT)
  | Ok chess =>
      if decide (chess_fen chess = ei_expectedCurrentFen input)
      then e = EChessEngine CHESS_ILLEGAL_MOVE
      else e = EChessEngine CHESS_GAME_STATE_CORRUPT
  end.
Proof.
  unfold evaluateMove. intros He.
  destruct (replayHistory _ _) as [chess|e'] eqn:Er; simpl in He.
  - case_bool_decide as Hf; simpl in He.
    + rewrite decide_True by done.
      destruct (applyProposal _ _ _ _) as [[a c]|e'] eqn:Ea; simpl in He; simplify_eq.
      by eapply applyProposal_Err.
    + rewrite decide_False by done. by simplify_eq.
  - simplify_eq. split; [done|]. unfold replayHistory in Er.
    destruct (createPosition _) as [c|e'] eqn:Ec; simpl in Er.
    + right. split; [done|]. by eapply replayMoves_corrupt.
    + left. unfold createPosition in Ec. js_cases; naive_solver.
Qed.
End theory.

(** ** A small instance, for the witnesses

    A board game that accepts every move between two squares: enough to run
    the adapter. The position is the moves played so far; two of them in a row
    of the same text are a checkmate. *)
Module SampleChess.
Record position : Type := mkPosition { pos_turn : PlayerColor; pos_moves : list string }.

Definition render (p : position) : string :=
  String.concat " " ("start" :: pos_moves p).

Definition promotion_ok (p : option string) : bool :=
  match p with None => true | Some p => includes ["b"; "n"; "q"; "r"] p end.

Definition step (p : position) (m : MoveObject) : option (ChessMove * position) :=
  if SQUARE_PATTERN (mo_from m) && SQUARE_PATTERN (mo_to m) && promotion_ok (mo_promotion m)
  then
    let mv := mkChessMove (pos_turn p) (mo_from m) false false (mo_promotion m)
                (mo_to m) (mo_to m) in
    Some (mv, mkPosition (oppositeColor (pos_turn p))
                (pos_moves p ++ [mo_from m +:+ mo_to m +:+ default "" (mo_promotion m)]))
  else None.

Definition mated (p : position) : bool :=
  match rev (pos_moves p) with m1 :: m2 :: _ => bool_decide (m1 = m2) | _ => false end.

Definition sample : ChessJs := {|
  Chess := position;
  DEFAULT_POSITION := "start";
  validateFen s := bool_decide (s = "start");
  newChess s := Some (mkPosition w []);
  chess_fen := render;
  chess_turn := pos_turn;
  chess_get _ _ := Some "p";
  chess_move := step;
  chess_isCheck _ := false;
  chess_isCheckmate := mated;
  chess_isStalemate _ := false;
  chess_isInsufficientMaterial _ := false;
  chess_isThreefoldRepetition _ := false;
  chess_isDrawByFiftyMoves _ := false;
  chess_setHeader p _ _ := p;
  chess_pgn := render
|}.

Lemma step_inv p m mv p' :
  step p m = Some (mv, p') ->
  SQUARE_PATTERN (mo_from m) = true /\ SQUARE_PATTERN (mo_to m) = true /\
  promotion_ok (mo_promotion m) = true /\
  mv = mkChessMove (pos_turn p) (mo_from m) false false (mo_promotion m) (mo_to m) (mo_to m) /\
  pos_turn p' = oppositeColor (pos_turn p).
Proof. unfold step. intros. case_match; [|done]. js_bool. by simplify_eq. Qed.

Lemma sample_laws : @ChessJsLaws sample.
Proof.
  constructor; simpl; intros; try (pose proof (step_inv _ _ _ _ H) as (? & ? & Hp & -> & ?)).
  - done.
  - done.
  - done.
  - simpl in *. rewrite H0 in Hp. by apply includes_true in Hp.
  - simpl. by destruct m.
Qed.
End SampleChess.

Definition sample_input : EvaluateMoveInput :=
  mkEvaluateMoveInput "start e2e4" ["e2e4"] "start" (mkMoveInput "e7" None "e5").

Lemma evaluateMove_agrees_with_replay_witness :
  exists ev, @evaluateMove SampleChess.sample sample_input = Ok ev /\
    ap_fenBefore (me_applied ev) = "start e2e4" /\
    is_ok (@replay SampleChess.sample "start" ["e2e4"; ap_uci (me_applied ev)]) = true.
Proof.
  eexists. split; [reflexivity|].
  pose proof (@evaluateMove_agrees_with_replay SampleChess.sample SampleChess.sample_laws
    sample_input _ eq_refl) as (_ & H & _ & Hr).
  split; [exact H|]. simpl app in Hr. reflexivity.
Defined.

Lemma evaluateMove_error_classification_witness :
  EChessEngine CHESS_ILLEGAL_MOVE = EChessEngine CHESS_ILLEGAL_MOVE /\
  @evaluateMove SampleChess.sample
    (mkEvaluateMoveInput "start e2e4" ["e2e4"] "start" (mkMoveInput "e9" None "e5"))
  = Err (EChessEngine CHESS_ILLEGAL_MOVE).
Proof.
  split; [|reflexivity].
  exact (@evaluateMove_error_classification SampleChess.sample
    (mkEvaluateMoveInput "start e2e4" ["e2e4"] "start" (mkMoveInput "e9" None "e5"))
    (EChessEngine CHESS_ILLEGAL_MOVE) eq_refl).
Defined.
