(* ===== verification/Json.v ===== *)
(** * JSON values and their schemas

    The [response] column of a game command holds a JSON object, read back
    through a zod schema. This file has the JSON values and the zod
    combinators the repositories use ([z.object(..).strict()], [z.enum],
    [z.number().int()], [.nullable()], [z.tuple]) as parsers. *)

From S2P Require Export GameTypes.
Local Open Scope string_scope.
Local Open Scope Z_scope.

Inductive json : Type :=
| JNull
| JBool (v : bool)
| JNum (v : Z)
| JStr (v : string)
| JArr (items : list json)
| JObj (fields : list (string * json)).

(** zod's own [z.uuidv4()] test on strings is not part of the program. *)
Class Zod : Type := { zod_uuidv4 : string -> bool }.

(** Nor is [z.uuid()], which accepts UUIDs of every version. *)
Class ZodUuid : Type := { zod_uuid : string -> bool }.

(** [JSON.stringify] and [JSON.parse]. *)
Class JsonText : Type := {
  stringify : json -> string;
  json_parse : string -> option json
}.

(** The keys of an object that are array indices come first and in order; no other
    key does. *)
Definition is_index (key : string) : bool :=
  match key with
  | EmptyString => false
  | _ => forallb (fun c => (48 <=? Ascii.nat_of_ascii c)%nat && (Ascii.nat_of_ascii c <=? 57)%nat)
           (String.list_ascii_of_string key)
  end.

(** Objects as programs build them: no key twice, none an array index. *)
Fixpoint plain (j : json) : bool :=
  match j with
  | JArr items => forallb plain items
  | JObj fields =>
      bool_decide (NoDup (map fst fields)) && forallb (fun f => negb (is_index f.1)) fields &&
      forallb (fun f => plain f.2) fields
  | _ => true
  end.

(** What the language says of the two functions together. *)
Class JsonTextLaws `{JsonText} : Prop := {
  parse_stringify : forall j, plain j = true -> json_parse (stringify j) = Some j;
  parse_empty : json_parse "" = None
}.

Lemma stringify_nonempty `{JsonTextLaws} j : plain j = true -> stringify j <> "".
Proof. intros Hj Hs. apply parse_stringify in Hj. rewrite Hs, parse_empty in Hj. done. Qed.

Definition parser (A : Type) : Type := json -> option A.

(** [z.number().int()] with a lower bound; zod integers are safe integers. *)
Definition z_int_from (lo : Z) : parser Z := fun j =>
  match j with
  | JNum n => if isSafeInteger n && (lo <=? n) then Some n else None
  | _ => None
  end.
Definition z_int_nonnegative : parser Z := z_int_from 0.
Definition z_int_positive : parser Z := z_int_from 1.

Definition z_boolean : parser bool := fun j =>
  match j with JBool v => Some v | _ => None end.

Definition z_string : parser string := fun j =>
  match j with JStr s => Some s | _ => None end.

(** [z.string().min(1)], [z.string().regex(..)], [z.uuidv4()] *)
Definition z_string_where (p : string -> bool) : parser string := fun j =>
  match j with JStr s => if p s then Some s else None | _ => None end.
Definition nonempty (s : string) : bool := negb (bool_decide (s = "")).
Definition z_string_min1 : parser string := z_string_where nonempty.
(** [z.string().min(lo).max(hi)] *)
Definition z_string_length (lo hi : nat) : parser string :=
  z_string_where (fun s => (lo <=? js_length s)%nat && (js_length s <=? hi)%nat).

Definition z_uuidv4 `{Zod} : parser string := z_string_where zod_uuidv4.

Definition z_uuid `{ZodUuid} : parser string := z_string_where zod_uuid.

Definition z_null {A} : parser (option A) := fun j =>
  match j with JNull => Some None | _ => None end.

Definition z_nullable {A} (p : parser A) : parser (option A) := fun j =>
  match j with JNull => Some None | _ => Some <$> p j end.

(** [z.enum([..])], the members given by their strings. *)
Definition z_enum {A} `{ToString A} (members : list A) : parser A := fun j =>
  match j with
  | JStr s => List.find (fun m => bool_decide (toString m = s)) members
  | _ => None
  end.

Definition z_tuple2 {A B} (p : parser A) (q : parser B) : parser (A * B) := fun j =>
  match j with
  | JArr [x; y] => a ← p x; b ← q y; Some (a, b)
  | _ => None
  end.

(** The property of an object, [None] for [undefined]. *)
Fixpoint property (fields : list (string * json)) (key : string) : option json :=
  match fields with
  | [] => None
  | (k, v) :: fields => if decide (k = key) then Some v else property fields key
  end.

Definition z_field {A} (fields : list (string * json)) (key : string) (p : parser A)
    : option A :=
  v ← property fields key; p v.

(** [z.object({..}).strict()]: an object with no key outside [keys], whose
    fields [body] parses. *)
Definition z_object {A} (keys : list string)
    (body : list (string * json) -> option A) : parser A := fun j =>
  match j with
  | JObj fields =>
      if forallb (fun f => includes keys f.1) fields then body fields else None
  | _ => None
  end.

(** [z.array(p)], [z.literal(s)] *)
Fixpoint z_items {A} (p : parser A) (items : list json) : option (list A) :=
  match items with
  | [] => Some []
  | j :: items => a ← p j; l ← z_items p items; Some (a :: l)
  end.
Definition z_array {A} (p : parser A) : parser (list A) := fun j =>
  match j with JArr items => z_items p items | _ => None end.

Definition z_literal (s : string) : parser string :=
  z_string_where (fun v => bool_decide (v = s)).

(** A field that is [.optional()]. *)
Definition z_optional_field {A} (fields : list (string * json)) (key : string)
    (p : parser A) : option (option A) :=
  match property fields key with None => Some None | Some j => Some <$> p j end.

(** [z.discriminatedUnion(key, [..])]: the parser of the field's value. *)
Definition z_discriminated {A} (key : string) (cases : list (string * parser A))
    : parser A := fun j =>
  match j with
  | JObj fields =>
      match property fields key with
      | Some (JStr s) =>
          match List.find (fun c => bool_decide (c.1 = s)) cases with
          | Some c => c.2 j
          | None => None
          end
      | _ => None
      end
  | _ => None
  end.

(** ** What each combinator accepts *)

Lemma z_int_from_eval lo n :
  lo <= n -> isSafeInteger n = true -> z_int_from lo (JNum n) = Some n.
Proof. intros. simpl. rewrite H0. simpl. by rewrite (proj2 (Z.leb_le _ _)). Qed.

Lemma z_string_where_eval p s : p s = true -> z_string_where p (JStr s) = Some s.
Proof. intros H. simpl. by rewrite H. Qed.

Definition fits (lo hi : nat) (s : string) : Prop := (lo <= js_length s <= hi)%nat.

Lemma z_string_length_eval lo hi s : fits lo hi s -> z_string_length lo hi (JStr s) = Some s.
Proof.
  intros [Hlo Hhi]. apply z_string_where_eval.
  by rewrite (proj2 (Nat.leb_le _ _) Hlo), (proj2 (Nat.leb_le _ _) Hhi).
Qed.

Lemma z_enum_eval {A} `{ToString A} (members : list A) (m : A) :
  (forall x y : A, toString x = toString y -> x = y) -> m ∈ members ->
  z_enum members (JStr (toString m)) = Some m.
Proof.
  intros Hinj. simpl. induction members as [|x ms IH]; [by intros ?%not_elem_of_nil|].
  simpl. case_bool_decide as Hx; [by apply Hinj in Hx as ->|].
  intros [->|]%elem_of_cons; [done|auto].
Qed.

Lemma z_nullable_Some {A} (p : parser A) j a :
  j <> JNull -> p j = Some a -> z_nullable p j = Some (Some a).
Proof. intros Hj Hp. destruct j; simpl in *; try done; by rewrite Hp. Qed.

#[export] Hint Resolve z_int_from_eval z_string_where_eval z_string_length_eval z_enum_eval : cluchess.

(** ** The clock, colours and enumerations of the stored responses *)

Definition allColors : list PlayerColor := [b; w].
Definition allResults : list GameResult := [black_win; draw; void; white_win].
Definition allTerminations : list GameTermination :=
  [abandonment; board checkmate; double_abandon; board fifty_move;
   board insufficient_material; no_show; resignation; board stalemate;
   board threefold_repetition; timeout].

Lemma allColors_complete c : c ∈ allColors.
Proof. unfold allColors. destruct c; set_solver. Qed.
Lemma allResults_complete r : r ∈ allResults.
Proof. unfold allResults. destruct r; set_solver. Qed.
Lemma allTerminations_complete t : t ∈ allTerminations.
Proof. unfold allTerminations. destruct t as [|[]| | | |]; set_solver. Qed.

Lemma PlayerColor_toString_inj (x y : PlayerColor) : toString x = toString y -> x = y.
Proof. by destruct x, y. Qed.
Lemma GameResult_toString_inj (x y : GameResult) : toString x = toString y -> x = y.
Proof. by destruct x, y. Qed.
Lemma GameTermination_toString_inj (x y : GameTermination) :
  toString x = toString y -> x = y.
Proof. by destruct x as [|[]| | | |], y as [|[]| | | |]. Qed.

#[export] Hint Resolve allColors_complete allResults_complete allTerminations_complete
  PlayerColor_toString_inj GameResult_toString_inj GameTermination_toString_inj : cluchess.

(** The JSON text of the values: what [JSON.stringify] makes of the objects. *)
Definition json_of_color (c : option PlayerColor) : json :=
  match c with None => JNull | Some c => JStr (toString c) end.

Definition json_of_clock (c : GameplayClock) : json :=
  JObj [("blackMs", JNum (gpc_blackMs c)); ("observedAt", JNum (gpc_observedAt c));
        ("running", json_of_color (gpc_running c)); ("whiteMs", JNum (gpc_whiteMs c))].

Definition json_of_ended (e : EndedGame) : json :=
  JObj [("clocks", json_of_clock (eg_clocks e)); ("finalFen", JStr (eg_finalFen e));
        ("gameId", JStr (eg_gameId e)); ("gameVersion", JNum (eg_gameVersion e));
        ("pgn", JStr (eg_pgn e)); ("result", JStr (toString (eg_result e)));
        ("termination", JStr (toString (eg_termination e)))].

Definition json_of_guests (g : string * string) : json := JArr [JStr g.1; JStr g.2].

(** What the schemas ask of the values. *)
Definition clock_storable (c : GameplayClock) : Prop :=
  0 <= gpc_blackMs c /\ isSafeInteger (gpc_blackMs c) = true /\
  0 <= gpc_observedAt c /\ isSafeInteger (gpc_observedAt c) = true /\
  0 <= gpc_whiteMs c /\ isSafeInteger (gpc_whiteMs c) = true.

Definition ended_storable `{Zod} (e : EndedGame) : Prop :=
  clock_storable (eg_clocks e) /\ nonempty (eg_finalFen e) = true /\
  zod_uuidv4 (eg_gameId e) = true /\
  0 <= eg_gameVersion e /\ isSafeInteger (eg_gameVersion e) = true.

Definition guests_storable `{Zod} (g : string * string) : Prop :=
  zod_uuidv4 g.1 = true /\ zod_uuidv4 g.2 = true.

Lemma z_nullable_color c :
  z_nullable (z_enum allColors) (json_of_color c) = Some c.
Proof.
  destruct c as [c|]; [|done]. apply z_nullable_Some; [done|].
  apply z_enum_eval; auto with cluchess.
Qed.

Lemma z_tuple2_guests `{Zod} g :
  guests_storable g -> z_tuple2 z_uuidv4 z_uuidv4 (json_of_guests g) = Some g.
Proof. intros [H1 H2]. simpl. rewrite H1. simpl. rewrite H2. by destruct g. Qed.

(** ** Reading back what was written *)

Lemma z_object_eval {A} keys (body : list (string * json) -> option A) fields :
  forallb (fun f => includes keys f.1) fields = true ->
  z_object keys body (JObj fields) = body fields.
Proof. intros H. unfold z_object. by rewrite H. Qed.

Lemma z_discriminated_eval {A} key (cases : list (string * parser A)) fields s c :
  property fields key = Some (JStr s) ->
  List.find (fun c => bool_decide (c.1 = s)) cases = Some c ->
  z_discriminated key cases (JObj fields) = c.2 (JObj fields).
Proof. intros Hp Hc. unfold z_discriminated. by rewrite Hp, Hc. Qed.

Lemma z_field_bind {A B} fields key v (p : parser A) a (k : A -> option B) :
  property fields key = Some v -> p v = Some a -> (z_field fields key p ≫= k) = k a.
Proof. intros Hf Hp. unfold z_field. rewrite Hf. simpl. by rewrite Hp. Qed.

Lemma z_nullable_None {A} (p : parser A) : z_nullable p JNull = Some None.
Proof. done. Qed.

(** Reads the fields of an object one after the other. *)
Ltac z_read :=
  rewrite z_object_eval by reflexivity;
  repeat (erewrite z_field_bind; [cbv beta|reflexivity|eauto with cluchess]).

#[export] Hint Resolve z_nullable_color z_tuple2_guests z_nullable_None : cluchess.
#[export] Hint Extern 1 (z_boolean _ = _) => reflexivity : cluchess.
#[export] Hint Extern 1 (z_string _ = _) => reflexivity : cluchess.

(** Optional fields. *)
Lemma z_optional_absent {A B} fields key (p : parser A) (k : option A -> option B) :
  property fields key = None -> (z_optional_field fields key p ≫= k) = k None.
Proof. intros Hf. unfold z_optional_field. by rewrite Hf. Qed.

Lemma z_optional_present {A B} fields key v (p : parser A) a (k : option A -> option B) :
  property fields key = Some v -> p v = Some a ->
  (z_optional_field fields key p ≫= k) = k (Some a).
Proof. intros Hf Hp. unfold z_optional_field. rewrite Hf. simpl. by rewrite Hp. Qed.

(** A field of an object literal that is there only when its value is. *)
Definition opt_field {A} (key : string) (f : A -> json) (value : option A) : list (string * json) :=
  match value with None => [] | Some v => [(key, f v)] end.

(** ** What is known of an accepted value *)

(** A field that was read is a value its parser accepts. *)
Lemma z_field_Some {A} fields key (p : parser A) (P : A -> Prop) a :
  (forall j a, p j = Some a -> P a) -> z_field fields key p = Some a -> P a.
Proof. intros HP (j & _ & Hj)%bind_Some. by eapply HP. Qed.

Lemma z_string_where_valid p j s : z_string_where p j = Some s -> p s = true.
Proof. destruct j as [| | |v| |]; try done. simpl. destruct (p v) eqn:E; congruence. Qed.

Definition accepts {A} (p : parser A) (P : A -> Prop) : Prop := forall j a, p j = Some a -> P a.

Definition if_any {A} (P : A -> Prop) (o : option A) : Prop :=
  match o with None => True | Some a => P a end.

Lemma accepts_mono {A} (p : parser A) (P Q : A -> Prop) :
  accepts p P -> (forall a, P a -> Q a) -> accepts p Q.
Proof. intros Hp HPQ j a Ha. by eapply HPQ, Hp. Qed.

Lemma accepts_any {A} (p : parser A) : accepts p (fun _ => True).
Proof. done. Qed.

Lemma accepts_string p : accepts (z_string_where p) (fun s => p s = true).
Proof. intros j s. apply z_string_where_valid. Qed.

Lemma accepts_int lo : accepts (z_int_from lo) (fun n => lo <= n /\ isSafeInteger n = true).
Proof.
  intros j n. destruct j as [| |m| | |]; try done. simpl.
  destruct (isSafeInteger m) eqn:Es; simpl; [|done].
  destruct (Z.leb_spec lo m); [|done]. by intros [= <-].
Qed.

Lemma accepts_length lo hi : accepts (z_string_length lo hi) (fits lo hi).
Proof.
  intros j s Hs%accepts_string. unfold fits. apply andb_true_iff in Hs as [Hlo Hhi].
  by apply Nat.leb_le in Hlo, Hhi.
Qed.

Lemma accepts_nullable {A} (p : parser A) P : accepts p P -> accepts (z_nullable p) (if_any P).
Proof.
  intros Hp j o Ho. destruct o as [a|]; [|done]. apply (Hp j).
  destruct j as [| | | | |]; simpl in Ho; [done|..]; by destruct (p _); simplify_eq/=.
Qed.

Lemma accepts_array {A} (p : parser A) P : accepts p P -> accepts (z_array p) (Forall P).
Proof.
  intros Hp j l. destruct j as [| | | |items|]; try done. simpl. revert l.
  induction items as [|j items IH]; intros l; simpl; [by intros [= <-]|].
  intros (a & Ha & (l' & Hl & [= <-])%bind_Some)%bind_Some. constructor; eauto.
Qed.

Lemma accepts_object {A} keys (body : list (string * json) -> option A) P :
  (forall f a, body f = Some a -> P a) -> accepts (z_object keys body) P.
Proof.
  intros Hb j a. destruct j as [| | | | |fields]; try done. simpl.
  destruct (forallb _ _); [apply Hb|done].
Qed.

Lemma accepts_field {A B} fields key (p : parser A) P (k : A -> option B) c :
  accepts p P -> (z_field fields key p ≫= k) = Some c -> exists a, P a /\ k a = Some c.
Proof.
  intros Hp (a & (j & _ & Hj)%bind_Some & Hk)%bind_Some. exists a. split; [|done]. by eapply Hp.
Qed.

Lemma accepts_optional {A B} fields key (p : parser A) P (k : option A -> option B) c :
  accepts p P -> (z_optional_field fields key p ≫= k) = Some c ->
  exists a, if_any P a /\ k a = Some c.
Proof.
  intros Hp (o & Ho & Hk)%bind_Some. exists o. split; [|done]. unfold z_optional_field in Ho.
  destruct (property fields key) as [j|]; [|by injection Ho as <-].
  destruct (p j) as [a|] eqn:E; simplify_eq/=. by eapply Hp.
Qed.

Lemma accepts_discriminated {A} key (cases : list (string * parser A)) P :
  Forall (fun c => accepts c.2 P) cases -> accepts (z_discriminated key cases) P.
Proof.
  intros Hc j a. destruct j as [| | | | |fields]; try done. simpl.
  destruct (property fields key) as [[| | |s| |]|]; try done.
  destruct (List.find _ cases) as [c|] eqn:E; [|done].
  apply List.find_some in E as [Hin%list_elem_of_In _].
  rewrite Forall_forall in Hc. by apply Hc.
Qed.

(** Which case read a discriminated union. *)
Lemma z_discriminated_inv {A} key (cases : list (string * parser A)) j a :
  z_discriminated key cases j = Some a ->
  exists fields c, j = JObj fields /\ property fields key = Some (JStr c.1) /\ c ∈ cases /\ c.2 j = Some a.
Proof.
  destruct j as [| | | | |fields]; try done. simpl.
  destruct (property fields key) as [[| | |s| |]|] eqn:Ep; try done.
  destruct (List.find _ cases) as [c|] eqn:E; [|done].
  apply List.find_some in E as [Hin%list_elem_of_In Hs%bool_decide_eq_true]. subst s. eauto 10.
Qed.

Create HintDb accepted.
#[export] Hint Resolve accepts_string accepts_int accepts_length : accepted.
#[export] Hint Extern 1 (accepts (z_nullable _) _) => eapply accepts_nullable : accepted.
#[export] Hint Extern 1 (accepts (z_array _) _) => eapply accepts_array : accepted.

(** Takes an accepted object apart, field by field. *)
Ltac z_fields Hopen :=
  repeat (let v := fresh "v" in let Hv := fresh "Hv" in
    first
      [ eapply accepts_field in Hopen as (v & Hv & Hopen);
          [|first [solve [eauto with accepted] | apply accepts_any]]
      | eapply accepts_optional in Hopen as (v & Hv & Hopen);
          [|first [solve [eauto with accepted] | apply accepts_any]] ]);
  injection Hopen as <-.

Ltac z_open :=
  apply accepts_object; let f := fresh "f" in let a := fresh "a" in
  let Hopen := fresh "Hopen" in intros f a Hopen; z_fields Hopen.
