(* ===== verification/JsonText.v ===== *)
(** * JSON text

    [JSON.stringify] and [JSON.parse] for the values of [Json]: null, booleans,
    integers, strings, arrays and objects. This is the instance of the class
    [JsonText]; the theorems that need a text for values ask only for [JsonTextLaws],
    which hold of it. Not here: numbers that are not integers, escapes above
    [\u007f], and the reordering of keys that are array indices. *)

From S2P Require Export Text Json.
From Stdlib Require Import Ascii DecimalString DecimalZ.
Local Open Scope char_scope.
Local Open Scope list_scope.
Local Open Scope nat_scope.

Module Text.

(** ** Writing *)

Definition hex_digit (n : nat) : ascii :=
  if n <? 10 then ascii_of_nat (48 + n) else ascii_of_nat (87 + n).

Definition quote : ascii := ascii_of_nat 34.

Definition escaped (c : ascii) : list ascii :=
  match nat_of_ascii c with
  | 34 => ["\"; quote]
  | 92 => ["\"; "\"]
  | 8 => ["\"; "b"]
  | 12 => ["\"; "f"]
  | 10 => ["\"; "n"]
  | 13 => ["\"; "r"]
  | 9 => ["\"; "t"]
  | n => if n <? 32 then ["\"; "u"; "0"; "0"; hex_digit (n / 16); hex_digit (n mod 16)] else [c]
  end.

Definition quoted (s : string) : list ascii :=
  quote :: flat_map escaped (chars s) ++ [quote].

Definition number (n : Z) : list ascii := chars (NilZero.string_of_int (Z.to_int n)).

Fixpoint joined (parts : list (list ascii)) : list ascii :=
  match parts with
  | [] => []
  | [part] => part
  | part :: parts => part ++ "," :: joined parts
  end.

Fixpoint print (j : json) : list ascii :=
  match j with
  | JNull => chars "null"
  | JBool true => chars "true"
  | JBool false => chars "false"
  | JNum n => number n
  | JStr s => quoted s
  | JArr items => "[" :: joined (map print items) ++ ["]"]
  | JObj fields => "{" :: joined (map (fun f => quoted f.1 ++ ":" :: print f.2) fields) ++ ["}"]
  end.

(** ** Reading *)

Definition is_blank (c : ascii) : bool :=
  existsb (fun n => nat_of_ascii c =? n) [9; 10; 13; 32].
Fixpoint skip (l : list ascii) : list ascii :=
  match l with c :: l' => if is_blank c then skip l' else l | [] => [] end.

Definition hex_value (c : ascii) : option nat :=
  let n := nat_of_ascii c in
  if digit c then Some (n - 48) else
  if char_in "a" "f" c then Some (n - 87) else
  if char_in "A" "F" c then Some (n - 55) else None.

(** The character an escape sequence begins with, and what follows. *)
Definition unescape (l : list ascii) : option (ascii * list ascii) :=
  match l with
  | "b" :: l => Some (ascii_of_nat 8, l)
  | "f" :: l => Some (ascii_of_nat 12, l)
  | "n" :: l => Some (ascii_of_nat 10, l)
  | "r" :: l => Some (ascii_of_nat 13, l)
  | "t" :: l => Some (ascii_of_nat 9, l)
  | "\" :: l => Some ("\", l)
  | "/" :: l => Some ("/", l)
  | "u" :: "0" :: "0" :: hi :: lo :: l =>
      x ← hex_value hi; y ← hex_value lo;
      if x <? 8 then Some (ascii_of_nat (16 * x + y), l) else None
  | c :: l => if is_char quote c then Some (quote, l) else None
  | [] => None
  end.

(** The characters up to the closing quote, one step of fuel each. *)
Fixpoint read_string (fuel : nat) (l : list ascii) : option (list ascii * list ascii) :=
  match fuel, l with
  | S fuel, c :: l =>
      if is_char quote c then Some ([], l) else
      if is_char "\" c then
        '(c, l) ← unescape l; '(s, l) ← read_string fuel l; Some (c :: s, l)
      else if nat_of_ascii c <? 32 then None
      else '(s, l) ← read_string fuel l; Some (c :: s, l)
  | _, _ => None
  end.

Definition number_char (c : ascii) : bool := digit c || is_char "-" c.
Fixpoint span (l : list ascii) : list ascii * list ascii :=
  match l with
  | c :: l' => if number_char c then let '(x, y) := span l' in (c :: x, y) else ([], l)
  | [] => ([], [])
  end.

(** An integer in its only decimal form. *)
Definition read_number (l : list ascii) : option (Z * list ascii) :=
  let '(x, l) := span l in
  d ← NilZero.int_of_string (text x);
  if bool_decide (number (Z.of_int d) = x) then Some (Z.of_int d, l) else None.

Definition literal (word : list ascii) (j : json) (l : list ascii) : option (json * list ascii) :=
  if bool_decide (take (length word) l = word) then Some (j, drop (length word) l) else None.

(** A property given again takes the last value and keeps its place. *)
Fixpoint set_field (fields : list (string * json)) (f : string * json) : list (string * json) :=
  match fields with
  | [] => [f]
  | g :: fields => if decide (g.1 = f.1) then (g.1, f.2) :: fields else g :: set_field fields f
  end.
Definition as_object (fields : list (string * json)) : json := JObj (fold_left set_field fields []).

Fixpoint read_value (fuel : nat) (l : list ascii) : option (json * list ascii) :=
  match fuel with
  | O => None
  | S fuel =>
      match skip l with
      | "{" :: l =>
          match skip l with
          | "}" :: l => Some (JObj [], l)
          | l => '(fields, l) ← read_fields fuel l; Some (as_object fields, l)
          end
      | "[" :: l =>
          match skip l with
          | "]" :: l => Some (JArr [], l)
          | l => '(items, l) ← read_items fuel l; Some (JArr items, l)
          end
      | "n" :: l => literal (chars "ull") JNull l
      | "t" :: l => literal (chars "rue") (JBool true) l
      | "f" :: l => literal (chars "alse") (JBool false) l
      | c :: l =>
          if is_char quote c then
            '(s, l) ← read_string (length l) l; Some (JStr (text s), l)
          else '(n, l) ← read_number (c :: l); Some (JNum n, l)
      | [] => None
      end
  end
with read_items (fuel : nat) (l : list ascii) : option (list json * list ascii) :=
  match fuel with
  | O => None
  | S fuel =>
      '(j, l) ← read_value fuel l;
      match skip l with
      | "," :: l => '(items, l) ← read_items fuel l; Some (j :: items, l)
      | "]" :: l => Some ([j], l)
      | _ => None
      end
  end
with read_fields (fuel : nat) (l : list ascii) : option (list (string * json) * list ascii) :=
  match fuel with
  | O => None
  | S fuel =>
      match skip l with
      | c :: l =>
          if negb (is_char quote c) then None else
          '(key, l) ← read_string (length l) l;
          match skip l with
          | ":" :: l =>
              '(j, l) ← read_value fuel l;
              match skip l with
              | "," :: l => '(fields, l) ← read_fields fuel l; Some ((text key, j) :: fields, l)
              | "}" :: l => Some ([(text key, j)], l)
              | _ => None
              end
          | _ => None
          end
      | [] => None
      end
  end.

(** One step of fuel per character is enough. *)
Definition read (s : string) : option json :=
  '(j, l) ← read_value (S (String.length s)) (chars s);
  match skip l with [] => Some j | _ => None end.

(** ** Reading what was written *)

Lemma unescape_escaped c rest :
  match escaped c with
  | [d] => d = c /\ is_char quote c = false /\ is_char "\" c = false /\ (nat_of_ascii c <? 32) = false
  | d :: l => d = "\" /\ unescape (l ++ rest) = Some (c, rest)
  | [] => False
  end.
Proof. destruct c as [[] [] [] [] [] [] [] []]; vm_compute; repeat split. Qed.

Lemma read_string_quoted l rest fuel :
  length (flat_map escaped l) < fuel ->
  read_string fuel (flat_map escaped l ++ quote :: rest) = Some (l, rest).
Proof.
  revert fuel. induction l as [|c l IH]; intros [|fuel] Hf; [simpl in Hf; lia|done|simpl in Hf; lia|].
  cbn [flat_map] in *. rewrite <-(assoc_L (++)).
  pose proof (unescape_escaped c (flat_map escaped l ++ quote :: rest)) as Hc.
  destruct (escaped c) as [|d [|e ds]]; [done|..]; simpl in Hf.
  - destruct Hc as (-> & Hq & Hs & Hp). cbn [read_string app]. rewrite Hq, Hs, Hp.
    rewrite IH by lia. done.
  - destruct Hc as [-> Hc]. cbn [read_string app] in *.
    change (is_char quote "\") with false. change (is_char "\" "\") with true. cbv iota.
    rewrite Hc. cbn [mbind option_bind]. rewrite IH by (rewrite length_app in Hf; lia). done.
Qed.

Definition unblank (l : list ascii) : Prop := match l with c :: _ => is_blank c = false | [] => True end.
Lemma skip_unblank l : unblank l -> skip l = l.
Proof. destruct l as [|c l]; [done|]. simpl. by intros ->. Qed.

(** The characters of a number. *)
Definition stops (l : list ascii) : Prop :=
  match l with c :: _ => number_char c = false | [] => True end.

Lemma span_app x l : forallb number_char x = true -> stops l -> span (x ++ l) = (x, l).
Proof.
  intros Hx Hl. induction x as [|c x IH]; simpl in *.
  - destruct l as [|d l]; [done|]. simpl in *. by rewrite Hl.
  - apply andb_true_iff in Hx as [-> Hx]. by rewrite IH.
Qed.

Lemma uint_chars d : forallb number_char (chars (NilEmpty.string_of_uint d)) = true.
Proof. induction d; done. Qed.

Lemma number_chars n :
  forallb number_char (number n) = true /\ number n <> [].
Proof.
  unfold number. destruct (Z.to_int n) as [d|d]; simpl; destruct d; simpl;
    rewrite ?uint_chars; done.
Qed.

Lemma read_number_number n l : stops l -> read_number (number n ++ l) = Some (n, l).
Proof.
  intros Hl. unfold read_number. rewrite span_app by (done || apply number_chars).
  assert (NilZero.int_of_string (text (number n)) = Some (Z.to_int n)) as ->
    by (unfold number; rewrite text_chars; apply int_of_string_of_int).
  cbn [mbind option_bind]. rewrite DecimalZ.of_to. by rewrite bool_decide_eq_true_2.
Qed.

(** The first character of a value is no blank and closes nothing. *)
Lemma print_head j : exists c l, print j = c :: l /\ is_blank c = false /\ is_char "]" c = false.
Proof.
  destruct j as [|[]|n|s|items|fields]; simpl; eauto.
  destruct (number_chars n) as [Hn Hne]. destruct (number n) as [|c l]; [done|].
  simpl in Hn. apply andb_true_iff in Hn as [Hc _]. exists c, l. split; [done|].
  by destruct c as [[] [] [] [] [] [] [] []].
Qed.

Lemma skip_print j l : skip (print j ++ l) = print j ++ l.
Proof. apply skip_unblank. destruct (print_head j) as (c & l' & -> & Hc & _). exact Hc. Qed.

Lemma set_field_new fields f :
  f.1 ∉ map fst fields -> set_field fields f = fields ++ [f].
Proof.
  induction fields as [|g fields IH]; [done|]. simpl. intros [Hg Hf]%not_elem_of_cons.
  rewrite decide_False by congruence. by rewrite IH.
Qed.

Lemma fold_set_field l acc :
  NoDup (map fst (acc ++ l)) -> fold_left set_field l acc = acc ++ l.
Proof.
  revert acc. induction l as [|f l IH]; intros acc Hd; simpl; [by rewrite app_nil_r|].
  rewrite map_app in Hd. pose proof Hd as (_ & Hn & _)%NoDup_app.
  rewrite set_field_new by (intros Hf; apply (Hn _ Hf); left).
  rewrite IH by (rewrite <-(assoc_L (++)); by rewrite map_app). by rewrite <-(assoc_L (++)).
Qed.

Lemma as_object_plain fields : NoDup (map fst fields) -> as_object fields = JObj fields.
Proof. intros Hd. unfold as_object. by rewrite fold_set_field. Qed.

(** A value is read back, whatever follows it. *)
Definition readable (j : json) : Prop := forall fuel rest,
  plain j = true -> length (print j) < fuel -> stops rest ->
  read_value fuel (print j ++ rest) = Some (j, rest).

Lemma read_items_joined items fuel rest :
  Forall readable items -> items <> [] -> forallb plain items = true ->
  length (joined (map print items)) + 1 < fuel ->
  read_items fuel (joined (map print items) ++ "]" :: rest) = Some (items, rest).
Proof.
  intros Hr. revert fuel. induction Hr as [|j items Hj Hitems IH]; [done|].
  intros [|fuel] _ Hp Hf; [lia|]. simpl in Hp. apply andb_true_iff in Hp as [Hpj Hp].
  destruct items as [|j' items].
  - cbn [map joined] in *. cbn [read_items]. by rewrite Hj by (done || lia).
  - change (joined (map print (j :: j' :: items))) with
      (print j ++ "," :: joined (map print (j' :: items))) in *.
    rewrite length_app, length_cons in Hf.
    rewrite <-(assoc_L (++)). cbn [app read_items]. rewrite Hj by (done || lia).
    cbn [mbind option_bind]. change (skip ("," :: ?l)) with ("," :: l). cbv iota.
    by rewrite IH by (done || lia).
Qed.

Definition field_text (f : string * json) : list ascii := quoted f.1 ++ ":" :: print f.2.

Lemma field_text_length f : length (print f.2) < length (field_text f).
Proof. unfold field_text. rewrite length_app. simpl. lia. Qed.

Lemma read_fields_joined fields fuel rest :
  Forall (fun f => readable f.2) fields -> fields <> [] ->
  forallb (fun f => plain f.2) fields = true ->
  length (joined (map field_text fields)) + 1 < fuel ->
  read_fields fuel (joined (map field_text fields) ++ "}" :: rest) = Some (fields, rest).
Proof.
  intros Hr. revert fuel. induction Hr as [|[k j] fields Hj Hfields IH]; [done|].
  intros [|fuel] _ Hp Hf; [lia|]. simpl in Hp, Hj. apply andb_true_iff in Hp as [Hpj Hp].
  assert (Hone : forall tail, length (print j) < fuel -> stops tail ->
    read_fields (S fuel) (field_text (k, j) ++ tail) =
    match skip tail with
    | "," :: l => '(fields, l) ← read_fields fuel l; Some ((k, j) :: fields, l)
    | "}" :: l => Some ([(k, j)], l)
    | _ => None
    end).
  { intros tail Hlen Ht. unfold field_text, quoted. cbn [fst snd].
    rewrite <-(assoc_L (++)). cbn [app read_fields].
    change (skip (quote :: ?l)) with (quote :: l). cbn [app].
    rewrite <-(assoc_L (++)). cbn [app].
    change (is_char quote quote) with true. cbn [negb].
    rewrite read_string_quoted by (rewrite length_app; simpl; lia).
    cbn [mbind option_bind]. change (skip (":" :: ?l)) with (":" :: l). cbv iota.
    rewrite Hj by done. unfold chars. by rewrite text_chars. }
  destruct fields as [|f' fields].
  - cbn [map joined] in *. rewrite Hone; [done| |done].
    pose proof (field_text_length (k, j)) as Hl. cbn [snd] in Hl. lia.
  - change (joined (map field_text ((k, j) :: f' :: fields))) with
      (field_text (k, j) ++ "," :: joined (map field_text (f' :: fields))) in *.
    rewrite length_app, length_cons in Hf. pose proof (field_text_length (k, j)) as Hl. cbn [snd] in Hl.
    rewrite <-(assoc_L (++)). rewrite Hone; [|lia|done]. cbn [app].
    change (skip ("," :: ?l)) with ("," :: l). cbv iota.
    by rewrite IH by (done || lia).
Qed.

Lemma json_ind_nested (P : json -> Prop) :
  P JNull -> (forall v, P (JBool v)) -> (forall n, P (JNum n)) -> (forall s, P (JStr s)) ->
  (forall items, Forall P items -> P (JArr items)) ->
  (forall fields, Forall (fun f => P f.2) fields -> P (JObj fields)) -> forall j, P j.
Proof.
  intros Hnull Hbool Hnum Hstr Harr Hobj. fix IH 1. intros [| | | |items|fields].
  - exact Hnull.
  - apply Hbool.
  - apply Hnum.
  - apply Hstr.
  - apply Harr. induction items as [|j items IHi]; constructor; [exact (IH j)|exact IHi].
  - apply Hobj. induction fields as [|[k j] fields IHi]; constructor; [exact (IH j)|exact IHi].
Qed.

(** The first character of a value after [skip]: [read_value] branches on it. *)
Lemma read_value_number n fuel rest :
  stops rest -> read_value (S fuel) (number n ++ rest) = Some (JNum n, rest).
Proof.
  intros Hs. pose proof (skip_print (JNum n) rest) as Hk. cbn [print] in Hk.
  cbn [read_value]. rewrite Hk.
  pose proof (read_number_number n rest Hs) as Hn.
  destruct (number_chars n) as [Hc Hne]. destruct (number n) as [|c l]; [done|].
  simpl in Hc. apply andb_true_iff in Hc as [Hc _]. cbn [app] in *.
  assert (Hd : forall d, number_char d = false -> c <> d) by congruence.
  destruct c as [[] [] [] [] [] [] [] []]; try discriminate Hc; by rewrite Hn.
Qed.

Lemma read_value_string s fuel rest : read_value (S fuel) (quoted s ++ rest) = Some (JStr s, rest).
Proof.
  unfold quoted. cbn [app read_value]. change (skip (quote :: ?l)) with (quote :: l). cbn.
  rewrite <-(assoc_L (++)). cbn [app].
  rewrite read_string_quoted by (rewrite length_app; simpl; lia). simpl. by rewrite text_chars.
Qed.

Lemma joined_head j items :
  exists c l, joined (map print (j :: items)) = c :: l /\ is_blank c = false /\ is_char "]" c = false.
Proof.
  destruct (print_head j) as (c & l & Hj & Hc). exists c.
  destruct items; cbn [map joined]; rewrite Hj; cbn [app]; eauto.
Qed.

Lemma fields_head f fields :
  exists c l, joined (map field_text (f :: fields)) = c :: l /\
    is_blank c = false /\ is_char "}" c = false.
Proof. exists quote. destruct fields; unfold field_text, quoted; cbn; eauto. Qed.

Lemma readable_all j : readable j.
Proof.
  induction j as [|v|n|s|items IH|fields IH] using json_ind_nested; intros [|fuel] rest Hp Hf Hs;
    try (simpl in Hf; lia).
  - reflexivity.
  - by destruct v.
  - by apply read_value_number.
  - apply read_value_string.
  - cbn [print app]. rewrite <-(assoc_L (++)). cbn [app read_value].
    change (skip ("[" :: ?l)) with ("[" :: l). cbv iota. cbn [print] in Hf.
    rewrite length_cons, length_app in Hf. simpl (length ["]"]) in Hf.
    destruct items as [|j items]; [done|].
    pose proof (read_items_joined (j :: items) fuel rest IH) as Hr.
    destruct (joined_head j items) as (c & l & Hl & Hb & Hc). rewrite Hl in *. cbn [app] in *.
    rewrite (skip_unblank (c :: _)) by done.
    destruct c as [[] [] [] [] [] [] [] []]; try discriminate Hc; by rewrite Hr by (done || lia).
  - change (print (JObj fields)) with ("{" :: joined (map field_text fields) ++ ["}"]) in *.
    cbn [app]. rewrite <-(assoc_L (++)). cbn [app read_value].
    change (skip ("{" :: ?l)) with ("{" :: l). cbv iota.
    rewrite length_cons, length_app in Hf. simpl (length ["}"]) in Hf.
    simpl in Hp. apply andb_true_iff in Hp as [[Hd _]%andb_true_iff Hp].
    apply bool_decide_eq_true in Hd.
    destruct fields as [|f fields]; [done|].
    pose proof (read_fields_joined (f :: fields) fuel rest IH) as Hr.
    destruct (fields_head f fields) as (c & l & Hl & Hb & Hc). rewrite Hl in *. cbn [app] in *.
    rewrite (skip_unblank (c :: _)) by done.
    destruct c as [[] [] [] [] [] [] [] []]; try discriminate Hc; rewrite Hr by (done || lia);
      cbn [mbind option_bind]; by rewrite as_object_plain.
Qed.

Lemma read_print j : plain j = true -> read (text (print j)) = Some j.
Proof.
  intros Hj. unfold read. rewrite chars_text.
  pose proof (readable_all j (S (String.length (text (print j)))) []) as Hr.
  rewrite app_nil_r in Hr. by rewrite Hr; [..|rewrite length_text; lia|].
Qed.

End Text.

#[export] Instance json_text : JsonText :=
  {| stringify j := text (Text.print j); json_parse := Text.read |}.

#[export] Instance json_text_laws : JsonTextLaws.
Proof. constructor; [exact Text.read_print|done]. Qed.
