(* ===== verification/Tokens.v ===== *)
(** * Guest tokens

    [src/src/modules/session/jwt-token.service.ts]: the signed tokens that name a
    guest session. The cryptography of [node:crypto] is the class [NodeCrypto]; the
    JSON text is the class [JsonText]; base64url and the format of a token are
    written out. A string is its UTF-8 bytes, so [Buffer.from] and [toString] change
    nothing; the text of a token is ASCII, where bytes and characters agree. *)

From S2P Require Export Text Json JsonText.
From Stdlib Require Import Ascii.
Local Open Scope string_scope.
Local Open Scope list_scope.
Local Open Scope Z_scope.

(** [sign(null, .., key)], [verify(null, .., key, signature)] and the type of a key. *)
Class NodeCrypto : Type := {
  PrivateKey : Type;
  PublicKey : Type;
  private_type : PrivateKey -> string;
  public_type : PublicKey -> string;
  crypto_sign : PrivateKey -> string -> string;
  crypto_verify : PublicKey -> string -> string -> bool
}.

(** A public key that accepts one signature of a private key belongs to it, and
    accepts them all; a signature is not empty. *)
Class NodeCryptoLaws `{NodeCrypto} : Prop := {
  key_pair : forall priv pub m m',
    crypto_verify pub m (crypto_sign priv m) = true ->
    crypto_verify pub m' (crypto_sign priv m') = true;
  signature_nonempty : forall priv m, crypto_sign priv m <> ""
}.

Module Tokens.

Definition UUID_V4 (s : string) : bool := matches (uuid_classes (is_char "4"%char)) (chars s).

Record JwtHeader : Type := mkHeader { jh_alg : string; jh_kid : string; jh_typ : string }.

Record JwtClaims : Type := mkClaims {
  jc_avatar : string;
  jc_exp : Z;
  jc_iat : Z;
  jc_jti : string;
  jc_name : string;
  jc_sub : string;
  jc_v : Z
}.

Record AuthenticatedGuest : Type := mkGuest {
  ag_avatarKey : string;
  ag_expiresAt : Z;
  ag_guestSessionId : string;
  ag_issuedAt : Z;
  ag_jti : string;
  ag_name : string
}.

Inductive TokenFailureReason : Type := expired | malformed | bad_signature | unknown_kid.

(** The fields of the session and of the claims that [issue] reads. *)
Record Issuance : Type := mkIssuance {
  is_avatarKey : string;
  is_displayName : string;
  is_id : string;
  is_expiresAt : Z;
  is_issuedAt : Z;
  is_jti : string
}.

Definition jwtHeaderSchema : parser JwtHeader :=
  z_object ["alg"; "kid"; "typ"] (fun f =>
    alg ← z_field f "alg" (z_literal "EdDSA");
    kid ← z_field f "kid" (z_string_length 1 128);
    typ ← z_field f "typ" (z_literal "JWT");
    Some (mkHeader alg kid typ)).

(** [z.literal(1)] *)
Definition z_one : parser Z := fun j =>
  match j with JNum n => if n =? 1 then Some n else None | _ => None end.

Definition jwtClaimsSchema : parser JwtClaims :=
  z_object ["avatar"; "exp"; "iat"; "jti"; "name"; "sub"; "v"] (fun f =>
    avatar ← z_field f "avatar" (z_string_length 1 128);
    exp ← z_field f "exp" z_int_positive;
    iat ← z_field f "iat" z_int_nonnegative;
    jti ← z_field f "jti" (z_string_where UUID_V4);
    name ← z_field f "name" (z_string_length 1 128);
    sub ← z_field f "sub" (z_string_where UUID_V4);
    v ← z_field f "v" z_one;
    Some (mkClaims avatar exp iat jti name sub v)).

Definition json_of_header (h : JwtHeader) : json :=
  JObj [("alg", JStr (jh_alg h)); ("kid", JStr (jh_kid h)); ("typ", JStr (jh_typ h))].

Definition json_of_claims (c : JwtClaims) : json :=
  JObj [("avatar", JStr (jc_avatar c)); ("exp", JNum (jc_exp c)); ("iat", JNum (jc_iat c));
        ("jti", JStr (jc_jti c)); ("name", JStr (jc_name c)); ("sub", JStr (jc_sub c));
        ("v", JNum (jc_v c))].

Section Service.
Context `{JsonText} `{NodeCrypto}.

Record JwtTokenService : Type := mkService {
  activeKid : string;
  clockSkewSeconds : Z;
  privateKey : PrivateKey;
  publicKeys : gmap string PublicKey;
  ttlSeconds : Z
}.

Definition encode (value : json) : string := base64url (stringify value).

Definition decodeJson (segment : string) : option json :=
  if BASE64URL_PATTERN segment then json_parse (from_base64url segment) else None.

Definition dot : ascii := "."%char.
Definition signed_part (header claims : string) : string := header +:+ String dot claims.

(** [None]: the claims do not satisfy their schema, or not the lifetime. *)
Definition issue (service : JwtTokenService) (input : Issuance) : option string :=
  let claims := mkClaims (is_avatarKey input) (is_expiresAt input / 1000)
                  (is_issuedAt input / 1000) (is_jti input) (is_displayName input)
                  (is_id input) 1 in
  parsedClaims ← jwtClaimsSchema (json_of_claims claims);
  if negb (jc_exp parsedClaims - jc_iat parsedClaims =? ttlSeconds service) then None else
  let header := mkHeader "EdDSA" (activeKid service) "JWT" in
  let signingInput := signed_part (encode (json_of_header header))
                        (encode (json_of_claims parsedClaims)) in
  let signature := crypto_sign (privateKey service) signingInput in
  Some (signingInput +:+ String dot (base64url signature)).

Definition verify (service : JwtTokenService) (token : string) (now : Z)
    : result TokenFailureReason AuthenticatedGuest :=
  if (8192 <? js_length token)%nat then Err malformed else
  match str_split dot token with
  | [encodedHeader; encodedClaims; encodedSignature] =>
      match decodeJson encodedHeader ≫= jwtHeaderSchema with
      | None => Err malformed
      | Some header =>
          match publicKeys service !! jh_kid header with
          | None => Err unknown_kid
          | Some publicKey =>
              if negb (BASE64URL_PATTERN encodedSignature) then Err malformed else
              if negb (crypto_verify publicKey (signed_part encodedHeader encodedClaims)
                         (from_base64url encodedSignature)) then Err bad_signature else
              match decodeJson encodedClaims ≫= jwtClaimsSchema with
              | None => Err malformed
              | Some claims =>
                  if negb (jc_exp claims - jc_iat claims =? ttlSeconds service)
                  then Err malformed else
                  let nowSeconds := now / 1000 in
                  if nowSeconds + clockSkewSeconds service <? jc_iat claims then Err malformed else
                  if jc_exp claims + clockSkewSeconds service <=? nowSeconds then Err expired else
                  Ok (mkGuest (jc_avatar claims) (jc_exp claims * 1000) (jc_sub claims)
                        (jc_iat claims * 1000) (jc_jti claims) (jc_name claims))
              end
          end
      end
  | _ => Err malformed
  end.

(** *** The keys *)

(** A file of the directory, with the key its content makes. *)
Record DirectoryEntry : Type := mkFile {
  de_isFile : bool;
  de_name : string;
  de_key : PublicKey
}.

(** [/^[A-Za-z0-9_-]{1,128}$/] *)
Definition KID_PATTERN (kid : string) : bool :=
  BASE64URL_PATTERN kid && (String.length kid <=? 128)%nat.

(** [None]: a file name or a key it throws at. *)
Fixpoint loadPublicKeys (entries : list DirectoryEntry) : option (gmap string PublicKey) :=
  match entries with
  | [] => Some ∅
  | entry :: entries =>
      if negb (de_isFile entry) || negb (endsWith (de_name entry) ".pem")
      then loadPublicKeys entries else
      let kid := basename (de_name entry) ".pem" in
      if negb (KID_PATTERN kid) then None else
      if negb (bool_decide (public_type (de_key entry) = "ed25519")) then None else
      keys ← loadPublicKeys entries;
      Some (<[kid := de_key entry]> keys)
  end.

Definition challenge : string := "cluchess-key-pair-check".

(** [assertKeySet] throws otherwise. *)
Definition assertKeySet (service : JwtTokenService) : bool :=
  bool_decide (private_type (privateKey service) = "ed25519") &&
  match publicKeys service !! activeKid service with
  | Some activePublicKey =>
      bool_decide (public_type activePublicKey = "ed25519") &&
      crypto_verify activePublicKey challenge (crypto_sign (privateKey service) challenge)
  | None => false
  end.

(** The constructor: the configured lifetime, skew and key, and the directory. *)
Definition construct (kid : string) (skew ttl : Z) (key : PrivateKey)
    (entries : list DirectoryEntry) : option JwtTokenService :=
  keys ← loadPublicKeys entries;
  let service := mkService kid skew key keys ttl in
  if assertKeySet service then Some service else None.
End Service.

(** ** Reading back what was written *)

Section Laws.
Context `{JsonText, !JsonTextLaws} `{NodeCrypto, !NodeCryptoLaws}.

Lemma header_parsed kid :
  fits 1 128 kid ->
  jwtHeaderSchema (json_of_header (mkHeader "EdDSA" kid "JWT")) = Some (mkHeader "EdDSA" kid "JWT").
Proof. intros Hkid. unfold jwtHeaderSchema, json_of_header. by z_read. Qed.

Lemma z_string_where_same p s s' : z_string_where p (JStr s) = Some s' -> s' = s.
Proof. simpl. destruct (p s); by intros [= <-]. Qed.

Lemma z_int_from_Some lo n n' : z_int_from lo (JNum n) = Some n' -> n' = n.
Proof. simpl. destruct (isSafeInteger n && (lo <=? n)); by intros [= <-]. Qed.

(** The schema changes nothing in the claims it accepts. *)
Lemma claims_parsed c p : jwtClaimsSchema (json_of_claims c) = Some p -> p = c.
Proof.
  unfold jwtClaimsSchema, json_of_claims. rewrite z_object_eval by reflexivity.
  unfold z_field. cbn [property decide]. intros Hp.
  repeat (apply bind_Some in Hp as (? & ? & Hp)).
  simplify_eq. destruct c; simpl in *.
  repeat match goal with
  | E : (if ?t then _ else _) = Some _ |- _ => destruct t; [injection E as ->|done]
  end. done.
Qed.

(** The identifiers in the claims the schema accepts. *)
Lemma z_field_bind_Some {A B} fields key (p : parser A) (k : A -> option B) y :
  (z_field fields key p ≫= k) = Some y -> exists j x, p j = Some x /\ k x = Some y.
Proof.
  intros (x & Hx & Hk)%bind_Some. unfold z_field in Hx. apply bind_Some in Hx as (j & _ & Hj). eauto.
Qed.

Lemma z_string_where_holds p j s : z_string_where p j = Some s -> p s = true.
Proof. destruct j as [| | |s'| |]; try done. simpl. destruct (p s') eqn:Hp; by intros [= <-]. Qed.

Lemma claims_uuids j c :
  jwtClaimsSchema j = Some c -> UUID_V4 (jc_sub c) = true /\ UUID_V4 (jc_jti c) = true.
Proof.
  unfold jwtClaimsSchema, z_object. destruct j; try done. destruct (forallb _ _); [|done].
  intros (? & avatar & _ & Hf)%z_field_bind_Some. apply z_field_bind_Some in Hf as (? & exp & _ & Hf).
  apply z_field_bind_Some in Hf as (? & iat & _ & Hf). apply z_field_bind_Some in Hf as (? & jti & Hj & Hf).
  apply z_field_bind_Some in Hf as (? & name & _ & Hf). apply z_field_bind_Some in Hf as (? & sub & Hs & Hf).
  apply z_field_bind_Some in Hf as (? & v & _ & Hf). injection Hf as <-.
  by apply z_string_where_holds in Hj, Hs.
Qed.

Lemma decodeJson_encode j : plain j = true -> decodeJson (encode j) = Some j.
Proof.
  intros Hj. unfold decodeJson, encode.
  by rewrite base64url_pattern, from_base64url_base64url, parse_stringify
    by auto using stringify_nonempty.
Qed.

(** *** What the constructor checked *)

Lemma loadPublicKeys_kid entries keys kid pub :
  loadPublicKeys entries = Some keys -> keys !! kid = Some pub ->
  KID_PATTERN kid = true /\ public_type pub = "ed25519".
Proof.
  revert keys. induction entries as [|e entries IH]; intros keys; simpl.
  { intros [= <-]. rewrite lookup_empty. intros [=]. }
  destruct (_ || _); [apply IH|]. destruct (KID_PATTERN (basename _ _)) eqn:Hp; simpl; [|intros [=]].
  case_bool_decide as Ht; simpl; [|intros [=]].
  intros (keys' & Hk & [= <-])%bind_Some [[<- <-]|[_ Hl]]%lookup_insert_Some; eauto.
Qed.

Lemma KID_PATTERN_fits kid : KID_PATTERN kid = true -> fits 1 128 kid.
Proof.
  unfold KID_PATTERN, BASE64URL_PATTERN, fits.
  intros [[Hn%negb_true_iff Hc]%andb_true_iff Hl%Nat.leb_le]%andb_true_iff.
  apply bool_decide_eq_false in Hn. rewrite js_length_base64url by done.
  destruct kid; [done|]. simpl in *. lia.
Qed.

Lemma construct_sound kid skew ttl key entries service :
  construct kid skew ttl key entries = Some service ->
  fits 1 128 (activeKid service) /\ exists pub,
    publicKeys service !! activeKid service = Some pub /\
    forall m, crypto_verify pub m (crypto_sign (privateKey service) m) = true.
Proof.
  unfold construct. intros (keys & Hk & Hs)%bind_Some.
  destruct (assertKeySet _) eqn:Ha; [|done]. injection Hs as <-.
  unfold assertKeySet in Ha. simpl in *. apply andb_true_iff in Ha as [_ Ha].
  destruct (keys !! kid) as [pub|] eqn:Hl; [|done]. apply andb_true_iff in Ha as [_ Hv].
  destruct (loadPublicKeys_kid _ _ _ _ Hk Hl) as [Hp _].
  split; [by apply KID_PATTERN_fits|]. exists pub. split; [done|].
  intros m. by apply (key_pair key pub challenge).
Qed.

(** A token of three encoded parts is split into them. *)
Lemma js_length_token x y z :
  let token := signed_part (base64url x) (base64url y) +:+ String dot (base64url z) in
  js_length token = String.length token.
Proof.
  unfold signed_part. cbv zeta. rewrite !js_length_app, !length_str_app. simpl.
  by rewrite !js_length_encoded.
Qed.

Lemma split_token x y z :
  str_split dot (signed_part (base64url x) (base64url y) +:+ String dot (base64url z)) =
  [base64url x; base64url y; base64url z].
Proof.
  unfold signed_part. rewrite <-str_app_assoc.
  change (String dot ?s +:+ ?t) with (String dot (s +:+ t)).
  rewrite !str_split_app, str_split_free by apply base64url_free. done.
Qed.

(** What [verify] says of claims it could read at a time. *)
Definition judged (service : JwtTokenService) (input : Issuance) (now : Z)
    : result TokenFailureReason AuthenticatedGuest :=
  let iat := is_issuedAt input / 1000 in
  let exp := is_expiresAt input / 1000 in
  if now / 1000 <? iat - clockSkewSeconds service then Err malformed else
  if now / 1000 <? exp + clockSkewSeconds service then
    Ok (mkGuest (is_avatarKey input) (exp * 1000) (is_id input) (iat * 1000) (is_jti input)
          (is_displayName input))
  else Err expired.

(** C13: A token the service issued, shown to it again at any time, verifies to exactly
    the session it was issued for, from [iat] less the skew until [exp] plus the skew,
    and is refused as malformed before and as expired after. *)
Theorem issued_tokens_verify kid skew ttl key entries service input token now :
  construct kid skew ttl key entries = Some service ->
  issue service input = Some token -> (String.length token <= 8192)%nat ->
  verify service token now = judged service input now.
Proof.
  intros (Hkid & pub & Hpub & Hsig)%construct_sound Hi Hlen. unfold issue in Hi.
  apply bind_Some in Hi as (claims & Hc & Hi). pose proof (claims_parsed _ _ Hc) as ->.
  cbn [jc_exp jc_iat] in Hi. destruct (_ =? _) eqn:Httl; [|done]. injection Hi as <-.
  unfold verify. rewrite (proj2 (Nat.ltb_ge _ _)) by (unfold encode in *; by rewrite js_length_token).
  unfold encode at 1 2.
  rewrite split_token. fold (encode (json_of_header (mkHeader "EdDSA" (activeKid service) "JWT"))).
  rewrite !decodeJson_encode by done. cbn [mbind option_bind]. rewrite header_parsed by done.
  cbn [jh_kid]. rewrite Hpub, base64url_pattern by apply signature_nonempty.
  rewrite from_base64url_base64url. fold (encode (json_of_claims (mkClaims (is_avatarKey input)
    (is_expiresAt input / 1000) (is_issuedAt input / 1000) (is_jti input) (is_displayName input)
    (is_id input) 1))). rewrite Hsig, decodeJson_encode by done. cbn [mbind option_bind negb].
  rewrite Hc. cbn [jc_exp jc_iat jc_avatar jc_sub jc_jti jc_name]. rewrite Httl. cbn [negb].
  unfold judged. repeat case_match; try done; lia.
Qed.

(** A token that verifies carries, under the name of a known key, a signature of
    that key over its first two parts; it is live, and lives for the configured time. *)
Theorem verified_token_is_signed (service : JwtTokenService) token now guest :
  verify service token now = Ok guest ->
  exists header claims signature kid pub,
    token = header +:+ String dot (claims +:+ String dot signature) /\
    publicKeys service !! kid = Some pub /\
    crypto_verify pub (signed_part header claims) (from_base64url signature) = true /\
    now / 1000 < ag_expiresAt guest / 1000 + clockSkewSeconds service /\
    ag_issuedAt guest / 1000 - clockSkewSeconds service <= now / 1000 /\
    ag_expiresAt guest = ag_issuedAt guest + ttlSeconds service * 1000 /\
    UUID_V4 (ag_guestSessionId guest) = true /\ UUID_V4 (ag_jti guest) = true.
Proof.
  unfold verify. destruct (_ <? _)%nat; [done|].
  pose proof (str_join_split dot token) as Ht.
  destruct (str_split dot token) as [|header [|claims [|signature [|]]]]; try done.
  destruct (decodeJson header ≫= _) as [h|]; [|done].
  destruct (publicKeys service !! jh_kid h) as [pub|] eqn:Hpub; [|done].
  destruct (BASE64URL_PATTERN signature); [|done]. cbn [negb].
  destruct (crypto_verify _ _ _) eqn:Hv; [|done]. cbn [negb].
  destruct (decodeJson claims ≫= _) as [c|] eqn:Hc; [|done].
  destruct (_ =? _) eqn:Httl; [|done]. cbn [negb].
  destruct (_ <? jc_iat c) eqn:Hiat; [done|]. destruct (_ <=? _) eqn:Hexp; [done|].
  intros [= <-]. cbn [ag_expiresAt ag_issuedAt ag_guestSessionId ag_jti].
  exists header, claims, signature, (jh_kid h), pub. rewrite !Z.div_mul by done.
  apply bind_Some in Hc as (j & _ & Hj). destruct (claims_uuids j c Hj).
  split_and!; [done..|lia|lia|lia|done|done].
Qed.
End Laws.

(** *** Examples *)

(** Keys and signatures that satisfy the laws: a signature is the key and the message. *)
#[local] Instance sample_crypto : NodeCrypto := {|
  PrivateKey := string; PublicKey := string;
  private_type _ := "ed25519"; public_type _ := "ed25519";
  crypto_sign key m := String ":" (key +:+ m);
  crypto_verify key m s := bool_decide (s = String ":" (key +:+ m))
|}.

#[local] Instance sample_crypto_laws : NodeCryptoLaws.
Proof.
  constructor; [|done]. intros priv pub m m' Hv%bool_decide_eq_true.
  apply bool_decide_eq_true_2. injection Hv as Hv. f_equal. f_equal.
  assert (Hc : chars (priv +:+ m) = chars (pub +:+ m)) by by rewrite Hv.
  rewrite !chars_app in Hc. apply app_inv_tail in Hc.
  by rewrite <-(text_chars priv), Hc, text_chars.
Qed.

Definition sample_service : JwtTokenService := mkService "k1" 30 "key" {["k1" := "key"]} 3600.

Definition sample_input : Issuance :=
  mkIssuance "knight_bay_02" "BoldFox42" "3f2504e0-4f89-41d3-9a0c-0305e82c3301"
    1700003600000 1700000000000 "6fa459ea-ee8a-4ca4-894e-db77e160355e".

Definition sample_token : string := default "" (issue sample_service sample_input).

Lemma issued_tokens_verify_witness :
  verify sample_service sample_token 1700003629999 = judged sample_service sample_input 1700003629999 /\
  verify sample_service sample_token 1700003630000 = Err expired.
Proof.
  assert (Hc : construct "k1" 30 3600 "key" [mkFile true "k1.pem" "key"] = Some sample_service)
    by reflexivity.
  assert (Hi : issue sample_service sample_input = Some sample_token) by (vm_compute; reflexivity).
  assert (Hl : (String.length sample_token <= 8192)%nat)
    by (apply Nat.leb_le; vm_compute; reflexivity).
  split.
  - exact (issued_tokens_verify _ _ _ _ _ _ _ _ 1700003629999 Hc Hi Hl).
  - rewrite (issued_tokens_verify _ _ _ _ _ _ _ _ 1700003630000 Hc Hi Hl). reflexivity.
Defined.

Lemma verified_token_is_signed_witness :
  exists guest, verify sample_service sample_token 1700000000000 = Ok guest /\
    ag_expiresAt guest = ag_issuedAt guest + 3600 * 1000.
Proof.
  assert (Hv : verify sample_service sample_token 1700000000000 =
    Ok (mkGuest "knight_bay_02" 1700003600000 "3f2504e0-4f89-41d3-9a0c-0305e82c3301" 1700000000000
          "6fa459ea-ee8a-4ca4-894e-db77e160355e" "BoldFox42")) by (vm_compute; reflexivity).
  eexists. split; [exact Hv|].
  pose proof (verified_token_is_signed sample_service sample_token 1700000000000 _ Hv)
    as (? & ? & ? & ? & ? & _ & _ & _ & _ & _ & Ht & _). exact Ht.
Defined.
End Tokens.
