(* ===== verification/Database.v ===== *)
(** * Database access

    The tables of [src/prisma/schema.prisma] that the game repositories read
    and write, the queries they make, [transaction.service.ts] and
    [database-errors.ts].

    A table is a list of rows, or a finite map on its primary key; the state
    of the database is a [DB]. Transactions are [tx DB exn] computations: a
    transaction that throws leaves no trace ([run]). Every game transaction
    first locks its game row, so transactions on one game run one after the
    other; a read made before the lock is an argument of the operation, the
    database at that earlier moment.

    Columns hold what PostgreSQL stores: text, integers, time stamps in
    milliseconds since the epoch. Unique indexes are checked on insertion. The
    CHECK constraints and the deferred triggers on the tables of games are not
    checks of the model: [GameSystem] proves that they hold in every reachable
    state, so they never fire. *)

From S2P Require Export GameTypes Json GameClock.
Local Open Scope string_scope.
Local Open Scope list_scope.
Local Open Scope Z_scope.

(** ** Rows *)

Record GameRow : Type := mkGameRow {
  g_id : string;
  g_matchId : string;
  g_mode : string;
  g_status : string;
  g_initialFen : string;
  g_currentFen : string;
  g_turnColor : string;
  g_pgn : string;
  g_version : Z;
  g_result : option string;
  g_termination : option string;
  g_timeInitialMs : Z;
  g_incrementMs : Z;
  g_whiteClockMs : Z;
  g_blackClockMs : Z;
  g_turnStartedAt : option Z;
  g_joinDeadlineAt : option Z;
  g_reconnectDeadlineAt : option Z;
  g_startedAt : option Z;
  g_endedAt : option Z;
  g_updatedAt : Z
}.

Record PlayerRow : Type := mkPlayerRow {
  p_id : string;
  p_gameId : string;
  p_guestSessionId : string;
  p_color : string;
  p_slot : Z;
  p_joinedAt : option Z;
  p_connectedAt : option Z;
  p_disconnectedAt : option Z;
  p_reconnectGraceEndsAt : option Z
}.

(** The [data] object of a game update: the columns it names. *)
Inductive GameColumn : Type :=
| G_blackClockMs (v : Z)
| G_currentFen (v : string)
| G_endedAt (v : option Z)
| G_pgn (v : string)
| G_reconnectDeadlineAt (v : option Z)
| G_result (v : option string)
| G_startedAt (v : option Z)
| G_status (v : string)
| G_termination (v : option string)
| G_turnColor (v : string)
| G_turnStartedAt (v : option Z)
| G_updatedAt (v : Z)
| G_version_increment (by_ : Z)
| G_whiteClockMs (v : Z).

Definition set_GameColumn (u : GameColumn) (r : GameRow) : GameRow :=
  match u with
  | G_blackClockMs v =>
      mkGameRow (g_id r) (g_matchId r) (g_mode r) (g_status r) (g_initialFen r)
        (g_currentFen r) (g_turnColor r) (g_pgn r) (g_version r) (g_result r)
        (g_termination r) (g_timeInitialMs r) (g_incrementMs r) (g_whiteClockMs r) v
        (g_turnStartedAt r) (g_joinDeadlineAt r) (g_reconnectDeadlineAt r)
        (g_startedAt r) (g_endedAt r) (g_updatedAt r)
  | G_currentFen v =>
      mkGameRow (g_id r) (g_matchId r) (g_mode r) (g_status r) (g_initialFen r) v
        (g_turnColor r) (g_pgn r) (g_version r) (g_result r) (g_termination r)
        (g_timeInitialMs r) (g_incrementMs r) (g_whiteClockMs r) (g_blackClockMs r)
        (g_turnStartedAt r) (g_joinDeadlineAt r) (g_reconnectDeadlineAt r)
        (g_startedAt r) (g_endedAt r) (g_updatedAt r)
  | G_endedAt v =>
      mkGameRow (g_id r) (g_matchId r) (g_mode r) (g_status r) (g_initialFen r)
        (g_currentFen r) (g_turnColor r) (g_pgn r) (g_version r) (g_result r)
        (g_termination r) (g_timeInitialMs r) (g_incrementMs r) (g_whiteClockMs r)
        (g_blackClockMs r) (g_turnStartedAt r) (g_joinDeadlineAt r)
        (g_reconnectDeadlineAt r) (g_startedAt r) v (g_updatedAt r)
  | G_pgn v =>
      mkGameRow (g_id r) (g_matchId r) (g_mode r) (g_status r) (g_initialFen r)
        (g_currentFen r) (g_turnColor r) v (g_version r) (g_result r)
        (g_termination r) (g_timeInitialMs r) (g_incrementMs r) (g_whiteClockMs r)
        (g_blackClockMs r) (g_turnStartedAt r) (g_joinDeadlineAt r)
        (g_reconnectDeadlineAt r) (g_startedAt r) (g_endedAt r) (g_updatedAt r)
  | G_reconnectDeadlineAt v =>
      mkGameRow (g_id r) (g_matchId r) (g_mode r) (g_status r) (g_initialFen r)
        (g_currentFen r) (g_turnColor r) (g_pgn r) (g_version r) (g_result r)
        (g_termination r) (g_timeInitialMs r) (g_incrementMs r) (g_whiteClockMs r)
        (g_blackClockMs r) (g_turnStartedAt r) (g_joinDeadlineAt r) v (g_startedAt r)
        (g_endedAt r) (g_updatedAt r)
  | G_result v =>
      mkGameRow (g_id r) (g_matchId r) (g_mode r) (g_status r) (g_initialFen r)
        (g_currentFen r) (g_turnColor r) (g_pgn r) (g_version r) v (g_termination r)
        (g_timeInitialMs r) (g_incrementMs r) (g_whiteClockMs r) (g_blackClockMs r)
        (g_turnStartedAt r) (g_joinDeadlineAt r) (g_reconnectDeadlineAt r)
        (g_startedAt r) (g_endedAt r) (g_updatedAt r)
  | G_startedAt v =>
      mkGameRow (g_id r) (g_matchId r) (g_mode r) (g_status r) (g_initialFen r)
        (g_currentFen r) (g_turnColor r) (g_pgn r) (g_version r) (g_result r)
        (g_termination r) (g_timeInitialMs r) (g_incrementMs r) (g_whiteClockMs r)
        (g_blackClockMs r) (g_turnStartedAt r) (g_joinDeadlineAt r)
        (g_reconnectDeadlineAt r) v (g_endedAt r) (g_updatedAt r)
  | G_status v =>
      mkGameRow (g_id r) (g_matchId r) (g_mode r) v (g_initialFen r) (g_currentFen r)
        (g_turnColor r) (g_pgn r) (g_version r) (g_result r) (g_termination r)
        (g_timeInitialMs r) (g_incrementMs r) (g_whiteClockMs r) (g_blackClockMs r)
        (g_turnStartedAt r) (g_joinDeadlineAt r) (g_reconnectDeadlineAt r)
        (g_startedAt r) (g_endedAt r) (g_updatedAt r)
  | G_termination v =>
      mkGameRow (g_id r) (g_matchId r) (g_mode r) (g_status r) (g_initialFen r)
        (g_currentFen r) (g_turnColor r) (g_pgn r) (g_version r) (g_result r) v
        (g_timeInitialMs r) (g_incrementMs r) (g_whiteClockMs r) (g_blackClockMs r)
        (g_turnStartedAt r) (g_joinDeadlineAt r) (g_reconnectDeadlineAt r)
        (g_startedAt r) (g_endedAt r) (g_updatedAt r)
  | G_turnColor v =>
      mkGameRow (g_id r) (g_matchId r) (g_mode r) (g_status r) (g_initialFen r)
        (g_currentFen r) v (g_pgn r) (g_version r) (g_result r) (g_termination r)
        (g_timeInitialMs r) (g_incrementMs r) (g_whiteClockMs r) (g_blackClockMs r)
        (g_turnStartedAt r) (g_joinDeadlineAt r) (g_reconnectDeadlineAt r)
        (g_startedAt r) (g_endedAt r) (g_updatedAt r)
  | G_turnStartedAt v =>
      mkGameRow (g_id r) (g_matchId r) (g_mode r) (g_status r) (g_initialFen r)
        (g_currentFen r) (g_turnColor r) (g_pgn r) (g_version r) (g_result r)
        (g_termination r) (g_timeInitialMs r) (g_incrementMs r) (g_whiteClockMs r)
        (g_blackClockMs r) v (g_joinDeadlineAt r) (g_reconnectDeadlineAt r)
        (g_startedAt r) (g_endedAt r) (g_updatedAt r)
  | G_updatedAt v =>
      mkGameRow (g_id r) (g_matchId r) (g_mode r) (g_status r) (g_initialFen r)
        (g_currentFen r) (g_turnColor r) (g_pgn r) (g_version r) (g_result r)
        (g_termination r) (g_timeInitialMs r) (g_incrementMs r) (g_whiteClockMs r)
        (g_blackClockMs r) (g_turnStartedAt r) (g_joinDeadlineAt r)
        (g_reconnectDeadlineAt r) (g_startedAt r) (g_endedAt r) v
  | G_version_increment n =>
      mkGameRow (g_id r) (g_matchId r) (g_mode r) (g_status r) (g_initialFen r)
        (g_currentFen r) (g_turnColor r) (g_pgn r) (g_version r + n) (g_result r)
        (g_termination r) (g_timeInitialMs r) (g_incrementMs r) (g_whiteClockMs r)
        (g_blackClockMs r) (g_turnStartedAt r) (g_joinDeadlineAt r)
        (g_reconnectDeadlineAt r) (g_startedAt r) (g_endedAt r) (g_updatedAt r)
  | G_whiteClockMs v =>
      mkGameRow (g_id r) (g_matchId r) (g_mode r) (g_status r) (g_initialFen r)
        (g_currentFen r) (g_turnColor r) (g_pgn r) (g_version r) (g_result r)
        (g_termination r) (g_timeInitialMs r) (g_incrementMs r) v (g_blackClockMs r)
        (g_turnStartedAt r) (g_joinDeadlineAt r) (g_reconnectDeadlineAt r)
        (g_startedAt r) (g_endedAt r) (g_updatedAt r)
  end.

(** The [data] object of a player update. *)
Inductive PlayerColumn : Type :=
| P_joinedAt (v : option Z)
| P_connectedAt (v : option Z)
| P_disconnectedAt (v : option Z)
| P_reconnectGraceEndsAt (v : option Z).

Definition set_PlayerColumn (u : PlayerColumn) (r : PlayerRow) : PlayerRow :=
  match u with
  | P_joinedAt v =>
      mkPlayerRow (p_id r) (p_gameId r) (p_guestSessionId r) (p_color r) (p_slot r) v
        (p_connectedAt r) (p_disconnectedAt r) (p_reconnectGraceEndsAt r)
  | P_connectedAt v =>
      mkPlayerRow (p_id r) (p_gameId r) (p_guestSessionId r) (p_color r) (p_slot r)
        (p_joinedAt r) v (p_disconnectedAt r) (p_reconnectGraceEndsAt r)
  | P_disconnectedAt v =>
      mkPlayerRow (p_id r) (p_gameId r) (p_guestSessionId r) (p_color r) (p_slot r)
        (p_joinedAt r) (p_connectedAt r) v (p_reconnectGraceEndsAt r)
  | P_reconnectGraceEndsAt v =>
      mkPlayerRow (p_id r) (p_gameId r) (p_guestSessionId r) (p_color r) (p_slot r)
        (p_joinedAt r) (p_connectedAt r) (p_disconnectedAt r) v
  end.

Record MoveRow : Type := mkMoveRow {
  m_gameId : string;
  m_ply : Z;
  m_clientMoveId : string;
  m_guestSessionId : string;
  m_color : string;
  m_san : string;
  m_uci : string;
  m_fenBefore : string;
  m_fenAfter : string;
  m_serverReceivedAt : Z
}.

Record CommandRow : Type := mkCommandRow {
  c_commandType : string;
  c_guestSessionId : string;
  c_response : json;
  c_resultVersion : Z
}.

Record GuestRow : Type := mkGuestRow {
  s_createdAt : Z;
  s_displayName : string;
  s_avatarKey : string;
  s_currentJti : option string;
  s_issuedAt : Z;
  s_expiresAt : Z;
  s_revokedAt : option Z
}.

Record SessionCommandRow : Type := mkSessionCommandRow {
  sc_commandType : string;
  sc_guestSessionId : string;
  sc_issuedJti : option string;
  sc_issuedAt : option Z;
  sc_expiresAt : option Z
}.

Record DB : Type := mkDB {
  games : gmap string GameRow;                  (* by id *)
  players : list PlayerRow;
  moves : list MoveRow;
  assignments : gmap string string;             (* guestSessionId to gameId *)
  commands : gmap (string * string) CommandRow; (* by (gameId, eventId) *)
  guests : gmap string GuestRow;                (* by id *)
  sessionCommands : gmap string SessionCommandRow (* by idempotencyHash *)
}.

Definition with_games (f : gmap string GameRow -> gmap string GameRow) (d : DB) : DB :=
  mkDB (f (games d)) (players d) (moves d) (assignments d) (commands d) (guests d)
    (sessionCommands d).
Definition with_players (f : list PlayerRow -> list PlayerRow) (d : DB) : DB :=
  mkDB (games d) (f (players d)) (moves d) (assignments d) (commands d) (guests d)
    (sessionCommands d).
Definition with_moves (f : list MoveRow -> list MoveRow) (d : DB) : DB :=
  mkDB (games d) (players d) (f (moves d)) (assignments d) (commands d) (guests d)
    (sessionCommands d).
Definition with_assignments (f : gmap string string -> gmap string string) (d : DB) : DB :=
  mkDB (games d) (players d) (moves d) (f (assignments d)) (commands d) (guests d)
    (sessionCommands d).
Definition with_commands
    (f : gmap (string * string) CommandRow -> gmap (string * string) CommandRow)
    (d : DB) : DB :=
  mkDB (games d) (players d) (moves d) (assignments d) (f (commands d)) (guests d)
    (sessionCommands d).

Definition with_guests (f : gmap string GuestRow -> gmap string GuestRow) (d : DB) : DB :=
  mkDB (games d) (players d) (moves d) (assignments d) (commands d) (f (guests d))
    (sessionCommands d).
Definition with_sessionCommands
    (f : gmap string SessionCommandRow -> gmap string SessionCommandRow) (d : DB) : DB :=
  mkDB (games d) (players d) (moves d) (assignments d) (commands d) (guests d)
    (f (sessionCommands d)).

(** ** database-errors.ts *)

Definition RETRYABLE_CODES : list string :=
  ["40001"; "40P01"; "55P03"; "57014"; "P2034"].
Definition UNIQUE_CODES : list string := ["23505"; "P2002"].
Definition CONSTRAINT_CODES : list string :=
  ["23502"; "23503"; "23514"; "23P01"; "P2003"; "P2004"].
Definition UNAVAILABLE_CODES : list string :=
  ["08000"; "08001"; "08003"; "08004"; "08006"; "08007"; "08P01"; "57P01";
   "57P02"; "57P03"; "ECONNREFUSED"; "ECONNRESET"; "ENOTFOUND"; "EPIPE";
   "ETIMEDOUT"; "P1000"; "P1001"; "P1002"; "P1008"; "P1017"].

Definition code_of (e : GameDomainErrorCode) : string :=
  match e with
  | ILLEGAL_GAME_TRANSITION => "ILLEGAL_GAME_TRANSITION"
  | INVALID_CLOCK_STATE => "INVALID_CLOCK_STATE"
  | INVALID_GAME_STATE => "INVALID_GAME_STATE"
  | INVALID_TERMINAL_EVENT => "INVALID_TERMINAL_EVENT"
  end.

Definition service_code (e : GameServiceErrorCode) : string :=
  match e with
  | ALLOCATION_MISMATCH => "ALLOCATION_MISMATCH"
  | CLOCK_EXPIRED => "CLOCK_EXPIRED"
  | DEPENDENCY_UNAVAILABLE => "DEPENDENCY_UNAVAILABLE"
  | GAME_ALREADY_ENDED => "GAME_ALREADY_ENDED"
  | GAME_NOT_FOUND => "GAME_NOT_FOUND"
  | GAME_STATE_CORRUPT => "GAME_STATE_CORRUPT"
  | GAME_UNAVAILABLE => "GAME_UNAVAILABLE"
  | GUEST_ALREADY_IN_GAME => "GUEST_ALREADY_IN_GAME"
  | GUEST_NOT_ELIGIBLE => "GUEST_NOT_ELIGIBLE"
  | IDEMPOTENCY_KEY_REUSED => "IDEMPOTENCY_KEY_REUSED"
  | ILLEGAL_MOVE => "ILLEGAL_MOVE"
  | NOT_A_PLAYER => "NOT_A_PLAYER"
  | NOT_YOUR_TURN => "NOT_YOUR_TURN"
  | STALE_GAME_VERSION => "STALE_GAME_VERSION"
  end.

Definition chess_code (e : ChessEngineErrorCode) : string :=
  match e with
  | CHESS_GAME_STATE_CORRUPT => "GAME_STATE_CORRUPT"
  | CHESS_ILLEGAL_MOVE => "ILLEGAL_MOVE"
  | CHESS_INVALID_INITIAL_POSITION => "INVALID_INITIAL_POSITION"
  end.

(** An [EDatabase] value never gets here: [toDatabaseError] returns it first, and
    nothing wraps one in another error. *)
Fixpoint readCode (error : exn) : option string :=
  match error with
  | ENative PlainObject (Some code) _ _ => Some code
  | ENative PlainObject None _ cause => readCode cause
  | ENative _ code _ _ => code
  | EGameDomain code => Some (code_of code)
  | EGameService error => Some (service_code (gse_code error))
  | EChessEngine code => Some (chess_code code)
  | EDatabase _ _ | EOther => None
  end.

(** The messages of the program's own classes are not modelled; none of them
    matches the pattern below, and the code reads a message only to match it. *)
Fixpoint readMessage (error : exn) : option string :=
  match error with
  | ENative _ _ (Some message) _ => Some message
  | ENative _ _ None cause => readMessage cause
  | _ => None
  end.

Definition line_terminator (c : Ascii.ascii) : bool :=
  let n := Ascii.nat_of_ascii c in (Nat.eqb n 10 || Nat.eqb n 13)%nat.

(** [.*(?:p|q)]: one of the alternatives occurs before the line ends. *)
Fixpoint on_line (p q s : string) : bool :=
  startsWith p s || startsWith q s ||
  match s with
  | EmptyString => false
  | String c s => negb (line_terminator c) && on_line p q s
  end.

(** [transaction.*(?:expired|timeout)], searched anywhere. *)
Fixpoint transaction_gone (s : string) : bool :=
  (startsWith "transaction" s && on_line "expired" "timeout" (String.substring 11 (String.length s) s)) ||
  match s with EmptyString => false | String _ s => transaction_gone s end.

(** The regular expression of [toDatabaseError]; [timed? out] is [time out] or
    [timed out]. *)
Definition UNAVAILABLE_PATTERN (message : string) : bool :=
  let m := toLower message in
  contains "query read timeout" m ||
  contains "connection terminated" m || contains "connection closed unexpectedly" m ||
  transaction_gone m ||
  contains "time out" m || contains "timed out" m ||
  contains "timeout for this transaction" m.

Definition has (codes : list string) (code : option string) : bool :=
  match code with None => false | Some code => includes codes code end.

Definition is_initialization (error : exn) : bool :=
  match error with ENative PrismaInitialization _ _ _ => true | _ => false end.

Definition toDatabaseError (error : exn) : exn :=
  match error with
  | EDatabase _ _ => error
  | _ =>
      let code := readCode error in
      if has UNIQUE_CODES code then EDatabase Unique false else
      if has RETRYABLE_CODES code then EDatabase Retryable true else
      if has CONSTRAINT_CODES code then EDatabase Constraint false else
      if has UNAVAILABLE_CODES code
         || UNAVAILABLE_PATTERN (default "" (readMessage error))
         || is_initialization error
      then EDatabase Unavailable true
      else EDatabase Unknown false
  end.

(** ** The database client

    What Prisma throws when PostgreSQL refuses a statement; the codes are
    those of Prisma's error reference. *)
Class Prisma : Type := {
  prisma_uniqueViolation : exn;
  prisma_recordNotFound : exn;
  prisma_rawQueryFailed : exn;
  prisma_checkViolation : exn
}.

Class PrismaLaws `{Prisma} : Prop := {
  uniqueViolation_code : readCode prisma_uniqueViolation = Some "P2002"
}.

(** What a transaction observes besides the tables: [clock_timestamp()], in
    microseconds; the time Prisma writes in an [@updatedAt] column; the ids
    [gen_random_uuid()] makes for the two player rows of a new game. *)
Record Env : Type := mkEnv {
  env_clock_timestamp : Z;
  env_updatedAt : Z;
  env_playerIds : string * string
}.

(** A [clock_timestamp()] as the [Date] the client reads. *)
Definition env_observedAt (env : Env) : Z := env_clock_timestamp env / 1000.

(** ** Queries *)

Definition set_GameColumns (data : list GameColumn) (row : GameRow) : GameRow :=
  fold_left (fun r u => set_GameColumn u r) data row.
Definition set_PlayerColumns (data : list PlayerColumn) (row : PlayerRow) : PlayerRow :=
  fold_left (fun r u => set_PlayerColumn u r) data row.

(** The row with the given id, the rows of the given game. *)
Definition on_player (id : string) (data : list PlayerColumn) (r : PlayerRow) : PlayerRow :=
  if decide (p_id r = id) then set_PlayerColumns data r else r.
Definition on_game_players (gid : string) (data : list PlayerColumn) (r : PlayerRow)
    : PlayerRow :=
  if decide (p_gameId r = gid) then set_PlayerColumns data r else r.

(** [orderBy: { slot: 'asc' }] and [orderBy: { ply: 'asc' }] *)
Definition bySlot (x y : PlayerRow) : bool := p_slot x <=? p_slot y.
Definition byPly (x y : MoveRow) : bool := m_ply x <=? m_ply y.

(** The rows of a game, unordered and as [include] loads them. *)
Definition playerRows (db : DB) (gameId : string) : list PlayerRow :=
  filter (fun r => p_gameId r = gameId) (players db).
Definition moveRows (db : DB) (gameId : string) : list MoveRow :=
  filter (fun r => m_gameId r = gameId) (moves db).
Definition gamePlayers (db : DB) (gameId : string) : list PlayerRow :=
  orderBy bySlot (playerRows db gameId).
Definition gameMoves (db : DB) (gameId : string) : list MoveRow :=
  orderBy byPly (moveRows db gameId).

Section Queries.
Context `{Prisma} (env : Env).

(** [game.updateMany({ data, where: { id, version } })]; Prisma also writes
    [updatedAt]. The result is the count. *)
Definition game_updateMany (gameId : string) (version : Z) (data : list GameColumn)
    : tx DB exn Z := fun db =>
  match games db !! gameId with
  | Some row =>
      if g_version row =? version then
        Ok (1, with_games
                 <[gameId := set_GameColumns (data ++ [G_updatedAt (env_updatedAt env)]) row]>
                 db)
      else Ok (0, db)
  | None => Ok (0, db)
  end.

(** [gamePlayer.update({ data, where: { id } })] *)
Definition gamePlayer_update (id : string) (data : list PlayerColumn)
    : tx DB exn () := fun db =>
  if existsb (fun r => bool_decide (p_id r = id)) (players db) then
    Ok ((), with_players
              (map (on_player id data))
              db)
  else Err prisma_recordNotFound.

(** [gamePlayer.updateMany({ data, where: { gameId } })] *)
Definition gamePlayer_updateMany (gameId : string) (data : list PlayerColumn)
    : tx DB exn () :=
  tx_write (with_players
    (map (on_game_players gameId data))).

(** [move.create({ data })], under the unique indexes
    [(game_id, client_move_id)] and [(game_id, ply)]. *)
Definition moveConflict (db : DB) (row : MoveRow) : bool :=
  existsb (fun r => bool_decide (m_gameId r = m_gameId row) &&
                    (bool_decide (m_clientMoveId r = m_clientMoveId row) ||
                     (m_ply r =? m_ply row)))
    (moves db).

Definition move_create (row : MoveRow) : tx DB exn () := fun db =>
  if moveConflict db row then Err prisma_uniqueViolation
  else Ok ((), with_moves (fun l => l ++ [row]) db).

(** [gameCommand.create({ data })], unique on [(game_id, event_id)]. *)
Definition gameCommand_create (gameId eventId : string) (row : CommandRow)
    : tx DB exn () := fun db =>
  match commands db !! (gameId, eventId) with
  | Some _ => Err prisma_uniqueViolation
  | None => Ok ((), with_commands <[(gameId, eventId) := row]> db)
  end.

(** [activeGameAssignment.deleteMany({ where: { gameId } })] *)
Definition assignment_deleteMany (gameId : string) : tx DB exn () :=
  tx_write (with_assignments (filter (fun kv => kv.2 <> gameId))).

Definition game_findUnique (gameId : string) : tx DB exn (option GameRow) :=
  tx_read (fun db => games db !! gameId).

Definition gameCommand_findUnique (gameId eventId : string)
    : tx DB exn (option CommandRow) :=
  tx_read (fun db => commands db !! (gameId, eventId)).

(** [game.findUnique({ where: { matchId } })] *)
Definition findByMatch (db : DB) (matchId : string) : option GameRow :=
  List.find (fun r => bool_decide (g_matchId r = matchId)) (map snd (map_to_list (games db))).
End Queries.

(** ** transaction.service.ts *)

Record LockedGameClock : Type := mkLockedGameClock {
  lg_blackClockMs : Z;
  lg_observedAt : Z;
  lg_status : string;
  lg_turnColor : string;
  lg_turnStartedAt : option Z;
  lg_version : Z;
  lg_whiteClockMs : Z
}.

Section TransactionService.
Context `{Prisma} (env : Env).

(** [run(work)]: the transaction commits, or leaves the database as it was
    and throws the error as a [DatabaseError]. *)
Definition run {A} (work : tx DB exn A) (db : DB) : result exn A * DB :=
  match work db with
  | Ok (a, db') => (Ok a, db')
  | Err e => (Err (toDatabaseError e), db)
  end.

(** [lockGuestSessions]: the rows it locks, in the order it locks them. *)
Definition lockGuestSessions (guestSessionIds : list string)
    : tx DB exn (list string) :=
  let sortedIds := orderBy String.leb (remove_dups guestSessionIds) in
  tx_read (fun db => filter (fun id => is_Some (guests db !! id)) sortedIds).

(** [floor(extract(epoch FROM observedAt - turn_started_at) * 1000)::INTEGER];
    the subtraction is exact to the microsecond, the cast fails outside the
    range of an [INTEGER]. *)
Definition elapsedInteger (turnStartedAt : Z) : result exn Z :=
  let elapsedMs := (env_clock_timestamp env - turnStartedAt * 1000) / 1000 in
  if int4 elapsedMs then Ok elapsedMs else Err prisma_rawQueryFailed.

(** One [CASE] of the query: the clock of [color]. [INTEGER] subtraction
    fails when it overflows. *)
Definition lockedClockMs (row : GameRow) (color : PlayerColor) (clockMs : Z)
    : result exn Z :=
  if includes ["IN_PROGRESS"; "RECONNECTING"] (g_status row)
     && bool_decide (g_turnColor row = toString color) then
    match g_turnStartedAt row with
    | None => Ok clockMs
    | Some startedAt =>
        elapsedMs ← elapsedInteger startedAt;
        if int4 (clockMs - elapsedMs) then Ok (Z.max 0 (clockMs - elapsedMs))
        else Err prisma_rawQueryFailed
    end
  else Ok clockMs.

Definition lockGameClock (gameId : string) : tx DB exn (option LockedGameClock) :=
  row ← game_findUnique gameId;
  match row with
  | None => mret None
  | Some row =>
      whiteClockMs ← tx_lift (lockedClockMs row w (g_whiteClockMs row));
      blackClockMs ← tx_lift (lockedClockMs row b (g_blackClockMs row));
      mret (Some (mkLockedGameClock blackClockMs (env_observedAt env) (g_status row)
                    (g_turnColor row) (g_turnStartedAt row) (g_version row)
                    whiteClockMs))
  end.

Definition updateGameAtVersion (gameId : string) (expectedVersion : Z)
    (data : list GameColumn) : tx DB exn (option Z) :=
  count ← game_updateMany env gameId expectedVersion (data ++ [G_version_increment 1]);
  mret (if count =? 1 then Some (expectedVersion + 1) else None).
End TransactionService.

(** ** What the queries do *)

(** The games table is keyed by the rows' ids. *)
Definition keyed (db : DB) : Prop :=
  forall gid row, games db !! gid = Some row -> g_id row = gid.

Section QueryLemmas.
Context `{Prisma} (env : Env).

Lemma game_updateMany_eval gid v data db row :
  games db !! gid = Some row -> g_version row = v ->
  game_updateMany env gid v data db =
    Ok (1, with_games
             <[gid := set_GameColumns (data ++ [G_updatedAt (env_updatedAt env)]) row]> db).
Proof. intros Hrow <-. unfold game_updateMany. by rewrite Hrow, Z.eqb_refl. Qed.

Lemma gamePlayer_update_eval id data db :
  (exists r, r ∈ players db /\ p_id r = id) ->
  gamePlayer_update id data db =
    Ok ((), with_players
              (map (on_player id data))
              db).
Proof.
  intros (r & Hr & Hid). unfold gamePlayer_update.
  rewrite (proj2 (existsb_exists _ _)); [done|].
  exists r. split; [by apply list_elem_of_In|by apply bool_decide_eq_true].
Qed.

Lemma lockGameClock_missing gid db :
  games db !! gid = None -> lockGameClock env gid db = Ok (None, db).
Proof.
  intros Hg. unfold lockGameClock, game_findUnique, mbind, tx_bind, tx_read. by rewrite Hg.
Qed.
End QueryLemmas.

Lemma p_gameId_set data r : p_gameId (set_PlayerColumns data r) = p_gameId r.
Proof.
  unfold set_PlayerColumns. revert r. induction data as [|u data IH]; intros r; simpl; [done|].
  rewrite IH. by destruct u.
Qed.

Lemma p_slot_set data r : p_slot (set_PlayerColumns data r) = p_slot r.
Proof.
  unfold set_PlayerColumns. revert r. induction data as [|u data IH]; intros r; simpl; [done|].
  rewrite IH. by destruct u.
Qed.

Lemma p_id_set data r : p_id (set_PlayerColumns data r) = p_id r.
Proof.
  unfold set_PlayerColumns. revert r. induction data as [|u data IH]; intros r; simpl; [done|].
  rewrite IH. by destruct u.
Qed.

Lemma p_guest_set data r : p_guestSessionId (set_PlayerColumns data r) = p_guestSessionId r.
Proof.
  unfold set_PlayerColumns. revert r. induction data as [|u data IH]; intros r; simpl; [done|].
  rewrite IH. by destruct u.
Qed.

Lemma p_color_set data r : p_color (set_PlayerColumns data r) = p_color r.
Proof.
  unfold set_PlayerColumns. revert r. induction data as [|u data IH]; intros r; simpl; [done|].
  rewrite IH. by destruct u.
Qed.

#[export] Hint Rewrite p_gameId_set p_slot_set p_id_set p_guest_set p_color_set : cluchess.

(** Updating players keeps games' lists of players, row by row. *)
Lemma gamePlayers_map f db gid :
  (forall r, p_gameId (f r) = p_gameId r) -> (forall r, p_slot (f r) = p_slot r) ->
  gamePlayers (with_players (map f) db) gid = map f (gamePlayers db gid).
Proof.
  intros Hg Hs. unfold gamePlayers, playerRows. simpl.
  rewrite filter_map_same by (intros; by rewrite Hg).
  apply orderBy_map. intros. unfold bySlot. by rewrite !Hs.
Qed.

Lemma gamePlayers_on_player db gid id data :
  gamePlayers (with_players (map (on_player id data)) db) gid =
  map (on_player id data) (gamePlayers db gid).
Proof.
  apply gamePlayers_map; intros r; unfold on_player; case_decide;
    by autorewrite with cluchess.
Qed.

Lemma gamePlayers_on_game db gid gid' data :
  gamePlayers (with_players (map (on_game_players gid data)) db) gid' =
  map (on_game_players gid data) (gamePlayers db gid').
Proof.
  apply gamePlayers_map; intros r; unfold on_game_players; case_decide;
    by autorewrite with cluchess.
Qed.

Lemma gamePlayers_elem db gid r :
  r ∈ gamePlayers db gid <-> r ∈ players db /\ p_gameId r = gid.
Proof.
  unfold gamePlayers. rewrite orderBy_perm. unfold playerRows.
  rewrite list_elem_of_filter. naive_solver.
Qed.

Lemma gameMoves_elem db gid r :
  r ∈ gameMoves db gid <-> r ∈ moves db /\ m_gameId r = gid.
Proof.
  unfold gameMoves. rewrite orderBy_perm. unfold moveRows.
  rewrite list_elem_of_filter. naive_solver.
Qed.

(** ** The locked clock *)

Section Locked.
Context `{Prisma} (env : Env).

Definition is_running (row : GameRow) : bool :=
  includes ["IN_PROGRESS"; "RECONNECTING"] (g_status row).

Definition runs (row : GameRow) (color : PlayerColor) : bool :=
  is_running row && bool_decide (g_turnColor row = toString color).

(** The clock the query reports, and whether its integer arithmetic fits. *)
Definition locked_ms (row : GameRow) (color : PlayerColor) (clockMs : Z) : Z :=
  match runs row color, g_turnStartedAt row with
  | true, Some startedAt => Z.max 0 (clockMs - (env_observedAt env - startedAt))
  | _, _ => clockMs
  end.

Definition locked_fits (row : GameRow) (color : PlayerColor) (clockMs : Z) : bool :=
  match runs row color, g_turnStartedAt row with
  | true, Some startedAt =>
      int4 (env_observedAt env - startedAt) &&
      int4 (clockMs - (env_observedAt env - startedAt))
  | _, _ => true
  end.

Definition lock_fits (row : GameRow) : bool :=
  locked_fits row w (g_whiteClockMs row) && locked_fits row b (g_blackClockMs row).

Definition locked_of (row : GameRow) : LockedGameClock :=
  mkLockedGameClock (locked_ms row b (g_blackClockMs row)) (env_observedAt env)
    (g_status row) (g_turnColor row) (g_turnStartedAt row) (g_version row)
    (locked_ms row w (g_whiteClockMs row)).

Lemma elapsedInteger_eval s :
  elapsedInteger env s =
    if int4 (env_observedAt env - s) then Ok (env_observedAt env - s)
    else Err prisma_rawQueryFailed.
Proof.
  unfold elapsedInteger, env_observedAt.
  replace (env_clock_timestamp env - s * 1000)
    with (env_clock_timestamp env + (- s) * 1000) by lia.
  rewrite Z.div_add by lia. by replace (_ / 1000 + - s) with (env_clock_timestamp env / 1000 - s) by lia.
Qed.

Lemma lockedClockMs_eval row color clockMs :
  lockedClockMs env row color clockMs =
    if locked_fits row color clockMs then Ok (locked_ms row color clockMs)
    else Err prisma_rawQueryFailed.
Proof.
  unfold lockedClockMs, locked_fits, locked_ms, runs, is_running.
  destruct (includes _ _ && _); [|done].
  destruct (g_turnStartedAt row) as [s|]; [|done].
  rewrite elapsedInteger_eval. by destruct (int4 (_ - s)); simpl; [case_match|].
Qed.

Lemma lockGameClock_eval gid db row :
  games db !! gid = Some row ->
  lockGameClock env gid db =
    if lock_fits row then Ok (Some (locked_of row), db) else Err prisma_rawQueryFailed.
Proof.
  intros Hrow. unfold lockGameClock, game_findUnique, mbind, tx_bind, tx_read, tx_lift.
  rewrite Hrow, !lockedClockMs_eval. unfold lock_fits.
  by destruct (locked_fits row w _), (locked_fits row b _).
Qed.

Lemma lockGameClock_Ok gid db lg db' :
  lockGameClock env gid db = Ok (lg, db') ->
  db' = db /\
  match lg with
  | None => games db !! gid = None
  | Some lg => exists row, games db !! gid = Some row /\ lock_fits row = true /\
                           lg = locked_of row
  end.
Proof.
  destruct (games db !! gid) as [row|] eqn:Hrow.
  - rewrite (lockGameClock_eval _ _ _ Hrow). destruct (lock_fits row) eqn:Hf; [|done].
    intros [= <- <-]. eauto.
  - rewrite lockGameClock_missing by done. by intros [= <- <-].
Qed.

Lemma runs_exclusive row : runs row w && runs row b = false.
Proof.
  unfold runs. destruct (is_running row); simpl; [|done].
  destruct (decide (g_turnColor row = toString w)) as [E|E];
    [by rewrite E|by rewrite (bool_decide_eq_false_2 _ E)].
Qed.

(** A turn less than 24 days old never overflows. *)
Lemma lock_fits_recent row :
  int4 (g_whiteClockMs row) = true -> int4 (g_blackClockMs row) = true ->
  0 <= g_whiteClockMs row -> 0 <= g_blackClockMs row ->
  (forall s, g_turnStartedAt row = Some s ->
     0 <= env_observedAt env - s <= INT4_MAX) ->
  lock_fits row = true.
Proof.
  rewrite !int4_true. intros Hw Hb Hw0 Hb0 Hs.
  unfold lock_fits, locked_fits.
  destruct (g_turnStartedAt row) as [s|]; [specialize (Hs s eq_refl)|by do 2 case_match].
  do 2 case_match; rewrite ?andb_true_iff, ?int4_true; unfold INT4_MAX in *; lia.
Qed.
End Locked.

(** The clock of a game as the domain sees it while [color] is to move. *)
Definition domain_clock (row : GameRow) (color : PlayerColor) : GameClock :=
  mkGameClock (g_blackClockMs row) (g_incrementMs row) (Some color)
    (Some <$> g_turnStartedAt row) (g_whiteClockMs row).

(** The clocks the SQL query of lockGameClock computes are those the domain
    clock shows at the same moment (clockViewAt): for a running game whose turn
    started no later than the observation, whose clock is well formed and whose
    integers fit the database's INTEGER columns, the query succeeds, reports the
    row's status, turn and version, and its two clocks are the domain's. *)
Theorem lockGameClock_agrees_with_clockViewAt `{Prisma} env db gid row (c : PlayerColor) s :
  games db !! gid = Some row ->
  is_running row = true -> g_turnColor row = toString c ->
  g_turnStartedAt row = Some s ->
  clock_ok (domain_clock row c) ->
  int4 (g_whiteClockMs row) = true -> int4 (g_blackClockMs row) = true ->
  s <= env_observedAt env <= s + INT4_MAX ->
  date_range (env_observedAt env) ->
  exists lg view,
    lockGameClock env gid db = Ok (Some lg, db) /\
    clockViewAt (domain_clock row c) (Some (env_observedAt env)) = Ok view /\
    lg_whiteClockMs lg = cv_whiteMs view /\ lg_blackClockMs lg = cv_blackMs view /\
    Some (lg_observedAt lg) = cv_observedAt view /\
    lg_status lg = g_status row /\ lg_turnColor lg = toString c /\
    lg_version lg = g_version row.
Proof.
  intros Hrow Hrun Hc Hs Hok Hw Hb Ht Hd.
  pose proof Hok as (Hw0 & Hb0 & _). simpl in Hw0, Hb0.
  eexists _, _. split; [|split].
  - rewrite (lockGameClock_eval _ _ _ _ Hrow).
    rewrite lock_fits_recent; try done; try lia. intros s' Hs'. rewrite Hs in Hs'. injection Hs' as <-. lia.
  - apply (clockViewAt_eval _ c s Hok); [done| |done]. unfold domain_clock. simpl. by rewrite Hs.
  - simpl. unfold locked_ms, runs. rewrite Hrun, Hc, Hs. unfold elapsed.
    rewrite (Z.max_r 0 (env_observedAt env - s)) by lia.
    destruct c; simpl; repeat split; try done; lia.
Qed.

Definition sample_prisma : Prisma := {|
  prisma_uniqueViolation := ENative PrismaKnownRequest (Some "P2002") None EOther;
  prisma_recordNotFound := ENative PrismaKnownRequest (Some "P2025") None EOther;
  prisma_rawQueryFailed := ENative PrismaKnownRequest (Some "P2010") None EOther;
  prisma_checkViolation := ENative PrismaKnownRequest (Some "P2004") None EOther
|}.

Lemma sample_prisma_laws : @PrismaLaws sample_prisma.
Proof. by constructor. Qed.

Definition sample_row : GameRow :=
  mkGameRow "game-1" "match-1" "BLITZ" "IN_PROGRESS" "start" "start" "w" "" 2 None None
    180000 2000 180000 175000 (Some 1000000) (Some 900000) None (Some 990000) None 990000.

Definition sample_players : list PlayerRow :=
  [mkPlayerRow "p-w" "game-1" "alice" "w" 0 (Some 900000) (Some 900000) None None;
   mkPlayerRow "p-b" "game-1" "bob" "b" 1 (Some 900000) (Some 900000) None None].

Definition sample_db : DB :=
  mkDB {["game-1" := sample_row]} sample_players []
    {["alice" := "game-1"; "bob" := "game-1"]} ∅ ∅ ∅.

Definition env_at (ms : Z) : Env := mkEnv (ms * 1000 + 250) ms ("p-new-w", "p-new-b").

Lemma lockGameClock_agrees_with_clockViewAt_witness :
  exists lg view,
    @lockGameClock sample_prisma (env_at 1030000) "game-1" sample_db = Ok (Some lg, sample_db) /\
    clockViewAt (domain_clock sample_row w) (Some 1030000) = Ok view /\
    lg_whiteClockMs lg = cv_whiteMs view /\ lg_blackClockMs lg = cv_blackMs view /\
    Some (lg_observedAt lg) = cv_observedAt view /\
    lg_status lg = "IN_PROGRESS" /\ lg_turnColor lg = "w" /\ lg_version lg = 2.
Proof.
  apply (@lockGameClock_agrees_with_clockViewAt sample_prisma (env_at 1030000) sample_db
           "game-1" sample_row w 1000000); try reflexivity;
    vm_compute; repeat split; discriminate.
Defined.

(** C25: a turn older than 2^31 - 1 milliseconds makes the lock query fail: the
    elapsed time does not fit the INTEGER it is cast to, so lockGameClock throws
    and every transaction that starts with it fails with an error that is neither
    retryable nor a result, leaving the database as it was. *)
Theorem lockGameClock_overflows `{Prisma} env db gid row (c : PlayerColor) s {A}
    (work : option LockedGameClock -> tx DB exn A) :
  games db !! gid = Some row ->
  is_running row = true -> g_turnColor row = toString c ->
  g_turnStartedAt row = Some s ->
  s + INT4_MAX < env_observedAt env ->
  run (locked ← lockGameClock env gid; work locked) db =
    (Err (toDatabaseError prisma_rawQueryFailed), db).
Proof.
  intros Hrow Hrun Hc Hs Ht. unfold run, mbind, tx_bind.
  rewrite (lockGameClock_eval _ _ _ _ Hrow).
  replace (lock_fits env row) with false; [done|].
  unfold lock_fits, locked_fits, runs. rewrite Hrun, Hc, Hs. symmetry.
  assert (int4 (env_observedAt env - s) = false) as Hi
    by (apply not_true_iff_false; rewrite int4_true; lia).
  rewrite Hi. by destruct c.
Qed.

Lemma lockGameClock_overflows_witness :
  run
      (locked ← @lockGameClock sample_prisma (env_at (1000000 + 2147483648)) "game-1";
       mret (isNull locked)) sample_db =
    (Err (EDatabase Unknown false), sample_db).
Proof.
  apply (@lockGameClock_overflows sample_prisma (env_at (1000000 + 2147483648)) sample_db
           "game-1" sample_row w 1000000 bool (fun locked => mret (isNull locked)));
    reflexivity.
Defined.

(** ** Classification of database errors *)

Definition is_database (e : exn) : bool :=
  match e with EDatabase _ _ => true | _ => false end.

Definition is_program_error (e : exn) : bool :=
  match e with EGameDomain _ | EGameService _ | EChessEngine _ => true | _ => false end.

Lemma has_true codes code : code ∈ codes -> has codes (Some code) = true.
Proof. intros. by apply includes_true. Qed.

Lemma has_disjoint l1 l2 code :
  forallb (fun x => negb (includes l2 x)) l1 = true -> code ∈ l1 ->
  has l2 (Some code) = false.
Proof.
  intros Hd Hc. rewrite forallb_forall in Hd.
  apply list_elem_of_In, Hd in Hc. by apply negb_true_iff.
Qed.

Lemma toDatabaseError_kind e :
  is_database e = false ->
  exists k, toDatabaseError e = EDatabase k (includes [Retryable; Unavailable] k).
Proof.
  intros He. destruct e; try done; unfold toDatabaseError; repeat case_match;
    first [by exists Unique|by exists Retryable|by exists Constraint
          |by exists Unavailable|by exists Unknown].
Qed.

Lemma toDatabaseError_total e : exists k r, toDatabaseError e = EDatabase k r.
Proof.
  destruct (is_database e) eqn:He; [destruct e; simplify_eq; simpl; eauto|].
  destruct (toDatabaseError_kind e He) as [k ->]. eauto.
Qed.

(** ToDatabaseError is total, classifies every error once and only once
    (classifying a DatabaseError again changes nothing), marks exactly the kinds
    'retryable' and 'unavailable' as retryable, and gives each SQLSTATE or Prisma
    code of its four tables the kind of that table: no code is in two of them, so
    the order of the tests does not matter. Errors of the program's own classes are
    'unknown', and an object without code and message is classified as its cause. *)
Theorem toDatabaseError_classification e :
  is_database e = false ->
  (exists k, toDatabaseError e = EDatabase k (includes [Retryable; Unavailable] k)) /\
  toDatabaseError (toDatabaseError e) = toDatabaseError e /\
  (forall code, readCode e = Some code ->
    (code ∈ UNIQUE_CODES -> toDatabaseError e = EDatabase Unique false) /\
    (code ∈ RETRYABLE_CODES -> toDatabaseError e = EDatabase Retryable true) /\
    (code ∈ CONSTRAINT_CODES -> toDatabaseError e = EDatabase Constraint false) /\
    (code ∈ UNAVAILABLE_CODES -> toDatabaseError e = EDatabase Unavailable true)) /\
  (is_program_error e = true -> toDatabaseError e = EDatabase Unknown false) /\
  (is_initialization e = false ->
    toDatabaseError (ENative PlainObject None None e) = toDatabaseError e).
Proof.
  intros He. split; [by apply toDatabaseError_kind|]. split.
  { destruct (toDatabaseError_kind e He) as [k ->]. done. }
  split; [|split].
  - intros code Hcode.
    assert (toDatabaseError e =
      (if has UNIQUE_CODES (Some code) then EDatabase Unique false else
       if has RETRYABLE_CODES (Some code) then EDatabase Retryable true else
       if has CONSTRAINT_CODES (Some code) then EDatabase Constraint false else
       if has UNAVAILABLE_CODES (Some code)
          || UNAVAILABLE_PATTERN (default "" (readMessage e)) || is_initialization e
       then EDatabase Unavailable true else EDatabase Unknown false)) as ->
      by (rewrite <- Hcode; by destruct e).
    repeat split; intros Hin;
      match type of Hin with
      | _ ∈ ?L =>
          try rewrite (has_disjoint L UNIQUE_CODES code eq_refl Hin);
          try rewrite (has_disjoint L RETRYABLE_CODES code eq_refl Hin);
          try rewrite (has_disjoint L CONSTRAINT_CODES code eq_refl Hin);
          by rewrite (has_true L code Hin)
      end.
  - destruct e as [[]|[[] ? ? ?]|[]|? ?|? ? ? ?|]; simpl; intros Hp; try discriminate Hp;
      reflexivity.
  - intros Hi. destruct e as [| | | |[] [] []|]; try done; unfold toDatabaseError; simpl.
    all: by rewrite ?orb_false_r.
Qed.

Lemma toDatabaseError_classification_witness :
  let e := ENative PlainObject None None (ENative PrismaKnownRequest (Some "P2034") None EOther) in
  readCode e = Some "P2034" /\ toDatabaseError e = EDatabase Retryable true.
Proof.
  set (e := ENative PlainObject None None (ENative PrismaKnownRequest (Some "P2034") None EOther)).
  split; [reflexivity|].
  pose proof (toDatabaseError_classification e eq_refl) as (_ & _ & Hcode & _).
  destruct (Hcode "P2034" eq_refl) as (_ & Hretry & _).
  apply Hretry. by apply includes_true.
Defined.
