(* ===== verification/Schema.v ===== *)
(** * Constraints of the database schema

    The CHECK constraints on [games] and [game_players] and the function of the
    deferred constraint triggers, from
    [src/prisma/migrations/20260724010000_phase_2_durable_persistence/migration.sql].
    The queries of [Database] do not evaluate them: [GameInvariant] proves that
    no operation can leave rows that break them. *)

From S2P Require Export Database.
Local Open Scope string_scope.
Local Open Scope list_scope.
Local Open Scope Z_scope.

(** [column IS NULL OR column IN (..)] *)
Definition nullOrIn (values : list string) (column : option string) : bool :=
  match column with None => true | Some value => includes values value end.

Definition isNotNull {A} (column : option A) : bool := negb (isNull column).

Definition games_result_check (row : GameRow) : bool :=
  nullOrIn ["1-0"; "0-1"; "1/2-1/2"; "*"] (g_result row).

Definition games_termination_check (row : GameRow) : bool :=
  nullOrIn ["CHECKMATE"; "RESIGNATION"; "TIMEOUT"; "STALEMATE"; "INSUFFICIENT_MATERIAL";
            "THREEFOLD_REPETITION"; "FIFTY_MOVE_RULE"; "AGREEMENT"; "ABANDONMENT";
            "JOIN_TIMEOUT"; "SYSTEM"] (g_termination row).

Definition games_terminal_state_check (row : GameRow) : bool :=
  let ended := includes ["COMPLETED"; "ABANDONED"; "EXPIRED"] (g_status row) in
  (ended && isNotNull (g_result row) && isNotNull (g_termination row) &&
   isNotNull (g_endedAt row)) ||
  (negb ended && isNull (g_result row) && isNull (g_termination row) &&
   isNull (g_endedAt row)).

Definition games_turn_clock_state_check (row : GameRow) : bool :=
  let running := includes ["IN_PROGRESS"; "RECONNECTING"] (g_status row) in
  (running && isNotNull (g_turnStartedAt row) && isNotNull (g_startedAt row)) ||
  (negb running && isNull (g_turnStartedAt row)).

Definition games_ended_after_started_check (row : GameRow) : bool :=
  match g_endedAt row, g_startedAt row with
  | Some endedAt, Some startedAt => startedAt <=? endedAt
  | _, _ => true
  end.

(** All CHECK constraints of [games]. *)
Definition games_checks (row : GameRow) : bool :=
  includes ["BLITZ"] (g_mode row) &&
  includes ["CREATED"; "WAITING_FOR_PLAYERS"; "READY"; "IN_PROGRESS"; "RECONNECTING";
            "COMPLETED"; "ABANDONED"; "EXPIRED"] (g_status row) &&
  includes ["w"; "b"] (g_turnColor row) &&
  (0 <=? g_version row) && (0 <? g_timeInitialMs row) && (0 <=? g_incrementMs row) &&
  (0 <=? g_whiteClockMs row) && (0 <=? g_blackClockMs row) &&
  games_result_check row && games_termination_check row &&
  games_terminal_state_check row && games_turn_clock_state_check row &&
  games_ended_after_started_check row.

Definition game_players_disconnect_state_check (row : PlayerRow) : bool :=
  match p_disconnectedAt row, p_reconnectGraceEndsAt row with
  | None, None => true
  | Some disconnectedAt, Some graceEndsAt => disconnectedAt <=? graceEndsAt
  | _, _ => false
  end.

(** All CHECK constraints of [game_players]. *)
Definition game_players_checks (row : PlayerRow) : bool :=
  includes ["w"; "b"] (p_color row) && includes [0; 1] (p_slot row) &&
  game_players_disconnect_state_check row.

(** [assert_game_allocation_invariants]: the name of the constraint it raises.
    The LEFT JOIN has a row per assignment and matching player, and one row for
    an assignment that no player matches. *)
Definition assert_game_allocation_invariants (db : DB) (gameId : string) : option string :=
  match games db !! gameId with
  | None => None
  | Some row =>
      if negb (bool_decide (length (playerRows db gameId) = 2%nat))
      then Some "games_exactly_two_players_check" else
      let matches := map (fun guest => length (filter (fun p => p_guestSessionId p = guest)
                                                 (playerRows db gameId)))
                       (map fst (map_to_list (filter (fun kv => kv.2 = gameId)
                                                (assignments db)))) in
      let assignment_count := sum_list (map (Nat.max 1) matches) in
      let matching_assignment_count := sum_list matches in
      if includes ["COMPLETED"; "ABANDONED"; "EXPIRED"] (g_status row) then
        if negb (bool_decide (assignment_count = 0%nat))
        then Some "terminal_games_have_no_active_assignments_check" else None
      else
        if negb (bool_decide (assignment_count = 2%nat)) ||
           negb (bool_decide (matching_assignment_count = 2%nat))
        then Some "active_assignments_match_game_players_check" else None
  end.

(** The assigned guests of a game, when they are known. *)
Lemma assigned_guests db gid guests :
  NoDup guests ->
  (forall guest, assignments db !! guest = Some gid <-> guest ∈ guests) ->
  map fst (map_to_list (filter (fun kv => kv.2 = gid) (assignments db))) ≡ₚ guests.
Proof.
  intros Hn Hg. apply NoDup_Permutation; [apply NoDup_fst_map_to_list|done|].
  intros guest. rewrite <- Hg, list_elem_of_fmap. split.
  - intros ([g x] & -> & Hin). apply elem_of_map_to_list in Hin.
    apply map_lookup_filter_Some in Hin as [Hin Hx]. simpl in *. congruence.
  - intros Ha. exists (guest, gid). split; [done|]. apply elem_of_map_to_list.
    by apply map_lookup_filter_Some.
Qed.
