(* ===== verification/GameplayRepository.v ===== *)
(** * Submitting moves

    [src/src/modules/game/infrastructure/prisma-gameplay.repository.ts]: the
    transaction that admits a move on the clock, has the chess engine evaluate
    it, and records the move, the position, the clocks and the reply; and the
    replay of the recorded reply when the same command arrives again. *)

From S2P Require Export Database ChessEngine TerminalResult.
Local Open Scope string_scope.
Local Open Scope list_scope.
Local Open Scope Z_scope.

Module Gameplay.

(** ** The schemas of the stored reply *)

Section Schemas.
Context `{Zod}.

Definition colorSchema : parser PlayerColor := z_enum [b; w].
Definition resultSchema : parser GameResult := z_enum [black_win; draw; void; white_win].
Definition terminationSchema : parser GameTermination :=
  z_enum [abandonment; board checkmate; double_abandon; board fifty_move;
          board insufficient_material; no_show; resignation; board stalemate;
          board threefold_repetition; timeout].

Definition gameplayClockSchema : parser GameplayClock :=
  z_object ["blackMs"; "observedAt"; "running"; "whiteMs"] (fun o =>
    blackMs ← z_field o "blackMs" z_int_nonnegative;
    observedAt ← z_field o "observedAt" z_int_nonnegative;
    running ← z_field o "running" (z_nullable colorSchema);
    whiteMs ← z_field o "whiteMs" z_int_nonnegative;
    Some (mkGameplayClock blackMs observedAt running whiteMs)).

Definition acceptedMoveSchema : parser AcceptedMove :=
  z_object ["check"; "clientMoveId"; "clocks"; "fenAfter"; "gameId"; "gameVersion";
            "ply"; "san"; "turn"; "uci"] (fun o =>
    check ← z_field o "check" z_boolean;
    clientMoveId ← z_field o "clientMoveId" z_uuidv4;
    clocks ← z_field o "clocks" gameplayClockSchema;
    fenAfter ← z_field o "fenAfter" z_string_min1;
    gameId ← z_field o "gameId" z_uuidv4;
    gameVersion ← z_field o "gameVersion" z_int_nonnegative;
    ply ← z_field o "ply" z_int_positive;
    san ← z_field o "san" z_string_min1;
    turn ← z_field o "turn" colorSchema;
    uci ← z_field o "uci" (z_string_where UCI_PATTERN);
    Some (mkAcceptedMove check clientMoveId clocks fenAfter gameId gameVersion ply san
            turn uci)).

Definition startedGameSchema : parser StartedGame :=
  z_object ["clocks"; "gameId"; "gameVersion"; "initialFen"] (fun o =>
    clocks ← z_field o "clocks" gameplayClockSchema;
    gameId ← z_field o "gameId" z_uuidv4;
    gameVersion ← z_field o "gameVersion" z_int_nonnegative;
    initialFen ← z_field o "initialFen" z_string_min1;
    Some (mkStartedGame clocks gameId gameVersion initialFen)).

Definition endedGameSchema : parser EndedGame :=
  z_object ["clocks"; "finalFen"; "gameId"; "gameVersion"; "pgn"; "result";
            "termination"] (fun o =>
    clocks ← z_field o "clocks" gameplayClockSchema;
    finalFen ← z_field o "finalFen" z_string_min1;
    gameId ← z_field o "gameId" z_uuidv4;
    gameVersion ← z_field o "gameVersion" z_int_nonnegative;
    pgn ← z_field o "pgn" z_string;
    result ← z_field o "result" resultSchema;
    termination ← z_field o "termination" terminationSchema;
    Some (mkEndedGame clocks finalFen gameId gameVersion pgn result termination)).

(** The schema has no [duplicate]; [replayResult] adds it. *)
Definition persistedSubmissionSchema (duplicate : bool) : parser MoveSubmission :=
  z_object ["accepted"; "ended"; "guestSessionIds"; "started"] (fun o =>
    accepted ← z_field o "accepted" acceptedMoveSchema;
    ended ← z_field o "ended" (z_nullable endedGameSchema);
    guestSessionIds ← z_field o "guestSessionIds" (z_tuple2 z_uuidv4 z_uuidv4);
    started ← z_field o "started" (z_nullable startedGameSchema);
    Some (mkMoveSubmission accepted duplicate ended guestSessionIds started)).
End Schemas.

(** ** What is written *)

Definition json_of_accepted (a : AcceptedMove) : json :=
  JObj [("check", JBool (am_check a)); ("clientMoveId", JStr (am_clientMoveId a));
        ("clocks", json_of_clock (am_clocks a)); ("fenAfter", JStr (am_fenAfter a));
        ("gameId", JStr (am_gameId a)); ("gameVersion", JNum (am_gameVersion a));
        ("ply", JNum (am_ply a)); ("san", JStr (am_san a));
        ("turn", JStr (toString (am_turn a))); ("uci", JStr (am_uci a))].

Definition json_of_started (s : StartedGame) : json :=
  JObj [("clocks", json_of_clock (sg_clocks s)); ("gameId", JStr (sg_gameId s));
        ("gameVersion", JNum (sg_gameVersion s)); ("initialFen", JStr (sg_initialFen s))].

Definition json_nullable {A} (f : A -> json) (o : option A) : json :=
  match o with None => JNull | Some a => f a end.

Definition persistedSubmission (submission : MoveSubmission) : json :=
  JObj [("accepted", json_of_accepted (ms_accepted submission));
        ("ended", json_nullable json_of_ended (ms_ended submission));
        ("guestSessionIds", json_of_guests (ms_guestSessionIds submission));
        ("started", json_nullable json_of_started (ms_started submission))].

Definition persistedResult (r : GameResult) : string :=
  match r with
  | white_win => "1-0" | black_win => "0-1" | draw => "1/2-1/2" | void => "*"
  end.

Definition persistedTermination (t : GameTermination) : string :=
  match t with
  | abandonment => "ABANDONMENT"
  | board checkmate => "CHECKMATE"
  | double_abandon => "SYSTEM"
  | board fifty_move => "FIFTY_MOVE_RULE"
  | board insufficient_material => "INSUFFICIENT_MATERIAL"
  | no_show => "JOIN_TIMEOUT"
  | resignation => "RESIGNATION"
  | board stalemate => "STALEMATE"
  | board threefold_repetition => "THREEFOLD_REPETITION"
  | timeout => "TIMEOUT"
  end.

(** ** Results of the transaction *)

Inductive MoveTransactionResult : Type :=
| accepted (submission : MoveSubmission)
| rejected (code : GameServiceErrorCode) (retryable : bool)
    (authoritativeVersion : option Z)
| stale_write (version : Z).

Definition moveError (code : GameServiceErrorCode) (retryable : bool)
    (authoritativeVersion : option Z) : exn :=
  EGameService (mkGameServiceError code retryable authoritativeVersion move_rejected).

Definition isTerminalStatus (status : string) : bool :=
  includes ["ABANDONED"; "COMPLETED"; "EXPIRED"] status.

Definition hasContiguousHistory (history : list MoveRow) : bool :=
  forallb (fun im => m_ply im.2 =? Z.of_nat im.1 + 1) (imap (fun i m => (i, m)) history).

(** [game.players.find(candidate => candidate.guestSessionId === guestSessionId
    && this.isColor(candidate.color))], with the colour the guard tells. *)
Definition findPlayer (guestSessionId : string) (ps : list PlayerRow)
    : option (PlayerRow * PlayerColor) :=
  player ← List.find (fun c => bool_decide (p_guestSessionId c = guestSessionId) &&
                               negb (isNull (isColor (p_color c)))) ps;
  color ← isColor (p_color player);
  Some (player, color).

Section Submit.
Context `{Zod} `{ChessJs} `{Prisma}.

Definition replayResult (command : CommandRow) (input : SubmitMove)
    : MoveTransactionResult :=
  if negb (bool_decide (c_commandType command = "MOVE")) ||
     negb (bool_decide (c_guestSessionId command = sm_guestSessionId input))
  then rejected IDEMPOTENCY_KEY_REUSED false None
  else match persistedSubmissionSchema true (c_response command) with
       | None => rejected GAME_STATE_CORRUPT false None
       | Some submission => accepted submission
       end.

(** The move of an admitted and evaluated command, ready to be written. *)
Record MovePlan : Type := mkMovePlan {
  mp_admitted : GameClock;
  mp_evaluation : MoveEvaluation;
  mp_terminal : option TerminalOutcome;
  mp_submission : MoveSubmission
}.

(** The clock the move is admitted on: a READY game starts White's clock at
    the moment its first move is observed. *)
Definition admission (game : GameRow) (color : PlayerColor) (observedAt : Z)
    : result exn ClockAdmission :=
  let ready := bool_decide (g_status game = "READY") in
  let baseClock :=
    mkGameClock (g_blackClockMs game) (g_incrementMs game)
      (if ready then None else Some color)
      (if ready then None else Some <$> g_turnStartedAt game)
      (g_whiteClockMs game) in
  runningClock ← (if ready then resumeClock baseClock w (Some observedAt)
                  else mret baseClock);
  admitMoveOnClock runningClock color (Some observedAt).

(** The replies, once the move is admitted and evaluated. *)
Definition submissionOf (game : GameRow) (input : SubmitMove) (color : PlayerColor)
    (observedAt : Z) (clock : GameClock) (evaluation : MoveEvaluation)
    (terminal : option TerminalOutcome) (guests : string * string) : MoveSubmission :=
  let ready := bool_decide (g_status game = "READY") in
  let applied := me_applied evaluation in
  let startedVersion := if ready then g_version game + 1 else g_version game in
  let resultVersion := startedVersion + 1 in
  let nextTurn := oppositeColor color in
  let clocks :=
    mkGameplayClock (gc_blackMs clock) observedAt
      (if isNull terminal then Some nextTurn else None) (gc_whiteMs clock) in
  let accepted :=
    mkAcceptedMove (ap_check applied) (sm_clientMoveId input) clocks
      (ap_fenAfter applied) (g_id game) resultVersion (ap_plyNumber applied)
      (ap_san applied) nextTurn (ap_uci applied) in
  let started :=
    if ready then
      Some (mkStartedGame
              (mkGameplayClock (g_blackClockMs game) observedAt (Some w)
                 (g_whiteClockMs game))
              (g_id game) startedVersion (g_initialFen game))
    else None in
  let ended :=
    match terminal with
    | None => None
    | Some terminal =>
        Some (mkEndedGame clocks (ap_fenAfter applied) (g_id game) resultVersion
                (me_pgn evaluation) (to_result terminal) (to_termination terminal))
    end in
  mkMoveSubmission accepted false ended guests started.

(** The part of [submitInTransaction] between the version check and the first
    write: [inl] is an early return, an error a [throw]. *)
Definition planMove (game : GameRow) (ps : list PlayerRow) (history : list MoveRow)
    (color : PlayerColor) (observedAt : Z) (input : SubmitMove)
    : result exn (MoveTransactionResult + MovePlan) :=
  let version := Some (g_version game) in
  match admission game color observedAt with
  | Err _ => mret (inl (rejected GAME_STATE_CORRUPT false version))
  | Ok (FlagFall _ _ _) => mret (inl (rejected CLOCK_EXPIRED false version))
  | Ok (Accepted clock _) =>
    match evaluateMove (mkEvaluateMoveInput (g_currentFen game) (map m_uci history)
                          (g_initialFen game) (sm_move input)) with
    | Err (EChessEngine CHESS_ILLEGAL_MOVE) =>
        mret (inl (rejected ILLEGAL_MOVE false version))
    | Err _ => mret (inl (rejected GAME_STATE_CORRUPT false version))
    | Ok evaluation =>
      if negb (bool_decide (ap_color (me_applied evaluation) = color))
      then mret (inl (rejected GAME_STATE_CORRUPT false version)) else
      terminal ← match me_gameOver evaluation with
                 | NotOver => mret None
                 | Over reason winner => Some <$> deriveTerminalOutcome (BOARD reason winner)
                 end;
      match map p_guestSessionId ps with
      | [firstGuest; secondGuest] =>
          mret (inr (mkMovePlan clock evaluation terminal
                       (submissionOf game input color observedAt clock evaluation
                          terminal (firstGuest, secondGuest))))
      | _ => mret (inl (rejected GAME_STATE_CORRUPT false version))
      end
    end
  end.

(** The [data] of the game update. *)
Definition moveColumns (game : GameRow) (color : PlayerColor) (observedAt : Z)
    (plan : MovePlan) : list GameColumn :=
  let ready := bool_decide (g_status game = "READY") in
  let terminal := mp_terminal plan in
  [G_blackClockMs (gc_blackMs (mp_admitted plan));
   G_currentFen (ap_fenAfter (me_applied (mp_evaluation plan)))] ++
  match terminal with
  | None => []
  | Some terminal =>
      [G_endedAt (Some observedAt);
       G_result (Some (persistedResult (to_result terminal)));
       G_termination (Some (persistedTermination (to_termination terminal)))]
  end ++
  [G_pgn (me_pgn (mp_evaluation plan))] ++
  (if ready then [G_startedAt (Some observedAt)] else []) ++
  [G_status match terminal with
            | Some terminal => toString (statusOf (to_status terminal))
            | None => if ready then "IN_PROGRESS" else g_status game
            end;
   G_turnColor (toString (oppositeColor color));
   G_turnStartedAt (if isNull terminal then Some observedAt else None);
   G_version_increment (if ready then 2 else 1);
   G_whiteClockMs (gc_whiteMs (mp_admitted plan))].

Definition moveRow (game : GameRow) (player : PlayerRow) (observedAt : Z)
    (input : SubmitMove) (plan : MovePlan) : MoveRow :=
  let applied := me_applied (mp_evaluation plan) in
  mkMoveRow (g_id game) (ap_plyNumber applied) (sm_clientMoveId input)
    (sm_guestSessionId input) (p_color player) (ap_san applied) (ap_uci applied)
    (ap_fenBefore applied) (ap_fenAfter applied) observedAt.

(** The writes of an accepted move. *)
Definition commitMove (env : Env) (game : GameRow) (player : PlayerRow)
    (color : PlayerColor) (observedAt : Z) (input : SubmitMove) (plan : MovePlan)
    : tx DB exn MoveTransactionResult :=
  count ← game_updateMany env (g_id game) (g_version game)
            (moveColumns game color observedAt plan);
  if negb (count =? 1) then mret (stale_write (g_version game)) else
  _ ← move_create (moveRow game player observedAt input plan);
  _ ← (if isNull (mp_terminal plan) then mret () else assignment_deleteMany (g_id game));
  _ ← gameCommand_create (g_id game) (sm_clientMoveId input)
        (mkCommandRow "MOVE" (sm_guestSessionId input)
           (persistedSubmission (mp_submission plan))
           (am_gameVersion (ms_accepted (mp_submission plan))));
  mret (accepted (mp_submission plan)).

(** [submitInTransaction], after the game was found and locked. *)
Definition submitLocked (env : Env) (game : GameRow) (ps : list PlayerRow)
    (history : list MoveRow) (observedAt : Z) (input : SubmitMove)
    : tx DB exn MoveTransactionResult :=
  let version := Some (g_version game) in
  match findPlayer (sm_guestSessionId input) ps with
  | None => mret (rejected NOT_A_PLAYER false version)
  | Some (player, color) =>
    replay ← gameCommand_findUnique (sm_gameId input) (sm_clientMoveId input);
    match replay with
    | Some command => mret (replayResult command input)
    | None =>
      if isTerminalStatus (g_status game)
      then mret (rejected GAME_ALREADY_ENDED false version) else
      if negb (bool_decide (g_status game = "IN_PROGRESS")) &&
         negb (bool_decide (g_status game = "READY"))
      then mret (rejected GAME_UNAVAILABLE false version) else
      if isNull (isColor (g_turnColor game)) ||
         negb (bool_decide (g_turnColor game = p_color player))
      then mret (rejected NOT_YOUR_TURN false version) else
      if negb (sm_expectedVersion input =? g_version game)
      then mret (rejected STALE_GAME_VERSION true version) else
      if negb (hasContiguousHistory history)
      then mret (rejected GAME_STATE_CORRUPT false version) else
      plan ← tx_lift (planMove game ps history color observedAt input);
      match plan with
      | inl r => mret r
      | inr plan => commitMove env game player color observedAt input plan
      end
    end
  end.

Definition submitInTransaction (env : Env) (input : SubmitMove)
    : tx DB exn MoveTransactionResult :=
  locked ← lockGameClock env (sm_gameId input);
  match locked with
  | None => mret (rejected GAME_NOT_FOUND false None)
  | Some locked =>
      game ← game_findUnique (sm_gameId input);
      match game with
      | None => mret (rejected GAME_NOT_FOUND false None)
      | Some game =>
          ps ← tx_read (fun db => gamePlayers db (sm_gameId input));
          history ← tx_read (fun db => gameMoves db (sm_gameId input));
          submitLocked env game ps history (lg_observedAt locked) input
      end
  end.

Definition findReplay (input : SubmitMove) (db : DB) : result exn (option MoveSubmission) :=
  match commands db !! (sm_gameId input, sm_clientMoveId input) with
  | None => mret None
  | Some command =>
      match replayResult command input with
      | accepted submission => mret (Some submission)
      | rejected code retryable version => Err (moveError code retryable version)
      | stale_write version => Err (toDatabaseError EOther)
      end
  end.

(** [submitMove]. After a unique violation the stored reply is looked up
    again, outside the transaction, in the database as it is by then:
    [later]. *)
Definition submitMove (env : Env) (input : SubmitMove) (db later : DB)
    : result exn MoveSubmission * DB :=
  match run (submitInTransaction env input) db with
  | (Ok (accepted submission), db') => (Ok submission, db')
  | (Ok (stale_write version), db') =>
      (Err (moveError STALE_GAME_VERSION true (Some version)), db')
  | (Ok (rejected code retryable version), db') =>
      (Err (moveError code retryable version), db')
  | (Err (EDatabase Unique retryable), db') =>
      match findReplay input later with
      | Ok (Some replay) => (Ok replay, db')
      | Ok None => (Err (EDatabase Unique retryable), db')
      | Err e => (Err e, db')
      end
  | (Err e, db') => (Err e, db')
  end.
End Submit.

(** ** Reading a stored reply back *)

Section RoundTrip.
Context `{Zod}.

(** What the schema asks of a reply: the ids are version 4 UUIDs, the texts
    are not empty, the numbers are safe non-negative integers. *)
Definition accepted_storable (a : AcceptedMove) : Prop :=
  zod_uuidv4 (am_clientMoveId a) = true /\ clock_storable (am_clocks a) /\
  nonempty (am_fenAfter a) = true /\ zod_uuidv4 (am_gameId a) = true /\
  0 <= am_gameVersion a /\ isSafeInteger (am_gameVersion a) = true /\
  1 <= am_ply a /\ isSafeInteger (am_ply a) = true /\
  nonempty (am_san a) = true /\ UCI_PATTERN (am_uci a) = true.

Definition started_storable (s : StartedGame) : Prop :=
  clock_storable (sg_clocks s) /\ zod_uuidv4 (sg_gameId s) = true /\
  0 <= sg_gameVersion s /\ isSafeInteger (sg_gameVersion s) = true /\
  nonempty (sg_initialFen s) = true.

Definition storable (s : MoveSubmission) : Prop :=
  accepted_storable (ms_accepted s) /\ guests_storable (ms_guestSessionIds s) /\
  match ms_ended s with None => True | Some e => ended_storable e end /\
  match ms_started s with None => True | Some g => started_storable g end.

Definition asDuplicate (s : MoveSubmission) : MoveSubmission :=
  mkMoveSubmission (ms_accepted s) true (ms_ended s) (ms_guestSessionIds s) (ms_started s).

Lemma gameplayClockSchema_eval c :
  clock_storable c -> gameplayClockSchema (json_of_clock c) = Some c.
Proof.
  intros (? & ? & ? & ? & ? & ?). unfold gameplayClockSchema, json_of_clock, colorSchema.
  unfold z_int_nonnegative. z_read. by destruct c.
Qed.
Local Hint Resolve gameplayClockSchema_eval : cluchess.

Lemma acceptedMoveSchema_eval a :
  accepted_storable a -> acceptedMoveSchema (json_of_accepted a) = Some a.
Proof.
  intros (? & ? & ? & ? & ? & ? & ? & ? & ? & ?).
  unfold acceptedMoveSchema, json_of_accepted, z_int_nonnegative, z_int_positive,
    z_uuidv4, z_string_min1, colorSchema.
  z_read. by destruct a.
Qed.

Lemma startedGameSchema_eval g :
  started_storable g -> startedGameSchema (json_of_started g) = Some g.
Proof.
  intros (? & ? & ? & ? & ?).
  unfold startedGameSchema, json_of_started, z_int_nonnegative, z_uuidv4, z_string_min1.
  z_read. by destruct g.
Qed.

Lemma endedGameSchema_eval e :
  ended_storable e -> endedGameSchema (json_of_ended e) = Some e.
Proof.
  intros (? & ? & ? & ? & ?).
  unfold endedGameSchema, json_of_ended, z_int_nonnegative, z_uuidv4, z_string_min1,
    resultSchema, terminationSchema.
  z_read. by destruct e.
Qed.
Local Hint Resolve acceptedMoveSchema_eval startedGameSchema_eval endedGameSchema_eval
  : cluchess.

Lemma json_nullable_eval {A} (p : parser A) (f : A -> json) o :
  match o with None => True | Some a => f a <> JNull /\ p (f a) = Some a end ->
  z_nullable p (json_nullable f o) = Some o.
Proof. destruct o as [a|]; [|done]. intros [Hn Hp]. by apply z_nullable_Some. Qed.

Lemma persistedSubmission_roundtrip s :
  storable s -> persistedSubmissionSchema true (persistedSubmission s) = Some (asDuplicate s).
Proof.
  intros (Ha & Hg & He & Hs). unfold persistedSubmissionSchema, persistedSubmission.
  assert (z_nullable endedGameSchema (json_nullable json_of_ended (ms_ended s)) =
            Some (ms_ended s))
    by (apply json_nullable_eval; destruct (ms_ended s); [|done];
        split; [done|by apply endedGameSchema_eval]).
  assert (z_nullable startedGameSchema (json_nullable json_of_started (ms_started s)) =
            Some (ms_started s))
    by (apply json_nullable_eval; destruct (ms_started s); [|done];
        split; [done|by apply startedGameSchema_eval]).
  z_read. done.
Qed.
End RoundTrip.

(** ** Theory *)

Section Theory.
Context `{Zod} `{ChessJs} `{Prisma}.

(** The database an accepted move leaves. *)
Definition movedDB (env : Env) (game : GameRow) (player : PlayerRow)
    (color : PlayerColor) (observedAt : Z) (input : SubmitMove) (plan : MovePlan)
    (db : DB) : DB :=
  with_commands
    <[(g_id game, sm_clientMoveId input) :=
        mkCommandRow "MOVE" (sm_guestSessionId input)
          (persistedSubmission (mp_submission plan))
          (am_gameVersion (ms_accepted (mp_submission plan)))]>
    (with_assignments
       (fun a => if isNull (mp_terminal plan) then a
                 else filter (fun kv => kv.2 <> g_id game) a)
       (with_moves (fun l => l ++ [moveRow game player observedAt input plan])
          (with_games
             <[g_id game :=
                 set_GameColumns (moveColumns game color observedAt plan ++
                                  [G_updatedAt (env_updatedAt env)]) game]> db))).

Arguments moveColumns : simpl never.
Arguments set_GameColumns : simpl never.
Arguments moveConflict : simpl never.

Lemma commitMove_eval env game player color observedAt input plan db :
  games db !! g_id game = Some game ->
  commands db !! (g_id game, sm_clientMoveId input) = None ->
  commitMove env game player color observedAt input plan db =
    if moveConflict db (moveRow game player observedAt input plan)
    then Err prisma_uniqueViolation
    else Ok (accepted (mp_submission plan),
             movedDB env game player color observedAt input plan db).
Proof.
  intros Hg Hc. unfold commitMove.
  rewrite (tx_bind_eval _ _ _ _ _ (game_updateMany_eval _ _ _ _ _ _ Hg eq_refl)).
  change (negb (1 =? 1)) with false. cbv beta iota.
  unfold mbind, tx_bind, move_create.
  match goal with |- context [moveConflict (with_games ?f db) ?r] =>
    change (moveConflict (with_games f db) r) with (moveConflict db r) end.
  destruct (moveConflict db _); [done|].
  unfold gameCommand_create, movedDB.
  generalize (set_GameColumns (moveColumns game color observedAt plan ++
                [G_updatedAt (env_updatedAt env)]) game); intros row'.
  destruct (mp_terminal plan); simpl; by rewrite Hc.
Qed.

Lemma planMove_inr game ps history color observedAt input plan :
  planMove game ps history color observedAt input = Ok (inr plan) ->
  exists elapsedMs first second,
    admission game color observedAt = Ok (Accepted (mp_admitted plan) elapsedMs) /\
    evaluateMove (mkEvaluateMoveInput (g_currentFen game) (map m_uci history)
                    (g_initialFen game) (sm_move input)) = Ok (mp_evaluation plan) /\
    ap_color (me_applied (mp_evaluation plan)) = color /\
    match me_gameOver (mp_evaluation plan) with
    | NotOver => mp_terminal plan = None
    | Over reason winner => exists o, deriveTerminalOutcome (BOARD reason winner) = Ok o /\
                                      mp_terminal plan = Some o
    end /\
    map p_guestSessionId ps = [first; second] /\
    mp_submission plan =
      submissionOf game input color observedAt (mp_admitted plan) (mp_evaluation plan)
        (mp_terminal plan) (first, second).
Proof.
  unfold planMove. intros Hp.
  destruct (admission _ _ _) as [[clock el|]|]; js_ret.
  destruct (evaluateMove _) as [ev|e] eqn:Ee; [|by destruct e as [| |[]| | |]; js_ret].
  case_bool_decide as Hcol; simpl in Hp; [|by js_ret].
  apply result_bind_Ok in Hp as (terminal & Ht & Hp).
  destruct (map p_guestSessionId ps) as [|g1 [|g2 [|]]] eqn:Eg; js_ret.
  eexists _, _, _. split_and!; try done.
  destruct (me_gameOver ev); js_ret; [done|].
  destruct (deriveBoardOutcome _ _) as [o|] eqn:Eo; simpl in Ht; js_ret. eauto.
Qed.

Lemma findPlayer_Some guest ps player color :
  findPlayer guest ps = Some (player, color) ->
  player ∈ ps /\ p_guestSessionId player = guest /\ p_color player = toString color.
Proof.
  unfold findPlayer. intros Hf.
  destruct (List.find _ ps) as [r|] eqn:Er; simpl in Hf; [|done].
  destruct (isColor (p_color r)) as [c|] eqn:Ec; simpl in Hf; [|done]. simplify_eq.
  apply List.find_some in Er as [Hin Hp]. js_bool.
  split_and!; [by apply list_elem_of_In|done|by apply isColor_Some].
Qed.

(** The conditions under which a move is committed. *)
Record admits (env : Env) (input : SubmitMove) (db : DB) (game : GameRow)
    (player : PlayerRow) (color : PlayerColor) (plan : MovePlan) : Prop := {
  ad_game : games db !! sm_gameId input = Some game;
  ad_lock : lock_fits env game = true;
  ad_player : findPlayer (sm_guestSessionId input) (gamePlayers db (sm_gameId input))
              = Some (player, color);
  ad_fresh : commands db !! (sm_gameId input, sm_clientMoveId input) = None;
  ad_status : g_status game = "IN_PROGRESS" \/ g_status game = "READY";
  ad_turn : g_turnColor game = toString color;
  ad_version : sm_expectedVersion input = g_version game;
  ad_history : hasContiguousHistory (gameMoves db (sm_gameId input)) = true;
  ad_plan : planMove game (gamePlayers db (sm_gameId input))
              (gameMoves db (sm_gameId input)) color (env_observedAt env) input
            = Ok (inr plan);
  ad_conflict : moveConflict db (moveRow game player (env_observedAt env) input plan) = false
}.

Lemma submitInTransaction_found env input db game :
  games db !! sm_gameId input = Some game -> lock_fits env game = true ->
  submitInTransaction env input db =
    submitLocked env game (gamePlayers db (sm_gameId input))
      (gameMoves db (sm_gameId input)) (env_observedAt env) input db.
Proof.
  intros Hg Hf. unfold submitInTransaction.
  unfold mbind at 1. unfold tx_bind at 1.
  rewrite (lockGameClock_eval _ _ _ _ Hg), Hf. cbv beta iota.
  unfold game_findUnique, mbind, tx_bind, tx_read. by rewrite Hg.
Qed.

Lemma admits_submits env input db game player color plan :
  keyed db -> admits env input db game player color plan ->
  submitInTransaction env input db =
    Ok (accepted (mp_submission plan),
        movedDB env game player color (env_observedAt env) input plan db).
Proof.
  intros Hk [Hg Hl Hp Hc Hs Ht Hv Hh Hplan Hconf]. pose proof (Hk _ _ Hg) as Hid.
  rewrite (submitInTransaction_found _ _ _ _ Hg Hl). unfold submitLocked. rewrite Hp.
  unfold gameCommand_findUnique, mbind at 1, tx_bind at 1, tx_read. rewrite Hc.
  assert (isTerminalStatus (g_status game) = false) as -> by (by destruct Hs as [-> | ->]).
  assert (negb (bool_decide (g_status game = "IN_PROGRESS")) &&
          negb (bool_decide (g_status game = "READY")) = false) as ->
    by (by destruct Hs as [-> | ->]).
  destruct (findPlayer_Some _ _ _ _ Hp) as (_ & _ & Hcol).
  rewrite Ht, isColor_toString, Hcol, bool_decide_eq_true_2 by done. simpl.
  rewrite Hv, Z.eqb_refl, Hh. simpl.
  unfold mbind, tx_bind, tx_lift. rewrite Hplan.
  rewrite commitMove_eval by (rewrite Hid; done). by rewrite Hconf.
Qed.

(** A transaction that ended without writing: a refusal, or a stored reply. *)
Definition unwritten (input : SubmitMove) (db : DB) (r : MoveTransactionResult) : Prop :=
  match r with
  | rejected _ _ _ => True
  | accepted _ => exists command,
      commands db !! (sm_gameId input, sm_clientMoveId input) = Some command /\
      replayResult command input = r
  | stale_write _ => False
  end.

Lemma replayResult_unwritten input db command :
  commands db !! (sm_gameId input, sm_clientMoveId input) = Some command ->
  unwritten input db (replayResult command input).
Proof.
  intros Hc. destruct (replayResult command input) eqn:Hr; simpl; [eauto|done|].
  unfold replayResult in Hr. by repeat case_match.
Qed.

Lemma planMove_inl game ps history color observedAt input r :
  planMove game ps history color observedAt input = Ok (inl r) ->
  exists code, r = rejected code false (Some (g_version game)).
Proof.
  unfold planMove. intros Hp.
  destruct (admission _ _ _) as [[clock el|]|]; js_ret; eauto.
  destruct (evaluateMove _) as [ev|e] eqn:Ee; [|destruct e as [| |[]| | |]; js_ret; eauto].
  case_bool_decide as Hcol; simpl in Hp; [|js_ret; eauto].
  apply result_bind_Ok in Hp as (terminal & Ht & Hp).
  destruct (map p_guestSessionId ps) as [|g1 [|g2 [|]]] eqn:Eg; js_ret; eauto.
Qed.

Lemma submitLocked_inv env game input db r db' :
  keyed db -> games db !! sm_gameId input = Some game -> lock_fits env game = true ->
  submitLocked env game (gamePlayers db (sm_gameId input))
    (gameMoves db (sm_gameId input)) (env_observedAt env) input db = Ok (r, db') ->
  (db' = db /\ unwritten input db r) \/
  (exists player color plan, admits env input db game player color plan /\
     r = accepted (mp_submission plan) /\
     db' = movedDB env game player color (env_observedAt env) input plan db).
Proof.
  intros Hk Hg Hl. pose proof (Hk _ _ Hg) as Hid. unfold submitLocked. intros Hs.
  destruct (findPlayer _ _) as [[player color]|] eqn:Hp; [|js_ret; by left].
  unfold gameCommand_findUnique, mbind at 1, tx_bind at 1, tx_read in Hs.
  destruct (commands db !! _) as [command|] eqn:Hc.
  { js_ret. left. split; [done|]. by apply replayResult_unwritten. }
  destruct (isTerminalStatus _) eqn:E1; [js_ret; by left|].
  destruct (negb _ && negb _) eqn:E2; [js_ret; by left|].
  destruct (isNull _ || negb _) eqn:E3; [js_ret; by left|].
  destruct (negb (_ =? _)) eqn:E4; [js_ret; by left|].
  destruct (negb (hasContiguousHistory _)) eqn:E5; [js_ret; by left|].
  unfold mbind, tx_bind, tx_lift in Hs.
  destruct (planMove _ _ _ _ _ _) as [[r'|plan]|] eqn:Hplan; [|right|done].
  { apply planMove_inl in Hplan as [code ->]. js_ret. by left. }
  rewrite commitMove_eval in Hs by (rewrite Hid; done).
  destruct (moveConflict _ _) eqn:Hconf; [done|]. js_ret.
  exists player, color, plan. split; [|done].
  destruct (findPlayer_Some _ _ _ _ Hp) as (_ & _ & Hcol).
  apply orb_false_iff in E3 as [_ E3]. js_bool.
  constructor; try done; [|congruence].
  destruct E2; js_bool; auto.
Qed.

Lemma submit_inv env input db r db' :
  keyed db -> submitInTransaction env input db = Ok (r, db') ->
  (db' = db /\ unwritten input db r) \/
  (exists game player color plan, admits env input db game player color plan /\
     r = accepted (mp_submission plan) /\
     db' = movedDB env game player color (env_observedAt env) input plan db).
Proof.
  intros Hk Hs. destruct (games db !! sm_gameId input) as [game|] eqn:Hg.
  - destruct (lock_fits env game) eqn:Hl.
    + rewrite (submitInTransaction_found _ _ _ _ Hg Hl) in Hs.
      apply submitLocked_inv in Hs; [|done..]. naive_solver.
    + unfold submitInTransaction, mbind at 1, tx_bind at 1 in Hs.
      by rewrite (lockGameClock_eval _ _ _ _ Hg), Hl in Hs.
  - unfold submitInTransaction, mbind at 1, tx_bind at 1 in Hs.
    rewrite lockGameClock_missing in Hs by done. js_ret. by left.
Qed.

Lemma hasContiguousHistory_spec history :
  hasContiguousHistory history = true <->
  forall i m, history !! i = Some m -> m_ply m = Z.of_nat i + 1.
Proof.
  unfold hasContiguousHistory. rewrite forallb_forall. split.
  - intros Hf i m Hm. specialize (Hf (i, m)). simpl in Hf. apply Z.eqb_eq, Hf.
    apply list_elem_of_In, list_elem_of_lookup. exists i. by rewrite list_lookup_imap, Hm.
  - intros Hf [i m] [j Hj]%list_elem_of_In%list_elem_of_lookup.
    rewrite list_lookup_imap in Hj. destruct (history !! j) as [m'|] eqn:E; [|done].
    simpl in Hj. simplify_eq. apply Z.eqb_eq. simpl. eauto.
Qed.

Lemma hasContiguousHistory_bound history m :
  hasContiguousHistory history = true -> m ∈ history ->
  1 <= m_ply m <= Z.of_nat (length history).
Proof.
  intros Hh [i Hi]%list_elem_of_lookup.
  pose proof (proj1 (hasContiguousHistory_spec _) Hh _ _ Hi).
  apply lookup_lt_Some in Hi. lia.
Qed.

Lemma moveConflict_false db row :
  hasContiguousHistory (gameMoves db (m_gameId row)) = true ->
  m_ply row = Z.of_nat (length (gameMoves db (m_gameId row))) + 1 ->
  (forall r, r ∈ gameMoves db (m_gameId row) -> m_clientMoveId r <> m_clientMoveId row) ->
  moveConflict db row = false.
Proof.
  intros Hh Hp Hc. apply not_true_iff_false. unfold moveConflict.
  intros (r & Hr%list_elem_of_In & Hb)%existsb_exists. js_bool.
  assert (r ∈ gameMoves db (m_gameId row)) as Hin by (by apply gameMoves_elem).
  pose proof (hasContiguousHistory_bound _ _ Hh Hin).
  destruct H3 as [Hb|Hb]; js_bool; [by eapply Hc|lia].
Qed.

Lemma gameMoves_snoc f db row :
  (forall l, f l = l ++ [row]) ->
  hasContiguousHistory (gameMoves db (m_gameId row)) = true ->
  m_ply row = Z.of_nat (length (gameMoves db (m_gameId row))) + 1 ->
  gameMoves (with_moves f db) (m_gameId row) = gameMoves db (m_gameId row) ++ [row].
Proof.
  intros Hf Hh Hp. unfold gameMoves, moveRows. simpl. rewrite Hf, filter_app.
  rewrite (filter_cons_True _ row []) by done. rewrite filter_nil.
  apply orderBy_snoc. apply Forall_forall. intros r Hr. unfold byPly. apply Z.leb_le.
  assert (r ∈ gameMoves db (m_gameId row)) as Hin
    by (unfold gameMoves; by rewrite orderBy_perm).
  pose proof (hasContiguousHistory_bound _ _ Hh Hin). lia.
Qed.

Lemma gameMoves_other db gid f :
  (forall l, filter (fun r => m_gameId r = gid) (f l) = filter (fun r => m_gameId r = gid) l) ->
  gameMoves (with_moves f db) gid = gameMoves db gid.
Proof. intros Hf. unfold gameMoves, moveRows. simpl. by rewrite Hf. Qed.

(** The row an accepted move leaves. *)
Definition movedRow (env : Env) (game : GameRow) (color : PlayerColor)
    (observedAt : Z) (plan : MovePlan) : GameRow :=
  set_GameColumns (moveColumns game color observedAt plan ++
                   [G_updatedAt (env_updatedAt env)]) game.

Definition moveIncrement (game : GameRow) : Z :=
  if bool_decide (g_status game = "READY") then 2 else 1.

Lemma movedRow_spec env game color t plan :
  let row := movedRow env game color t plan in
  let applied := me_applied (mp_evaluation plan) in
  g_id row = g_id game /\ g_matchId row = g_matchId game /\ g_mode row = g_mode game /\
  g_initialFen row = g_initialFen game /\
  g_currentFen row = ap_fenAfter applied /\ g_pgn row = me_pgn (mp_evaluation plan) /\
  g_turnColor row = toString (oppositeColor color) /\
  g_version row = g_version game + moveIncrement game /\
  g_whiteClockMs row = gc_whiteMs (mp_admitted plan) /\
  g_blackClockMs row = gc_blackMs (mp_admitted plan) /\
  g_incrementMs row = g_incrementMs game /\ g_timeInitialMs row = g_timeInitialMs game /\
  g_joinDeadlineAt row = g_joinDeadlineAt game /\
  g_reconnectDeadlineAt row = g_reconnectDeadlineAt game /\
  g_startedAt row = (if bool_decide (g_status game = "READY") then Some t
                     else g_startedAt game) /\
  match mp_terminal plan with
  | None =>
      g_status row = (if bool_decide (g_status game = "READY") then "IN_PROGRESS"
                      else g_status game) /\
      g_turnStartedAt row = Some t /\ g_endedAt row = g_endedAt game /\
      g_result row = g_result game /\ g_termination row = g_termination game
  | Some o =>
      g_status row = toString (statusOf (to_status o)) /\
      g_turnStartedAt row = None /\ g_endedAt row = Some t /\
      g_result row = Some (persistedResult (to_result o)) /\
      g_termination row = Some (persistedTermination (to_termination o))
  end.
Proof.
  unfold movedRow, moveColumns, set_GameColumns, moveIncrement.
  destruct (mp_terminal plan); case_bool_decide; simpl; repeat split.
Qed.

Lemma planMove_outcome game ps history color t input plan :
  planMove game ps history color t input = Ok (inr plan) ->
  forall o, mp_terminal plan = Some o ->
  to_status o = T_COMPLETED /\ exists reason, to_termination o = board reason.
Proof.
  intros (el & g1 & g2 & _ & _ & _ & Ht & _)%planMove_inr o Ho.
  destruct (me_gameOver (mp_evaluation plan)) as [|reason winner]; [congruence|].
  destruct Ht as (o' & Hd & Ho'). assert (o' = o) as -> by congruence.
  simpl in Hd. unfold deriveBoardOutcome in Hd. js_cases; eauto.
Qed.

(** The parts of the reply. *)
Lemma planMove_submission game ps history color t input plan :
  planMove game ps history color t input = Ok (inr plan) ->
  let s := mp_submission plan in
  let a := ms_accepted s in
  let applied := me_applied (mp_evaluation plan) in
  ms_duplicate s = false /\
  [(ms_guestSessionIds s).1; (ms_guestSessionIds s).2] = map p_guestSessionId ps /\
  am_clientMoveId a = sm_clientMoveId input /\ am_gameId a = g_id game /\
  am_gameVersion a = g_version game + moveIncrement game /\
  am_fenAfter a = ap_fenAfter applied /\ am_ply a = ap_plyNumber applied /\
  am_uci a = ap_uci applied /\ am_san a = ap_san applied /\
  am_turn a = oppositeColor color /\
  gpc_observedAt (am_clocks a) = t /\
  gpc_whiteMs (am_clocks a) = gc_whiteMs (mp_admitted plan) /\
  gpc_blackMs (am_clocks a) = gc_blackMs (mp_admitted plan) /\
  isNull (ms_ended s) = isNull (mp_terminal plan) /\
  isNull (ms_started s) = negb (bool_decide (g_status game = "READY")).
Proof.
  intros (el & g1 & g2 & _ & _ & _ & _ & Hg & ->)%planMove_inr.
  unfold submissionOf, moveIncrement. simpl. rewrite Hg.
  destruct (mp_terminal plan); case_bool_decide; simpl; repeat split; lia.
Qed.

Lemma replayResult_duplicate command input s :
  replayResult command input = accepted s -> ms_duplicate s = true.
Proof.
  unfold replayResult. intros Hr. case_match; [done|].
  destruct (persistedSubmissionSchema true _) as [s'|] eqn:E; [|done]. injection Hr as <-.
  unfold persistedSubmissionSchema, z_object in E.
  destruct (c_response command); try done. case_match; [|done].
  repeat (let x := fresh in apply bind_Some in E as (x & _ & E)).
  by injection E as <-.
Qed.

Lemma findReplay_duplicate input db s :
  findReplay input db = Ok (Some s) -> ms_duplicate s = true.
Proof.
  unfold findReplay. intros Hf. destruct (commands db !! _) as [c|]; [|done].
  destruct (replayResult c input) eqn:Hr; try done. js_ret. by eapply replayResult_duplicate.
Qed.

(** A fresh reply comes from a commit. *)
Lemma submitMove_fresh env input db later s db' :
  keyed db -> submitMove env input db later = (Ok s, db') -> ms_duplicate s = false ->
  exists game player color plan,
    admits env input db game player color plan /\ s = mp_submission plan /\
    db' = movedDB env game player color (env_observedAt env) input plan db.
Proof.
  intros Hk Hs Hd. unfold submitMove, run in Hs.
  destruct (submitInTransaction env input db) as [[r db1]|e] eqn:Ht.
  - destruct (submit_inv _ _ _ _ _ Hk Ht) as [[-> Hu] | (g & p & c & pl & Ha & -> & ->)].
    + destruct r; simplify_eq. destruct Hu as (command & _ & Hr).
      apply replayResult_duplicate in Hr. congruence.
    + simplify_eq. eauto 10.
  - destruct (toDatabaseError e) as [| | |[]| |]; try done.
    destruct (findReplay input later) as [[s'|]|] eqn:Hf; try done. simplify_eq.
    apply findReplay_duplicate in Hf. congruence.
Qed.

Lemma movedDB_games env game player color t input plan db :
  games (movedDB env game player color t input plan db) =
  <[g_id game := movedRow env game color t plan]> (games db).
Proof. done. Qed.

Lemma movedDB_moves env game player color t input plan db :
  hasContiguousHistory (gameMoves db (g_id game)) = true ->
  ap_plyNumber (me_applied (mp_evaluation plan)) =
    Z.of_nat (length (gameMoves db (g_id game))) + 1 ->
  gameMoves (movedDB env game player color t input plan db) (g_id game) =
  gameMoves db (g_id game) ++ [moveRow game player t input plan].
Proof.
  intros Hh Hp.
  apply (gameMoves_snoc (fun l => l ++ [moveRow game player t input plan]) db
           (moveRow game player t input plan)); done.
Qed.

Lemma hasContiguousHistory_snoc history row :
  hasContiguousHistory history = true -> m_ply row = Z.of_nat (length history) + 1 ->
  hasContiguousHistory (history ++ [row]) = true.
Proof.
  rewrite !hasContiguousHistory_spec. intros Hh Hp i m Hi.
  apply lookup_app_Some in Hi as [Hi|[Hlen Hi]]; [by apply Hh|].
  apply list_lookup_singleton_Some in Hi as [Hi <-]. lia.
Qed.

(** The chess side of an admitted move. *)
Lemma admits_chess `{!ChessJsLaws} env input db game player color plan :
  admits env input db game player color plan ->
  let history := gameMoves db (sm_gameId input) in
  let applied := me_applied (mp_evaluation plan) in
  ap_plyNumber applied = Z.of_nat (length history) + 1 /\
  ap_fenBefore applied = g_currentFen game /\
  exists chess,
    replayHistory (g_initialFen game) (map m_uci history ++ [ap_uci applied]) = Ok chess /\
    chess_fen chess = ap_fenAfter applied /\ chess_turn chess = oppositeColor color /\
    getGameOver chess = me_gameOver (mp_evaluation plan).
Proof.
  intros [_ _ _ _ _ _ _ _ Hplan _].
  apply planMove_inr in Hplan as (el & g1 & g2 & _ & He & Hc & _).
  apply evaluateMove_inv in He
    as (chess & chess' & _ & _ & _ & Hr & Hf & Ht & Hg & _ & Hply & Hb & _).
  simpl in *. rewrite length_map in Hply. rewrite Hc in Ht. eauto 10.
Qed.

(** C1: a committed move. When submitMove answers with a new reply, the guest was
    a player of the game, it was that player's turn, the game was READY or
    IN_PROGRESS at exactly the expected version, and the command was new; the
    database then holds: the game at the version of the reply (one more, or two
    more for the first move, which also starts the game), with the turn passed
    on; one move row more, numbered next, so that the history stays contiguous
    and replays, in the chess engine, to the game's current position; the reply
    itself, under the command's id. A move that ends the game completes it,
    stops its clock, records result and termination and releases both players;
    any other move restarts the clock for the opponent at the moment of the
    move. No other game and no player row changes. *)
Theorem submitMove_commits `{!ChessJsLaws} env input db later s db' :
  keyed db -> submitMove env input db later = (Ok s, db') -> ms_duplicate s = false ->
  let gid := sm_gameId input in
  let a := ms_accepted s in
  exists game game' color row chess,
    games db !! gid = Some game /\ games db' = <[gid := game']> (games db) /\
    (exists player, player ∈ gamePlayers db gid /\
       p_guestSessionId player = sm_guestSessionId input /\
       p_color player = toString color) /\
    (g_status game = "IN_PROGRESS" \/ g_status game = "READY") /\
    g_turnColor game = toString color /\ sm_expectedVersion input = g_version game /\
    commands db !! (gid, sm_clientMoveId input) = None /\
    g_version game' = g_version game + moveIncrement game /\
    am_gameVersion a = g_version game' /\
    g_turnColor game' = toString (oppositeColor color) /\
    g_initialFen game' = g_initialFen game /\ g_currentFen game' = am_fenAfter a /\
    gameMoves db' gid = gameMoves db gid ++ [row] /\
    m_ply row = am_ply a /\ m_uci row = am_uci a /\
    m_clientMoveId row = sm_clientMoveId input /\
    hasContiguousHistory (gameMoves db' gid) = true /\
    replayHistory (g_initialFen game') (map m_uci (gameMoves db' gid)) = Ok chess /\
    chess_fen chess = g_currentFen game' /\ chess_turn chess = oppositeColor color /\
    commands db' =
      <[(gid, sm_clientMoveId input) :=
          mkCommandRow "MOVE" (sm_guestSessionId input) (persistedSubmission s)
            (g_version game')]> (commands db) /\
    players db' = players db /\
    match ms_ended s with
    | None =>
        g_status game' = "IN_PROGRESS" /\
        g_turnStartedAt game' = Some (env_observedAt env) /\
        assignments db' = assignments db
    | Some ended =>
        g_status game' = "COMPLETED" /\ g_turnStartedAt game' = None /\
        g_endedAt game' = Some (env_observedAt env) /\
        g_result game' = Some (persistedResult (eg_result ended)) /\
        g_termination game' = Some (persistedTermination (eg_termination ended)) /\
        (forall guest, assignments db' !! guest <> Some gid)
    end.
Proof.
  intros Hk Hs Hd.
  apply submitMove_fresh in Hs as (game & player & color & plan & Ha & -> & ->); [|done..].
  pose proof (admits_chess _ _ _ _ _ _ _ Ha) as (Hply & Hbef & chess & Hr & Hf & Ht & Hov).
  destruct Ha as [Hg Hl Hp Hc Hst Hturn Hv Hh Hplan Hconf].
  pose proof (Hk _ _ Hg) as Hid.
  destruct (findPlayer_Some _ _ _ _ Hp) as (Hin & Hguest & Hcol).
  pose proof (movedRow_spec env game color (env_observedAt env) plan)
    as (_ & _ & _ & Hi & Hfen & _ & Htc & Hver & _ & _ & _ & _ & _ & _ & _ & Hterm).
  pose proof (planMove_submission _ _ _ _ _ _ _ Hplan)
    as (_ & _ & Hcm & _ & Hav & Haf & Hap & Hau & _ & _ & _ & _ & _ & Hend & _).
  pose proof (planMove_outcome _ _ _ _ _ _ _ Hplan) as Hout.
  apply planMove_inr in Hplan as (el & g1 & g2 & _ & _ & _ & _ & _ & Hsub).
  eexists game, (movedRow env game color (env_observedAt env) plan), color,
    (moveRow game player (env_observedAt env) input plan), chess.
  rewrite movedDB_games, <- Hid, movedDB_moves by (rewrite Hid; done).
  rewrite Hid, map_app, Hi. simpl map.
  split_and!; eauto; try congruence.
  - apply hasContiguousHistory_snoc; [done|]. simpl. by rewrite Hply.
  - unfold movedDB. simpl. rewrite Hid. do 2 f_equal. congruence.
  - rewrite Hsub. unfold submissionOf. simpl.
    destruct (mp_terminal plan) as [o|] eqn:Eo.
    + destruct Hterm as (-> & -> & -> & -> & ->). destruct (Hout o eq_refl) as [-> _].
      split_and!; try done. intros guest. simpl.
      rewrite map_lookup_filter_Some. rewrite Hid. naive_solver.
    + destruct Hterm as (-> & -> & _). split_and!; try done.
      * by destruct Hst as [-> | ->].
Qed.

Lemma replayResult_rejected command input code retryable version :
  replayResult command input = rejected code retryable version ->
  retryable = false /\ code ∈ [IDEMPOTENCY_KEY_REUSED; GAME_STATE_CORRUPT].
Proof. unfold replayResult. intros Hr. repeat case_match; simplify_eq; set_solver. Qed.

Lemma submitInTransaction_retryable env input db code version db' :
  submitInTransaction env input db = Ok (rejected code true version, db') ->
  code = STALE_GAME_VERSION /\
  exists game, games db !! sm_gameId input = Some game /\
    version = Some (g_version game) /\ sm_expectedVersion input <> g_version game.
Proof.
  intros Hs. unfold submitInTransaction, mbind at 1, tx_bind at 1 in Hs.
  destruct (games db !! sm_gameId input) as [game|] eqn:Hg;
    [|rewrite lockGameClock_missing in Hs by done; js_ret].
  rewrite (lockGameClock_eval _ _ _ _ Hg) in Hs. destruct (lock_fits env game); [|done].
  unfold game_findUnique, mbind, tx_bind, tx_read in Hs. rewrite Hg in Hs.
  unfold submitLocked in Hs.
  destruct (findPlayer _ _) as [[player color]|] eqn:Hp; [|js_ret].
  unfold gameCommand_findUnique, mbind at 1, tx_bind at 1, tx_read in Hs.
  destruct (commands db !! _) as [command|] eqn:Hc.
  { destruct (replayResult command input) eqn:Hr; js_ret.
    by apply replayResult_rejected in Hr as [? _]. }
  do 3 (case_match; [js_ret|]).
  destruct (negb (_ =? _)) eqn:E4; [js_ret; js_bool; eauto|].
  case_match; [js_ret|]. unfold mbind, tx_bind, tx_lift in Hs.
  destruct (planMove _ _ _ _ _ _) as [[r'|plan]|] eqn:Hplan; [| |done].
  { apply planMove_inl in Hplan as [? ->]. js_ret. }
  unfold commitMove, mbind, tx_bind in Hs. by repeat case_match; js_ret.
Qed.

(** A refused or failed move changes nothing. Whatever error submitMove ends
    with, the database is the one it started from; a refusal of the service is
    always sent as move.rejected; and the only refusal that invites the client to
    retry is a stale version, which comes with the version the game really has,
    different from the one the client expected. *)
Theorem submitMove_error_no_effect env input db later e db' :
  keyed db -> submitMove env input db later = (Err e, db') ->
  db' = db /\
  forall code retryable version kind,
    e = EGameService (mkGameServiceError code retryable version kind) ->
    kind = move_rejected /\
    (retryable = true ->
       code = STALE_GAME_VERSION /\
       exists game, games db !! sm_gameId input = Some game /\
         version = Some (g_version game) /\ sm_expectedVersion input <> g_version game).
Proof.
  intros Hk Hs. unfold submitMove, run in Hs.
  destruct (submitInTransaction env input db) as [[r db1]|e'] eqn:Ht.
  - pose proof (submit_inv _ _ _ _ _ Hk Ht) as [[-> Hu] | (? & ? & ? & ? & ? & -> & ->)];
      [|done].
    destruct r as [|code retryable version|version]; [done| |done]. injection Hs as <- <-.
    split; [done|]. intros code' retryable' version' kind [= <- <- <- <-]. split; [done|].
    intros ->. by eapply submitInTransaction_retryable.
  - destruct (toDatabaseError_total e') as (k & rt & Hdb). rewrite Hdb in Hs.
    destruct k; try (injection Hs as <- <-; split; [done|]; naive_solver).
    unfold findReplay in Hs.
    destruct (commands later !! _) as [c|]; [|injection Hs as <- <-; naive_solver].
    destruct (replayResult c input) as [s|code retryable version|version] eqn:Hr;
      simpl in Hs; [done| |]; injection Hs as <- <-; (split; [done|]).
    + apply replayResult_rejected in Hr as [-> _].
      intros code' retryable' version' kind [= <- <- <- <-]. naive_solver.
    + naive_solver.
Qed.

Definition plays (db : DB) (gid guest : string) : Prop :=
  is_Some (findPlayer guest (gamePlayers db gid)).

Lemma submitMove_stored env input db later game command :
  games db !! sm_gameId input = Some game -> lock_fits env game = true ->
  plays db (sm_gameId input) (sm_guestSessionId input) ->
  commands db !! (sm_gameId input, sm_clientMoveId input) = Some command ->
  submitMove env input db later =
    match replayResult command input with
    | accepted s => (Ok s, db)
    | rejected code retryable version => (Err (moveError code retryable version), db)
    | stale_write version => (Err (moveError STALE_GAME_VERSION true (Some version)), db)
    end.
Proof.
  intros Hg Hl [[player color] Hp] Hc. unfold submitMove, run.
  rewrite (submitInTransaction_found _ _ _ _ Hg Hl). unfold submitLocked. rewrite Hp.
  unfold gameCommand_findUnique, mbind at 1, tx_bind at 1, tx_read. rewrite Hc.
  unfold mret, tx_ret. by destruct (replayResult command input).
Qed.

(** The reply that was stored with a move is given again. *)
Lemma submitMove_replay env input db later game s guest v :
  games db !! sm_gameId input = Some game -> lock_fits env game = true ->
  plays db (sm_gameId input) (sm_guestSessionId input) -> storable s ->
  commands db !! (sm_gameId input, sm_clientMoveId input) =
    Some (mkCommandRow "MOVE" guest (persistedSubmission s) v) ->
  submitMove env input db later =
    (if decide (sm_guestSessionId input = guest)
     then Ok (asDuplicate s)
     else Err (moveError IDEMPOTENCY_KEY_REUSED false None), db).
Proof.
  intros Hg Hl Hp Hst Hcmd. rewrite (submitMove_stored _ _ _ _ _ _ Hg Hl Hp Hcmd).
  unfold replayResult. cbn [c_commandType c_guestSessionId c_response].
  change (bool_decide ("MOVE" = "MOVE")) with true. cbn [negb orb].
  destruct (decide (sm_guestSessionId input = guest)) as [E|E].
  - rewrite E, bool_decide_eq_true_2 by done. cbn [negb].
    by rewrite persistedSubmission_roundtrip.
  - by rewrite bool_decide_eq_false_2 by congruence.
Qed.

(** C6: retrying a move is safe. Once a move was committed, every later submission
    of the same command id by the same player, whatever move and version it
    carries and whatever happened to the game since, is answered with the stored
    reply, marked as a duplicate, and changes nothing; the same id used by the
    other player is refused as a reused idempotency key, and changes nothing. *)
Theorem submitMove_idempotent env input db later s db' env2 db2 later2 game2 input2 :
  keyed db -> submitMove env input db later = (Ok s, db') -> ms_duplicate s = false ->
  storable s ->
  commands db2 !! (sm_gameId input, sm_clientMoveId input) =
    commands db' !! (sm_gameId input, sm_clientMoveId input) ->
  games db2 !! sm_gameId input = Some game2 -> lock_fits env2 game2 = true ->
  sm_gameId input2 = sm_gameId input -> sm_clientMoveId input2 = sm_clientMoveId input ->
  plays db2 (sm_gameId input2) (sm_guestSessionId input2) ->
  submitMove env2 input2 db2 later2 =
    (if decide (sm_guestSessionId input2 = sm_guestSessionId input)
     then Ok (asDuplicate s)
     else Err (moveError IDEMPOTENCY_KEY_REUSED false None), db2).
Proof.
  intros Hk Hs Hd Hst Hcmd Hg Hl Hgid Hcid Hp.
  apply submitMove_fresh in Hs as (game & player & color & plan & Ha & -> & ->); [|done..].
  pose proof (Hk _ _ (ad_game _ _ _ _ _ _ _ Ha)) as Hid.
  unfold movedDB in Hcmd. simpl in Hcmd. rewrite Hid, lookup_insert_eq in Hcmd.
  rewrite <- Hgid in Hg, Hcmd. rewrite <- Hcid in Hcmd.
  exact (submitMove_replay _ _ _ _ _ _ _ _ Hg Hl Hp Hst Hcmd).
Qed.

Lemma admission_running game color t :
  g_status game = "IN_PROGRESS" ->
  admission game color t = admitMoveOnClock (domain_clock game color) color (Some t).
Proof. intros Hs. unfold admission. by rewrite Hs. Qed.

Lemma evaluateMove_terminal `{!ChessJsLaws} input ev :
  evaluateMove input = Ok ev ->
  exists terminal,
    match me_gameOver ev with
    | NotOver => mret None
    | Over reason winner => Some <$> deriveTerminalOutcome (BOARD reason winner)
    end = Ok (E := exn) terminal.
Proof.
  intros (_ & chess & _ & _ & _ & _ & _ & _ & -> & _)%evaluateMove_inv.
  pose proof (getGameOver_cases chess) as Hc.
  destruct (getGameOver chess) as [|[] winner]; subst; simpl; eauto.
Qed.

(** A legal move of a game in progress, submitted by the player to move at the
    current version, whatever the clock says. *)
Record move_ready (env : Env) (input : SubmitMove) (db : DB) (game : GameRow)
    (player : PlayerRow) (color : PlayerColor) (ev : MoveEvaluation) (s : Z) : Prop := {
  mr_game : games db !! sm_gameId input = Some game;
  mr_status : g_status game = "IN_PROGRESS";
  mr_turn : g_turnColor game = toString color;
  mr_started : g_turnStartedAt game = Some s;
  mr_clock : clock_ok (domain_clock game color);
  mr_room : remainingFor (domain_clock game color) color + g_incrementMs game
            <= MAX_SAFE_INTEGER;
  mr_lock : lock_fits env game = true;
  mr_date : date_range (env_observedAt env);
  mr_player : findPlayer (sm_guestSessionId input) (gamePlayers db (sm_gameId input))
              = Some (player, color);
  mr_two : length (gamePlayers db (sm_gameId input)) = 2%nat;
  mr_version : sm_expectedVersion input = g_version game;
  mr_fresh : commands db !! (sm_gameId input, sm_clientMoveId input) = None;
  mr_unused : forall r, r ∈ gameMoves db (sm_gameId input) ->
                        m_clientMoveId r <> sm_clientMoveId input;
  mr_history : hasContiguousHistory (gameMoves db (sm_gameId input)) = true;
  mr_legal : evaluateMove (mkEvaluateMoveInput (g_currentFen game)
               (map m_uci (gameMoves db (sm_gameId input))) (g_initialFen game)
               (sm_move input)) = Ok ev;
  mr_color : ap_color (me_applied ev) = color
}.


Section Ready.
Context `{!ChessJsLaws} (env : Env) (input : SubmitMove) (db : DB) (game : GameRow)
  (player : PlayerRow) (color : PlayerColor) (ev : MoveEvaluation) (s : Z).
Hypothesis Hready : move_ready env input db game player color ev s.

Let c := domain_clock game color.
Let observedAt := env_observedAt env.
Let spent := elapsed s observedAt.
Let rest := remainingFor c color - spent + g_incrementMs game.

Lemma admission_ready :
  admission game color observedAt =
    if remainingFor c color <=? spent
    then Ok (FlagFall (withTurn (withRemaining c color 0) None None) spent color)
    else Ok (Accepted (withTurn (withRemaining c color rest)
               (Some (oppositeColor color)) (Some (Some observedAt))) spent).
Proof.
  destruct Hready as [_ Hs _ Hst Hok Hroom _ Hd _ _ _ _ _ _ _ _].
  rewrite (admission_running _ _ _ Hs).
  rewrite (admitMoveOnClock_eval c color s Hok); [|done|by simpl; rewrite Hst|done].
  change (gc_incrementMs c) with (g_incrementMs game). cbv zeta. fold spent. fold rest.
  case_match; [done|].
  assert (0 <= spent) by (unfold spent, elapsed; lia).
  rewrite (proj2 (Z.ltb_ge _ _)); [done|]. unfold rest, c. lia.
Qed.

Lemma planMove_flagged :
  remainingFor c color <= spent ->
  planMove game (gamePlayers db (sm_gameId input)) (gameMoves db (sm_gameId input))
    color observedAt input =
  Ok (inl (rejected CLOCK_EXPIRED false (Some (g_version game)))).
Proof.
  intros Hle. unfold planMove. rewrite admission_ready.
  by rewrite (proj2 (Z.leb_le _ _) Hle).
Qed.

Lemma planMove_in_time :
  spent < remainingFor c color ->
  exists plan,
    planMove game (gamePlayers db (sm_gameId input)) (gameMoves db (sm_gameId input))
      color observedAt input = Ok (inr plan) /\ mp_evaluation plan = ev /\
    mp_admitted plan = withTurn (withRemaining c color rest)
                         (Some (oppositeColor color)) (Some (Some observedAt)).
Proof.
  intros Hlt. unfold planMove. rewrite admission_ready, (proj2 (Z.leb_gt _ _) Hlt).
  destruct Hready as [_ _ _ _ _ _ _ _ _ Htwo _ _ _ _ Hev Hcol].
  rewrite Hev, bool_decide_eq_true_2 by done. cbn [negb].
  destruct (evaluateMove_terminal _ _ Hev) as [terminal ->].
  destruct (gamePlayers db (sm_gameId input)) as [|p1 [|p2 [|]]]; try done.
  eexists. split; [reflexivity|done].
Qed.

Lemma admits_ready plan :
  keyed db ->
  planMove game (gamePlayers db (sm_gameId input)) (gameMoves db (sm_gameId input))
    color observedAt input = Ok (inr plan) ->
  mp_evaluation plan = ev -> admits env input db game player color plan.
Proof.
  intros Hk Hplan Hpe.
  destruct Hready as [Hg Hs Ht Hst Hok Hroom Hl Hd Hp Htwo Hv Hf Hu Hh Hev Hcol].
  pose proof (Hk _ _ Hg) as Hid.
  constructor; auto. apply moveConflict_false; simpl; rewrite ?Hid; try done.
  apply evaluateMove_inv in Hev
    as (? & ? & _ & _ & _ & _ & _ & _ & _ & _ & Hply & _ & _).
  simpl in Hply. by rewrite Hpe, Hply, length_map.
Qed.
End Ready.

Lemma submitMove_flagged `{!ChessJsLaws} env input db later game player color ev s :
  move_ready env input db game player color ev s ->
  remainingFor (domain_clock game color) color <= elapsed s (env_observedAt env) ->
  submitMove env input db later =
    (Err (moveError CLOCK_EXPIRED false (Some (g_version game))), db).
Proof.
  intros Hr Hle. unfold submitMove, run.
  rewrite (submitInTransaction_found _ _ _ _ (mr_game _ _ _ _ _ _ _ _ Hr)
             (mr_lock _ _ _ _ _ _ _ _ Hr)).
  assert (submitLocked env game (gamePlayers db (sm_gameId input))
            (gameMoves db (sm_gameId input)) (env_observedAt env) input db =
          Ok (rejected CLOCK_EXPIRED false (Some (g_version game)), db)) as ->; [|done].
  pose proof (planMove_flagged _ _ _ _ _ _ _ _ Hr Hle) as Hplan.
  destruct Hr as [Hg Hs Ht Hst Hok Hroom Hl Hd Hp Htwo Hv Hf Hu Hh Hev Hcol].
  unfold submitLocked. rewrite Hp.
  unfold gameCommand_findUnique, mbind at 1, tx_bind at 1, tx_read. rewrite Hf, Hs.
  destruct (findPlayer_Some _ _ _ _ Hp) as (_ & _ & Hpc).
  rewrite Ht, isColor_toString, Hpc,
    (bool_decide_eq_true_2 (toString color = toString color)) by done. simpl.
  rewrite Hv, Z.eqb_refl, Hh. simpl. unfold mbind, tx_bind, tx_lift.
  by rewrite Hplan.
Qed.

(** A move is refused once the game is over. *)
Lemma submitMove_over env input db later game :
  games db !! sm_gameId input = Some game -> lock_fits env game = true ->
  plays db (sm_gameId input) (sm_guestSessionId input) ->
  commands db !! (sm_gameId input, sm_clientMoveId input) = None ->
  isTerminalStatus (g_status game) = true ->
  submitMove env input db later =
    (Err (moveError GAME_ALREADY_ENDED false (Some (g_version game))), db).
Proof.
  intros Hg Hl [[player color] Hp] Hc Ht. unfold submitMove, run.
  rewrite (submitInTransaction_found _ _ _ _ Hg Hl). unfold submitLocked. rewrite Hp.
  unfold gameCommand_findUnique, mbind at 1, tx_bind at 1, tx_read. by rewrite Hc, Ht.
Qed.

(** C7: the clock alone decides a legal move. Let the player to move of a game in
    progress submit a legal move at the current version. If the time spent since
    the turn started is less than the clock had left, the move is committed: the
    reply gives the mover what was left, less the time spent, plus the increment,
    leaves the opponent's clock as it was, is one version further, and runs the
    opponent's clock unless the move ended the game. Otherwise the move is refused
    as CLOCK_EXPIRED, at the current version, and nothing changes. *)
Theorem submitMove_clock_decides `{!ChessJsLaws} env input db later game player color ev s :
  keyed db -> move_ready env input db game player color ev s ->
  let c := domain_clock game color in
  let spent := elapsed s (env_observedAt env) in
  if decide (spent < remainingFor c color) then
    exists sub db', submitMove env input db later = (Ok sub, db') /\
      ms_duplicate sub = false /\
      let a := ms_accepted sub in
      am_uci a = ap_uci (me_applied ev) /\ am_gameVersion a = g_version game + 1 /\
      (if decide (color = w)
       then gpc_whiteMs (am_clocks a) = g_whiteClockMs game - spent + g_incrementMs game /\
            gpc_blackMs (am_clocks a) = g_blackClockMs game
       else gpc_blackMs (am_clocks a) = g_blackClockMs game - spent + g_incrementMs game /\
            gpc_whiteMs (am_clocks a) = g_whiteClockMs game) /\
      gpc_running (am_clocks a) =
        (if isNull (ms_ended sub) then Some (oppositeColor color) else None) /\
      (ms_ended sub = None <-> me_gameOver ev = NotOver)
  else
    submitMove env input db later =
      (Err (moveError CLOCK_EXPIRED false (Some (g_version game))), db).
Proof.
  intros Hk Hr c spent. case_decide as Hlt.
  - destruct (planMove_in_time _ _ _ _ _ _ _ _ Hr Hlt) as (plan & Hplan & Hev & Had).
    pose proof (admits_ready _ _ _ _ _ _ _ _ Hr plan Hk Hplan Hev) as Ha.
    eexists _, _. split.
    { unfold submitMove, run. by rewrite (admits_submits _ _ _ _ _ _ _ Hk Ha). }
    pose proof (planMove_submission _ _ _ _ _ _ _ Hplan)
      as (Hdup & _ & _ & _ & Hver & _ & _ & Huci & _ & _ & _ & Hw & Hb & Hend & _).
    apply planMove_inr in Hplan as (? & ? & ? & _ & _ & _ & Hterm & _ & Hsub).
    rewrite Hev in Huci, Hterm. cbv zeta. split; [done|]. split; [done|].
    split; [|split; [|split]].
    + rewrite Hver. unfold moveIncrement. by rewrite (mr_status _ _ _ _ _ _ _ _ Hr).
    + rewrite Hw, Hb, Had. by destruct color.
    + rewrite Hsub. unfold submissionOf. simpl. by destruct (mp_terminal plan).
    + rewrite <- isNull_true, Hend, isNull_true.
      destruct (me_gameOver ev); [done|]. destruct Hterm as (o & _ & ->). done.
  - apply (submitMove_flagged _ _ _ _ _ _ _ _ _ Hr). unfold spent, c in Hlt. lia.
Qed.
End Theory.

(** ** A sample game, for the witnesses *)

#[local] Existing Instance SampleChess.sample.
#[local] Existing Instance SampleChess.sample_laws.
#[local] Existing Instance sample_prisma.
#[local] Instance sample_zod : Zod := {| zod_uuidv4 := nonempty |}.

Definition sample_move : SubmitMove :=
  mkSubmitMove "move-1" 2 "game-1" "alice" (mkMoveInput "e2" None "e4").

Lemma sample_keyed : keyed sample_db.
Proof.
  intros gid row Hg. change (({["game-1" := sample_row]} : gmap string GameRow) !! gid = Some row) in Hg.
  by apply lookup_singleton_Some in Hg as [<- <-].
Qed.

(** White moves half a minute into the turn. *)
Definition sample_outcome : result exn MoveSubmission * DB :=
  submitMove (env_at 1030000) sample_move sample_db sample_db.

Definition fresh_reply (o : result exn MoveSubmission * DB) : bool :=
  match o.1 with Ok s => negb (ms_duplicate s) | Err _ => false end.

Lemma submitMove_commits_witness :
  exists s db' game',
    sample_outcome = (Ok s, db') /\ games db' !! "game-1" = Some game' /\
    g_version game' = 3 /\ hasContiguousHistory (gameMoves db' "game-1") = true.
Proof.
  assert (fresh_reply sample_outcome = true) as Hf by reflexivity.
  destruct sample_outcome as [[s|e] db'] eqn:E; [|done].
  apply negb_true_iff in Hf.
  pose proof (submitMove_commits (env_at 1030000) sample_move sample_db sample_db s db'
    sample_keyed E Hf)
    as (game & game' & color & row & chess & Hg & Hg' & _ & _ & _ & Hv & _ & Hv' & _ & _ &
        _ & _ & _ & _ & _ & _ & Hh & _).
  exists s, db', game'. injection Hg as <-. split; [done|].
  split; [by rewrite Hg', lookup_insert_eq|]. split; [exact Hv'|exact Hh].
Defined.

(** Black cannot move now, and a refusal leaves the database alone. *)
Lemma submitMove_error_no_effect_witness :
  exists db',
    submitMove (env_at 1030000)
      (mkSubmitMove "move-1" 2 "game-1" "bob" (mkMoveInput "e7" None "e5"))
      sample_db sample_db = (Err (moveError NOT_YOUR_TURN false (Some 2)), db') /\
    db' = sample_db.
Proof.
  eexists. split; [reflexivity|].
  eapply (submitMove_error_no_effect (env_at 1030000)
    (mkSubmitMove "move-1" 2 "game-1" "bob" (mkMoveInput "e7" None "e5")) sample_db sample_db
    (moveError NOT_YOUR_TURN false (Some 2))); [exact sample_keyed|reflexivity].
Defined.

Lemma submitMove_idempotent_witness :
  exists s, sample_outcome.1 = Ok s /\
    submitMove (env_at 1040000)
      (mkSubmitMove "move-1" 9 "game-1" "alice" (mkMoveInput "a2" None "a3"))
      sample_outcome.2 sample_db = (Ok (asDuplicate s), sample_outcome.2).
Proof.
  assert (fresh_reply sample_outcome = true) as Hf by reflexivity.
  assert (match sample_outcome.1 with Ok s => storable s | Err _ => False end) as Hst.
  { vm_compute. repeat split; discriminate. }
  assert (lock_fits (env_at 1040000)
            (default sample_row (games sample_outcome.2 !! "game-1")) = true) as Hl
    by reflexivity.
  assert (is_Some (games sample_outcome.2 !! "game-1")) as [game2 Hg2] by (vm_compute; eauto).
  assert (plays sample_outcome.2 "game-1" "alice") as Hp by (vm_compute; eauto).
  unfold fresh_reply in *. rewrite Hg2 in Hl. simpl in Hl.
  destruct sample_outcome as [[s|e] db'] eqn:E; [|done].
  apply negb_true_iff in Hf. exists s. split; [done|].
  exact (submitMove_idempotent (env_at 1030000) sample_move sample_db sample_db s db'
    (env_at 1040000) db' sample_db game2
    (mkSubmitMove "move-1" 9 "game-1" "alice" (mkMoveInput "a2" None "a3"))
    sample_keyed E Hf Hst eq_refl Hg2 Hl eq_refl eq_refl Hp).
Defined.

Definition sample_evaluation : MoveEvaluation :=
  mkMoveEvaluation (mkAppliedMove false false w "start e2e4" "start" 1 "e4" "e2e4") NotOver
    "start e2e4".

Lemma sample_move_ready ms :
  1000000 <= ms <= 1000000000000 -> lock_fits (env_at ms) sample_row = true ->
  move_ready (env_at ms) sample_move sample_db sample_row
    (mkPlayerRow "p-w" "game-1" "alice" "w" 0 (Some 900000) (Some 900000) None None) w
    sample_evaluation 1000000.
Proof.
  intros Hms Hl. assert (env_observedAt (env_at ms) = ms) as Ho.
  { unfold env_observedAt, env_at. simpl.
    rewrite Z.add_comm, Z.div_add, Z.add_0_l by lia. done. }
  constructor; try done.
  - rewrite Ho. unfold date_range, MAX_DATE_MS. lia.
  - intros r Hr. apply gameMoves_elem in Hr as [Hr _]. by apply not_elem_of_nil in Hr.
Qed.

(** In time after thirty seconds, too late after three minutes and a second. *)
Lemma submitMove_clock_decides_witness :
  (exists sub db', submitMove (env_at 1030000) sample_move sample_db sample_db = (Ok sub, db') /\
     gpc_whiteMs (am_clocks (ms_accepted sub)) = 152000) /\
  submitMove (env_at 1181000) sample_move sample_db sample_db =
    (Err (moveError CLOCK_EXPIRED false (Some 2)), sample_db).
Proof.
  split.
  - pose proof (submitMove_clock_decides (env_at 1030000) sample_move sample_db sample_db
      sample_row _ w sample_evaluation 1000000 sample_keyed
      (sample_move_ready 1030000 ltac:(lia) eq_refl)) as H.
    rewrite decide_True in H by reflexivity.
    destruct H as (sub & db' & Hs & _ & _ & _ & Hc & _). exists sub, db'.
    rewrite decide_True in Hc by done. split; [exact Hs|]. destruct Hc as [-> _]. reflexivity.
  - pose proof (submitMove_clock_decides (env_at 1181000) sample_move sample_db sample_db
      sample_row _ w sample_evaluation 1000000 sample_keyed
      (sample_move_ready 1181000 ltac:(lia) eq_refl)) as H.
    rewrite decide_False in H by (vm_compute; discriminate). exact H.
Defined.

End Gameplay.
