(* ===== verification/GameLifecycleRepository.v ===== *)
(** * Ending, pausing and resuming games

    [src/src/modules/game/infrastructure/prisma-game-lifecycle.repository.ts]:
    resignation, the forced end when a guest resets, disconnection and
    reconnection, and the adjudication of timeouts, no-shows and abandonment;
    and the queries that tell when a game is next due. *)

From S2P Require Export Database TerminalResult.
Local Open Scope string_scope.
Local Open Scope list_scope.
Local Open Scope Z_scope.

Module Lifecycle.

(** ** The schemas of the stored reply *)

Section Schemas.
Context `{Zod}.

Definition clockSchema : parser GameplayClock :=
  z_object ["blackMs"; "observedAt"; "running"; "whiteMs"] (fun o =>
    blackMs ← z_field o "blackMs" z_int_nonnegative;
    observedAt ← z_field o "observedAt" z_int_nonnegative;
    running ← z_field o "running" z_null;
    whiteMs ← z_field o "whiteMs" z_int_nonnegative;
    Some (mkGameplayClock blackMs observedAt running whiteMs)).

Definition endedSchema : parser EndedGame :=
  z_object ["clocks"; "finalFen"; "gameId"; "gameVersion"; "pgn"; "result";
            "termination"] (fun o =>
    clocks ← z_field o "clocks" clockSchema;
    finalFen ← z_field o "finalFen" z_string_min1;
    gameId ← z_field o "gameId" z_uuidv4;
    gameVersion ← z_field o "gameVersion" z_int_nonnegative;
    pgn ← z_field o "pgn" z_string;
    result ← z_field o "result" (z_enum [black_win; draw; void; white_win]);
    termination ← z_field o "termination"
      (z_enum [abandonment; board checkmate; double_abandon; board fifty_move;
               board insufficient_material; no_show; resignation; board stalemate;
               board threefold_repetition; timeout]);
    Some (mkEndedGame clocks finalFen gameId gameVersion pgn result termination)).

Definition storedTerminalSchema (duplicate : bool) : parser TerminalSubmission :=
  z_object ["ended"; "guestSessionIds"] (fun o =>
    ended ← z_field o "ended" endedSchema;
    guestSessionIds ← z_field o "guestSessionIds" (z_tuple2 z_uuidv4 z_uuidv4);
    Some (mkTerminalSubmission duplicate ended guestSessionIds)).
End Schemas.

Definition storedTerminal (submission : TerminalSubmission) : json :=
  JObj [("ended", json_of_ended (ts_ended submission));
        ("guestSessionIds", json_of_guests (ts_guestSessionIds submission))].

Definition persistedResult (r : GameResult) : string :=
  match r with
  | black_win => "0-1" | draw => "1/2-1/2" | void => "*" | white_win => "1-0"
  end.

Definition persistedTermination (t : GameTermination) : string :=
  match t with
  | abandonment => "ABANDONMENT"
  | board checkmate => "CHECKMATE"
  | double_abandon => "SYSTEM"
  | board fifty_move => "FIFTY_MOVE_RULE"
  | board insufficient_material => "INSUFFICIENT_MATERIAL"
  | no_show => "JOIN_TIMEOUT"
  | resignation => "RESIGNATION"
  | board stalemate => "STALEMATE"
  | board threefold_repetition => "THREEFOLD_REPETITION"
  | timeout => "TIMEOUT"
  end.

Inductive ResignTransactionResult : Type :=
| accepted (submission : TerminalSubmission)
| rejected (code : GameServiceErrorCode) (retryable : bool)
    (authoritativeVersion : option Z).

(** ** Helpers *)

(** [throw new Error(message)] *)
Definition plainError (message : string) : exn :=
  ENative PlainObject None (Some message) EOther.

Definition guestTuple (ps : list PlayerRow) : result exn (string * string) :=
  match ps with
  | [first; second] => mret (p_guestSessionId first, p_guestSessionId second)
  | _ => Err (plainError "A lifecycle game must contain exactly two players.")
  end.

(** The player row and its colour. *)
Definition playerFor (ps : list PlayerRow) (guestSessionId : string)
    : option (PlayerRow * PlayerColor) :=
  player ← List.find (fun c => bool_decide (p_guestSessionId c = guestSessionId)) ps;
  color ← isColor (p_color player);
  Some (player, color).

Definition terminalClock (locked : LockedGameClock) : GameplayClock :=
  mkGameplayClock (lg_blackClockMs locked) (lg_observedAt locked) None
    (lg_whiteClockMs locked).

Definition earliest (values : list Z) : option Z :=
  fold_left (fun earliest value =>
    match earliest with
    | None => Some value
    | Some e => if value <? e then Some value else Some e
    end) values None.

(** [.filter((color): color is PlayerColor => this.isColor(color))] *)
Definition colorsOf (ps : list PlayerRow) : list PlayerColor :=
  omap (fun p => isColor (p_color p)) ps.

(** The grace deadlines of the other players of the game. *)
Definition otherDeadlines (ps : list PlayerRow) (player : PlayerRow) : list Z :=
  omap p_reconnectGraceEndsAt (filter (fun c => p_id c <> p_id player) ps).

(** [player.reconnectGraceEndsAt !== null && .. <= observedAt] *)
Definition graceOver (observedAt : Z) (p : PlayerRow) : bool :=
  match p_reconnectGraceEndsAt p with
  | None => false
  | Some graceEndsAt => graceEndsAt <=? observedAt
  end.

Section Operations.
Context `{Zod} `{Prisma}.

(** [findGame]: the row and its players in slot order. *)
Definition findGame (gameId : string) : tx DB exn (option (GameRow * list PlayerRow)) :=
  tx_read (fun db => row ← games db !! gameId; Some (row, gamePlayers db gameId)).

Definition terminalColumns (locked : LockedGameClock) (outcome : TerminalOutcome)
    : list GameColumn :=
  [G_blackClockMs (lg_blackClockMs locked);
   G_endedAt (Some (lg_observedAt locked));
   G_reconnectDeadlineAt None;
   G_result (Some (persistedResult (to_result outcome)));
   G_status (toString (statusOf (to_status outcome)));
   G_termination (Some (persistedTermination (to_termination outcome)));
   G_turnStartedAt None;
   G_version_increment 1;
   G_whiteClockMs (lg_whiteClockMs locked)].

Definition finalizeTerminal (env : Env) (game : GameRow) (ps : list PlayerRow)
    (locked : LockedGameClock) (outcome : TerminalOutcome)
    : tx DB exn (option TerminalSubmission) :=
  guestSessionIds ← tx_lift (guestTuple ps);
  count ← game_updateMany env (g_id game) (g_version game) (terminalColumns locked outcome);
  if negb (count =? 1) then mret None else
  _ ← gamePlayer_updateMany (g_id game) [P_disconnectedAt None; P_reconnectGraceEndsAt None];
  _ ← assignment_deleteMany (g_id game);
  mret (Some (mkTerminalSubmission false
                (mkEndedGame (terminalClock locked) (g_currentFen game) (g_id game)
                   (g_version game + 1) (g_pgn game) (to_result outcome)
                   (to_termination outcome))
                guestSessionIds)).

Definition replayResult (command : CommandRow) (input : ResignGame)
    : ResignTransactionResult :=
  if negb (bool_decide (c_commandType command = "RESIGN")) ||
     negb (bool_decide (c_guestSessionId command = rg_guestSessionId input))
  then rejected IDEMPOTENCY_KEY_REUSED false None
  else match storedTerminalSchema true (c_response command) with
       | None => rejected IDEMPOTENCY_KEY_REUSED false None
       | Some submission => accepted submission
       end.

(** [resignInTransaction], after the game was found and locked. *)
Definition resignLocked (env : Env) (game : GameRow) (ps : list PlayerRow)
    (locked : LockedGameClock) (input : ResignGame) : tx DB exn ResignTransactionResult :=
  let version := Some (g_version game) in
  match playerFor ps (rg_guestSessionId input) with
  | None => mret (rejected NOT_A_PLAYER false version)
  | Some (_, color) =>
    replay ← gameCommand_findUnique (rg_gameId input) (rg_eventId input);
    match replay with
    | Some command => mret (replayResult command input)
    | None =>
      if negb (bool_decide (g_status game = "IN_PROGRESS")) &&
         negb (bool_decide (g_status game = "RECONNECTING"))
      then mret (rejected GAME_ALREADY_ENDED false version) else
      if negb (rg_expectedVersion input =? g_version game)
      then mret (rejected STALE_GAME_VERSION true version) else
      outcome ← tx_lift (deriveTerminalOutcome (RESIGNATION color));
      submission ← finalizeTerminal env game ps locked outcome;
      match submission with
      | None => mret (rejected STALE_GAME_VERSION true (Some (g_version game + 1)))
      | Some submission =>
          _ ← gameCommand_create (rg_gameId input) (rg_eventId input)
                (mkCommandRow "RESIGN" (rg_guestSessionId input)
                   (storedTerminal submission)
                   (eg_gameVersion (ts_ended submission)));
          mret (accepted submission)
      end
    end
  end.

Definition resignInTransaction (env : Env) (input : ResignGame)
    : tx DB exn ResignTransactionResult :=
  locked ← lockGameClock env (rg_gameId input);
  match locked with
  | None => mret (rejected GAME_NOT_FOUND false None)
  | Some locked =>
      found ← findGame (rg_gameId input);
      match found with
      | None => mret (rejected GAME_NOT_FOUND false None)
      | Some (game, ps) => resignLocked env game ps locked input
      end
  end.

Definition serviceError (code : GameServiceErrorCode) (retryable : bool)
    (authoritativeVersion : option Z) : exn :=
  EGameService (mkGameServiceError code retryable authoritativeVersion server_error).

Definition findResignReplay (input : ResignGame) (db : DB)
    : result exn (option TerminalSubmission) :=
  match commands db !! (rg_gameId input, rg_eventId input) with
  | None => mret None
  | Some command =>
      match replayResult command input with
      | accepted submission => mret (Some submission)
      | rejected code retryable version => Err (serviceError code retryable version)
      end
  end.

(** [later] is the database when a unique violation has the reply looked up. *)
Definition resign (env : Env) (input : ResignGame) (db later : DB)
    : result exn TerminalSubmission * DB :=
  match run (resignInTransaction env input) db with
  | (Ok (accepted submission), db') => (Ok submission, db')
  | (Ok (rejected code retryable version), db') =>
      (Err (serviceError code retryable version), db')
  | (Err (EDatabase Unique retryable), db') =>
      match findResignReplay input later with
      | Ok (Some replay) => (Ok replay, db')
      | Ok None => (Err (EDatabase Unique retryable), db')
      | Err e => (Err e, db')
      end
  | (Err e, db') => (Err e, db')
  end.

(** The three operations below start from the guest's assignment, which they
    read before they lock the game: in [before], the database at that time. *)
Definition terminateForReset (env : Env) (before : DB) (guestSessionId : string)
    : DB -> result exn (option TerminalSubmission) * DB :=
  run (
    match assignments before !! guestSessionId with
    | None => mret None
    | Some gameId =>
      locked ← lockGameClock env gameId;
      match locked with
      | None => mret None
      | Some locked =>
        found ← findGame gameId;
        match found with
        | None => mret None
        | Some (game, ps) =>
          if negb (includes ["IN_PROGRESS"; "READY"; "RECONNECTING"; "WAITING_FOR_PLAYERS"]
                     (g_status game))
          then mret None else
          match playerFor ps guestSessionId with
          | None => mret None
          | Some (_, color) =>
              outcome ← tx_lift (deriveTerminalOutcome (ABANDONMENT [color]));
              finalizeTerminal env game ps locked outcome
          end
        end
      end
    end).

Definition markDisconnected (env : Env) (before : DB) (guestSessionId : string)
    (graceMs : Z) : DB -> result exn (option PlayerDisconnected) * DB :=
  run (
    match assignments before !! guestSessionId with
    | None => mret None
    | Some gameId =>
      locked ← lockGameClock env gameId;
      match locked with
      | None => mret None
      | Some locked =>
        found ← findGame gameId;
        match found with
        | None => mret None
        | Some (game, ps) =>
          match playerFor ps guestSessionId with
          | None => mret None
          | Some (player, color) =>
            if negb (bool_decide (g_status game = "IN_PROGRESS")) &&
               negb (bool_decide (g_status game = "RECONNECTING"))
            then
              _ ← (if bool_decide (g_status game = "WAITING_FOR_PLAYERS")
                   then gamePlayer_update (p_id player) [P_connectedAt None]
                   else mret ());
              mret None
            else if negb (isNull (p_disconnectedAt player)) then mret None else
            let graceDeadline := lg_observedAt locked + graceMs in
            let reconnectDeadlineAt :=
              earliest (graceDeadline :: otherDeadlines ps player) in
            _ ← gamePlayer_update (p_id player)
                  [P_connectedAt None; P_disconnectedAt (Some (lg_observedAt locked));
                   P_reconnectGraceEndsAt (Some graceDeadline)];
            count ← game_updateMany env (g_id game) (g_version game)
                      [G_reconnectDeadlineAt reconnectDeadlineAt;
                       G_status "RECONNECTING"; G_version_increment 1];
            if negb (count =? 1) then mret None else
            mret (Some (mkPlayerDisconnected color (g_id game) (g_version game + 1)
                          graceDeadline))
          end
        end
      end
    end).

Definition markReconnected (env : Env) (before : DB) (guestSessionId : string)
    : DB -> result exn (option PlayerReconnected) * DB :=
  run (
    match assignments before !! guestSessionId with
    | None => mret None
    | Some gameId =>
      locked ← lockGameClock env gameId;
      match locked with
      | None => mret None
      | Some locked =>
        found ← findGame gameId;
        match found with
        | None => mret None
        | Some (game, ps) =>
          if negb (bool_decide (g_status game = "RECONNECTING")) then mret None else
          match playerFor ps guestSessionId with
          | None => mret None
          | Some (player, color) =>
            if isNull (p_disconnectedAt player) then mret None else
            _ ← gamePlayer_update (p_id player)
                  [P_connectedAt (Some (lg_observedAt locked)); P_disconnectedAt None;
                   P_reconnectGraceEndsAt None];
            let remainingDeadlines := otherDeadlines ps player in
            let status :=
              if decide (length remainingDeadlines = 0%nat) then "IN_PROGRESS"
              else "RECONNECTING" in
            count ← game_updateMany env (g_id game) (g_version game)
                      [G_reconnectDeadlineAt
                         (if decide (length remainingDeadlines = 0%nat) then None
                          else earliest remainingDeadlines);
                       G_status status; G_version_increment 1];
            if negb (count =? 1) then mret None else
            mret (Some (mkPlayerReconnected color (g_id game) (g_version game + 1)))
          end
        end
      end
    end).

Definition adjudicateTimeout (env : Env) (gameId : string)
    : DB -> result exn (option TerminalSubmission) * DB :=
  run (
    locked ← lockGameClock env gameId;
    match locked with
    | None => mret None
    | Some locked =>
      if negb (bool_decide (lg_status locked = "IN_PROGRESS")) &&
         negb (bool_decide (lg_status locked = "RECONNECTING"))
      then mret None else
      match isColor (lg_turnColor locked) with
      | None => mret None
      | Some turn =>
        let remaining :=
          if decide (turn = w) then lg_whiteClockMs locked else lg_blackClockMs locked in
        if 0 <? remaining then mret None else
        found ← findGame gameId;
        match found with
        | None => mret None
        | Some (game, ps) =>
            outcome ← tx_lift (deriveTerminalOutcome (TIMEOUT turn));
            finalizeTerminal env game ps locked outcome
        end
      end
    end).

Definition adjudicateNoShow (env : Env) (gameId : string)
    : DB -> result exn (option TerminalSubmission) * DB :=
  run (
    locked ← lockGameClock env gameId;
    match locked with
    | None => mret None
    | Some locked =>
      if negb (bool_decide (lg_status locked = "WAITING_FOR_PLAYERS")) then mret None else
      found ← findGame gameId;
      match found with
      | None => mret None
      | Some (game, ps) =>
        match g_joinDeadlineAt game with
        | None => mret None
        | Some joinDeadlineAt =>
          if lg_observedAt locked <? joinDeadlineAt then mret None else
          let joined := colorsOf (filter (fun p => p_joinedAt p <> None) ps) in
          outcome ← tx_lift (deriveTerminalOutcome (NO_SHOW joined));
          finalizeTerminal env game ps locked outcome
        end
      end
    end).

(** The guards of [adjudicateAbandonment] on the players reported absent. *)
Definition abandonmentDue (observedAt : Z) (absentPlayers : list PlayerRow) : bool :=
  negb (bool_decide (length absentPlayers = 0%nat)) &&
  negb (existsb (fun p => isNull (p_disconnectedAt p) || isNull (p_reconnectGraceEndsAt p))
          absentPlayers) &&
  existsb (graceOver observedAt) absentPlayers.

Definition adjudicateAbandonment (env : Env) (gameId : string)
    (absentGuestSessionIds : list string)
    : DB -> result exn (option TerminalSubmission) * DB :=
  run (
    locked ← lockGameClock env gameId;
    match locked with
    | None => mret None
    | Some locked =>
      if negb (bool_decide (lg_status locked = "RECONNECTING")) then mret None else
      found ← findGame gameId;
      match found with
      | None => mret None
      | Some (game, ps) =>
        let absentPlayers :=
          filter (fun p => p_guestSessionId p ∈ absentGuestSessionIds) ps in
        if negb (abandonmentDue (lg_observedAt locked) absentPlayers) then mret None else
        outcome ← tx_lift (deriveTerminalOutcome (ABANDONMENT (colorsOf absentPlayers)));
        finalizeTerminal env game ps locked outcome
      end
    end).

(** ** What is due *)

Definition findGraceState (env : Env) (gameId : string) (db : DB)
    : result exn (option GraceState) :=
  match games db !! gameId with
  | None => mret None
  | Some game =>
      if negb (bool_decide (g_status game = "RECONNECTING")) then mret None else
      let ps := gamePlayers db gameId in
      guestSessionIds ← guestTuple ps;
      let dueGuestSessionIds :=
        map p_guestSessionId
          (filter (fun p => graceOver (env_observedAt env) p = true) ps) in
      mret (if decide (length dueGuestSessionIds = 0%nat) then None
            else Some (mkGraceState dueGuestSessionIds guestSessionIds))
  end.

(** The candidates of [findDeadline], in the order they are pushed. *)
Definition deadlineCandidates (game : GameRow) (ps : list PlayerRow) : list Z :=
  match g_joinDeadlineAt game with
  | Some deadline =>
      if bool_decide (g_status game = "WAITING_FOR_PLAYERS") then [deadline] else []
  | None => []
  end ++
  match g_turnStartedAt game, isColor (g_turnColor game) with
  | Some startedAt, Some turn =>
      if is_running game then
        [startedAt + if decide (turn = w) then g_whiteClockMs game
                     else g_blackClockMs game]
      else []
  | _, _ => []
  end ++
  (if bool_decide (g_status game = "RECONNECTING") then omap p_reconnectGraceEndsAt ps
   else []).

Definition findDeadline (db : DB) (gameId : string) : option Z :=
  game ← games db !! gameId;
  earliest (deadlineCandidates game (gamePlayers db gameId)).

(** The WHERE clause of [findDueGameIds]; a comparison with NULL is not true.
    [clock_timestamp()] has microseconds. *)
Definition passed (env : Env) (at_ : option Z) : bool :=
  match at_ with None => false | Some ms => ms * 1000 <=? env_clock_timestamp env end.

Definition isDue (env : Env) (db : DB) (game : GameRow) : bool :=
  (bool_decide (g_status game = "WAITING_FOR_PLAYERS") && passed env (g_joinDeadlineAt game))
  || (is_running game &&
      passed env ((fun startedAt =>
        startedAt + if bool_decide (g_turnColor game = "w") then g_whiteClockMs game
                    else g_blackClockMs game) <$> g_turnStartedAt game))
  || (bool_decide (g_status game = "RECONNECTING") &&
      existsb (fun p => passed env (p_reconnectGraceEndsAt p)) (playerRows db (g_id game))).

Definition findDueGameIds (env : Env) (limit : nat) (db : DB) : list string :=
  take limit (orderBy String.leb
    (map g_id (filter (fun game => isDue env db game = true)
                 (map snd (map_to_list (games db)))))).

Definition findSchedulableGameIds (limit : nat) (db : DB) : list string :=
  map g_id (take limit (orderBy (fun x y => g_updatedAt x <=? g_updatedAt y)
    (filter (fun game => g_status game ∈ ["WAITING_FOR_PLAYERS"; "IN_PROGRESS"; "RECONNECTING"])
       (map snd (map_to_list (games db)))))).
End Operations.

(** ** Theory *)

Arguments set_GameColumns : simpl never.

Section Theory.
Context `{Zod} `{Prisma}.

(** The row and the database a finished game leaves. *)
Definition endedRow (env : Env) (game : GameRow) (locked : LockedGameClock)
    (outcome : TerminalOutcome) : GameRow :=
  set_GameColumns (terminalColumns locked outcome ++ [G_updatedAt (env_updatedAt env)]) game.

Definition endedDB (env : Env) (game : GameRow) (locked : LockedGameClock)
    (outcome : TerminalOutcome) (db : DB) : DB :=
  with_assignments (filter (fun kv => kv.2 <> g_id game))
    (with_players (map (on_game_players (g_id game)
                          [P_disconnectedAt None; P_reconnectGraceEndsAt None]))
       (with_games <[g_id game := endedRow env game locked outcome]> db)).

Definition endedReply (game : GameRow) (locked : LockedGameClock)
    (outcome : TerminalOutcome) (guests : string * string) : TerminalSubmission :=
  mkTerminalSubmission false
    (mkEndedGame (terminalClock locked) (g_currentFen game) (g_id game)
       (g_version game + 1) (g_pgn game) (to_result outcome) (to_termination outcome))
    guests.

Lemma finalizeTerminal_eval env game ps locked outcome db :
  games db !! g_id game = Some game ->
  finalizeTerminal env game ps locked outcome db =
    match guestTuple ps with
    | Ok guests => Ok (Some (endedReply game locked outcome guests),
                       endedDB env game locked outcome db)
    | Err e => Err e
    end.
Proof.
  intros Hg. unfold finalizeTerminal, mbind at 1, tx_bind at 1, tx_lift.
  destruct (guestTuple ps) as [guests|e]; [|done].
  by rewrite (tx_bind_eval _ _ _ _ _ (game_updateMany_eval _ _ _ _ _ _ Hg eq_refl)).
Qed.

Lemma guestTuple_two ps :
  length ps = 2%nat ->
  exists first second, guestTuple ps = Ok (first, second) /\
                       map p_guestSessionId ps = [first; second].
Proof. destruct ps as [|p1 [|p2 [|]]]; try done. simpl. eauto. Qed.

Lemma endedRow_spec env game locked outcome :
  let row := endedRow env game locked outcome in
  g_id row = g_id game /\ g_matchId row = g_matchId game /\ g_mode row = g_mode game /\
  g_initialFen row = g_initialFen game /\ g_currentFen row = g_currentFen game /\
  g_pgn row = g_pgn game /\ g_turnColor row = g_turnColor game /\
  g_version row = g_version game + 1 /\
  g_status row = toString (statusOf (to_status outcome)) /\
  g_result row = Some (persistedResult (to_result outcome)) /\
  g_termination row = Some (persistedTermination (to_termination outcome)) /\
  g_endedAt row = Some (lg_observedAt locked) /\ g_turnStartedAt row = None /\
  g_reconnectDeadlineAt row = None /\ g_startedAt row = g_startedAt game /\
  g_joinDeadlineAt row = g_joinDeadlineAt game /\
  g_incrementMs row = g_incrementMs game /\ g_timeInitialMs row = g_timeInitialMs game /\
  g_whiteClockMs row = lg_whiteClockMs locked /\ g_blackClockMs row = lg_blackClockMs locked.
Proof. unfold endedRow, terminalColumns, set_GameColumns. simpl. repeat split. Qed.

Lemma findGame_eval gid db row :
  games db !! gid = Some row -> findGame gid db = Ok (Some (row, gamePlayers db gid), db).
Proof. intros Hg. unfold findGame, tx_read. by rewrite Hg. Qed.

(** A transaction that locks a game and finds it, then goes on with it. *)
Lemma locked_found {A} env gid db game
    (k : LockedGameClock -> tx DB exn A) (z : tx DB exn A) :
  games db !! gid = Some game -> lock_fits env game = true ->
  (locked ← lockGameClock env gid; match locked with None => z | Some l => k l end) db =
  k (locked_of env game) db.
Proof.
  intros Hg Hl. unfold mbind, tx_bind. by rewrite (lockGameClock_eval _ _ _ _ Hg), Hl.
Qed.

Lemma running_status game :
  is_running game = true -> g_status game = "IN_PROGRESS" \/ g_status game = "RECONNECTING".
Proof. unfold is_running. intros Hr%includes_true. set_solver. Qed.

Lemma running_guard game :
  negb (bool_decide (g_status game = "IN_PROGRESS")) &&
  negb (bool_decide (g_status game = "RECONNECTING")) = negb (is_running game).
Proof.
  destruct (is_running game) eqn:Hr.
  - by destruct (running_status _ Hr) as [-> | ->].
  - unfold is_running in Hr. js_bool.
    rewrite !bool_decide_eq_false_2; [done|..]; set_solver.
Qed.

(** The outcome of a terminal transaction on a game with two players. *)
Definition ended (env : Env) (game : GameRow) (ps : list PlayerRow)
    (outcome : TerminalOutcome) (db : DB) : result exn (option TerminalSubmission) * DB :=
  match guestTuple ps with
  | Ok guests => (Ok (Some (endedReply game (locked_of env game) outcome guests)),
                  endedDB env game (locked_of env game) outcome db)
  | Err e => (Err (toDatabaseError e), db)
  end.

Lemma run_finalize env gid db game ps outcome :
  keyed db -> games db !! gid = Some game ->
  run (finalizeTerminal env game ps (locked_of env game) outcome) db =
  ended env game ps outcome db.
Proof.
  intros Hk Hg. unfold run, ended.
  rewrite finalizeTerminal_eval by (by rewrite (Hk _ _ Hg)). by destruct (guestTuple ps).
Qed.

Lemma adjudicateTimeout_eval env gid db game c :
  keyed db -> games db !! gid = Some game -> lock_fits env game = true ->
  is_running game = true -> g_turnColor game = toString c ->
  adjudicateTimeout env gid db =
    if 0 <? locked_ms env game c (remainingFor (domain_clock game c) c)
    then (Ok None, db)
    else ended env game (gamePlayers db gid)
           (winnerOutcome (oppositeColor c) T_COMPLETED timeout) db.
Proof.
  intros Hk Hg Hl Hr Hc. rewrite <- (run_finalize env gid db game _ _ Hk Hg).
  unfold adjudicateTimeout, run at 1. rewrite (locked_found _ _ _ _ _ _ Hg Hl).
  cbn [lg_status lg_turnColor lg_whiteClockMs lg_blackClockMs locked_of].
  rewrite running_guard, Hr. cbn [negb]. rewrite Hc, isColor_toString.
  replace (if decide (c = w) then locked_ms env game w (g_whiteClockMs game)
           else locked_ms env game b (g_blackClockMs game))
    with (locked_ms env game c (remainingFor (domain_clock game c) c)) by (by destruct c).
  destruct (0 <? _); [done|].
  by rewrite (tx_bind_eval _ _ _ _ _ (findGame_eval _ _ _ Hg)).
Qed.

(** The locked clock of the player to move, in the terms of the domain clock. *)
Lemma locked_ms_elapsed env game (c : PlayerColor) s :
  is_running game = true -> g_turnColor game = toString c ->
  g_turnStartedAt game = Some s -> s <= env_observedAt env ->
  locked_ms env game c (remainingFor (domain_clock game c) c) =
  Z.max 0 (remainingFor (domain_clock game c) c - elapsed s (env_observedAt env)).
Proof.
  intros Hr Hc Hs Ht. unfold locked_ms, runs, elapsed.
  rewrite Hr, Hc, Hs, bool_decide_eq_true_2 by done. simpl. lia.
Qed.

(** C20: a timeout is adjudicated exactly when the flag has fallen. For a running
    game whose turn started before the observation, adjudicateTimeout ends the
    game if and only if the domain clock (checkFlagFall) says that the player to
    move has no time left; the opponent then wins by timeout, the loser's clock is
    zero, the game is COMPLETED one version further with its clock stopped, both
    players are released and no other game is touched. If the flag has not
    fallen, nothing changes. *)
Theorem adjudicateTimeout_iff_flag_fell env gid db game c s :
  keyed db -> games db !! gid = Some game -> lock_fits env game = true ->
  is_running game = true -> g_turnColor game = toString c ->
  g_turnStartedAt game = Some s -> clock_ok (domain_clock game c) ->
  length (gamePlayers db gid) = 2%nat -> s <= env_observedAt env ->
  match checkFlagFall (domain_clock game c) (Some (env_observedAt env)) with
  | Ok (FlagFall _ _ _) =>
      exists sub db' game',
        adjudicateTimeout env gid db = (Ok (Some sub), db') /\
        eg_termination (ts_ended sub) = timeout /\
        eg_result (ts_ended sub) = (if decide (c = w) then black_win else white_win) /\
        (if decide (c = w) then gpc_whiteMs (eg_clocks (ts_ended sub)) = 0
         else gpc_blackMs (eg_clocks (ts_ended sub)) = 0) /\
        eg_gameVersion (ts_ended sub) = g_version game + 1 /\
        games db' = <[gid := game']> (games db) /\
        g_status game' = "COMPLETED" /\ g_version game' = g_version game + 1 /\
        g_turnStartedAt game' = None /\
        (forall guest, assignments db' !! guest <> Some gid)
  | Ok (Accepted _ _) => adjudicateTimeout env gid db = (Ok None, db)
  | Err _ => False
  end.
Proof.
  intros Hk Hg Hl Hr Hc Hs Hok Htwo Ht.
  rewrite (checkFlagFall_eval _ c s Hok) by (simpl; by rewrite ?Hs).
  rewrite (adjudicateTimeout_eval _ _ _ _ _ Hk Hg Hl Hr Hc).
  pose proof (locked_ms_elapsed env game c s Hr Hc Hs Ht) as Hms.
  rewrite Hms. destruct (Z.leb_spec (remainingFor (domain_clock game c) c)
                           (elapsed s (env_observedAt env))).
  - rewrite (proj2 (Z.ltb_ge _ _)) by lia. unfold ended.
    destruct (guestTuple_two _ Htwo) as (g1 & g2 & -> & _).
    eexists _, _, _. split; [reflexivity|].
    assert (locked_ms env game c (remainingFor (domain_clock game c) c) = 0) by lia.
    split; [done|]. split; [by destruct c|]. split; [by destruct c|].
    split; [done|]. rewrite <- (Hk _ _ Hg). repeat split.
    intros guest. simpl. rewrite map_lookup_filter_Some. naive_solver.
  - by rewrite (proj2 (Z.ltb_lt _ _)) by lia.
Qed.

(** ** How each operation can end a game *)

#[local] Arguments deriveTerminalOutcome : simpl never.

(** The transaction ended the game [gid] for the reason [event]. *)
Definition ends_game (env : Env) (gid : string) (db : DB) (event : TerminalEvent)
    (sub : TerminalSubmission) (db' : DB) : Prop :=
  exists game outcome,
    games db !! gid = Some game /\ lock_fits env game = true /\
    deriveTerminalOutcome event = Ok outcome /\
    guestTuple (gamePlayers db gid) = Ok (ts_guestSessionIds sub) /\
    sub = endedReply game (locked_of env game) outcome (ts_guestSessionIds sub) /\
    db' = endedDB env game (locked_of env game) outcome db.

Lemma run_inv {A} (work : tx DB exn A) db r db' :
  run work db = (Ok r, db') -> work db = Ok (r, db').
Proof. unfold run. destruct (work db) as [[a d]|e]; by intros [= <- <-]. Qed.

Lemma run_Err {A} (work : tx DB exn A) db e db' : run work db = (Err e, db') -> db' = db.
Proof. unfold run. destruct (work db) as [[a d]|e']; by intros [= <- <-]. Qed.

Lemma locked_inv {A} env gid db r db' (k : LockedGameClock -> tx DB exn A)
    (z : tx DB exn A) :
  (locked ← lockGameClock env gid; match locked with None => z | Some l => k l end) db
    = Ok (r, db') ->
  (games db !! gid = None /\ z db = Ok (r, db')) \/
  (exists game, games db !! gid = Some game /\ lock_fits env game = true /\
                k (locked_of env game) db = Ok (r, db')).
Proof.
  intros Hr. destruct (games db !! gid) as [game|] eqn:Hg.
  - right. exists game. unfold mbind, tx_bind in Hr.
    rewrite (lockGameClock_eval _ _ _ _ Hg) in Hr. by destruct (lock_fits env game).
  - left. unfold mbind, tx_bind in Hr. by rewrite lockGameClock_missing in Hr.
Qed.

Lemma found_inv {A} gid db game r db' (k : GameRow -> list PlayerRow -> tx DB exn A)
    (z : tx DB exn A) :
  games db !! gid = Some game ->
  (found ← findGame gid; match found with None => z | Some (g, ps) => k g ps end) db
    = Ok (r, db') ->
  k game (gamePlayers db gid) db = Ok (r, db').
Proof. intros Hg. by rewrite (tx_bind_eval _ _ _ _ _ (findGame_eval _ _ _ Hg)). Qed.

Lemma finalize_inv env gid db game event r db' :
  keyed db -> games db !! gid = Some game -> lock_fits env game = true ->
  (outcome ← tx_lift (deriveTerminalOutcome event);
   finalizeTerminal env game (gamePlayers db gid) (locked_of env game) outcome) db
    = Ok (r, db') ->
  exists sub, r = Some sub /\ ends_game env gid db event sub db'.
Proof.
  intros Hk Hg Hl. unfold mbind, tx_bind, tx_lift.
  destruct (deriveTerminalOutcome event) as [outcome|] eqn:Ho; [|done].
  rewrite finalizeTerminal_eval by (by rewrite (Hk _ _ Hg)).
  destruct (guestTuple _) as [guests|] eqn:Hgt; [|done]. intros [= <- <-].
  eexists. split; [done|]. exists game, outcome. by rewrite Hgt.
Qed.

Lemma adjudicateTimeout_inv env gid db r db' :
  keyed db -> adjudicateTimeout env gid db = (Ok r, db') ->
  (r = None /\ db' = db) \/
  (exists sub game c, r = Some sub /\ games db !! gid = Some game /\
     is_running game = true /\ g_turnColor game = toString c /\
     locked_ms env game c (remainingFor (domain_clock game c) c) <= 0 /\
     ends_game env gid db (TIMEOUT c) sub db').
Proof.
  intros Hk Hr%run_inv.
  apply locked_inv in Hr as [[_ Hr] | (game & Hg & Hl & Hr)]; [js_ret; by left|].
  cbn [lg_status lg_turnColor lg_whiteClockMs lg_blackClockMs locked_of] in Hr.
  rewrite running_guard in Hr. destruct (is_running game) eqn:Hrun; simpl in Hr;
    [|js_ret; by left].
  destruct (isColor (g_turnColor game)) as [c|] eqn:Hc; [|js_ret; by left].
  destruct (Z.ltb_spec 0 (if decide (c = w) then locked_ms env game w (g_whiteClockMs game)
                          else locked_ms env game b (g_blackClockMs game)));
    [js_ret; by left|].
  apply (found_inv _ _ _ _ _ (fun game ps => outcome ← _; finalizeTerminal env game ps _ outcome) _ Hg) in Hr.
  apply finalize_inv in Hr as (sub & -> & He); [|done..].
  right. exists sub, game, c. apply isColor_Some in Hc. split_and!; try done. by destruct c.
Qed.

Lemma adjudicateNoShow_inv env gid db r db' :
  keyed db -> adjudicateNoShow env gid db = (Ok r, db') ->
  (r = None /\ db' = db) \/
  (exists sub game deadline, r = Some sub /\ games db !! gid = Some game /\
     g_status game = "WAITING_FOR_PLAYERS" /\ g_joinDeadlineAt game = Some deadline /\
     deadline <= env_observedAt env /\
     ends_game env gid db
       (NO_SHOW (colorsOf (filter (fun p => p_joinedAt p <> None) (gamePlayers db gid))))
       sub db').
Proof.
  intros Hk Hr%run_inv.
  apply locked_inv in Hr as [[_ Hr] | (game & Hg & Hl & Hr)]; [js_ret; by left|].
  cbn [lg_status lg_observedAt locked_of] in Hr.
  case_bool_decide as Hs; simpl in Hr; [|js_ret; by left].
  apply (found_inv _ _ _ _ _ (fun game ps =>
    match g_joinDeadlineAt game with None => _ | Some d => _ end) _ Hg) in Hr.
  destruct (g_joinDeadlineAt game) as [deadline|] eqn:Hd; [|js_ret; by left].
  destruct (Z.ltb_spec (env_observedAt env) deadline); [js_ret; by left|].
  apply finalize_inv in Hr as (sub & -> & He); [|done..]. right. eauto 10.
Qed.

Lemma adjudicateAbandonment_inv env gid guests db r db' :
  keyed db -> adjudicateAbandonment env gid guests db = (Ok r, db') ->
  let absent := filter (fun p => p_guestSessionId p ∈ guests) (gamePlayers db gid) in
  (r = None /\ db' = db) \/
  (exists sub game, r = Some sub /\ games db !! gid = Some game /\
     g_status game = "RECONNECTING" /\
     abandonmentDue (env_observedAt env) absent = true /\
     ends_game env gid db (ABANDONMENT (colorsOf absent)) sub db').
Proof.
  intros Hk Hr%run_inv absent.
  apply locked_inv in Hr as [[_ Hr] | (game & Hg & Hl & Hr)]; [js_ret; by left|].
  cbn [lg_status lg_observedAt locked_of] in Hr.
  case_bool_decide as Hs; simpl in Hr; [|js_ret; by left].
  apply (found_inv _ _ _ _ _ (fun game ps => if negb (abandonmentDue _ (filter _ ps))
    then _ else _) _ Hg) in Hr.
  fold absent in Hr.
  destruct (abandonmentDue _ absent) eqn:Hd; simpl in Hr; [|js_ret; by left].
  apply finalize_inv in Hr as (sub & -> & He); [|done..]. right. eauto 10.
Qed.

Lemma terminateForReset_inv env before guest db r db' :
  keyed db -> terminateForReset env before guest db = (Ok r, db') ->
  (r = None /\ db' = db) \/
  (exists sub gid game player c, r = Some sub /\ assignments before !! guest = Some gid /\
     games db !! gid = Some game /\
     g_status game ∈ ["IN_PROGRESS"; "READY"; "RECONNECTING"; "WAITING_FOR_PLAYERS"] /\
     playerFor (gamePlayers db gid) guest = Some (player, c) /\
     ends_game env gid db (ABANDONMENT [c]) sub db').
Proof.
  intros Hk Hr%run_inv.
  destruct (assignments before !! guest) as [gid|] eqn:Ha; [|js_ret; by left].
  apply locked_inv in Hr as [[_ Hr] | (game & Hg & Hl & Hr)]; [js_ret; by left|].
  apply (found_inv _ _ _ _ _ (fun game ps => if negb (includes _ (g_status game)) then _ else
    match playerFor ps _ with None => _ | Some (_, c) => _ end) _ Hg) in Hr.
  destruct (includes _ _) eqn:Hi; simpl in Hr; [|js_ret; by left].
  destruct (playerFor _ _) as [[player c]|] eqn:Hp; [|js_ret; by left].
  apply finalize_inv in Hr as (sub & -> & He); [|done..].
  right. apply includes_true in Hi. eauto 15.
Qed.

(** ** Resignation *)

Definition resignedDB (input : ResignGame) (sub : TerminalSubmission) (db : DB) : DB :=
  with_commands
    <[(rg_gameId input, rg_eventId input) :=
        mkCommandRow "RESIGN" (rg_guestSessionId input) (storedTerminal sub)
          (eg_gameVersion (ts_ended sub))]> db.

Lemma resignInTransaction_inv env input db r db' :
  keyed db -> resignInTransaction env input db = Ok (r, db') ->
  (db' = db /\
     forall sub, r = accepted sub -> exists command,
       commands db !! (rg_gameId input, rg_eventId input) = Some command /\
       replayResult command input = r) \/
  (exists sub game player c db1, r = accepted sub /\
     games db !! rg_gameId input = Some game /\ is_running game = true /\
     rg_expectedVersion input = g_version game /\
     commands db !! (rg_gameId input, rg_eventId input) = None /\
     playerFor (gamePlayers db (rg_gameId input)) (rg_guestSessionId input)
       = Some (player, c) /\
     ends_game env (rg_gameId input) db (RESIGNATION c) sub db1 /\
     db' = resignedDB input sub db1).
Proof.
  intros Hk Hr.
  apply locked_inv in Hr as [[_ Hr] | (game & Hg & Hl & Hr)]; [js_ret; by left|].
  apply (found_inv _ _ _ _ _ (fun game ps => resignLocked env game ps _ input) _ Hg) in Hr.
  unfold resignLocked in Hr.
  destruct (playerFor _ _) as [[player c]|] eqn:Hp; [|js_ret; by left].
  unfold gameCommand_findUnique, mbind at 1, tx_bind at 1, tx_read in Hr.
  destruct (commands db !! _) as [command|] eqn:Hc.
  { js_ret. left. eauto. }
  rewrite running_guard in Hr. destruct (is_running game) eqn:Hrun; simpl in Hr;
    [|js_ret; by left].
  destruct (Z.eqb_spec (rg_expectedVersion input) (g_version game)) as [Hv|Hv];
    simpl in Hr; [|js_ret; by left].
  unfold mbind, tx_bind, tx_lift in Hr.
  destruct (deriveTerminalOutcome _) as [outcome|] eqn:Ho; [|done].
  rewrite finalizeTerminal_eval in Hr by (by rewrite (Hk _ _ Hg)).
  destruct (guestTuple _) as [guests|] eqn:Hgt; [|done].
  unfold gameCommand_create in Hr. simpl in Hr. rewrite Hc in Hr. js_ret.
  right. eexists _, game, player, c, _. split_and!; try done.
  exists game, outcome. rewrite Hgt. split_and!; done.
Qed.

Lemma resignInTransaction_eval env input db game player c sub db1 :
  keyed db -> games db !! rg_gameId input = Some game -> is_running game = true ->
  rg_expectedVersion input = g_version game ->
  commands db !! (rg_gameId input, rg_eventId input) = None ->
  playerFor (gamePlayers db (rg_gameId input)) (rg_guestSessionId input)
    = Some (player, c) ->
  ends_game env (rg_gameId input) db (RESIGNATION c) sub db1 ->
  resignInTransaction env input db = Ok (accepted sub, resignedDB input sub db1).
Proof.
  intros Hk Hg Hrun Hv Hc Hp (game' & outcome & Hg' & Hl & Ho & Hgt & Hsub & ->).
  assert (game' = game) as -> by congruence. unfold resignInTransaction.
  rewrite (locked_found _ _ _ _ _ _ Hg Hl).
  rewrite (tx_bind_eval _ _ _ _ _ (findGame_eval _ _ _ Hg)). unfold resignLocked. rewrite Hp.
  unfold gameCommand_findUnique, mbind at 1, tx_bind at 1, tx_read. rewrite Hc.
  rewrite running_guard, Hrun, Hv, Z.eqb_refl. simpl.
  unfold mbind, tx_bind, tx_lift. rewrite Ho.
  rewrite finalizeTerminal_eval by (by rewrite (Hk _ _ Hg)). rewrite Hgt, <- Hsub.
  unfold gameCommand_create. simpl. by rewrite Hc.
Qed.

(** ** Disconnection and reconnection *)

Definition disconnectedDB (env : Env) (game : GameRow) (ps : list PlayerRow)
    (player : PlayerRow) (graceMs : Z) (db : DB) : DB :=
  let graceDeadline := env_observedAt env + graceMs in
  with_games
    <[g_id game := set_GameColumns
        ([G_reconnectDeadlineAt (earliest (graceDeadline :: otherDeadlines ps player));
          G_status "RECONNECTING"; G_version_increment 1] ++
         [G_updatedAt (env_updatedAt env)]) game]>
    (with_players
       (map (on_player (p_id player)
               [P_connectedAt None; P_disconnectedAt (Some (env_observedAt env));
                P_reconnectGraceEndsAt (Some graceDeadline)])) db).

Definition reconnectedDB (env : Env) (game : GameRow) (ps : list PlayerRow)
    (player : PlayerRow) (db : DB) : DB :=
  let remaining := otherDeadlines ps player in
  with_games
    <[g_id game := set_GameColumns
        ([G_reconnectDeadlineAt (earliest remaining);
          G_status (if decide (length remaining = 0%nat) then "IN_PROGRESS"
                    else "RECONNECTING");
          G_version_increment 1] ++
         [G_updatedAt (env_updatedAt env)]) game]>
    (with_players
       (map (on_player (p_id player)
               [P_connectedAt (Some (env_observedAt env)); P_disconnectedAt None;
                P_reconnectGraceEndsAt None])) db).

Lemma playerFor_Some ps guest player c :
  playerFor ps guest = Some (player, c) ->
  player ∈ ps /\ p_guestSessionId player = guest /\ p_color player = toString c.
Proof.
  unfold playerFor. intros Hf.
  destruct (List.find _ ps) as [r|] eqn:Er; simpl in Hf; [|done].
  destruct (isColor (p_color r)) as [c'|] eqn:Ec; simpl in Hf; [|done]. simplify_eq.
  apply List.find_some in Er as [Hin Hp]. js_bool.
  split_and!; [by apply list_elem_of_In|done|by apply isColor_Some].
Qed.

(** The write to a player of a locked game cannot miss its row. *)
Lemma player_update_found db gid guest player c data :
  playerFor (gamePlayers db gid) guest = Some (player, c) ->
  gamePlayer_update (p_id player) data db =
  Ok ((), with_players (map (on_player (p_id player) data)) db).
Proof.
  intros (Hin & _ & _)%playerFor_Some. apply gamePlayer_update_eval.
  exists player. split; [by apply gamePlayers_elem in Hin as [? _]|done].
Qed.

Lemma markDisconnected_eval env before db guest graceMs gid game player c :
  keyed db -> assignments before !! guest = Some gid ->
  games db !! gid = Some game -> lock_fits env game = true ->
  playerFor (gamePlayers db gid) guest = Some (player, c) ->
  markDisconnected env before guest graceMs db =
    if is_running game then
      if isNull (p_disconnectedAt player) then
        (Ok (Some (mkPlayerDisconnected c (g_id game) (g_version game + 1)
                     (env_observedAt env + graceMs))),
         disconnectedDB env game (gamePlayers db gid) player graceMs db)
      else (Ok None, db)
    else if bool_decide (g_status game = "WAITING_FOR_PLAYERS") then
      (Ok None, with_players (map (on_player (p_id player) [P_connectedAt None])) db)
    else (Ok None, db).
Proof.
  intros Hk Ha Hg Hl Hp. unfold markDisconnected, run. rewrite Ha.
  rewrite (locked_found _ _ _ _ _ _ Hg Hl).
  rewrite (tx_bind_eval _ _ _ _ _ (findGame_eval _ _ _ Hg)). rewrite Hp, running_guard.
  destruct (is_running game); cbn [negb].
  - destruct (isNull (p_disconnectedAt player)); [|done]. cbn [negb].
    rewrite (tx_bind_eval _ _ _ _ _ (player_update_found _ _ _ _ _ _ Hp)).
    erewrite (tx_bind_eval (game_updateMany _ _ _ _));
      [|apply game_updateMany_eval; [by rewrite (Hk _ _ Hg)|done]].
    done.
  - case_bool_decide; [|done].
    by rewrite (tx_bind_eval _ _ _ _ _ (player_update_found _ _ _ _ _ _ Hp)).
Qed.

Lemma earliest_nil_iff l : earliest l = None <-> l = [].
Proof.
  unfold earliest. destruct l as [|x l]; [done|]. simpl. split; [|done].
  intros He. exfalso. revert x He. induction l as [|y l IH]; intros x; simpl; [done|].
  destruct (y <? x); apply IH.
Qed.

Lemma markReconnected_eval env before db guest gid game player c :
  keyed db -> assignments before !! guest = Some gid ->
  games db !! gid = Some game -> lock_fits env game = true ->
  playerFor (gamePlayers db gid) guest = Some (player, c) ->
  markReconnected env before guest db =
    if bool_decide (g_status game = "RECONNECTING") && negb (isNull (p_disconnectedAt player))
    then (Ok (Some (mkPlayerReconnected c (g_id game) (g_version game + 1))),
          reconnectedDB env game (gamePlayers db gid) player db)
    else (Ok None, db).
Proof.
  intros Hk Ha Hg Hl Hp. unfold markReconnected, run. rewrite Ha.
  rewrite (locked_found _ _ _ _ _ _ Hg Hl).
  rewrite (tx_bind_eval _ _ _ _ _ (findGame_eval _ _ _ Hg)). rewrite Hp.
  case_bool_decide; [|done]. cbn [negb andb].
  destruct (isNull (p_disconnectedAt player)); [done|]. cbn [negb].
  rewrite (tx_bind_eval _ _ _ _ _ (player_update_found _ _ _ _ _ _ Hp)).
  erewrite (tx_bind_eval (game_updateMany _ _ _ _));
    [|apply game_updateMany_eval; [by rewrite (Hk _ _ Hg)|done]].
  change (negb (1 =? 1)) with false. cbv iota. unfold reconnectedDB.
  destruct (otherDeadlines _ _) eqn:E; done.
Qed.

Lemma playerFor_map f ps guest :
  (forall r, p_guestSessionId (f r) = p_guestSessionId r) ->
  (forall r, p_color (f r) = p_color r) ->
  playerFor (map f ps) guest = (fun pc => (f pc.1, pc.2)) <$> playerFor ps guest.
Proof.
  intros Hg Hc. unfold playerFor. induction ps as [|r ps IH]; simpl; [done|].
  rewrite Hg. case_bool_decide; simpl; [|done]. rewrite Hc. by destruct (isColor _).
Qed.

Lemma playerFor_on_player ps guest id data :
  playerFor (map (on_player id data) ps) guest =
  (fun pc => (on_player id data pc.1, pc.2)) <$> playerFor ps guest.
Proof.
  apply playerFor_map; intros r; unfold on_player; case_decide;
    by autorewrite with cluchess.
Qed.

Lemma otherDeadlines_on_player ps player player' data :
  p_id player' = p_id player ->
  otherDeadlines (map (on_player (p_id player) data) ps) player' = otherDeadlines ps player.
Proof.
  intros Hid. unfold otherDeadlines. rewrite Hid.
  induction ps as [|r ps IH]; simpl; [done|]. unfold on_player at 1.
  destruct (decide (p_id r = p_id player)) as [E|E].
  - rewrite !filter_cons_False; [done|..]; autorewrite with cluchess; naive_solver.
  - rewrite !filter_cons_True by done. simpl.
    destruct (p_reconnectGraceEndsAt r); [f_equal|]; exact IH.
Qed.

Lemma lock_fits_columns env game game' :
  is_running game = true -> is_running game' = true ->
  g_turnColor game' = g_turnColor game -> g_turnStartedAt game' = g_turnStartedAt game ->
  g_whiteClockMs game' = g_whiteClockMs game -> g_blackClockMs game' = g_blackClockMs game ->
  lock_fits env game' = lock_fits env game.
Proof.
  intros H1 H2 Ht Hs Hw Hb. unfold lock_fits, locked_fits, runs.
  by rewrite H1, H2, Ht, Hs, Hw, Hb.
Qed.

Definition connected (p : PlayerRow) : Prop :=
  p_disconnectedAt p = None /\ p_reconnectGraceEndsAt p = None.

Lemma otherDeadlines_connected ps player :
  Forall connected ps -> otherDeadlines ps player = [].
Proof.
  intros Hconn. unfold otherDeadlines. apply elem_of_nil_inv.
  intros d (p & Hpin & Hpd)%list_elem_of_omap. apply list_elem_of_filter in Hpin as [_ Hpin].
  apply (proj1 (Forall_forall _ _) Hconn) in Hpin as [_ ?]. congruence.
Qed.

(** What reconnection finds after a disconnection. *)
Lemma disconnectedDB_finds env db gid guest graceMs game player c :
  keyed db -> games db !! gid = Some game ->
  playerFor (gamePlayers db gid) guest = Some (player, c) ->
  let db1 := disconnectedDB env game (gamePlayers db gid) player graceMs db in
  let data := [P_connectedAt None; P_disconnectedAt (Some (env_observedAt env));
               P_reconnectGraceEndsAt (Some (env_observedAt env + graceMs))] in
  keyed db1 /\
  games db1 !! gid = Some (set_GameColumns
    ([G_reconnectDeadlineAt (earliest (env_observedAt env + graceMs ::
                               otherDeadlines (gamePlayers db gid) player));
      G_status "RECONNECTING"; G_version_increment 1] ++
     [G_updatedAt (env_updatedAt env)]) game) /\
  gamePlayers db1 gid = map (on_player (p_id player) data) (gamePlayers db gid) /\
  playerFor (gamePlayers db1 gid) guest = Some (set_PlayerColumns data player, c).
Proof.
  intros Hk Hg Hp db1 data. pose proof (Hk _ _ Hg) as Hid.
  assert (gamePlayers db1 gid = map (on_player (p_id player) data) (gamePlayers db gid))
    as Hps by apply (gamePlayers_on_player db gid (p_id player) data).
  split_and!; [| |exact Hps|].
  - intros g row. unfold db1, disconnectedDB. simpl. rewrite Hid.
    intros [[<- <-]|[_ Hgr]]%lookup_insert_Some; [done|by apply Hk].
  - unfold db1, disconnectedDB. simpl. by rewrite Hid, lookup_insert_eq.
  - rewrite Hps, playerFor_on_player, Hp. simpl. unfold on_player. by rewrite decide_True.
Qed.

(** A second update of all the columns of a player hides the first. *)
Lemma on_player_twice p data data' rows :
  (forall r, set_PlayerColumns data' (set_PlayerColumns data r) = set_PlayerColumns data' r) ->
  map (on_player p data') (map (on_player p data) rows) = map (on_player p data') rows.
Proof.
  intros Hover. rewrite map_map. apply map_ext. intros r. unfold on_player.
  destruct (decide (p_id r = p)) as [E|E]; [|by rewrite decide_False].
  by rewrite decide_True, Hover by (by rewrite p_id_set).
Qed.

(** A disconnection and the reconnection that follows cancel out. In a game in
    progress whose players are both connected, markDisconnected moves the game to
    RECONNECTING with the guest's grace deadline as the game's reconnect deadline;
    markReconnected then brings it back to IN_PROGRESS with no deadline. Between
    the start and the end of the two operations the row differs only in its
    version, two further, and its time of update: in particular position, turn
    and clocks are untouched, and the running clock was never paused. The
    player's row differs only in the time of connection. *)
Theorem disconnect_reconnect_roundtrip env1 env2 db gid guest graceMs game player c :
  keyed db -> games db !! gid = Some game -> g_status game = "IN_PROGRESS" ->
  g_reconnectDeadlineAt game = None -> assignments db !! guest = Some gid ->
  playerFor (gamePlayers db gid) guest = Some (player, c) ->
  Forall connected (gamePlayers db gid) ->
  lock_fits env1 game = true -> lock_fits env2 game = true ->
  exists db1 db2 game1,
    markDisconnected env1 db guest graceMs db =
      (Ok (Some (mkPlayerDisconnected c gid (g_version game + 1)
                   (env_observedAt env1 + graceMs))), db1) /\
    games db1 !! gid = Some game1 /\ g_status game1 = "RECONNECTING" /\
    g_reconnectDeadlineAt game1 = Some (env_observedAt env1 + graceMs) /\
    markReconnected env2 db1 guest db1 =
      (Ok (Some (mkPlayerReconnected c gid (g_version game + 2))), db2) /\
    games db2 = <[gid := set_GameColumns
      [G_version_increment 2; G_updatedAt (env_updatedAt env2)] game]> (games db) /\
    players db2 = map (on_player (p_id player)
      [P_connectedAt (Some (env_observedAt env2)); P_disconnectedAt None;
       P_reconnectGraceEndsAt None]) (players db) /\
    assignments db2 = assignments db /\ moves db2 = moves db /\ commands db2 = commands db.
Proof.
  intros Hk Hg Hs Hr Ha Hp Hconn Hl1 Hl2. pose proof (Hk _ _ Hg) as Hid.
  assert (is_running game = true) as Hrun by (unfold is_running; by rewrite Hs).
  destruct (playerFor_Some _ _ _ _ Hp) as (Hin & _ & _).
  pose proof (proj1 (Forall_forall _ _) Hconn _ Hin) as [Hd _].
  pose proof (otherDeadlines_connected _ player Hconn) as Hother.
  destruct (disconnectedDB_finds env1 db gid guest graceMs game player c Hk Hg Hp)
    as (Hk1 & Hg1 & Hps & Hp1).
  set (db1 := disconnectedDB env1 game (gamePlayers db gid) player graceMs db) in *.
  rewrite Hother in Hg1. match type of Hg1 with _ = Some ?r => set (game1 := r) in * end.
  match type of Hp1 with _ = Some (?r, _) => set (player1 := r) in * end.
  exists db1, (reconnectedDB env2 game1 (gamePlayers db1 gid) player1 db1), game1.
  split.
  { rewrite (markDisconnected_eval _ _ _ _ _ _ _ _ _ Hk Ha Hg Hl1 Hp), Hrun, Hd, Hid. done. }
  split; [done|]. split; [done|]. split; [done|]. split.
  { rewrite (markReconnected_eval env2 db1 db1 guest gid game1 player1 c Hk1 Ha Hg1
      (eq_trans (lock_fits_columns env2 game game1 Hrun eq_refl eq_refl eq_refl eq_refl eq_refl)
         Hl2) Hp1).
    replace (g_version game + 2) with (g_version game1 + 1)
      by (unfold game1, set_GameColumns; simpl; lia).
    change (g_id game1) with (g_id game). by rewrite Hid. }
  unfold reconnectedDB. rewrite Hps, otherDeadlines_on_player by (by unfold player1; rewrite p_id_set).
  rewrite Hother. simpl. rewrite Hid, insert_insert_eq.
  split; [|split; [|done]].
  - f_equal. unfold set_GameColumns, game1. simpl. rewrite Hs, Hr. f_equal. lia.
  - by apply on_player_twice.
Qed.

(** ** Deadlines *)

(** [earliest] of a non-empty list is its least member. *)
Lemma earliest_from e l :
  fold_left (fun earliest value =>
    match earliest with
    | None => Some value
    | Some e => if value <? e then Some value else Some e
    end) l (Some e) = Some (fold_left Z.min l e).
Proof.
  revert e. induction l as [|v l IH]; intros e; simpl; [done|].
  destruct (Z.ltb_spec v e); rewrite IH; do 2 f_equal; lia.
Qed.

Lemma earliest_passed l t :
  (exists d, earliest l = Some d /\ d <= t) <-> (exists d, d ∈ l /\ d <= t).
Proof.
  destruct l as [|e l]; [unfold earliest; set_solver by naive_solver|].
  unfold earliest. simpl. rewrite earliest_from. revert e.
  induction l as [|v l IH]; intros e; simpl; [set_solver|].
  rewrite IH. setoid_rewrite elem_of_cons. setoid_rewrite elem_of_cons.
  split.
  - intros (d & [->|Hd] & Ht); [|eauto].
    destruct (Z.min_spec e v) as [[_ Hm]|[_ Hm]]; rewrite Hm in Ht; eauto.
  - intros (d & [->|[->|Hd]] & Ht); [| |eauto]; exists (Z.min e v); split; auto; lia.
Qed.

Lemma passed_ms env ms : passed env (Some ms) = (ms <=? env_observedAt env).
Proof.
  unfold passed, env_observedAt. apply eq_bool_prop_intro. rewrite !Is_true_true, !Z.leb_le.
  split; intros; [apply Z.div_le_lower_bound; lia|].
  pose proof (Z.mul_div_le (env_clock_timestamp env) 1000). lia.
Qed.

#[local] Arguments passed : simpl never.

(** The schedule of a game and the scan for due games agree. For a game of
    the database whose side to move is a colour, findDueGameIds counts the game as
    due exactly when findDeadline gives it a deadline, and that deadline has
    passed at the time of the scan (which has microseconds). *)
Theorem findDeadline_agrees_with_isDue env db gid game (c : PlayerColor) :
  keyed db -> games db !! gid = Some game -> g_turnColor game = toString c ->
  isDue env db game = true <->
  exists deadline, findDeadline db gid = Some deadline /\ deadline <= env_observedAt env.
Proof.
  intros Hk Hg Hc. unfold findDeadline. rewrite Hg. simpl. rewrite earliest_passed.
  unfold isDue, deadlineCandidates. rewrite !orb_true_iff, !andb_true_iff.
  rewrite Hc, isColor_toString, (Hk _ _ Hg). setoid_rewrite elem_of_app.
  setoid_rewrite elem_of_app. split.
  - intros [[[Hs Hd]|[Hr Hd]]|[Hs Hd]].
    + destruct (g_joinDeadlineAt game) as [d|]; [|done]. rewrite passed_ms in Hd.
      rewrite Hs. exists d. js_bool. split; [left; set_solver|done].
    + destruct (g_turnStartedAt game) as [s|]; [|done]. simpl in Hd.
      rewrite passed_ms in Hd. rewrite Hr.
      eexists. js_bool. split; [right; left; by apply list_elem_of_singleton|].
      destruct c; simpl in *; lia.
    + apply existsb_exists in Hd as (p & Hp%list_elem_of_In & Hd).
      destruct (p_reconnectGraceEndsAt p) as [d|] eqn:Ep; [|done]. rewrite passed_ms in Hd.
      rewrite Hs. exists d. js_bool. split; [|done]. right; right.
      apply list_elem_of_omap. exists p. split; [|done].
      unfold gamePlayers. by rewrite orderBy_perm.
  - intros (d & [Hd|[Hd|Hd]] & Ht).
    + left; left. destruct (g_joinDeadlineAt game) as [d'|]; [|set_solver].
      case_match; [|set_solver]. apply list_elem_of_singleton in Hd as ->.
      rewrite passed_ms. split; [done|]. by apply Z.leb_le.
    + left; right. destruct (g_turnStartedAt game) as [s|]; [|set_solver].
      case_match; [|set_solver]. apply list_elem_of_singleton in Hd as ->.
      simpl. rewrite passed_ms. split; [done|]. apply Z.leb_le. by destruct c.
    + right. case_match; [|set_solver].
      apply list_elem_of_omap in Hd as (p & Hp & Hd).
      split; [done|]. apply existsb_exists. exists p. rewrite Hd, passed_ms.
      split; [|by apply Z.leb_le]. apply list_elem_of_In.
      unfold gamePlayers in Hp. by rewrite orderBy_perm in Hp.
Qed.

(** ** No-shows and abandonment *)

Lemma adjudicateNoShow_eval env gid db game :
  keyed db -> games db !! gid = Some game -> lock_fits env game = true ->
  g_status game = "WAITING_FOR_PLAYERS" ->
  let joined := colorsOf (filter (fun p => p_joinedAt p <> None) (gamePlayers db gid)) in
  adjudicateNoShow env gid db =
    match g_joinDeadlineAt game with
    | None => (Ok None, db)
    | Some deadline =>
        if env_observedAt env <? deadline then (Ok None, db) else
        match deriveTerminalOutcome (NO_SHOW joined) with
        | Ok outcome => ended env game (gamePlayers db gid) outcome db
        | Err e => (Err (toDatabaseError e), db)
        end
    end.
Proof.
  intros Hk Hg Hl Hs joined. unfold adjudicateNoShow, run.
  rewrite (locked_found _ _ _ _ _ _ Hg Hl).
  cbn [lg_status lg_observedAt locked_of]. rewrite Hs.
  change (negb (bool_decide ("WAITING_FOR_PLAYERS" = "WAITING_FOR_PLAYERS"))) with false.
  cbv iota. rewrite (tx_bind_eval _ _ _ _ _ (findGame_eval _ _ _ Hg)).
  destruct (g_joinDeadlineAt game) as [deadline|]; [|done].
  destruct (env_observedAt env <? deadline); [done|]. fold joined.
  unfold mbind, tx_bind, tx_lift. destruct (deriveTerminalOutcome _) as [outcome|]; [|done].
  apply (run_finalize env gid db game _ _ Hk Hg).
Qed.

Lemma adjudicateAbandonment_eval env gid guests db game :
  keyed db -> games db !! gid = Some game -> lock_fits env game = true ->
  g_status game = "RECONNECTING" ->
  let absent := filter (fun p => p_guestSessionId p ∈ guests) (gamePlayers db gid) in
  adjudicateAbandonment env gid guests db =
    if abandonmentDue (env_observedAt env) absent then
      match deriveTerminalOutcome (ABANDONMENT (colorsOf absent)) with
      | Ok outcome => ended env game (gamePlayers db gid) outcome db
      | Err e => (Err (toDatabaseError e), db)
      end
    else (Ok None, db).
Proof.
  intros Hk Hg Hl Hs absent. unfold adjudicateAbandonment, run.
  rewrite (locked_found _ _ _ _ _ _ Hg Hl).
  cbn [lg_status lg_observedAt locked_of]. rewrite Hs.
  change (negb (bool_decide ("RECONNECTING" = "RECONNECTING"))) with false.
  cbv iota. rewrite (tx_bind_eval _ _ _ _ _ (findGame_eval _ _ _ Hg)). fold absent.
  destruct (abandonmentDue _ _); [|done]. cbn [negb].
  unfold mbind, tx_bind, tx_lift. destruct (deriveTerminalOutcome _) as [outcome|]; [|done].
  apply (run_finalize env gid db game _ _ Hk Hg).
Qed.

(** The game ended with this result, for this reason, and its players are free. *)
Definition ended_with (gid : string) (r : GameResult) (t : GameTermination)
    (status : GameStatus) (o : result exn (option TerminalSubmission) * DB) : Prop :=
  exists sub game', o.1 = Ok (Some sub) /\ ts_duplicate sub = false /\
    eg_result (ts_ended sub) = r /\ eg_termination (ts_ended sub) = t /\
    games o.2 !! gid = Some game' /\ g_status game' = toString status /\
    g_result game' = Some (persistedResult r) /\
    g_termination game' = Some (persistedTermination t) /\
    g_version game' = eg_gameVersion (ts_ended sub) /\
    (forall guest, assignments o.2 !! guest <> Some gid).

Lemma ended_ended_with env gid db game outcome :
  keyed db -> games db !! gid = Some game -> length (gamePlayers db gid) = 2%nat ->
  ended_with gid (to_result outcome) (to_termination outcome) (statusOf (to_status outcome))
    (ended env game (gamePlayers db gid) outcome db).
Proof.
  intros Hk Hg Htwo. unfold ended. destruct (guestTuple_two _ Htwo) as (g1 & g2 & -> & _).
  pose proof (Hk _ _ Hg) as Hid.
  pose proof (endedRow_spec env game (locked_of env game) outcome)
    as (_ & _ & _ & _ & _ & _ & _ & Hv & Hs & Hr & Ht & _).
  eexists _, (endedRow env game (locked_of env game) outcome).
  split; [reflexivity|]. cbn. rewrite Hid, lookup_insert_eq. split_and!; try done.
  intros guest. rewrite map_lookup_filter_Some. naive_solver.
Qed.

Lemma abandonmentDue_spec t absent :
  abandonmentDue t absent = true <->
  Exists (fun p => graceOver t p = true) absent /\
  Forall (fun p => p_disconnectedAt p <> None /\ p_reconnectGraceEndsAt p <> None) absent.
Proof.
  unfold abandonmentDue. rewrite !andb_true_iff, !negb_true_iff, bool_decide_eq_false.
  assert (existsb (graceOver t) absent = true <->
          Exists (fun p => graceOver t p = true) absent) as ->.
  { rewrite existsb_exists, Exists_exists. by setoid_rewrite list_elem_of_In. }
  assert (existsb (fun p => isNull (p_disconnectedAt p) || isNull (p_reconnectGraceEndsAt p))
            absent = false <->
          Forall (fun p => p_disconnectedAt p <> None /\ p_reconnectGraceEndsAt p <> None)
            absent) as ->.
  { induction absent as [|p l IH]; simpl; [done|].
    rewrite Forall_cons, orb_false_iff, IH, orb_false_iff.
    destruct (p_disconnectedAt p), (p_reconnectGraceEndsAt p); simpl; naive_solver. }
  split; [naive_solver|]. intros [He Hf]. split_and!; try done.
  intros Hn. destruct absent; [by inversion He|done].
Qed.

(** The two players of a game, White in the first slot. *)
Definition two_players (db : DB) (gid : string) (white black : PlayerRow) : Prop :=
  gamePlayers db gid = [white; black] /\ p_color white = "w" /\ p_color black = "b".

(** No-shows. For a game waiting for its two players, of whom at least one has
    not joined, adjudicateNoShow does nothing before the join deadline (or without
    one); from the deadline on, it expires the game: void if nobody joined,
    otherwise won by the player who did. *)
Theorem adjudicateNoShow_spec env gid db game white black :
  keyed db -> games db !! gid = Some game -> lock_fits env game = true ->
  g_status game = "WAITING_FOR_PLAYERS" -> two_players db gid white black ->
  p_joinedAt white = None \/ p_joinedAt black = None ->
  if passed env (g_joinDeadlineAt game)
  then ended_with gid
         (match p_joinedAt white, p_joinedAt black with
          | Some _, _ => white_win
          | None, Some _ => black_win
          | None, None => void
          end) no_show EXPIRED (adjudicateNoShow env gid db)
  else adjudicateNoShow env gid db = (Ok None, db).
Proof.
  intros Hk Hg Hl Hs (Hps & Hw & Hb) Hj.
  rewrite (adjudicateNoShow_eval _ _ _ _ Hk Hg Hl Hs).
  assert (forall o, ended_with gid (to_result o) (to_termination o)
            (statusOf (to_status o)) (ended env game (gamePlayers db gid) o db)) as Hend
    by (intros; apply ended_ended_with; [done..|by rewrite Hps]).
  rewrite Hps in *.
  destruct (g_joinDeadlineAt game) as [deadline|]; [|done]. rewrite passed_ms.
  destruct (Z.ltb_spec (env_observedAt env) deadline).
  { by rewrite (proj2 (Z.leb_gt _ _)). }
  rewrite (proj2 (Z.leb_le _ _)) by done.
  destruct (p_joinedAt white) eqn:Ew, (p_joinedAt black) eqn:Eb; [by destruct Hj|..];
    repeat (first [rewrite filter_cons_True by congruence
                  |rewrite filter_cons_False by naive_solver]);
    rewrite filter_nil; unfold colorsOf; simpl; rewrite ?Hw, ?Hb; apply Hend.
Qed.

(** Abandonment. For a game in which a player's reconnection is awaited,
    adjudicateAbandonment, given a list of guests said to be absent, ends the game
    exactly when some player of the game is on the list, every player on it is
    disconnected with a grace deadline, and one of those deadlines has passed. The
    game is then abandoned: void when both are absent, otherwise won by the
    player who is there. In every other case, in particular when a player on the
    list is connected again, nothing changes. *)
Theorem adjudicateAbandonment_spec env gid guests db game white black :
  keyed db -> games db !! gid = Some game -> lock_fits env game = true ->
  g_status game = "RECONNECTING" -> two_players db gid white black ->
  let absent := filter (fun p => p_guestSessionId p ∈ guests) [white; black] in
  let due := Exists (fun p => graceOver (env_observedAt env) p = true) absent /\
             Forall (fun p => p_disconnectedAt p <> None /\
                              p_reconnectGraceEndsAt p <> None) absent in
  let o := adjudicateAbandonment env gid guests db in
  (due ->
     if decide (p_guestSessionId white ∈ guests) then
       if decide (p_guestSessionId black ∈ guests)
       then ended_with gid void double_abandon ABANDONED o
       else ended_with gid black_win abandonment ABANDONED o
     else ended_with gid white_win abandonment ABANDONED o) /\
  (~ due -> o = (Ok None, db)).
Proof.
  intros Hk Hg Hl Hs (Hps & Hw & Hb) absent due o. subst o.
  rewrite (adjudicateAbandonment_eval _ _ _ _ _ Hk Hg Hl Hs).
  assert (forall o, ended_with gid (to_result o) (to_termination o)
            (statusOf (to_status o)) (ended env game (gamePlayers db gid) o db)) as Hend
    by (intros; apply ended_ended_with; [done..|by rewrite Hps]).
  rewrite Hps in *. fold absent.
  assert (abandonmentDue (env_observedAt env) absent = true <-> due) as Hdue
    by apply abandonmentDue_spec.
  split; [|intros Hn; by destruct (abandonmentDue _ absent); [destruct Hn; apply Hdue|]].
  intros Hd. rewrite (proj2 Hdue Hd). destruct Hd as [Hex _].
  subst absent. clear Hdue due. rewrite !filter_cons, filter_nil in *.
  destruct (decide (p_guestSessionId white ∈ guests)),
    (decide (p_guestSessionId black ∈ guests));
    unfold colorsOf; simpl; rewrite ?Hw, ?Hb; try apply Hend. by inversion Hex.
Qed.

(** ** Retrying a resignation *)

Definition storable (s : TerminalSubmission) : Prop :=
  ended_storable (ts_ended s) /\ guests_storable (ts_guestSessionIds s) /\
  gpc_running (eg_clocks (ts_ended s)) = None.

Definition asDuplicate (s : TerminalSubmission) : TerminalSubmission :=
  mkTerminalSubmission true (ts_ended s) (ts_guestSessionIds s).

Lemma clockSchema_eval c :
  clock_storable c -> gpc_running c = None -> clockSchema (json_of_clock c) = Some c.
Proof.
  intros (? & ? & ? & ? & ? & ?) Hr. unfold clockSchema, json_of_clock, z_int_nonnegative.
  rewrite Hr. z_read. cbn. destruct c. simpl in *. by subst.
Qed.

Lemma storedTerminal_roundtrip s :
  storable s -> storedTerminalSchema true (storedTerminal s) = Some (asDuplicate s).
Proof.
  intros ((Hc & ? & ? & ? & ?) & Hg & Hr). unfold storedTerminalSchema, storedTerminal.
  pose proof (clockSchema_eval _ Hc Hr).
  assert (endedSchema (json_of_ended (ts_ended s)) = Some (ts_ended s)).
  { unfold endedSchema, json_of_ended, z_int_nonnegative, z_uuidv4, z_string_min1.
    z_read. by destruct (ts_ended s). }
  z_read. done.
Qed.

Lemma storedTerminalSchema_duplicate j s :
  storedTerminalSchema true j = Some s -> ts_duplicate s = true.
Proof.
  unfold storedTerminalSchema, z_object. intros E. destruct j; try done. case_match; [|done].
  repeat (let x := fresh in apply bind_Some in E as (x & _ & E)). by injection E as <-.
Qed.

Lemma resignReplay_duplicate command input s :
  replayResult command input = accepted s -> ts_duplicate s = true.
Proof.
  unfold replayResult. intros Hr. case_match; [done|].
  destruct (storedTerminalSchema true _) as [s'|] eqn:E; [|done]. injection Hr as <-.
  by eapply storedTerminalSchema_duplicate.
Qed.

Lemma resign_fresh env input db later sub db' :
  keyed db -> resign env input db later = (Ok sub, db') -> ts_duplicate sub = false ->
  exists game player c db1,
    games db !! rg_gameId input = Some game /\ is_running game = true /\
    rg_expectedVersion input = g_version game /\
    playerFor (gamePlayers db (rg_gameId input)) (rg_guestSessionId input)
      = Some (player, c) /\
    ends_game env (rg_gameId input) db (RESIGNATION c) sub db1 /\
    db' = resignedDB input sub db1.
Proof.
  intros Hk Hr Hd. unfold resign in Hr.
  destruct (run (resignInTransaction env input) db) as [[r|e] db1] eqn:Ht.
  - apply run_inv, resignInTransaction_inv in Ht; [|done].
    destruct Ht as [[-> Hu] | (s & game & p & c & db2 & -> & ?)].
    + destruct r as [s|]; [|done]. injection Hr as <- <-.
      destruct (Hu s eq_refl) as (command & _ & Hrep).
      apply resignReplay_duplicate in Hrep. congruence.
    + injection Hr as <- <-. naive_solver.
  - destruct e as [| | |[]| |]; try done. unfold findResignReplay in Hr.
    destruct (commands later !! _) as [command|]; [|done].
    destruct (replayResult command input) eqn:Hrep; [|done]. injection Hr as <- <-.
    apply resignReplay_duplicate in Hrep. congruence.
Qed.

Lemma guestTuple_length ps g : guestTuple ps = Ok g -> length ps = 2%nat.
Proof. destruct ps as [|? [|? [|]]]; by intros. Qed.

Lemma ends_game_ended_with env gid db event sub db1 :
  keyed db -> ends_game env gid db event sub db1 ->
  exists outcome, deriveTerminalOutcome event = Ok outcome /\
    ended_with gid (to_result outcome) (to_termination outcome)
      (statusOf (to_status outcome)) (Ok (Some sub), db1).
Proof.
  intros Hk (game & outcome & Hg & Hl & Ho & Hgt & Hsub & ->). exists outcome. split; [done|].
  pose proof (ended_ended_with env gid db game outcome Hk Hg (guestTuple_length _ _ Hgt)) as He.
  unfold ended in He. by rewrite Hgt, <- Hsub in He.
Qed.

(** C19: resignation. When resign answers with a new reply, the guest was a player of
    a running game at exactly the expected version, and the game is now COMPLETED,
    won by the opponent by resignation, its players released. From then on every
    resubmission of the event by the same guest is answered with that reply, marked
    as a duplicate, and changes nothing; the other player using the same event id
    is refused as reusing an idempotency key, and changes nothing. *)
Theorem resign_ends_game_once env input db later sub db' :
  keyed db -> resign env input db later = (Ok sub, db') -> ts_duplicate sub = false ->
  storable sub ->
  let gid := rg_gameId input in
  (exists game player c,
     games db !! gid = Some game /\ is_running game = true /\
     rg_expectedVersion input = g_version game /\
     playerFor (gamePlayers db gid) (rg_guestSessionId input) = Some (player, c) /\
     ended_with gid (if decide (c = w) then black_win else white_win) resignation COMPLETED
       (Ok (Some sub), db')) /\
  (forall env2 input2 db2 later2 game2 player2,
     commands db2 !! (gid, rg_eventId input) = commands db' !! (gid, rg_eventId input) ->
     games db2 !! gid = Some game2 -> lock_fits env2 game2 = true ->
     rg_gameId input2 = gid -> rg_eventId input2 = rg_eventId input ->
     playerFor (gamePlayers db2 gid) (rg_guestSessionId input2) = Some player2 ->
     resign env2 input2 db2 later2 =
       (if decide (rg_guestSessionId input2 = rg_guestSessionId input)
        then Ok (asDuplicate sub)
        else Err (serviceError IDEMPOTENCY_KEY_REUSED false None), db2)).
Proof.
  intros Hk Hr Hd Hst gid.
  destruct (resign_fresh _ _ _ _ _ _ Hk Hr Hd) as (game & player & c & db1 & Hg & Hrun & Hv &
    Hp & He & ->).
  split.
  - exists game, player, c. split_and!; try done.
    apply ends_game_ended_with in He as (outcome & [= <-] & He); [|done].
    destruct c; exact He.
  - intros env2 input2 db2 later2 game2 [player2 c2] Hc Hg2 Hl2 Hgid Hev Hp2.
    unfold resignedDB in Hc. simpl in Hc. rewrite lookup_insert_eq in Hc.
    unfold resign, run, resignInTransaction. rewrite Hgid.
    rewrite (locked_found _ _ _ _ _ _ Hg2 Hl2).
    rewrite (tx_bind_eval _ _ _ _ _ (findGame_eval _ _ _ Hg2)). unfold resignLocked.
    rewrite Hp2. unfold gameCommand_findUnique, mbind, tx_bind, tx_read.
    rewrite Hgid, Hev, Hc. unfold replayResult.
    cbn [c_commandType c_guestSessionId c_response].
    change (bool_decide ("RESIGN" = "RESIGN")) with true. cbn [negb orb].
    destruct (decide (rg_guestSessionId input2 = rg_guestSessionId input)) as [E|E].
    + rewrite E, bool_decide_eq_true_2 by done. cbn [negb].
      by rewrite storedTerminal_roundtrip.
    + by rewrite bool_decide_eq_false_2.
Qed.
End Theory.

(** ** Sample games, for the witnesses *)

#[local] Existing Instance sample_prisma.
#[local] Instance sample_zod : Zod := {| zod_uuidv4 := nonempty |}.

Definition with_row (row : GameRow) (ps : list PlayerRow) : DB :=
  mkDB {["game-1" := row]} ps [] {["alice" := "game-1"; "bob" := "game-1"]} ∅ ∅ ∅.

Lemma with_row_keyed row ps : g_id row = "game-1" -> keyed (with_row row ps).
Proof.
  intros Hr gid row' Hg.
  change (({["game-1" := row]} : gmap string GameRow) !! gid = Some row') in Hg.
  by apply lookup_singleton_Some in Hg as [<- <-].
Qed.

Lemma adjudicateTimeout_iff_flag_fell_witness :
  adjudicateTimeout (env_at 1100000) "game-1" sample_db = (Ok None, sample_db) /\
  exists sub db', adjudicateTimeout (env_at 1180000) "game-1" sample_db = (Ok (Some sub), db') /\
    eg_result (ts_ended sub) = black_win.
Proof.
  assert (keyed sample_db) as Hk by (by apply (with_row_keyed sample_row sample_players)).
  assert (clock_ok (domain_clock sample_row w)) as Hc
    by (vm_compute; repeat split; discriminate).
  split.
  - exact (adjudicateTimeout_iff_flag_fell (env_at 1100000) "game-1" sample_db sample_row w
             1000000 Hk eq_refl eq_refl eq_refl eq_refl eq_refl Hc eq_refl
             ltac:(vm_compute; discriminate)).
  - destruct (adjudicateTimeout_iff_flag_fell (env_at 1180000) "game-1" sample_db sample_row w
             1000000 Hk eq_refl eq_refl eq_refl eq_refl eq_refl Hc eq_refl
             ltac:(vm_compute; discriminate)) as (sub & db' & game' & H & _ & Hr & _).
    exists sub, db'. split; [exact H|exact Hr].
Defined.

Lemma disconnect_reconnect_roundtrip_witness :
  exists db1 db2,
    markDisconnected (env_at 1010000) sample_db "bob" 60000 sample_db =
      (Ok (Some (mkPlayerDisconnected b "game-1" 3 1070000)), db1) /\
    markReconnected (env_at 1030000) db1 "bob" db1 =
      (Ok (Some (mkPlayerReconnected b "game-1" 4)), db2).
Proof.
  assert (keyed sample_db) as Hk by (by apply (with_row_keyed sample_row sample_players)).
  destruct (disconnect_reconnect_roundtrip (env_at 1010000) (env_at 1030000) sample_db "game-1"
    "bob" 60000 sample_row
    (mkPlayerRow "p-b" "game-1" "bob" "b" 1 (Some 900000) (Some 900000) None None) b
    Hk eq_refl eq_refl eq_refl eq_refl eq_refl ltac:(repeat constructor) eq_refl eq_refl)
    as (db1 & db2 & game1 & H1 & _ & _ & _ & H2 & _).
  exists db1, db2. split; [exact H1|exact H2].
Defined.

Lemma findDeadline_agrees_with_isDue_witness :
  isDue (env_at 1180000) sample_db sample_row = true <->
  exists deadline, findDeadline sample_db "game-1" = Some deadline /\ deadline <= 1180000.
Proof.
  exact (findDeadline_agrees_with_isDue (env_at 1180000) sample_db "game-1" sample_row w
           (with_row_keyed sample_row sample_players eq_refl) eq_refl eq_refl).
Defined.

Definition waiting_row : GameRow :=
  mkGameRow "game-1" "match-1" "BLITZ" "WAITING_FOR_PLAYERS" "start" "start" "w" "" 0 None None
    180000 2000 180000 180000 None (Some 950000) None None None 900000.

Definition waiting_white : PlayerRow :=
  mkPlayerRow "p-w" "game-1" "alice" "w" 0 (Some 905000) (Some 905000) None None.
Definition waiting_black : PlayerRow :=
  mkPlayerRow "p-b" "game-1" "bob" "b" 1 None None None None.

Lemma adjudicateNoShow_spec_witness :
  ended_with "game-1" white_win no_show EXPIRED
    (adjudicateNoShow (env_at 950000) "game-1" (with_row waiting_row [waiting_white; waiting_black])).
Proof.
  exact (adjudicateNoShow_spec (env_at 950000) "game-1"
           (with_row waiting_row [waiting_white; waiting_black]) waiting_row waiting_white
           waiting_black (with_row_keyed waiting_row _ eq_refl) eq_refl eq_refl eq_refl
           (conj eq_refl (conj eq_refl eq_refl)) (or_intror eq_refl)).
Defined.

Definition reconnecting_row : GameRow :=
  mkGameRow "game-1" "match-1" "BLITZ" "RECONNECTING" "start" "start" "w" "" 3 None None
    180000 2000 180000 175000 (Some 1000000) (Some 900000) (Some 1070000) (Some 990000) None
    1010000.

Definition gone_black : PlayerRow :=
  mkPlayerRow "p-b" "game-1" "bob" "b" 1 (Some 900000) None (Some 1010000) (Some 1070000).

Definition reconnecting_db : DB := with_row reconnecting_row [waiting_white; gone_black].

(** Black is gone for good; but White, named absent as well, is there. *)
Lemma adjudicateAbandonment_spec_witness :
  ended_with "game-1" white_win abandonment ABANDONED
    (adjudicateAbandonment (env_at 1075000) "game-1" ["bob"] reconnecting_db) /\
  adjudicateAbandonment (env_at 1075000) "game-1" ["alice"; "bob"] reconnecting_db =
    (Ok None, reconnecting_db).
Proof.
  assert (keyed reconnecting_db) as Hk by (by apply with_row_keyed).
  assert (two_players reconnecting_db "game-1" waiting_white gone_black) as Htwo
    by (split_and!; reflexivity).
  assert (filter (fun p => p_guestSessionId p ∈ ["bob"]) [waiting_white; gone_black] =
          [gone_black]) as Hf1 by reflexivity.
  assert (filter (fun p => p_guestSessionId p ∈ ["alice"; "bob"]) [waiting_white; gone_black] =
          [waiting_white; gone_black]) as Hf2 by reflexivity.
  split.
  - destruct (adjudicateAbandonment_spec (env_at 1075000) "game-1" ["bob"] reconnecting_db
      reconnecting_row waiting_white gone_black Hk eq_refl eq_refl eq_refl Htwo) as [H _].
    cbv zeta in H. rewrite Hf1 in H. apply H.
    split; [by constructor|]. by repeat constructor.
  - destruct (adjudicateAbandonment_spec (env_at 1075000) "game-1" ["alice"; "bob"]
      reconnecting_db reconnecting_row waiting_white gone_black Hk eq_refl eq_refl eq_refl Htwo)
      as [_ H].
    cbv zeta in H. rewrite Hf2 in H. apply H.
    intros [_ Hc]. inversion Hc as [|? ? [Hn _]]. by apply Hn.
Defined.

Definition sample_resign : ResignGame := mkResignGame "event-1" 2 "game-1" "bob".

Definition sample_resigned : result exn TerminalSubmission * DB :=
  resign (env_at 1050000) sample_resign sample_db sample_db.

Lemma resign_ends_game_once_witness :
  exists sub, sample_resigned.1 = Ok sub /\
    ended_with "game-1" white_win resignation COMPLETED (Ok (Some sub), sample_resigned.2) /\
    resign (env_at 9999000) (mkResignGame "event-1" 7 "game-1" "bob") sample_resigned.2 sample_db
      = (Ok (asDuplicate sub), sample_resigned.2).
Proof.
  assert (match sample_resigned.1 with
          | Ok s => ts_duplicate s = false /\ storable s | Err _ => False end) as Hf.
  { vm_compute. repeat split; discriminate. }
  assert (exists row, games sample_resigned.2 !! "game-1" = Some row /\
            lock_fits (env_at 9999000) row = true) as (row & Hrow & Hl)
    by (eexists; split; reflexivity).
  assert (exists p, playerFor (gamePlayers sample_resigned.2 "game-1") "bob" = Some p)
    as [p Hp] by (eexists; reflexivity).
  destruct sample_resigned as [[sub|e] db'] eqn:E; [|done]. destruct Hf as [Hd Hst].
  destruct (resign_ends_game_once (env_at 1050000) sample_resign sample_db sample_db sub db'
    (with_row_keyed sample_row sample_players eq_refl) E Hd Hst)
    as [(game & player & c & Hg & _ & _ & Hpl & He) Hretry].
  exists sub. split; [done|]. split.
  - vm_compute in Hpl. injection Hpl as <- <-. exact He.
  - exact (Hretry (env_at 9999000) (mkResignGame "event-1" 7 "game-1" "bob") db' sample_db row p
             eq_refl Hrow Hl eq_refl eq_refl Hp).
Defined.

End Lifecycle.
