(* ===== verification/GameRepository.v ===== *)
(** * Allocating, readying and reading games

    [src/src/modules/game/infrastructure/prisma-game.repository.ts]: the
    allocation of a matched pair of guests to a game, the two steps that start
    it, the queries by id, match, activity and guest, and the mapping between
    rows and the domain's records. *)

From S2P Require Export Database GameplayRepository GameLifecycleRepository.
Local Open Scope string_scope.
Local Open Scope list_scope.
Local Open Scope Z_scope.

Module Games.

(** ** game.repository.ts and game.types.ts *)

Record GamePlayerRecord : Type := mkGamePlayerRecord {
  gp_avatarKey : string;
  gp_color : PlayerColor;
  gp_connectedAt : option Z;
  gp_disconnectedAt : option Z;
  gp_displayName : string;
  gp_gameId : string;
  gp_guestSessionId : string;
  gp_id : string;
  gp_joinedAt : option Z;
  gp_reconnectGraceEndsAt : option Z;
  gp_slot : Z
}.

Record GameRecord : Type := mkGameRecord {
  gr_blackClockMs : Z;
  gr_currentFen : string;
  gr_endedAt : option Z;
  gr_id : string;
  gr_incrementMs : Z;
  gr_initialFen : string;
  gr_joinDeadlineAt : option Z;
  gr_matchId : string;
  gr_mode : string;
  gr_pgn : string;
  gr_result : option GameResult;
  gr_startedAt : option Z;
  gr_status : GameStatus;
  gr_termination : option GameTermination;
  gr_timeInitialMs : Z;
  gr_turnColor : PlayerColor;
  gr_turnStartedAt : option Z;
  gr_updatedAt : Z;
  gr_version : Z;
  gr_whiteClockMs : Z
}.

Record GameAllocationCursor : Type := mkCursor { cu_id : string; cu_updatedAt : Z }.

Record AllocateGame : Type := mkAllocateGame {
  al_blackGuestSessionId : string;
  al_gameId : string;
  al_initialFen : string;
  al_joinDeadlineAt : Z;
  al_matchId : string;
  al_mode : string;
  al_observedAt : Z;
  al_pgn : string;
  al_timeIncrementMs : Z;
  al_timeInitialMs : Z;
  al_whiteGuestSessionId : string
}.

Record GameAllocation : Type := mkGameAllocation {
  ga_game : GameRecord;
  ga_players : GamePlayerRecord * GamePlayerRecord
}.

Record GameMove : Type := mkGameMove {
  gm_clientMoveId : string;
  gm_color : PlayerColor;
  gm_fenAfter : string;
  gm_fenBefore : string;
  gm_guestSessionId : string;
  gm_ply : Z;
  gm_san : string;
  gm_serverReceivedAt : Z;
  gm_uci : string
}.

Record GameSnapshotRecord : Type := mkGameSnapshotRecord {
  gsn_allocation : GameAllocation;
  gsn_moves : list GameMove;
  gsn_observedAt : Z
}.

Record GuestMatchEligibility : Type := mkGuestMatchEligibility {
  ge_activeGameId : option string;
  ge_eligible : bool
}.

Record MarkGameReady : Type := mkMarkGameReady {
  mg_expectedVersion : Z;
  mg_gameId : string;
  mg_guestSessionId : string;
  mg_observedAt : Z
}.

Record StartGameResult : Type := mkStartGameResult {
  st_allocation : GameAllocation;
  st_started : bool
}.

(** A field is [None] when the input has no such property. *)
Record UpdateGameAtVersion : Type := mkUpdateGameAtVersion {
  ug_blackClockMs : option Z;
  ug_currentFen : option string;
  ug_endedAt : option (option Z);
  ug_expectedVersion : Z;
  ug_gameId : string;
  ug_pgn : option string;
  ug_result : option (option GameResult);
  ug_status : option GameStatus;
  ug_termination : option (option GameTermination);
  ug_turnColor : option PlayerColor;
  ug_turnStartedAt : option (option Z);
  ug_whiteClockMs : option Z
}.

(** ** Between columns and domain values *)

Definition domainResult (value : option string) : option GameResult :=
  match value with
  | Some "*" => Some void
  | Some "0-1" => Some black_win
  | Some "1-0" => Some white_win
  | Some "1/2-1/2" => Some draw
  | _ => None
  end.

Definition domainTermination (value : option string) : option GameTermination :=
  match value with
  | Some "ABANDONMENT" => Some abandonment
  | Some "CHECKMATE" => Some (board checkmate)
  | Some "FIFTY_MOVE_RULE" => Some (board fifty_move)
  | Some "INSUFFICIENT_MATERIAL" => Some (board insufficient_material)
  | Some "JOIN_TIMEOUT" => Some no_show
  | Some "RESIGNATION" => Some resignation
  | Some "STALEMATE" => Some (board stalemate)
  | Some "SYSTEM" => Some double_abandon
  | Some "THREEFOLD_REPETITION" => Some (board threefold_repetition)
  | Some "TIMEOUT" => Some timeout
  | _ => None
  end.

(** The guard [isStatus], with the status it tells. *)
Definition isStatus (value : string) : option GameStatus :=
  List.find (fun s => bool_decide (toString s = value))
    [ABANDONED; COMPLETED; CREATED; EXPIRED; IN_PROGRESS; READY; RECONNECTING;
     WAITING_FOR_PLAYERS].

Definition persistedResult (value : option GameResult) : option string :=
  (fun r => match r with
            | black_win => "0-1" | draw => "1/2-1/2" | void => "*" | white_win => "1-0"
            end) <$> value.

Definition persistedTermination (value : option GameTermination) : option string :=
  (fun t => match t with
            | abandonment => "ABANDONMENT"
            | board checkmate => "CHECKMATE"
            | double_abandon => "SYSTEM"
            | board fifty_move => "FIFTY_MOVE_RULE"
            | board insufficient_material => "INSUFFICIENT_MATERIAL"
            | no_show => "JOIN_TIMEOUT"
            | resignation => "RESIGNATION"
            | board stalemate => "STALEMATE"
            | board threefold_repetition => "THREEFOLD_REPETITION"
            | timeout => "TIMEOUT"
            end) <$> value.

Definition serviceError (code : GameServiceErrorCode) (retryable : bool)
    (version : option Z) : exn :=
  EGameService (mkGameServiceError code retryable version server_error).

Notation mismatch_error := (Err (serviceError ALLOCATION_MISMATCH false None)) (only parsing).

Definition color (value : string) : result exn PlayerColor :=
  match isColor value with None => mismatch_error | Some c => mret c end.

(** A row of [game_players] with its guest: the foreign key has one for each. *)
Definition PersistedPlayer : Type := PlayerRow * GuestRow.
Definition PersistedAllocation : Type := GameRow * list PersistedPlayer.

Definition mapPlayer (player : PersistedPlayer) : result exn GamePlayerRecord :=
  let (row, guest) := player in
  if negb (p_slot row =? 0) && negb (p_slot row =? 1) then mismatch_error else
  match isColor (p_color row) with
  | None => mismatch_error
  | Some c =>
      mret (mkGamePlayerRecord (s_avatarKey guest) c (p_connectedAt row)
              (p_disconnectedAt row) (s_displayName guest) (p_gameId row)
              (p_guestSessionId row) (p_id row) (p_joinedAt row)
              (p_reconnectGraceEndsAt row) (p_slot row))
  end.

Definition mapGame (game : GameRow) : result exn GameRecord :=
  if negb (bool_decide (g_mode game = "BLITZ")) then mismatch_error else
  match isStatus (g_status game) with
  | None => mismatch_error
  | Some status =>
      turnColor ← color (g_turnColor game);
      mret (mkGameRecord (g_blackClockMs game) (g_currentFen game) (g_endedAt game)
              (g_id game) (g_incrementMs game) (g_initialFen game) (g_joinDeadlineAt game)
              (g_matchId game) (g_mode game) (g_pgn game) (domainResult (g_result game))
              (g_startedAt game) status (domainTermination (g_termination game))
              (g_timeInitialMs game) turnColor (g_turnStartedAt game) (g_updatedAt game)
              (g_version game) (g_whiteClockMs game))
  end.

(** [array.map(f)], where [f] may throw. *)
Fixpoint mapM {A B} (f : A -> result exn B) (l : list A) : result exn (list B) :=
  match l with
  | [] => mret []
  | x :: l => y ← f x; ys ← mapM f l; mret (y :: ys)
  end.

Definition mapAllocation (game : PersistedAllocation) : result exn GameAllocation :=
  ps ← mapM mapPlayer game.2;
  match ps with
  | [white; black] => record ← mapGame game.1; mret (mkGameAllocation record (white, black))
  | _ => mismatch_error
  end.

Definition mapMove (move : MoveRow) : result exn GameMove :=
  c ← color (m_color move);
  mret (mkGameMove (m_clientMoveId move) c (m_fenAfter move) (m_fenBefore move)
          (m_guestSessionId move) (m_ply move) (m_san move) (m_serverReceivedAt move)
          (m_uci move)).

Definition mapSnapshot (game : PersistedAllocation) (history : list MoveRow)
    (observedAt : Z) : result exn GameSnapshotRecord :=
  allocation ← mapAllocation game;
  moves ← mapM mapMove history;
  mret (mkGameSnapshotRecord allocation moves observedAt).

Definition matchesReservation (game : PersistedAllocation) (input : AllocateGame) : bool :=
  let expectedPlayers :=
    orderBy String.leb [al_whiteGuestSessionId input; al_blackGuestSessionId input] in
  let actualPlayers :=
    orderBy String.leb (map (fun p => p_guestSessionId p.1) game.2) in
  bool_decide (g_id game.1 = al_gameId input) &&
  bool_decide (g_mode game.1 = al_mode input) &&
  bool_decide (length actualPlayers = 2%nat) &&
  bool_decide (actualPlayers = expectedPlayers).

(** ** Queries *)

(** [include: allocationInclude] *)
Definition withGuests (db : DB) (ps : list PlayerRow) : list PersistedPlayer :=
  omap (fun p => guest ← guests db !! p_guestSessionId p; Some (p, guest)) ps.

Definition loadAllocation (db : DB) (game : GameRow) : PersistedAllocation :=
  (game, withGuests db (gamePlayers db (g_id game))).

Definition findById (db : DB) (gameId : string) : result exn (option GameAllocation) :=
  match games db !! gameId with
  | None => mret None
  | Some game => Some <$> mapAllocation (loadAllocation db game)
  end.

Definition findByMatchId (db : DB) (matchId : string) : result exn (option GameAllocation) :=
  match findByMatch db matchId with
  | None => mret None
  | Some game => Some <$> mapAllocation (loadAllocation db game)
  end.

Definition findSnapshot (env : Env) (db : DB) (gameId : string)
    : result exn (option GameSnapshotRecord) :=
  match games db !! gameId with
  | None => mret None
  | Some game =>
      Some <$> mapSnapshot (loadAllocation db game) (gameMoves db gameId)
                 (env_observedAt env)
  end.

(** [orderBy: [{ updatedAt: 'asc' }, { id: 'asc' }]] *)
Definition byActivity (x y : GameRow) : bool :=
  (g_updatedAt x <? g_updatedAt y) ||
  ((g_updatedAt x =? g_updatedAt y) && String.leb (g_id x) (g_id y)).

(** The cursor's condition: later in that order. *)
Definition afterCursor (cursor : option GameAllocationCursor) (game : GameRow) : bool :=
  match cursor with
  | None => true
  | Some cursor =>
      (cu_updatedAt cursor <? g_updatedAt game) ||
      ((g_updatedAt game =? cu_updatedAt cursor) && String.ltb (cu_id cursor) (g_id game))
  end.

Definition isActive (game : GameRow) : bool :=
  includes ["CREATED"; "WAITING_FOR_PLAYERS"; "READY"; "IN_PROGRESS"; "RECONNECTING"]
    (g_status game).

Definition activePage (db : DB) (limit : nat) (cursor : option GameAllocationCursor)
    : list GameRow :=
  take limit (orderBy byActivity
    (filter (fun game => isActive game && afterCursor cursor game = true)
       (map snd (map_to_list (games db))))).

Definition findActiveAllocations (db : DB) (limit : nat)
    (cursor : option GameAllocationCursor) : result exn (list GameAllocation) :=
  mapM (fun game => mapAllocation (loadAllocation db game)) (activePage db limit cursor).

Definition guestEligible (guest : GuestRow) (observedAt : Z) : bool :=
  isNull (s_revokedAt guest) && (observedAt <? s_expiresAt guest).

Definition getGuestMatchEligibility (db : DB) (guestSessionId : string) (observedAt : Z)
    : GuestMatchEligibility :=
  match guests db !! guestSessionId with
  | None => mkGuestMatchEligibility None false
  | Some guest =>
      mkGuestMatchEligibility (assignments db !! guestSessionId)
        (guestEligible guest observedAt)
  end.

(** ** Allocation *)

Inductive AllocationTransactionResult : Type :=
| allocated (allocation : PersistedAllocation)
| conflict
| ineligible
| mismatch.

Section Operations.
Context `{Prisma} (env : Env).

(** [game.create] with the nested [players] and [assignments]: the unique
    indexes on the id, the match and the assigned guest. *)
Definition game_create (row : GameRow) (ps : list PlayerRow)
    (guestSessionIds : list string) : tx DB exn () := fun db =>
  if bool_decide (is_Some (games db !! g_id row)) ||
     negb (isNull (findByMatch db (g_matchId row))) ||
     existsb (fun guest => bool_decide (is_Some (assignments db !! guest))) guestSessionIds
  then Err prisma_uniqueViolation
  else
    Ok ((), with_assignments
              (fun a => foldr (fun guest a => <[guest := g_id row]> a) a guestSessionIds)
              (with_players (fun l => l ++ ps)
                 (with_games <[g_id row := row]> db))).

Definition newGameRow (input : AllocateGame) : GameRow :=
  mkGameRow (al_gameId input) (al_matchId input) (al_mode input) "WAITING_FOR_PLAYERS"
    (al_initialFen input) (al_initialFen input) "w" (al_pgn input) 0 None None
    (al_timeInitialMs input) (al_timeIncrementMs input) (al_timeInitialMs input)
    (al_timeInitialMs input) None (Some (al_joinDeadlineAt input)) None None None
    (env_updatedAt env).

Definition newPlayerRows (input : AllocateGame) : list PlayerRow :=
  [mkPlayerRow (env_playerIds env).1 (al_gameId input) (al_whiteGuestSessionId input) "w" 0
     None None None None;
   mkPlayerRow (env_playerIds env).2 (al_gameId input) (al_blackGuestSessionId input) "b" 1
     None None None None].

(** The rows of [guest_sessions] that satisfy the eligibility query. *)
Definition countEligible (db : DB) (guestIds : list string) (observedAt : Z) : nat :=
  size (filter (fun kv => kv.1 ∈ guestIds /\ guestEligible kv.2 observedAt = true)
          (guests db)).

Definition allocateInTransaction (input : AllocateGame)
    : tx DB exn AllocationTransactionResult :=
  let guestIds := [al_whiteGuestSessionId input; al_blackGuestSessionId input] in
  _ ← lockGuestSessions guestIds;
  existing ← tx_read (fun db => loadAllocation db <$> findByMatch db (al_matchId input));
  match existing with
  | Some existing =>
      mret (if matchesReservation existing input then allocated existing else mismatch)
  | None =>
      eligibleGuests ← tx_read (fun db => countEligible db guestIds (al_observedAt input));
      if negb (bool_decide (eligibleGuests = 2%nat)) then mret ineligible else
      assignment ← tx_read (fun db =>
        existsb (fun guest => bool_decide (is_Some (assignments db !! guest))) guestIds);
      if (assignment : bool) then mret conflict else
      let sortedGuestIds := orderBy String.leb guestIds in
      _ ← game_create (newGameRow input) (newPlayerRows input) sortedGuestIds;
      allocation ← tx_read (fun db => loadAllocation db (newGameRow input));
      mret (allocated allocation)
  end.

Definition allocate (input : AllocateGame) (db : DB) : result exn GameAllocation * DB :=
  if bool_decide (al_whiteGuestSessionId input = al_blackGuestSessionId input)
  then (mismatch_error, db)
  else
    match run (allocateInTransaction input) db with
    | (Ok (allocated allocation), db') => (mapAllocation allocation, db')
    | (Ok conflict, db') => (Err (serviceError GUEST_ALREADY_IN_GAME false None), db')
    | (Ok ineligible, db') => (Err (serviceError GUEST_NOT_ELIGIBLE false None), db')
    | (Ok mismatch, db') => (mismatch_error, db')
    | (Err e, db') => (Err e, db')
    end.

(** ** Readiness and start *)

Inductive ReadyTransactionResult : Type :=
| ready (allocation : PersistedAllocation)
| missing
| not_player
| stale (version : Z)
| unavailable.

(** The lock on the row at the start changes nothing the model sees. *)
Definition markReadyInTransaction (input : MarkGameReady)
    : tx DB exn ReadyTransactionResult :=
  game ← game_findUnique (mg_gameId input);
  match game with
  | None => mret missing
  | Some game =>
    ps ← tx_read (fun db => gamePlayers db (mg_gameId input));
    match List.find (fun c => bool_decide (p_guestSessionId c = mg_guestSessionId input)) ps with
    | None => mret not_player
    | Some player =>
      let idempotent :=
        negb (isNull (p_joinedAt player)) &&
        includes ["READY"; "IN_PROGRESS"; "RECONNECTING"] (g_status game) in
      if negb (mg_expectedVersion input =? g_version game) && negb idempotent
      then mret (stale (g_version game)) else
      if negb (includes ["WAITING_FOR_PLAYERS"; "READY"; "IN_PROGRESS"; "RECONNECTING"]
                 (g_status game))
      then mret unavailable else
      _ ← gamePlayer_update (p_id player)
            [P_connectedAt (Some (mg_observedAt input));
             P_joinedAt (Some (default (mg_observedAt input) (p_joinedAt player)))];
      joinedPlayers ← tx_read (fun db =>
        length (filter (fun p => p_joinedAt p <> None) (playerRows db (mg_gameId input))));
      version ← (if bool_decide (g_status game = "WAITING_FOR_PLAYERS") &&
                    bool_decide (joinedPlayers = 2%nat)
                 then updateGameAtVersion env (g_id game) (g_version game) [G_status "READY"]
                 else mret (Some (g_version game)));
      match version with
      | None => mret (stale (g_version game))
      | Some _ =>
          game ← game_findUnique (mg_gameId input);
          match game with
          | None => mret missing
          | Some game => tx_read (fun db => ready (loadAllocation db game))
          end
      end
    end
  end.

Definition markReady (input : MarkGameReady) (db : DB) : result exn GameAllocation * DB :=
  match run (markReadyInTransaction input) db with
  | (Ok (ready allocation), db') => (mapAllocation allocation, db')
  | (Ok missing, db') => (Err (serviceError GAME_NOT_FOUND false None), db')
  | (Ok not_player, db') => (Err (serviceError NOT_A_PLAYER false None), db')
  | (Ok (stale version), db') =>
      (Err (serviceError STALE_GAME_VERSION true (Some version)), db')
  | (Ok unavailable, db') => (Err (serviceError GAME_UNAVAILABLE false None), db')
  | (Err e, db') => (Err e, db')
  end.

Inductive StartTransactionResult : Type :=
| found (allocation : PersistedAllocation) (started : bool)
| start_missing
| start_stale (version : Z).

Definition startIfReadyInTransaction (gameId : string)
    : tx DB exn StartTransactionResult :=
  locked ← lockGameClock env gameId;
  match locked with
  | None => mret start_missing
  | Some locked =>
      let started := bool_decide (lg_status locked = "READY") in
      version ← (if (started : bool)
                 then updateGameAtVersion env gameId (lg_version locked)
                        [G_startedAt (Some (lg_observedAt locked)); G_status "IN_PROGRESS";
                         G_turnStartedAt (Some (lg_observedAt locked))]
                 else mret (Some (lg_version locked)));
      match version with
      | None => mret (start_stale (lg_version locked))
      | Some _ =>
          game ← game_findUnique gameId;
          match game with
          | None => mret start_missing
          | Some game => tx_read (fun db => found (loadAllocation db game) started)
          end
      end
  end.

Definition startIfReady (gameId : string) (db : DB) : result exn StartGameResult * DB :=
  match run (startIfReadyInTransaction gameId) db with
  | (Ok (found allocation started), db') =>
      ((fun a => mkStartGameResult a started) <$> mapAllocation allocation, db')
  | (Ok start_missing, db') => (Err (serviceError GAME_NOT_FOUND false None), db')
  | (Ok (start_stale version), db') =>
      (Err (serviceError STALE_GAME_VERSION true (Some version)), db')
  | (Err e, db') => (Err e, db')
  end.

(** [...(value === undefined ? {} : { column: value })] *)
Definition given {A} (value : option A) (column : A -> GameColumn) : list GameColumn :=
  match value with None => [] | Some v => [column v] end.

Definition updateColumns (input : UpdateGameAtVersion) : list GameColumn :=
  given (ug_blackClockMs input) G_blackClockMs ++
  given (ug_currentFen input) G_currentFen ++
  given (ug_endedAt input) G_endedAt ++
  given (ug_pgn input) G_pgn ++
  given (ug_result input) (fun r => G_result (persistedResult r)) ++
  given (ug_status input) (fun s => G_status (toString s)) ++
  given (ug_termination input) (fun t => G_termination (persistedTermination t)) ++
  given (ug_turnColor input) (fun c => G_turnColor (toString c)) ++
  given (ug_turnStartedAt input) G_turnStartedAt ++
  [G_version_increment 1] ++
  given (ug_whiteClockMs input) G_whiteClockMs.

(** Two statements outside a transaction: [later] is the database when the
    second one reads the row. *)
Definition updateAtVersion (input : UpdateGameAtVersion) (db : DB) (later : DB -> DB)
    : result exn (option GameRecord) * DB :=
  match game_updateMany env (ug_gameId input) (ug_expectedVersion input)
          (updateColumns input) db with
  | Err e => (Err e, db)
  | Ok (count, db') =>
      (if negb (count =? 1) then mret None else
       match games (later db') !! ug_gameId input with
       | None => mret None
       | Some game => Some <$> mapGame game
       end, db')
  end.
End Operations.

(** ** Theory *)

Arguments set_GameColumns : simpl never.

(** Results, terminations and statuses survive the database. What the game
    repository writes for a domain value it reads back as that value; the three
    repositories, which each have their own tables, write the same text; and
    distinct values are written differently, so a column determines its value. *)
Theorem persisted_values_roundtrip :
  (forall r, domainResult (persistedResult r) = r) /\
  (forall t, domainTermination (persistedTermination t) = t) /\
  (forall s : GameStatus, isStatus (toString s) = Some s) /\
  (forall r, persistedResult (Some r) = Some (Gameplay.persistedResult r) /\
             Gameplay.persistedResult r = Lifecycle.persistedResult r) /\
  (forall t, persistedTermination (Some t) = Some (Gameplay.persistedTermination t) /\
             Gameplay.persistedTermination t = Lifecycle.persistedTermination t) /\
  (forall r r', persistedResult r = persistedResult r' -> r = r') /\
  (forall t t', persistedTermination t = persistedTermination t' -> t = t').
Proof.
  assert (forall r, domainResult (persistedResult r) = r) as Hr by (by intros [[]|]).
  assert (forall t, domainTermination (persistedTermination t) = t) as Ht
    by (by intros [[|[]| | | |]|]).
  split_and!; try done.
  - by intros [].
  - intros r r' E. by rewrite <- (Hr r), E.
  - intros t t' E. by rewrite <- (Ht t), E.
Qed.

Section Theory.
Context `{Prisma}.

Lemma findByMatch_Some db m row :
  findByMatch db m = Some row -> g_matchId row = m /\ exists gid, games db !! gid = Some row.
Proof.
  unfold findByMatch. intros [Hin Hm]%List.find_some. js_bool. split; [done|].
  apply in_map_iff in Hin as ([gid row'] & <- & Hin).
  exists gid. by apply elem_of_map_to_list, list_elem_of_In.
Qed.

Lemma findByMatch_None db m :
  findByMatch db m = None <-> forall gid row, games db !! gid = Some row -> g_matchId row <> m.
Proof.
  unfold findByMatch. split.
  - intros Hf gid row Hg Hm. eapply List.find_none with (x := row) in Hf.
    + by rewrite bool_decide_eq_true_2 in Hf.
    + apply in_map_iff. exists (gid, row). split; [done|].
      by apply list_elem_of_In, elem_of_map_to_list.
  - intros Hf. destruct (List.find _ _) as [row|] eqn:E; [|done].
    apply List.find_some in E as [Hin Hm]. js_bool.
    apply in_map_iff in Hin as ([gid row'] & <- & Hin).
    exfalso. eapply Hf; [|exact Hm]. by apply elem_of_map_to_list, list_elem_of_In.
Qed.

(** The match of a game just inserted is found. *)
Lemma findByMatch_insert db db' row :
  findByMatch db (g_matchId row) = None -> games db' = <[g_id row := row]> (games db) ->
  findByMatch db' (g_matchId row) = Some row.
Proof.
  intros Hn Hg. destruct (findByMatch db' (g_matchId row)) as [row'|] eqn:E.
  - apply findByMatch_Some in E as [Hm [gid Hgid]]. rewrite Hg in Hgid.
    apply lookup_insert_Some in Hgid as [[_ <-]|[_ Hgid]]; [done|].
    exfalso. by apply (proj1 (findByMatch_None _ _) Hn gid row').
  - exfalso. apply (proj1 (findByMatch_None _ _) E (g_id row) row); [|done].
    by rewrite Hg, lookup_insert_eq.
Qed.

Lemma countEligible_two db white black t :
  white <> black ->
  countEligible db [white; black] t = 2%nat <->
  exists gw gb, guests db !! white = Some gw /\ guests db !! black = Some gb /\
    guestEligible gw t = true /\ guestEligible gb t = true.
Proof.
  intros Hne. unfold countEligible.
  set (M := filter _ (guests db)).
  assert (forall k g, M !! k = Some g <->
            guests db !! k = Some g /\ k ∈ [white; black] /\ guestEligible g t = true) as HM
    by (intros; subst M; rewrite map_lookup_filter_Some; naive_solver).
  rewrite <- size_dom.
  assert (dom M ⊆ ({[white; black]} : gset string)) as Hsub.
  { intros k [g Hg]%elem_of_dom. apply HM in Hg as (_ & Hk & _). set_solver. }
  assert (size ({[white; black]} : gset string) = 2%nat) as Hsize
    by (rewrite size_union, !size_singleton by set_solver; done).
  split.
  - intros Hs.
    assert (dom M ≡ ({[white; black]} : gset string)) as Heq
      by (apply set_subseteq_size_equiv; [done|lia]).
    assert (white ∈ dom M) as [gw Hw]%elem_of_dom by set_solver.
    assert (black ∈ dom M) as [gb Hb]%elem_of_dom by set_solver.
    apply HM in Hw as (? & _ & ?), Hb as (? & _ & ?). eauto 10.
  - intros (gw & gb & Hw & Hb & Ew & Eb).
    assert (white ∈ dom M) by (apply elem_of_dom; exists gw; apply HM; set_solver).
    assert (black ∈ dom M) by (apply elem_of_dom; exists gb; apply HM; set_solver).
    assert (dom M ≡ ({[white; black]} : gset string)) as -> by set_solver. done.
Qed.

(** ** Allocation *)

(** Foreign key of [game_players]. *)
Definition owned (db : DB) : Prop :=
  forall p, p ∈ players db -> is_Some (games db !! p_gameId p).

Definition allocatedDB (env : Env) (input : AllocateGame) (db : DB) : DB :=
  with_assignments
    (fun a => <[al_whiteGuestSessionId input := al_gameId input]>
                (<[al_blackGuestSessionId input := al_gameId input]> a))
    (with_players (fun l => l ++ newPlayerRows env input)
       (with_games <[al_gameId input := newGameRow env input]> db)).

Lemma playerRows_unowned db gid : owned db -> games db !! gid = None -> playerRows db gid = [].
Proof.
  intros Ho Hg. unfold playerRows. apply elem_of_nil_inv. intros p Hp.
  apply list_elem_of_filter in Hp as [Hid Hp]. apply Ho in Hp as [row Hrow]. congruence.
Qed.

Lemma gamePlayers_allocated env input db :
  owned db -> games db !! al_gameId input = None ->
  gamePlayers (allocatedDB env input db) (al_gameId input) = newPlayerRows env input.
Proof.
  intros Ho Hg. unfold gamePlayers, playerRows. simpl. rewrite filter_app.
  fold (playerRows db (al_gameId input)). rewrite (playerRows_unowned _ _ Ho Hg).
  unfold newPlayerRows. rewrite !filter_cons_True by done. by rewrite filter_nil.
Qed.

Lemma game_create_eval env input db :
  games db !! al_gameId input = None -> findByMatch db (al_matchId input) = None ->
  assignments db !! al_whiteGuestSessionId input = None ->
  assignments db !! al_blackGuestSessionId input = None ->
  al_whiteGuestSessionId input <> al_blackGuestSessionId input ->
  game_create (newGameRow env input) (newPlayerRows env input)
    (orderBy String.leb [al_whiteGuestSessionId input; al_blackGuestSessionId input]) db =
  Ok ((), allocatedDB env input db).
Proof.
  intros Hg Hm Hw Hb Hne. unfold game_create. simpl. rewrite Hg, Hm.
  rewrite bool_decide_eq_false_2 by (by intros [? ?]). simpl.
  destruct (String.leb _ _); simpl; rewrite Hw, Hb;
    rewrite bool_decide_eq_false_2 by (by intros [? ?]); simpl; [done|].
  unfold allocatedDB, with_assignments. simpl. do 2 f_equal. simpl.
  by rewrite insert_insert_ne.
Qed.

Lemma game_create_Ok row ps ids db r :
  game_create row ps ids db = Ok r -> games db !! g_id row = None.
Proof.
  unfold game_create. case_match; [done|]. intros _. js_bool.
  destruct (games db !! g_id row) eqn:E; [|done]. exfalso. eauto.
Qed.

Lemma allocateInTransaction_inv env input db r db' :
  al_whiteGuestSessionId input <> al_blackGuestSessionId input ->
  allocateInTransaction env input db = Ok (r, db') ->
  (db' = db /\
     match r with
     | allocated a => exists row, findByMatch db (al_matchId input) = Some row /\
         a = loadAllocation db row /\ matchesReservation a input = true
     | mismatch => is_Some (findByMatch db (al_matchId input))
     | _ => findByMatch db (al_matchId input) = None
     end) \/
  (findByMatch db (al_matchId input) = None /\ games db !! al_gameId input = None /\
   (exists gw gb, guests db !! al_whiteGuestSessionId input = Some gw /\
      guests db !! al_blackGuestSessionId input = Some gb /\
      guestEligible gw (al_observedAt input) = true /\
      guestEligible gb (al_observedAt input) = true) /\
   assignments db !! al_whiteGuestSessionId input = None /\
   assignments db !! al_blackGuestSessionId input = None /\
   db' = allocatedDB env input db /\ r = allocated (loadAllocation db' (newGameRow env input))).
Proof.
  intros Hne. unfold allocateInTransaction, lockGuestSessions, tx_read.
  unfold mbind at 1 2, tx_bind at 1 2. intros Hr.
  destruct (findByMatch db (al_matchId input)) as [row|] eqn:Hm;
    cbn [fmap option_fmap option_map] in Hr.
  { destruct (matchesReservation _ _) eqn:E; js_ret; left; eauto 10. }
  unfold mbind at 1, tx_bind at 1 in Hr.
  case_bool_decide as Hc; cbn [negb] in Hr; [|js_ret; by left].
  unfold mbind at 1, tx_bind at 1 in Hr.
  destruct (existsb _ _) eqn:Hex; [js_ret; by left|]. simpl in Hex.
  repeat (apply orb_false_iff in Hex as [? Hex]). js_bool. right.
  assert (assignments db !! al_whiteGuestSessionId input = None) as Hw
    by (destruct (assignments db !! al_whiteGuestSessionId input); [exfalso; eauto|done]).
  assert (assignments db !! al_blackGuestSessionId input = None) as Hb
    by (destruct (assignments db !! al_blackGuestSessionId input); [exfalso; eauto|done]).
  unfold mbind, tx_bind in Hr.
  destruct (game_create _ _ _ db) as [[u db1]|] eqn:Ec; [|done].
  pose proof (game_create_Ok _ _ _ _ _ Ec) as Hg. simpl in Hg.
  rewrite game_create_eval in Ec by done. injection Ec as <- <-.
  cbv beta iota in Hr. injection Hr as <- <-.
  split_and!; try done. by apply countEligible_two.
Qed.

Lemma allocate_eval env input db :
  al_whiteGuestSessionId input <> al_blackGuestSessionId input ->
  allocate env input db =
    match run (allocateInTransaction env input) db with
    | (Ok (allocated allocation), db') => (mapAllocation allocation, db')
    | (Ok conflict, db') => (Err (serviceError GUEST_ALREADY_IN_GAME false None), db')
    | (Ok ineligible, db') => (Err (serviceError GUEST_NOT_ELIGIBLE false None), db')
    | (Ok mismatch, db') => (mismatch_error, db')
    | (Err e, db') => (Err e, db')
    end.
Proof. intros Hne. unfold allocate. by rewrite bool_decide_eq_false_2. Qed.

(** Asking again for a match that has its game. *)
Lemma allocateInTransaction_again env input db row :
  findByMatch db (al_matchId input) = Some row ->
  matchesReservation (loadAllocation db row) input = true ->
  allocateInTransaction env input db = Ok (allocated (loadAllocation db row), db).
Proof.
  intros Hm Hr. unfold allocateInTransaction, lockGuestSessions, tx_read, mbind, tx_bind.
  rewrite Hm. cbn [fmap option_fmap option_map]. by rewrite Hr.
Qed.

Lemma withGuests_two db p1 p2 g1 g2 :
  guests db !! p_guestSessionId p1 = Some g1 -> guests db !! p_guestSessionId p2 = Some g2 ->
  withGuests db [p1; p2] = [(p1, g1); (p2, g2)].
Proof. intros H1 H2. unfold withGuests. simpl. by rewrite H1, H2. Qed.

Lemma loadAllocation_new env input db gw gb :
  owned db -> games db !! al_gameId input = None ->
  guests db !! al_whiteGuestSessionId input = Some gw ->
  guests db !! al_blackGuestSessionId input = Some gb ->
  exists pw pb, newPlayerRows env input = [pw; pb] /\
    loadAllocation (allocatedDB env input db) (newGameRow env input) =
      (newGameRow env input, [(pw, gw); (pb, gb)]) /\
    matchesReservation (newGameRow env input, [(pw, gw); (pb, gb)]) input = true.
Proof.
  intros Ho Hg Hw Hb. eexists _, _. split; [reflexivity|]. split.
  - unfold loadAllocation. change (g_id (newGameRow env input)) with (al_gameId input).
    rewrite gamePlayers_allocated by done. f_equal. by apply withGuests_two.
  - unfold matchesReservation. cbn [map fst snd p_guestSessionId g_id newGameRow g_mode].
    rewrite !bool_decide_eq_true_2; try done. by rewrite orderBy_perm.
Qed.

Lemma mapAllocation_new env input gw gb pw pb :
  al_mode input = "BLITZ" -> newPlayerRows env input = [pw; pb] ->
  exists alloc, mapAllocation (newGameRow env input, [(pw, gw); (pb, gb)]) = Ok alloc /\
    gr_id (ga_game alloc) = al_gameId input /\ gr_version (ga_game alloc) = 0 /\
    gr_status (ga_game alloc) = WAITING_FOR_PLAYERS /\
    gp_guestSessionId (ga_players alloc).1 = al_whiteGuestSessionId input /\
    gp_color (ga_players alloc).1 = w /\
    gp_guestSessionId (ga_players alloc).2 = al_blackGuestSessionId input /\
    gp_color (ga_players alloc).2 = b.
Proof.
  intros Hmode [= <- <-]. unfold mapAllocation, mapGame. simpl. rewrite Hmode. simpl.
  eexists. split; [reflexivity|]. done.
Qed.

(** C17: allocation is all or nothing, and can be repeated. When allocate succeeds,
    either the match had its game already, with that id and those two guests, and
    nothing changed; or neither the match nor the id was in use, both guests were
    eligible and free, and one game waiting for its players, White and Black in
    that order, and the assignments of both guests were added, and nothing else.
    Either way, asking again for the same match returns the same allocation and
    changes nothing. *)
Theorem allocate_atomic_idempotent env input db alloc db' :
  owned db -> al_mode input = "BLITZ" -> allocate env input db = (Ok alloc, db') ->
  ((db' = db /\ exists row, findByMatch db (al_matchId input) = Some row /\
      g_id row = al_gameId input /\
      Permutation (map p_guestSessionId (map fst (loadAllocation db row).2))
                  [al_whiteGuestSessionId input; al_blackGuestSessionId input]) \/
   (exists gw gb,
      guests db !! al_whiteGuestSessionId input = Some gw /\
      guests db !! al_blackGuestSessionId input = Some gb /\
      guestEligible gw (al_observedAt input) = true /\
      guestEligible gb (al_observedAt input) = true /\
      assignments db !! al_whiteGuestSessionId input = None /\
      assignments db !! al_blackGuestSessionId input = None /\
      findByMatch db (al_matchId input) = None /\ games db !! al_gameId input = None /\
      games db' = <[al_gameId input := newGameRow env input]> (games db) /\
      gamePlayers db' (al_gameId input) = newPlayerRows env input /\
      assignments db' = <[al_whiteGuestSessionId input := al_gameId input]>
                          (<[al_blackGuestSessionId input := al_gameId input]> (assignments db)) /\
      moves db' = moves db /\ commands db' = commands db /\
      gr_status (ga_game alloc) = WAITING_FOR_PLAYERS /\
      gp_guestSessionId (ga_players alloc).1 = al_whiteGuestSessionId input /\
      gp_guestSessionId (ga_players alloc).2 = al_blackGuestSessionId input)) /\
  forall env2, allocate env2 input db' = (Ok alloc, db').
Proof.
  intros Ho Hmode Ha.
  destruct (decide (al_whiteGuestSessionId input = al_blackGuestSessionId input)) as [E|Hne].
  { unfold allocate in Ha. by rewrite bool_decide_eq_true_2 in Ha. }
  rewrite allocate_eval in Ha by done.
  destruct (run (allocateInTransaction env input) db) as [[r|e] db1] eqn:Hrun; [|done].
  apply Lifecycle.run_inv, allocateInTransaction_inv in Hrun; [|done].
  destruct Hrun as [[-> Hr] | (Hm & Hg & (gw & gb & Hw & Hb & Ew & Eb) & Aw & Ab & -> & ->)].
  - destruct r; try done. destruct Hr as (row & Hm & -> & Hres).
    injection Ha as Ha <-. split.
    + left. split; [done|]. exists row. split; [done|].
      unfold matchesReservation in Hres. js_bool. split; [done|].
      rewrite map_map, <- (orderBy_perm String.leb (map _ _)).
      match goal with H : orderBy _ _ = orderBy _ _ |- _ => rewrite H end.
      apply orderBy_perm.
    + intros env2. rewrite allocate_eval by done. unfold run.
      rewrite (allocateInTransaction_again env2 _ _ _ Hm Hres). by rewrite Ha.
  - destruct (loadAllocation_new env input db gw gb Ho Hg Hw Hb) as (pw & pb & Hp & Hl & Hres).
    rewrite Hl in Ha.
    destruct (mapAllocation_new env input gw gb pw pb Hmode Hp)
      as (alloc' & Hmap & _ & _ & Hst & Hgw & _ & Hgb & _).
    rewrite Hmap in Ha. injection Ha as <- <-. split.
    + right. exists gw, gb. split_and!; try done. by rewrite gamePlayers_allocated.
    + intros env2. rewrite allocate_eval by done. unfold run.
      rewrite (allocateInTransaction_again env2 input (allocatedDB env input db)
                 (newGameRow env input)).
      * by rewrite Hl, Hmap.
      * by apply (findByMatch_insert db (allocatedDB env input db) (newGameRow env input)).
      * by rewrite Hl.
Qed.

(** C18: a guest is never put in two games at once. A failed allocation leaves the
    database as it was; and for a match that has no game yet, allocate fails
    whenever one of the two guests is still assigned to a game, so that the
    assignment of a guest is never overwritten. *)
Theorem allocate_never_double_books env input db :
  owned db -> al_mode input = "BLITZ" ->
  (forall e db', allocate env input db = (Err e, db') -> db' = db) /\
  (forall guest gid,
     guest ∈ [al_whiteGuestSessionId input; al_blackGuestSessionId input] ->
     assignments db !! guest = Some gid -> findByMatch db (al_matchId input) = None ->
     exists e, allocate env input db = (Err e, db)) /\
  (forall guest gid, assignments db !! guest = Some gid ->
     assignments (allocate env input db).2 !! guest = Some gid).
Proof.
  intros Ho Hmode.
  assert (allocate env input db =
            ((allocate env input db).1, (allocate env input db).2)) as Heq
    by (by destruct (allocate env input db)).
  destruct (decide (al_whiteGuestSessionId input = al_blackGuestSessionId input)) as [E|Hne].
  { unfold allocate in *. rewrite bool_decide_eq_true_2 in * by done. simpl. naive_solver. }
  rewrite allocate_eval in * by done.
  destruct (run (allocateInTransaction env input) db) as [[r|e0] db1] eqn:Hrun; cycle 1.
  { apply Lifecycle.run_Err in Hrun as ->. simpl. naive_solver. }
  apply Lifecycle.run_inv, allocateInTransaction_inv in Hrun; [|done].
  destruct Hrun as [[-> Hr] | (Hm & Hg & (gw & gb & Hw & Hb & _) & Aw & Ab & -> & ->)].
  - destruct r; simpl; (split; [by intros e db' [= _ ->]|]);
      (split; [|done]); intros guest gid Hin Hgid Hnone; eauto.
    destruct Hr as (row & Hrow & _). congruence.
  - destruct (loadAllocation_new env input db gw gb Ho Hg Hw Hb) as (pw & pb & Hp & Hl & _).
    rewrite Hl.
    destruct (mapAllocation_new env input gw gb pw pb Hmode Hp) as (alloc & -> & _).
    split; [done|]. split.
    + intros guest gid Hin Hgid. set_solver.
    + intros guest gid Hgid. simpl. rewrite !lookup_insert_ne; [done|..]; congruence.
Qed.

(** ** Readiness and start *)

Definition joinedDB (input : MarkGameReady) (player : PlayerRow) (db : DB) : DB :=
  with_players
    (map (on_player (p_id player)
            [P_connectedAt (Some (mg_observedAt input));
             P_joinedAt (Some (default (mg_observedAt input) (p_joinedAt player)))])) db.

Definition joinedCount (db : DB) (gid : string) : nat :=
  length (filter (fun p => p_joinedAt p <> None) (playerRows db gid)).

(** The row after the second player is ready. *)
Definition readyRow (env : Env) (game : GameRow) : GameRow :=
  set_GameColumns [G_status "READY"; G_version_increment 1;
                   G_updatedAt (env_updatedAt env)] game.

Definition startedRow (env : Env) (game : GameRow) : GameRow :=
  set_GameColumns
    [G_startedAt (Some (env_observedAt env)); G_status "IN_PROGRESS";
     G_turnStartedAt (Some (env_observedAt env)); G_version_increment 1;
     G_updatedAt (env_updatedAt env)] game.

Lemma updateGameAtVersion_eval env gid v data db row :
  games db !! gid = Some row -> g_version row = v ->
  updateGameAtVersion env gid v data db =
    Ok (Some (v + 1),
        with_games <[gid := set_GameColumns ((data ++ [G_version_increment 1]) ++
                              [G_updatedAt (env_updatedAt env)]) row]> db).
Proof.
  intros Hg Hv. unfold updateGameAtVersion.
  by rewrite (tx_bind_eval _ _ _ _ _ (game_updateMany_eval _ _ _ _ _ _ Hg Hv)).
Qed.

Definition findGuest (ps : list PlayerRow) (guest : string) : option PlayerRow :=
  List.find (fun c => bool_decide (p_guestSessionId c = guest)) ps.

Lemma findGuest_Some ps guest p :
  findGuest ps guest = Some p -> p ∈ ps /\ p_guestSessionId p = guest.
Proof.
  intros [Hin Hb]%List.find_some. js_bool. split; [by apply list_elem_of_In|done].
Qed.

Definition acceptsReady (game : GameRow) (player : PlayerRow) (input : MarkGameReady)
    : bool :=
  ((mg_expectedVersion input =? g_version game) ||
   (negb (isNull (p_joinedAt player)) &&
    includes ["READY"; "IN_PROGRESS"; "RECONNECTING"] (g_status game))) &&
  includes ["WAITING_FOR_PLAYERS"; "READY"; "IN_PROGRESS"; "RECONNECTING"] (g_status game).

Lemma markReadyInTransaction_eval env input db game player :
  keyed db -> games db !! mg_gameId input = Some game ->
  findGuest (gamePlayers db (mg_gameId input)) (mg_guestSessionId input) = Some player ->
  acceptsReady game player input = true ->
  markReadyInTransaction env input db =
    if bool_decide (g_status game = "WAITING_FOR_PLAYERS") &&
       bool_decide (joinedCount (joinedDB input player db) (mg_gameId input) = 2%nat)
    then
      let db' := with_games <[mg_gameId input := readyRow env game]>
                   (joinedDB input player db) in
      Ok (ready (loadAllocation db' (readyRow env game)), db')
    else
      let db' := joinedDB input player db in Ok (ready (loadAllocation db' game), db').
Proof.
  intros Hk Hg Hf Hacc. unfold markReadyInTransaction, game_findUnique, tx_read.
  unfold mbind at 1, tx_bind at 1. rewrite Hg. unfold mbind at 1, tx_bind at 1.
  unfold findGuest in Hf. rewrite Hf.
  unfold acceptsReady in Hacc. apply andb_true_iff in Hacc as [Hacc Hst]. rewrite Hst.
  assert (negb (mg_expectedVersion input =? g_version game) &&
          negb (negb (isNull (p_joinedAt player)) &&
                includes ["READY"; "IN_PROGRESS"; "RECONNECTING"] (g_status game)) = false)
    as -> by (by rewrite <- negb_orb, Hacc).
  cbn [negb]. apply findGuest_Some in Hf as [Hin _].
  rewrite (tx_bind_eval _ _ _ _ _ (gamePlayer_update_eval (p_id player) _ db
    (ex_intro _ player (conj (proj1 (proj1 (gamePlayers_elem _ _ _) Hin)) eq_refl)))).
  fold (joinedDB input player db). unfold mbind at 1, tx_bind at 1.
  fold (joinedCount (joinedDB input player db) (mg_gameId input)).
  assert (games (joinedDB input player db) !! mg_gameId input = Some game) as Hg' by done.
  rewrite (Hk _ _ Hg). destruct (bool_decide (g_status game = _) && _).
  - erewrite tx_bind_eval; [|by apply updateGameAtVersion_eval].
    unfold mbind, tx_bind. simpl. rewrite lookup_insert_eq. done.
  - unfold mbind, tx_bind, mret, tx_ret. cbv beta iota. by rewrite Hg'.
Qed.

Lemma startIfReadyInTransaction_eval env db gid game :
  keyed db -> games db !! gid = Some game -> lock_fits env game = true ->
  startIfReadyInTransaction env gid db =
    if bool_decide (g_status game = "READY") then
      let db' := with_games <[gid := startedRow env game]> db in
      Ok (found (loadAllocation db' (startedRow env game)) true, db')
    else Ok (found (loadAllocation db game) false, db).
Proof.
  intros Hk Hg Hl. unfold startIfReadyInTransaction.
  rewrite (Lifecycle.locked_found _ _ _ _ _ _ Hg Hl).
  cbn [lg_status lg_observedAt lg_version locked_of].
  destruct (bool_decide (g_status game = "READY")).
  - erewrite tx_bind_eval; [|by apply updateGameAtVersion_eval].
    unfold mbind, tx_bind, game_findUnique, tx_read. simpl. by rewrite lookup_insert_eq.
  - unfold mbind, tx_bind, game_findUnique, tx_read. simpl. by rewrite Hg.
Qed.

(** What a game needs for [mapAllocation] to read it. *)
Record readable (db : DB) (gid : string) (game : GameRow) : Prop := {
  rd_players : exists p1 p2 g1 g2, gamePlayers db gid = [p1; p2] /\
    guests db !! p_guestSessionId p1 = Some g1 /\
    guests db !! p_guestSessionId p2 = Some g2 /\
    p_slot p1 = 0 /\ p_slot p2 = 1 /\
    is_Some (isColor (p_color p1)) /\ is_Some (isColor (p_color p2));
  rd_mode : g_mode game = "BLITZ";
  rd_status : is_Some (isStatus (g_status game));
  rd_turn : is_Some (isColor (g_turnColor game))
}.

Lemma mapAllocation_readable db gid game :
  g_id game = gid -> readable db gid game ->
  exists a, mapAllocation (loadAllocation db game) = Ok a /\
    gr_version (ga_game a) = g_version game /\
    toString (gr_status (ga_game a)) = g_status game.
Proof.
  intros Hid [(p1 & p2 & g1 & g2 & Hp & H1 & H2 & S1 & S2 & [c1 C1] & [c2 C2]) Hm [s Hs] [c Hc]].
  unfold mapAllocation, loadAllocation. rewrite Hid, Hp, (withGuests_two _ _ _ _ _ H1 H2).
  simpl. rewrite S1, S2, C1, C2. simpl. unfold mapGame. rewrite Hm, Hs. simpl.
  unfold color. rewrite Hc. simpl. eexists. split; [reflexivity|]. split; [done|]. simpl.
  unfold isStatus in Hs. apply List.find_some in Hs as [_ Hs]. by js_bool.
Qed.

Lemma joinedCount_players db gid :
  joinedCount db gid = length (filter (fun p => p_joinedAt p <> None) (gamePlayers db gid)).
Proof. unfold joinedCount, gamePlayers. by rewrite orderBy_perm. Qed.

(** A game stays readable while rows keep what [mapAllocation] checks. *)
Lemma readable_players db gid game f :
  (forall p, p_gameId (f p) = p_gameId p) -> (forall p, p_slot (f p) = p_slot p) ->
  (forall p, p_guestSessionId (f p) = p_guestSessionId p) ->
  (forall p, p_color (f p) = p_color p) ->
  readable db gid game -> readable (with_players (map f) db) gid game.
Proof.
  intros Hg Hs Hu Hc [(p1 & p2 & g1 & g2 & Hp & H1 & H2 & S1 & S2 & C1 & C2) Hm Hst Ht].
  constructor; try done. exists (f p1), (f p2), g1, g2.
  rewrite gamePlayers_map, Hp by done. simpl. rewrite !Hu, !Hs, !Hc. done.
Qed.

Lemma readable_joined db gid game input player :
  readable db gid game -> readable (joinedDB input player db) gid game.
Proof.
  apply readable_players; intros p; unfold on_player; case_decide;
    by autorewrite with cluchess.
Qed.

Lemma readable_row db gid game game' f :
  g_mode game' = g_mode game -> g_turnColor game' = g_turnColor game ->
  is_Some (isStatus (g_status game')) ->
  readable db gid game -> readable (with_games f db) gid game'.
Proof. intros Hm Ht Hs [Hp Hmode _ Hturn]. constructor; [done|congruence|done|congruence]. Qed.

Lemma markReady_eval env input db game player :
  keyed db -> games db !! mg_gameId input = Some game ->
  findGuest (gamePlayers db (mg_gameId input)) (mg_guestSessionId input) = Some player ->
  acceptsReady game player input = true -> readable db (mg_gameId input) game ->
  let full := bool_decide (g_status game = "WAITING_FOR_PLAYERS") &&
    bool_decide (joinedCount (joinedDB input player db) (mg_gameId input) = 2%nat) in
  let game' := if full then readyRow env game else game in
  exists a, gr_version (ga_game a) = g_version game' /\
    toString (gr_status (ga_game a)) = g_status game' /\
    markReady env input db =
      (Ok a, if full then with_games <[mg_gameId input := game']> (joinedDB input player db)
             else joinedDB input player db).
Proof.
  intros Hk Hg Hf Hacc Hrd full. pose proof (Hk _ _ Hg) as Hid.
  unfold markReady, run. rewrite (markReadyInTransaction_eval _ _ _ _ _ Hk Hg Hf Hacc).
  fold full. apply (readable_joined _ _ _ input player) in Hrd. destruct full; cbv zeta.
  - destruct (mapAllocation_readable
      (with_games <[mg_gameId input := readyRow env game]> (joinedDB input player db))
      (mg_gameId input) (readyRow env game)) as (a & Ha & Hv & Hs); [done| |].
    + by apply (readable_row _ _ game).
    + exists a. by rewrite Ha.
  - destruct (mapAllocation_readable _ _ _ Hid Hrd) as (a & Ha & Hv & Hs).
    exists a. by rewrite Ha.
Qed.

Lemma startIfReady_eval env db gid game :
  keyed db -> games db !! gid = Some game -> lock_fits env game = true ->
  readable db gid game ->
  let started := bool_decide (g_status game = "READY") in
  let game' := if started then startedRow env game else game in
  exists a, gr_version (ga_game a) = g_version game' /\
    toString (gr_status (ga_game a)) = g_status game' /\
    startIfReady env gid db =
      (Ok (mkStartGameResult a started),
       if started then with_games <[gid := game']> db else db).
Proof.
  intros Hk Hg Hl Hrd started. pose proof (Hk _ _ Hg) as Hid.
  unfold startIfReady, run. rewrite (startIfReadyInTransaction_eval _ _ _ _ Hk Hg Hl).
  fold started. destruct started; cbv zeta.
  - destruct (mapAllocation_readable (with_games <[gid := startedRow env game]> db) gid
      (startedRow env game)) as (a & Ha & Hv & Hs); [done| |].
    + by apply (readable_row _ _ game).
    + exists a. by rewrite Ha.
  - destruct (mapAllocation_readable _ _ _ Hid Hrd) as (a & Ha & Hv & Hs).
    exists a. by rewrite Ha.
Qed.

Lemma lock_fits_not_running env game : is_running game = false -> lock_fits env game = true.
Proof. intros Hr. unfold lock_fits, locked_fits, runs. by rewrite Hr. Qed.

Lemma keyed_insert db gid row : keyed db -> g_id row = gid -> keyed (with_games <[gid := row]> db).
Proof.
  intros Hk Hid g r. simpl. intros [[<- <-]|[_ Hg]]%lookup_insert_Some; [done|by apply Hk].
Qed.

Lemma findGuest_on_player ps guest id data :
  findGuest (map (on_player id data) ps) guest = on_player id data <$> findGuest ps guest.
Proof.
  unfold findGuest. induction ps as [|p ps IH]; simpl; [done|].
  assert (p_guestSessionId (on_player id data p) = p_guestSessionId p) as ->
    by (unfold on_player; case_decide; by autorewrite with cluchess).
  by case_bool_decide.
Qed.

(** Two players in either order. *)
Definition both (ps : list PlayerRow) (p1 p2 : PlayerRow) : Prop :=
  (ps = [p1; p2] \/ ps = [p2; p1]) /\ p_id p1 <> p_id p2 /\
  p_guestSessionId p1 <> p_guestSessionId p2.

Lemma both_sym ps p1 p2 : both ps p1 p2 -> both ps p2 p1.
Proof. unfold both. naive_solver. Qed.

Lemma both_findGuest ps p1 p2 : both ps p1 p2 -> findGuest ps (p_guestSessionId p1) = Some p1.
Proof.
  intros ([-> | ->] & _ & Hg); unfold findGuest; simpl.
  - by rewrite bool_decide_eq_true_2.
  - by rewrite bool_decide_eq_false_2, bool_decide_eq_true_2.
Qed.

Lemma both_map ps p1 p2 data :
  both ps p1 p2 ->
  both (map (on_player (p_id p1) data) ps) (set_PlayerColumns data p1) p2.
Proof.
  intros (Hps & Hid & Hg). assert (on_player (p_id p1) data p1 = set_PlayerColumns data p1)
    as H1 by (unfold on_player; by rewrite decide_True).
  assert (on_player (p_id p1) data p2 = p2) as H2 by (unfold on_player; by rewrite decide_False).
  unfold both. autorewrite with cluchess. split; [|done].
  destruct Hps as [-> | ->]; simpl; rewrite H1, H2; auto.
Qed.

Lemma gamePlayers_joined input p db gid :
  gamePlayers (joinedDB input p db) gid =
  map (on_player (p_id p)
         [P_connectedAt (Some (mg_observedAt input));
          P_joinedAt (Some (default (mg_observedAt input) (p_joinedAt p)))])
    (gamePlayers db gid).
Proof. apply gamePlayers_on_player. Qed.

Lemma both_joined input p1 p2 db gid :
  both (gamePlayers db gid) p1 p2 ->
  exists p1', both (gamePlayers (joinedDB input p1 db) gid) p1' p2 /\
    p_joinedAt p1' <> None /\ p_guestSessionId p1' = p_guestSessionId p1.
Proof.
  intros Hb. eexists. rewrite gamePlayers_joined. split; [by apply both_map|]. done.
Qed.

Lemma both_count db gid p1 p2 :
  both (gamePlayers db gid) p1 p2 ->
  joinedCount db gid = 2%nat <-> p_joinedAt p1 <> None /\ p_joinedAt p2 <> None.
Proof.
  intros (Hps & _). rewrite joinedCount_players.
  destruct Hps as [-> | ->]; rewrite !filter_cons, filter_nil;
    repeat case_decide; simpl; naive_solver.
Qed.

(** Two players get ready and the game starts. Let the two players of a game
    waiting at version v announce, in either order, that they are ready, both at
    version v. The first announcement only records the player; the second makes
    the game READY at version v + 1; startIfReady then starts it at version
    v + 2, with White's turn and the clock running from the moment it observed.
    Starting again changes nothing and reports that nothing was started; and a
    player of the running game may announce readiness again, at whatever version,
    without changing the game. *)
Theorem readiness_starts_game env1 env2 env3 env4 env5 in1 in2 in3 db gid game p1 p2 :
  keyed db -> games db !! gid = Some game -> readable db gid game ->
  g_status game = "WAITING_FOR_PLAYERS" ->
  both (gamePlayers db gid) p1 p2 ->
  p_joinedAt p1 = None -> p_joinedAt p2 = None ->
  mg_gameId in1 = gid -> mg_gameId in2 = gid -> mg_gameId in3 = gid ->
  mg_guestSessionId in1 = p_guestSessionId p1 ->
  mg_guestSessionId in2 = p_guestSessionId p2 ->
  mg_guestSessionId in3 = p_guestSessionId p1 ->
  mg_expectedVersion in1 = g_version game -> mg_expectedVersion in2 = g_version game ->
  lock_fits env4 (startedRow env3 (readyRow env2 game)) = true ->
  exists a1 db1 a2 db2 a3 db3 a4 a5 db5,
    markReady env1 in1 db = (Ok a1, db1) /\ games db1 = games db /\
    markReady env2 in2 db1 = (Ok a2, db2) /\
    games db2 = <[gid := readyRow env2 game]> (games db) /\
    gr_version (ga_game a2) = g_version game + 1 /\ gr_status (ga_game a2) = READY /\
    startIfReady env3 gid db2 = (Ok (mkStartGameResult a3 true), db3) /\
    games db3 = <[gid := startedRow env3 (readyRow env2 game)]> (games db) /\
    gr_version (ga_game a3) = g_version game + 2 /\ gr_status (ga_game a3) = IN_PROGRESS /\
    startIfReady env4 gid db3 = (Ok (mkStartGameResult a4 false), db3) /\
    markReady env5 in3 db3 = (Ok a5, db5) /\ games db5 = games db3.
Proof.
  intros Hk Hg Hrd Hst Hb J1 J2 G1 G2 G3 U1 U2 U3 V1 V2 Hl4. subst gid.
  (* the first player *)
  destruct (markReady_eval env1 in1 db game p1) as (a1 & _ & _ & E1); try done.
  { rewrite U1. by eapply both_findGuest. }
  { unfold acceptsReady. by rewrite V1, Z.eqb_refl, Hst. }
  destruct (both_joined in1 _ _ _ _ Hb) as (p1' & Hb1 & J1' & U1').
  assert (bool_decide (joinedCount (joinedDB in1 p1 db) (mg_gameId in1) = 2%nat) = false)
    as Hc1 by (apply bool_decide_eq_false; rewrite (both_count _ _ _ _ Hb1); naive_solver).
  rewrite Hc1, andb_false_r in E1.
  (* the second player *)
  set (db1 := joinedDB in1 p1 db) in *.
  destruct (markReady_eval env2 in2 db1 game p2) as (a2 & Va2 & Sa2 & E2); try done.
  { by rewrite G2. }
  { rewrite G2, U2. by eapply both_findGuest, both_sym. }
  { unfold acceptsReady. by rewrite V2, Z.eqb_refl, Hst. }
  { rewrite G2. by apply readable_joined. }
  rewrite G2 in *. apply both_sym in Hb1.
  destruct (both_joined in2 _ _ _ _ Hb1) as (p2' & Hb2 & J2' & _).
  assert (bool_decide (joinedCount (joinedDB in2 p2 db1) (mg_gameId in1) = 2%nat) = true)
    as Hc2 by (apply bool_decide_eq_true; by rewrite (both_count _ _ _ _ Hb2)).
  rewrite Hc2, Hst, bool_decide_eq_true_2 in E2, Va2, Sa2 by done.
  set (db2 := with_games <[mg_gameId in1 := readyRow env2 game]> (joinedDB in2 p2 db1)) in *.
  pose proof (Hk _ _ Hg) as Hid.
  assert (keyed db2) as Hk2 by (apply keyed_insert; [exact Hk|exact Hid]).
  assert (games db2 !! mg_gameId in1 = Some (readyRow env2 game)) as Hg2
    by apply lookup_insert_eq.
  assert (readable db2 (mg_gameId in1) (readyRow env2 game)) as Hrd2.
  { apply (readable_row _ _ game); try done. by do 2 apply readable_joined. }
  (* the start *)
  destruct (startIfReady_eval env3 db2 _ _ Hk2 Hg2 eq_refl Hrd2) as (a3 & Va3 & Sa3 & E3).
  simpl in Va3, Sa3, E3.
  set (row3 := startedRow env3 (readyRow env2 game)) in *.
  set (db3 := with_games <[mg_gameId in1 := row3]> db2) in *.
  assert (keyed db3) as Hk3 by (apply keyed_insert; [exact Hk2|exact Hid]).
  assert (games db3 !! mg_gameId in1 = Some row3) as Hg3 by apply lookup_insert_eq.
  assert (readable db3 (mg_gameId in1) row3) as Hrd3
    by (by apply (readable_row _ _ (readyRow env2 game))).
  destruct (startIfReady_eval env4 db3 _ _ Hk3 Hg3 Hl4 Hrd3) as (a4 & _ & _ & E4).
  destruct (markReady_eval env5 in3 db3 row3 p1') as (a5 & _ & _ & E5); try done.
  { by rewrite G3. }
  { rewrite G3, U3, <- U1'. by eapply both_findGuest, both_sym. }
  { unfold acceptsReady. destruct (p_joinedAt p1') eqn:Ej; [|done]. by rewrite orb_true_r. }
  { by rewrite G3. }
  exists a1, db1, a2, db2, a3, db3, a4, a5, (joinedDB in3 p1' db3).
  split_and!; try done.
  - by destruct (gr_status (ga_game a2)).
  - unfold db3, db2. simpl. by rewrite insert_insert_eq.
  - rewrite Va3. unfold row3, startedRow, readyRow, set_GameColumns. simpl. lia.
  - by destruct (gr_status (ga_game a3)).
Qed.
End Theory.

(** ** Samples, for the witnesses *)

#[local] Existing Instance sample_prisma.

Definition sample_guests : gmap string GuestRow :=
  {["alice" := mkGuestRow 800000 "Alice" "fox" (Some "jti-a") 800000 99000000 None;
    "bob" := mkGuestRow 800000 "Bob" "owl" (Some "jti-b") 800000 99000000 None]}.

Definition empty_db : DB := mkDB ∅ [] [] ∅ ∅ sample_guests ∅.

Definition sample_allocation : AllocateGame :=
  mkAllocateGame "bob" "game-1" "start" 960000 "match-1" "BLITZ" 900000 "" 2000 180000 "alice".

Lemma empty_owned : owned empty_db.
Proof. intros p Hp. by apply not_elem_of_nil in Hp. Qed.

Lemma allocate_atomic_idempotent_witness :
  exists alloc db', allocate (env_at 900000) sample_allocation empty_db = (Ok alloc, db') /\
    allocate (env_at 905000) sample_allocation db' = (Ok alloc, db').
Proof.
  destruct (allocate (env_at 900000) sample_allocation empty_db) as [[alloc|e] db'] eqn:E.
  - exists alloc, db'. split; [done|].
    exact (proj2 (allocate_atomic_idempotent (env_at 900000) sample_allocation empty_db alloc
                    db' empty_owned eq_refl E) (env_at 905000)).
  - exfalso. apply (f_equal (fun o => is_ok o.1)) in E. vm_compute in E. discriminate.
Defined.

Lemma with_guests_owned : owned (Lifecycle.with_row Lifecycle.waiting_row
  [Lifecycle.waiting_white; Lifecycle.waiting_black]).
Proof.
  intros p Hp. exists Lifecycle.waiting_row. simpl in Hp.
  assert (p_gameId p = "game-1") as -> by set_solver. reflexivity.
Qed.

Lemma allocate_never_double_books_witness :
  exists e, allocate (env_at 905000)
    (mkAllocateGame "carol" "game-2" "start" 970000 "match-2" "BLITZ" 905000 "" 2000 180000 "alice")
    (Lifecycle.with_row Lifecycle.waiting_row [Lifecycle.waiting_white; Lifecycle.waiting_black])
  = (Err e, Lifecycle.with_row Lifecycle.waiting_row
              [Lifecycle.waiting_white; Lifecycle.waiting_black]).
Proof.
  destruct (allocate_never_double_books (env_at 905000)
    (mkAllocateGame "carol" "game-2" "start" 970000 "match-2" "BLITZ" 905000 "" 2000 180000 "alice")
    (Lifecycle.with_row Lifecycle.waiting_row [Lifecycle.waiting_white; Lifecycle.waiting_black])
    with_guests_owned eq_refl) as (_ & H & _).
  apply (H "alice" "game-1"); [|reflexivity|reflexivity].
  apply list_elem_of_here.
Defined.

(** The sample guests in a game that waits for both. *)
Definition waiting_db : DB :=
  mkDB {["game-1" := Lifecycle.waiting_row]}
    [mkPlayerRow "p-w" "game-1" "alice" "w" 0 None None None None; Lifecycle.waiting_black] []
    {["alice" := "game-1"; "bob" := "game-1"]} ∅ sample_guests ∅.

Lemma waiting_keyed : keyed waiting_db.
Proof.
  intros gid row Hg.
  change (({["game-1" := Lifecycle.waiting_row]} : gmap string GameRow) !! gid = Some row) in Hg.
  by apply lookup_singleton_Some in Hg as [<- <-].
Qed.

Lemma waiting_readable : readable waiting_db "game-1" Lifecycle.waiting_row.
Proof.
  constructor; [|reflexivity|by eexists|by eexists].
  eexists _, _, _, _. split; [reflexivity|].
  split; [reflexivity|]. split; [reflexivity|]. split_and!; try done; by eexists.
Qed.

Lemma readiness_starts_game_witness :
  exists a2 db2 a3 db3,
    markReady (env_at 910000) (mkMarkGameReady 0 "game-1" "alice" 910000)
      (markReady (env_at 905000) (mkMarkGameReady 0 "game-1" "bob" 905000) waiting_db).2
      = (Ok a2, db2) /\
    startIfReady (env_at 911000) "game-1" db2 = (Ok (mkStartGameResult a3 true), db3) /\
    gr_status (ga_game a3) = IN_PROGRESS /\ gr_version (ga_game a3) = 2.
Proof.
  assert (both (gamePlayers waiting_db "game-1") Lifecycle.waiting_black
            (mkPlayerRow "p-w" "game-1" "alice" "w" 0 None None None None)) as Hb.
  { split; [right; reflexivity|by split]. }
  assert (lock_fits (env_at 912000)
            (startedRow (env_at 911000) (readyRow (env_at 910000) Lifecycle.waiting_row)) = true)
    as Hl by reflexivity.
  destruct (readiness_starts_game (env_at 905000) (env_at 910000) (env_at 911000)
    (env_at 912000) (env_at 913000) (mkMarkGameReady 0 "game-1" "bob" 905000)
    (mkMarkGameReady 0 "game-1" "alice" 910000) (mkMarkGameReady 0 "game-1" "bob" 913000)
    waiting_db "game-1" Lifecycle.waiting_row _ _
    waiting_keyed eq_refl waiting_readable eq_refl Hb
    eq_refl eq_refl eq_refl eq_refl eq_refl eq_refl eq_refl eq_refl eq_refl eq_refl Hl)
    as (a1 & db1 & a2 & db2 & a3 & db3 & a4 & a5 & db5 & H1 & _ & H2 & _ & _ & _ & H3 & _ & Hv &
        Hs & _).
  exists a2, db2, a3, db3. rewrite H1. split; [exact H2|]. split; [exact H3|].
  split; [exact Hs|exact Hv].
Defined.

End Games.
