(* ===== verification/GameDeadlines.v ===== *)
(** * The deadline scheduler

    [src/src/modules/game/game-deadline.service.ts]: in-process timers for the
    games' deadlines, and the periodic sweep. The service is a state machine
    that runs between the points where the code awaits: a suspended call is an
    entry of [scheduling] or [adjudicating], and the answer it waits for (a
    deadline, a list of games, the outcome of an adjudication, or an error) is
    chosen by the environment when it resumes. Node's timers are [armed]: a
    timer that was set fires unless it is cleared first.

    Left out: metrics, logging, the sweep's own interval timer, and [unref]. *)

From S2P Require Export GameTypes.
Local Open Scope string_scope.
Local Open Scope list_scope.
Local Open Scope Z_scope.

Definition MAX_TIMER_DELAY_MS : Z := 2147483647.

(** A timer and what its callback has captured. *)
Record Timer : Type := mkTimer {
  tm_gameId : string;
  tm_generation : Z;
  tm_delay : Z
}.

(** A call of [scheduleGame] that awaits [findDeadline]; [bySweep] tells whether
    the sweep awaits the call. *)
Record Scheduling : Type := mkScheduling {
  sc_gameId : string;
  sc_generation : Z;
  sc_minimumDelayMs : Z;
  sc_bySweep : bool
}.

(** A call of [adjudicateAndReschedule] that awaits [adjudicateGame]. *)
Record Adjudicating : Type := mkAdjudicating {
  aj_gameId : string;
  aj_bySweep : bool
}.

(** Where [runSweep] is: not running, awaiting [findDueGameIds], or in its loop
    with the ids still to come. *)
Inductive Sweep : Type :=
| NotSweeping
| Finding
| Looping (rest : list string).

Record Service : Type := mkService {
  generations : gmap string Z;
  timers : gmap string nat;
  runningSweep : bool;
  armed : gmap nat Timer;
  nextTimer : nat;
  scheduling : list Scheduling;
  adjudicating : list Adjudicating;
  sweep : Sweep
}.

Definition with_generations f (s : Service) : Service :=
  mkService (f (generations s)) (timers s) (runningSweep s) (armed s) (nextTimer s)
    (scheduling s) (adjudicating s) (sweep s).
Definition with_timers f (s : Service) : Service :=
  mkService (generations s) (f (timers s)) (runningSweep s) (armed s) (nextTimer s)
    (scheduling s) (adjudicating s) (sweep s).
Definition with_armed f (s : Service) : Service :=
  mkService (generations s) (timers s) (runningSweep s) (f (armed s)) (nextTimer s)
    (scheduling s) (adjudicating s) (sweep s).
Definition with_scheduling f (s : Service) : Service :=
  mkService (generations s) (timers s) (runningSweep s) (armed s) (nextTimer s)
    (f (scheduling s)) (adjudicating s) (sweep s).
Definition with_adjudicating f (s : Service) : Service :=
  mkService (generations s) (timers s) (runningSweep s) (armed s) (nextTimer s)
    (scheduling s) (f (adjudicating s)) (sweep s).
Definition with_sweep running w (s : Service) : Service :=
  mkService (generations s) (timers s) running (armed s) (nextTimer s)
    (scheduling s) (adjudicating s) w.

(** ** Node's timers *)

Definition clearTimeout (handle : nat) (s : Service) : Service :=
  with_armed (delete handle) s.

Definition setTimeout (t : Timer) (s : Service) : nat * Service :=
  (nextTimer s,
   mkService (generations s) (timers s) (runningSweep s) (<[nextTimer s := t]> (armed s))
     (S (nextTimer s)) (scheduling s) (adjudicating s) (sweep s)).

(** ** The service *)

Definition initial : Service := mkService ∅ ∅ false ∅ 0 [] [] NotSweeping.

Definition clearTimer (gameId : string) (s : Service) : Service :=
  match timers s !! gameId with
  | None => s
  | Some timer => with_timers (delete gameId) (clearTimeout timer s)
  end.

(** [(this.generations.get(gameId) ?? 0) + 1] *)
Definition nextGeneration (gameId : string) (s : Service) : Z :=
  default 0 (generations s !! gameId) + 1.

(** [scheduleGame], up to its [await]. *)
Definition scheduleGame (gameId : string) (minimumDelayMs : Z) (bySweep : bool)
    (s : Service) : Service :=
  let generation := nextGeneration gameId s in
  with_scheduling (fun l => l ++ [mkScheduling gameId generation minimumDelayMs bySweep])
    (clearTimer gameId (with_generations <[gameId := generation]> s)).

Definition timerDelay (minimumDelayMs deadline now : Z) : Z :=
  Z.min MAX_TIMER_DELAY_MS (Z.max minimumDelayMs (deadline - now)).

(** The rest of [scheduleGame], once [findDeadline] has answered. *)
Definition scheduleFound (call : Scheduling) (answer : result exn (option Z)) (now : Z)
    (s : Service) : Service :=
  match answer with
  | Err _ => s
  | Ok None => s
  | Ok (Some deadline) =>
      if negb (bool_decide (generations s !! sc_gameId call = Some (sc_generation call)))
      then s else
      let '(timer, s) :=
        setTimeout (mkTimer (sc_gameId call) (sc_generation call)
                      (timerDelay (sc_minimumDelayMs call) deadline now)) s in
      with_timers <[sc_gameId call := timer]> s
  end.

Definition cancel (gameId : string) (s : Service) : Service :=
  clearTimer gameId (with_generations <[gameId := nextGeneration gameId s]> s).

(** [adjudicateAndReschedule], up to its first [await]. *)
Definition adjudicateAndReschedule (gameId : string) (bySweep : bool) (s : Service)
    : Service :=
  with_adjudicating (fun l => l ++ [mkAdjudicating gameId bySweep]) s.

(** The callback of a timer: [fire(gameId, generation)], up to its first [await]. *)
Definition fire (gameId : string) (generation : Z) (s : Service) : Service :=
  if negb (bool_decide (generations s !! gameId = Some generation)) then s
  else adjudicateAndReschedule gameId false (with_timers (delete gameId) s).

(** The next turn of the sweep's loop, or its end. *)
Definition sweepNext (rest : list string) (s : Service) : Service :=
  match rest with
  | [] => with_sweep false NotSweeping s
  | gameId :: rest => adjudicateAndReschedule gameId true (with_sweep (runningSweep s) (Looping rest) s)
  end.

Definition sweepResumes (bySweep : bool) (s : Service) : Service :=
  match bySweep, sweep s with
  | true, Looping rest => sweepNext rest s
  | _, _ => s
  end.

(** The rest of [adjudicateAndReschedule]: [terminal] tells whether the game
    ended. *)
Definition adjudicated (call : Adjudicating) (interval : Z) (terminal : result exn bool)
    (s : Service) : Service :=
  match terminal with
  | Ok true => sweepResumes (aj_bySweep call) (cancel (aj_gameId call) s)
  | Ok false | Err _ => scheduleGame (aj_gameId call) interval (aj_bySweep call) s
  end.

(** [runSweep], up to its first [await], and when [findDueGameIds] has answered. *)
Definition runSweep (s : Service) : Service :=
  if runningSweep s then s else with_sweep true Finding s.

Definition sweepFound (answer : result exn (list string)) (s : Service) : Service :=
  match answer with
  | Err _ => with_sweep false NotSweeping s
  | Ok gameIds => sweepNext gameIds s
  end.

(** [rebuild], when [findSchedulableGameIds] has answered. *)
Definition rebuildFound (answer : result exn (list string)) (s : Service) : Service :=
  match answer with
  | Err _ => s
  | Ok gameIds => fold_left (fun s gameId => scheduleGame gameId 0 false s) gameIds s
  end.

Definition onApplicationShutdown (s : Service) : Service :=
  with_timers (fun _ => ∅)
    (foldr clearTimeout s (map snd (map_to_list (timers s)))).

(** ** Steps

    Everything that can happen between two awaits. *)

Inductive Label : Type :=
| L_schedule (gameId : string) (minimumDelayMs : Z)
| L_scheduleFound (call : Scheduling) (answer : result exn (option Z)) (now : Z)
| L_cancel (gameId : string)
| L_timer (handle : nat)
| L_adjudicated (call : Adjudicating) (terminal : result exn bool)
| L_sweep
| L_sweepFound (answer : result exn (list string))
| L_rebuildFound (answer : result exn (list string))
| L_shutdown.

Inductive step (interval : Z) (s : Service) : Label -> Service -> Prop :=
| St_schedule gameId minimumDelayMs :
    0 <= minimumDelayMs ->
    step interval s (L_schedule gameId minimumDelayMs)
      (scheduleGame gameId minimumDelayMs false s)
| St_scheduleFound call answer now l1 l2 :
    scheduling s = l1 ++ call :: l2 ->
    step interval s (L_scheduleFound call answer now)
      (sweepResumes (sc_bySweep call)
         (scheduleFound call answer now (with_scheduling (fun _ => l1 ++ l2) s)))
| St_cancel gameId :
    step interval s (L_cancel gameId) (cancel gameId s)
| St_timer handle t :
    armed s !! handle = Some t ->
    step interval s (L_timer handle)
      (fire (tm_gameId t) (tm_generation t) (clearTimeout handle s))
| St_adjudicated call terminal l1 l2 :
    adjudicating s = l1 ++ call :: l2 ->
    step interval s (L_adjudicated call terminal)
      (adjudicated call interval terminal (with_adjudicating (fun _ => l1 ++ l2) s))
| St_sweep :
    step interval s L_sweep (runSweep s)
| St_sweepFound answer :
    sweep s = Finding ->
    step interval s (L_sweepFound answer) (sweepFound answer s)
| St_rebuildFound answer :
    step interval s (L_rebuildFound answer) (rebuildFound answer s)
| St_shutdown :
    step interval s L_shutdown (onApplicationShutdown s).

Inductive steps (interval : Z) (s : Service) : list Label -> Service -> Prop :=
| Steps_nil : steps interval s [] s
| Steps_snoc labels s1 label s2 :
    steps interval s labels s1 -> step interval s1 label s2 ->
    steps interval s (labels ++ [label]) s2.

(** * Theory *)

(** ** What the operations change *)

Lemma cancel_spec gid s :
  generations (cancel gid s) = <[gid := nextGeneration gid s]> (generations s) /\
  timers (cancel gid s) = delete gid (timers s) /\
  (forall h t, armed (cancel gid s) !! h = Some t <->
               armed s !! h = Some t /\ timers s !! gid <> Some h) /\
  nextTimer (cancel gid s) = nextTimer s /\ scheduling (cancel gid s) = scheduling s /\
  adjudicating (cancel gid s) = adjudicating s /\
  runningSweep (cancel gid s) = runningSweep s /\ sweep (cancel gid s) = sweep s.
Proof.
  unfold cancel, clearTimer. simpl. destruct (timers s !! gid) as [h0|] eqn:E; simpl.
  - split_and!; try done. intros h t. rewrite lookup_delete_Some. naive_solver.
  - rewrite delete_id by done. split_and!; try done. intros h t. naive_solver.
Qed.

Lemma scheduleGame_cancel gid m by_ s :
  scheduleGame gid m by_ s =
  with_scheduling (fun l => l ++ [mkScheduling gid (nextGeneration gid s) m by_]) (cancel gid s).
Proof. done. Qed.

(** ** The invariant *)

Record inv (s : Service) : Prop := {
  iv_timer : forall gid h, timers s !! gid = Some h ->
    exists t, armed s !! h = Some t /\ tm_gameId t = gid /\
              generations s !! gid = Some (tm_generation t);
  iv_armed : forall h t, armed s !! h = Some t -> timers s !! tm_gameId t = Some h;
  iv_fresh : forall h t, armed s !! h = Some t -> (h < nextTimer s)%nat;
  iv_calls : forall c, c ∈ scheduling s ->
    exists g, generations s !! sc_gameId c = Some g /\ sc_generation c <= g /\
              (sc_generation c = g -> timers s !! sc_gameId c = None);
  iv_once : NoDup (map (fun c => (sc_gameId c, sc_generation c)) (scheduling s));
  iv_minimum : Forall (fun c => 0 <= sc_minimumDelayMs c) (scheduling s);
  iv_delay : forall h t, armed s !! h = Some t -> 0 <= tm_delay t <= MAX_TIMER_DELAY_MS;
  iv_sweep : runningSweep s = match sweep s with NotSweeping => false | _ => true end
}.

Lemma initial_inv : inv initial.
Proof.
  constructor; simpl; try (intros; by simplify_map_eq); try done; try constructor.
  intros c Hc. by apply not_elem_of_nil in Hc.
Qed.

(** Calls made before are of an earlier generation. *)
Lemma iv_older s c :
  inv s -> c ∈ scheduling s -> sc_generation c < nextGeneration (sc_gameId c) s.
Proof.
  intros Hi Hc. destruct (iv_calls s Hi c Hc) as (g & Hg & Hle & _).
  unfold nextGeneration. rewrite Hg. simpl. lia.
Qed.

Lemma cancel_inv gid s : inv s -> inv (cancel gid s).
Proof.
  intros Hi. pose proof Hi as [I1 I2 I3 I4 I5 I6 I7 I8].
  destruct (cancel_spec gid s) as (Eg & Et & Ea & En & Es & _ & Er & Ew).
  constructor; rewrite ?Es, ?En, ?Er, ?Ew; try done.
  - intros g h. rewrite Et, lookup_delete_Some. intros [Hne Hh].
    destruct (I1 g h Hh) as (t & Ht & Hid & Hg). exists t.
    rewrite Ea, Eg, lookup_insert_ne by done. split_and!; try done.
    intros Hh'. destruct (I1 gid h Hh') as (t' & Ht' & Hid' & _). congruence.
  - intros h t. rewrite Ea, Et. intros [Ht Hne]. apply I2 in Ht as Ht'.
    rewrite lookup_delete_ne; [done|]. intros E. congruence.
  - intros h t. rewrite Ea. intros [Ht _]. by eapply I3.
  - intros c Hc. pose proof (iv_older s c Hi Hc). destruct (I4 c Hc) as (g & Hg & Hle & Hn).
    rewrite Eg, Et. destruct (decide (gid = sc_gameId c)) as [->|Hne].
    + exists (nextGeneration (sc_gameId c) s). rewrite lookup_insert_eq, lookup_delete_eq.
      split_and!; [done|lia|done].
    + exists g. by rewrite lookup_insert_ne, lookup_delete_ne.
  - intros h t. rewrite Ea. intros [Ht _]. by eapply I7.
Qed.

Lemma scheduleGame_inv gid m by_ s : 0 <= m -> inv s -> inv (scheduleGame gid m by_ s).
Proof.
  intros Hm Hi. rewrite scheduleGame_cancel.
  pose proof (cancel_inv gid s Hi) as [I1 I2 I3 I4 I5 I6 I7 I8].
  destruct (cancel_spec gid s) as (Eg & Et & _ & _ & Es & _).
  constructor; simpl; try done.
  - intros c [Hc|Hc%list_elem_of_singleton]%elem_of_app; [by apply I4|]. subst c. simpl.
    exists (nextGeneration gid s). rewrite Eg, Et, lookup_insert_eq, lookup_delete_eq.
    split_and!; [done|lia|done].
  - rewrite map_app. apply NoDup_app. split; [done|]. split; [|by apply NoDup_singleton].
    intros x (c & <- & Hc)%list_elem_of_In%in_map_iff Hx%list_elem_of_singleton.
    simpl in Hx. injection Hx as Hid Hg. rewrite Es in Hc.
    apply list_elem_of_In in Hc. pose proof (iv_older s c Hi Hc). rewrite Hid in *. lia.
  - apply Forall_app. split; [done|]. by constructor.
Qed.

(** A suspended call goes on: it is no longer among the suspended ones. *)
Lemma drop_call_inv s l1 call l2 :
  inv s -> scheduling s = l1 ++ call :: l2 -> inv (with_scheduling (fun _ => l1 ++ l2) s).
Proof.
  intros [I1 I2 I3 I4 I5 I6 I7 I8] Hs. rewrite Hs in *. constructor; simpl; try done.
  - intros c Hc. apply I4. set_solver.
  - rewrite <- Permutation_middle in I5. simpl in I5. by apply NoDup_cons in I5 as [_ I5].
  - rewrite Forall_app, Forall_cons in *. naive_solver.
Qed.

Lemma timerDelay_bounds m d now :
  0 <= m -> 0 <= timerDelay m d now <= MAX_TIMER_DELAY_MS.
Proof. unfold timerDelay, MAX_TIMER_DELAY_MS. lia. Qed.

Lemma scheduleFound_inv s l1 call l2 answer now :
  inv s -> scheduling s = l1 ++ call :: l2 ->
  inv (scheduleFound call answer now (with_scheduling (fun _ => l1 ++ l2) s)).
Proof.
  intros Hi Hs. pose proof (drop_call_inv s l1 call l2 Hi Hs) as Hi'.
  destruct answer as [[deadline|]|]; try done. unfold scheduleFound.
  case_bool_decide as Hg; simpl; [|done]. simpl in Hg.
  assert (call ∈ scheduling s) as Hin by (rewrite Hs; set_solver).
  destruct (iv_calls s Hi call Hin) as (g & Hg' & _ & Hnone).
  assert (g = sc_generation call) as -> by congruence. specialize (Hnone eq_refl).
  assert (0 <= sc_minimumDelayMs call) as Hmin
    by (by apply (proj1 (Forall_forall _ _) (iv_minimum s Hi))).
  destruct Hi' as [I1 I2 I3 I4 I5 I6 I7 I8]. simpl in *.
  assert (armed s !! nextTimer s = None) as Hfresh.
  { destruct (armed s !! nextTimer s) eqn:E; [|done]. apply I3 in E. lia. }
  constructor; simpl; try done.
  - intros gid h [[<- <-]|[Hne Hh]]%lookup_insert_Some.
    + eexists. rewrite lookup_insert_eq. split; [reflexivity|]. done.
    + destruct (I1 gid h Hh) as (t & Ht & Hid & Hgen). exists t.
      rewrite lookup_insert_ne by congruence. done.
  - intros h t [[<- <-]|[Hne Ht]]%lookup_insert_Some; simpl; [by rewrite lookup_insert_eq|].
    rewrite lookup_insert_ne; [by apply I2|]. intros E. apply I2 in Ht. congruence.
  - intros h t [[<- <-]|[Hne Ht]]%lookup_insert_Some; [lia|]. apply I3 in Ht. lia.
  - intros c Hc. destruct (I4 c Hc) as (g & Hcg & Hle & Hn). exists g. split_and!; try done.
    intros E. rewrite lookup_insert_ne; [by apply Hn|]. intros Hid.
    pose proof (iv_once s Hi) as Hnd. rewrite Hs, map_app in Hnd. simpl in Hnd.
    apply NoDup_app in Hnd as (_ & N1 & N2). apply NoDup_cons in N2 as [N2 _].
    assert ((sc_gameId call, sc_generation call) ∈
              map (fun c => (sc_gameId c, sc_generation c)) (l1 ++ l2)) as Hdup.
    { apply list_elem_of_In, in_map_iff. exists c. split; [|by apply list_elem_of_In].
      f_equal; congruence. }
    rewrite map_app in Hdup. apply elem_of_app in Hdup as [Hd|Hd]; [|done].
    apply (N1 _ Hd). apply elem_of_cons. by left.
  - intros h t [[<- <-]|[Hne Ht]]%lookup_insert_Some; [|by eapply I7].
    by apply timerDelay_bounds.
Qed.

(** The other parts of the state do not matter to the invariant. *)
Lemma inv_adjudicating f s : inv s -> inv (with_adjudicating f s).
Proof. by intros [I1 I2 I3 I4 I5 I6 I7 I8]. Qed.

Lemma inv_with_sweep running w s :
  inv s -> running = match w with NotSweeping => false | _ => true end ->
  inv (with_sweep running w s).
Proof. by intros [I1 I2 I3 I4 I5 I6 I7 I8]. Qed.

Lemma sweepNext_inv rest s : inv s -> sweep s <> NotSweeping -> inv (sweepNext rest s).
Proof.
  intros Hi Hs. destruct rest as [|gid rest]; [by apply inv_with_sweep|].
  apply inv_adjudicating, inv_with_sweep; [done|]. rewrite (iv_sweep s Hi). by destruct (sweep s).
Qed.

Lemma sweepResumes_inv by_ s : inv s -> inv (sweepResumes by_ s).
Proof.
  intros Hi. unfold sweepResumes. destruct by_; [|done]. destruct (sweep s) eqn:E; try done.
  apply sweepNext_inv; [done|congruence].
Qed.

Lemma fire_current h t s :
  inv s -> armed s !! h = Some t ->
  fire (tm_gameId t) (tm_generation t) (clearTimeout h s) =
    adjudicateAndReschedule (tm_gameId t) false
      (with_timers (delete (tm_gameId t)) (clearTimeout h s)).
Proof.
  intros Hi Ht. unfold fire. pose proof (iv_armed s Hi h t Ht) as Hh.
  destruct (iv_timer s Hi _ _ Hh) as (t' & Ht' & _ & Hg).
  assert (t' = t) as -> by congruence. by rewrite bool_decide_eq_true_2.
Qed.

Lemma fire_inv h t s :
  inv s -> armed s !! h = Some t ->
  inv (fire (tm_gameId t) (tm_generation t) (clearTimeout h s)).
Proof.
  intros Hi Ht. rewrite fire_current by done. apply inv_adjudicating.
  destruct Hi as [I1 I2 I3 I4 I5 I6 I7 I8]. pose proof (I2 h t Ht) as Hh.
  constructor; simpl; try done.
  - intros gid h' [Hne Hh']%lookup_delete_Some. destruct (I1 gid h' Hh') as (t' & Ht' & Hid & Hg).
    exists t'. rewrite lookup_delete_ne; [done|]. intros ->. congruence.
  - intros h' t' [Hne Ht']%lookup_delete_Some. rewrite lookup_delete_ne; [by apply I2|].
    intros E. apply I2 in Ht'. congruence.
  - intros h' t' [_ Ht']%lookup_delete_Some. by eapply I3.
  - intros c Hc. destruct (I4 c Hc) as (g & Hg & Hle & Hn). exists g. split_and!; try done.
    intros E. rewrite lookup_delete_None. auto.
  - intros h' t' [_ Ht']%lookup_delete_Some. by eapply I7.
Qed.

Lemma clear_all hs s :
  let s' := foldr clearTimeout s hs in
  (forall h t, armed s' !! h = Some t <-> h ∉ hs /\ armed s !! h = Some t) /\
  generations s' = generations s /\ nextTimer s' = nextTimer s /\
  scheduling s' = scheduling s /\ runningSweep s' = runningSweep s /\ sweep s' = sweep s.
Proof.
  induction hs as [|h0 hs IH]; simpl; [split_and!; try done; set_solver|].
  destruct IH as (Ha & ? & ? & ? & ? & ?). split_and!; try done.
  intros h t. rewrite lookup_delete_Some, Ha. set_solver.
Qed.

Lemma shutdown_inv s : inv s -> inv (onApplicationShutdown s).
Proof.
  intros [I1 I2 I3 I4 I5 I6 I7 I8].
  destruct (clear_all (map snd (map_to_list (timers s))) s) as (Ha & Hg & Hn & Hs & Hr & Hw).
  unfold onApplicationShutdown. constructor; simpl; rewrite ?Hg, ?Hn, ?Hs, ?Hr, ?Hw; try done.
  - intros h t [Hnot Ht]%Ha. destruct Hnot. apply list_elem_of_fmap.
    exists (tm_gameId t, h). split; [done|]. apply elem_of_map_to_list. by apply I2.
  - intros h t [_ Ht]%Ha. by eapply I3.
  - intros c Hc. destruct (I4 c Hc) as (g & Hcg & Hle & _). by exists g.
  - intros h t [_ Ht]%Ha. by eapply I7.
Qed.

Lemma rebuild_inv ids s :
  inv s -> inv (fold_left (fun s gid => scheduleGame gid 0 false s) ids s).
Proof.
  revert s. induction ids as [|gid ids IH]; intros s Hi; simpl; [done|].
  by apply IH, scheduleGame_inv.
Qed.

Lemma service_step_inv interval s label s' : 0 <= interval -> inv s -> step interval s label s' -> inv s'.
Proof.
  intros Hint Hi Hst. destruct Hst as [gid m Hm|call answer now l1 l2 Hl|gid|h t Ht
    |call terminal l1 l2 Hl| |answer Hf|answer| ].
  - by apply scheduleGame_inv.
  - by apply sweepResumes_inv, scheduleFound_inv.
  - by apply cancel_inv.
  - by apply fire_inv.
  - destruct terminal as [[|]|e]; simpl.
    + by apply sweepResumes_inv, cancel_inv, inv_adjudicating.
    + by apply scheduleGame_inv, inv_adjudicating.
    + by apply scheduleGame_inv, inv_adjudicating.
  - unfold runSweep. destruct (runningSweep s); [done|]. by apply inv_with_sweep.
  - destruct answer as [ids|e]; simpl; [|by apply inv_with_sweep].
    apply sweepNext_inv; [done|congruence].
  - destruct answer as [ids|e]; simpl; [by apply rebuild_inv|done].
  - by apply shutdown_inv.
Qed.

Lemma steps_inv interval s labels s' :
  0 <= interval -> inv s -> steps interval s labels s' -> inv s'.
Proof. intros Hint Hi Hst. induction Hst; [done|]. by eapply service_step_inv. Qed.

(** C26: the timers are in order whatever the interleaving. In every state the service
    can reach: a game has at most one timer, it is the one the service keeps for it
    and belongs to the game's current generation, so that when it fires the check
    of [fire] never stops it, and its delay is not negative and within the range of
    setTimeout; every timer the service keeps is armed, so none is lost; and
    runningSweep is set exactly while a sweep is under way. *)
Theorem timers_are_current interval labels s :
  0 <= interval -> steps interval initial labels s ->
  (forall h t, armed s !! h = Some t ->
     timers s !! tm_gameId t = Some h /\
     generations s !! tm_gameId t = Some (tm_generation t) /\
     0 <= tm_delay t <= MAX_TIMER_DELAY_MS /\
     adjudicating (fire (tm_gameId t) (tm_generation t) (clearTimeout h s)) =
       adjudicating s ++ [mkAdjudicating (tm_gameId t) false]) /\
  (forall h h' t t', armed s !! h = Some t -> armed s !! h' = Some t' ->
     tm_gameId t = tm_gameId t' -> h = h') /\
  (forall gid h, timers s !! gid = Some h -> is_Some (armed s !! h)) /\
  (runningSweep s = true <-> sweep s <> NotSweeping).
Proof.
  intros Hint Hst. pose proof (steps_inv _ _ _ _ Hint initial_inv Hst) as Hi.
  split_and!.
  - intros h t Ht. pose proof (iv_armed s Hi h t Ht) as Hh.
    destruct (iv_timer s Hi _ _ Hh) as (t' & Ht' & _ & Hg).
    assert (t' = t) as -> by congruence. rewrite (fire_current h t s Hi Ht).
    split_and!; try done; by eapply iv_delay.
  - intros h h' t t' Ht Ht' E. apply (iv_armed s Hi) in Ht, Ht'. congruence.
  - intros gid h Hh. destruct (iv_timer s Hi _ _ Hh) as (t & Ht & _). eauto.
  - rewrite (iv_sweep s Hi). by destruct (sweep s).
Qed.

(** ** Cancelled games stay cancelled *)

(** The label asks for a new timer of the game. *)
Definition reschedules (gid : string) (label : Label) : bool :=
  match label with
  | L_schedule g _ => bool_decide (g = gid)
  | L_adjudicated call terminal =>
      bool_decide (aj_gameId call = gid) &&
      match terminal with Ok true => false | _ => true end
  | L_rebuildFound (Ok ids) => includes ids gid
  | _ => false
  end.

Record quiet (gid : string) (s : Service) : Prop := {
  qt_timer : timers s !! gid = None;
  qt_calls : forall c, c ∈ scheduling s -> sc_gameId c = gid ->
             generations s !! gid <> Some (sc_generation c)
}.

Lemma cancel_quiet gid s : inv s -> quiet gid (cancel gid s).
Proof.
  intros Hi. destruct (cancel_spec gid s) as (Eg & Et & _ & _ & Es & _).
  constructor; rewrite ?Et, ?Es, ?Eg; [apply lookup_delete_eq|].
  intros c Hc <-. rewrite lookup_insert_eq. intros [= E].
  pose proof (iv_older s c Hi Hc). lia.
Qed.

Lemma cancel_quiet_other gid gid' s : quiet gid s -> gid' <> gid -> quiet gid (cancel gid' s).
Proof.
  intros [Q1 Q2] Hne. destruct (cancel_spec gid' s) as (Eg & Et & _ & _ & Es & _).
  constructor; rewrite ?Et, ?Es, ?Eg; [by rewrite lookup_delete_ne|].
  intros c Hc Hid. rewrite lookup_insert_ne by done. by apply Q2.
Qed.

Lemma scheduleGame_quiet gid gid' m by_ s :
  quiet gid s -> gid' <> gid -> quiet gid (scheduleGame gid' m by_ s).
Proof.
  intros Hq Hne. rewrite scheduleGame_cancel.
  destruct (cancel_quiet_other gid gid' s Hq Hne) as [Q1 Q2]. constructor; simpl; [done|].
  intros c [Hc|Hc%list_elem_of_singleton]%elem_of_app Hid; [by apply Q2|]. by subst c.
Qed.

Lemma quiet_ext gid s s' :
  timers s' !! gid = timers s !! gid -> generations s' = generations s ->
  (forall c, c ∈ scheduling s' -> c ∈ scheduling s) -> quiet gid s -> quiet gid s'.
Proof.
  intros Et Eg Hs [Q1 Q2]. constructor; [by rewrite Et|]. rewrite Eg.
  intros c Hc. by apply Q2, Hs.
Qed.

Lemma sweepResumes_quiet gid by_ s : quiet gid s -> quiet gid (sweepResumes by_ s).
Proof.
  apply quiet_ext; unfold sweepResumes, sweepNext; by repeat case_match.
Qed.

Lemma step_quiet interval gid s label s' :
  inv s -> quiet gid s -> step interval s label s' -> reschedules gid label = false ->
  quiet gid s'.
Proof.
  intros Hi Hq Hst Hl. destruct Hst as [g m Hm|call answer now l1 l2 Hs|g|h t Ht
    |call terminal l1 l2 Hs| |answer Hf|answer| ]; simpl in Hl.
  - js_bool. by apply scheduleGame_quiet.
  - apply sweepResumes_quiet.
    assert (quiet gid (with_scheduling (fun _ => l1 ++ l2) s)) as Hq'.
    { revert Hq. apply quiet_ext; try done. simpl. rewrite Hs. set_solver. }
    destruct answer as [[d|]|]; try done. unfold scheduleFound.
    case_bool_decide as Hg; simpl; [|done]. simpl in Hg.
    destruct (decide (sc_gameId call = gid)) as [E|Hne].
    + exfalso. eapply (qt_calls gid s Hq call); [rewrite Hs; set_solver|done|by rewrite <- E].
    + revert Hq'. apply quiet_ext; try done. simpl. by apply lookup_insert_ne.
  - destruct (decide (g = gid)) as [->|Hne]; [by apply cancel_quiet|].
    by apply cancel_quiet_other.
  - rewrite (fire_current h t s Hi Ht). pose proof (iv_armed s Hi h t Ht) as Hh.
    pose proof (qt_timer gid s Hq) as Hn. revert Hq. apply quiet_ext; try done. simpl.
    apply lookup_delete_ne. congruence.
  - assert (quiet gid (with_adjudicating (fun _ => l1 ++ l2) s)) as Hq'
      by (revert Hq; by apply quiet_ext).
    destruct (decide (aj_gameId call = gid)) as [E|Hne].
    + rewrite bool_decide_eq_true_2 in Hl by done. destruct terminal as [[|]|e]; try done.
      simpl. rewrite E. by apply sweepResumes_quiet, cancel_quiet, inv_adjudicating.
    + destruct terminal as [[|]|e]; simpl; [|by apply scheduleGame_quiet..].
      by apply sweepResumes_quiet, cancel_quiet_other.
  - revert Hq. apply quiet_ext; unfold runSweep; by case_match.
  - revert Hq. apply quiet_ext; unfold sweepFound, sweepNext; by repeat case_match.
  - destruct answer as [ids|e]; simpl; [|done]. js_bool.
    clear Hi. revert s Hq. induction ids as [|g ids IH]; intros s Hq; simpl; [done|].
    apply IH; [set_solver|]. apply scheduleGame_quiet; [done|]. set_solver.
  - destruct (clear_all (map snd (map_to_list (timers s))) s) as (_ & Hg & _ & Hs & _).
    destruct Hq as [Q1 Q2]. constructor; [done|]. simpl. by rewrite Hg, Hs.
Qed.

(** C27: a cancelled game stays cancelled. After cancel, which the services call when a
    game has ended, no timer of the game is ever armed again, whatever calls that
    were suspended at that moment come back and in whatever order, until the game
    is scheduled anew or an adjudication of it comes back without an ending. *)
Theorem cancel_is_final interval labels gid s labels' s' :
  0 <= interval -> steps interval initial labels s ->
  steps interval (cancel gid s) labels' s' ->
  Forall (fun label => reschedules gid label = false) labels' ->
  timers s' !! gid = None /\ forall h t, armed s' !! h = Some t -> tm_gameId t <> gid.
Proof.
  intros Hint Hst Hst' Hl. pose proof (steps_inv _ _ _ _ Hint initial_inv Hst) as Hi.
  assert (inv s' /\ quiet gid s') as [Hi' Hq].
  { induction Hst' as [|labels1 s1 label s2 Hst1 IH Hstep].
    - split; [by apply cancel_inv|by apply cancel_quiet].
    - apply Forall_app in Hl as [Hl1 Hl2]. apply Forall_inv in Hl2.
      destruct (IH Hl1) as [Hi1 Hq1].
      split; [by eapply service_step_inv|by eapply step_quiet]. }
  split; [apply Hq|]. intros h t Ht Hid. apply (iv_armed s' Hi') in Ht.
  rewrite Hid, (qt_timer gid s' Hq) in Ht. done.
Qed.

(** ** What a scheduled timer waits for *)

(** Scheduling a game arms the right timer. When the deadline comes back before
    the game was scheduled or cancelled again, the game has exactly the new timer;
    it waits at least the minimum delay, fires no earlier than the deadline unless
    setTimeout cannot wait that long, and no later than it has to. When there is no
    deadline, the query failed, or a newer call has taken over, the timers are left
    alone. *)
Theorem scheduleGame_arms interval labels s l1 call l2 answer now :
  0 <= interval -> steps interval initial labels s -> scheduling s = l1 ++ call :: l2 ->
  let s' := scheduleFound call answer now (with_scheduling (fun _ => l1 ++ l2) s) in
  match answer with
  | Ok (Some deadline) =>
      if decide (generations s !! sc_gameId call = Some (sc_generation call)) then
        exists h t, timers s' = <[sc_gameId call := h]> (timers s) /\
          timers s !! sc_gameId call = None /\
          armed s' = <[h := t]> (armed s) /\ armed s !! h = None /\
          tm_gameId t = sc_gameId call /\ tm_generation t = sc_generation call /\
          (sc_minimumDelayMs call <= tm_delay t \/ tm_delay t = MAX_TIMER_DELAY_MS) /\
          (deadline <= now + tm_delay t \/ tm_delay t = MAX_TIMER_DELAY_MS) /\
          tm_delay t <= Z.max (sc_minimumDelayMs call) (deadline - now)
      else timers s' = timers s /\ armed s' = armed s
  | _ => timers s' = timers s /\ armed s' = armed s
  end.
Proof.
  intros Hint Hst Hs. pose proof (steps_inv _ _ _ _ Hint initial_inv Hst) as Hi.
  destruct answer as [[deadline|]|]; try done. case_decide as Hg; simpl.
  - rewrite bool_decide_eq_true_2 by done. simpl.
    destruct (iv_calls s Hi call) as (g & Hg' & _ & Hnone); [rewrite Hs; set_solver|].
    eexists _, _. split; [reflexivity|]. split; [apply Hnone; congruence|].
    split; [reflexivity|]. split.
    { destruct (armed s !! nextTimer s) eqn:E; [|done]. apply (iv_fresh s Hi) in E. lia. }
    simpl. unfold timerDelay. split_and!; try done; lia.
  - by rewrite bool_decide_eq_false_2.
Qed.

(** ** Witnesses *)

(** A game is scheduled twice; the first call comes back last. *)
Lemma sample_scheduled :
  steps 1000 initial [L_schedule "game-1" 0; L_schedule "game-1" 0]
    (scheduleGame "game-1" 0 false (scheduleGame "game-1" 0 false initial)).
Proof.
  eapply (Steps_snoc 1000 initial [L_schedule "game-1" 0]); [|by apply St_schedule].
  eapply (Steps_snoc 1000 initial []); [constructor|by apply St_schedule].
Qed.

Definition sample_service : Service :=
  scheduleFound (mkScheduling "game-1" 2 0 false) (Ok (Some 5000)) 2000
    (with_scheduling (fun _ => [mkScheduling "game-1" 1 0 false])
       (scheduleGame "game-1" 0 false (scheduleGame "game-1" 0 false initial))).

Lemma sample_service_reached :
  steps 1000 initial
    [L_schedule "game-1" 0; L_schedule "game-1" 0;
     L_scheduleFound (mkScheduling "game-1" 2 0 false) (Ok (Some 5000)) 2000] sample_service.
Proof.
  apply (Steps_snoc 1000 initial [L_schedule "game-1" 0; L_schedule "game-1" 0]
           _ _ _ sample_scheduled).
  exact (St_scheduleFound 1000
           (scheduleGame "game-1" 0 false (scheduleGame "game-1" 0 false initial))
           (mkScheduling "game-1" 2 0 false) (Ok (Some 5000)) 2000
           [mkScheduling "game-1" 1 0 false] [] eq_refl).
Qed.

Lemma timers_are_current_witness :
  armed sample_service !! 0%nat = Some (mkTimer "game-1" 2 3000) /\
  timers sample_service !! "game-1" = Some 0%nat.
Proof.
  split; [reflexivity|].
  destruct (timers_are_current 1000 _ sample_service ltac:(lia) sample_service_reached) as [H _].
  exact (proj1 (H 0%nat (mkTimer "game-1" 2 3000) eq_refl)).
Defined.

(** The first call comes back after the cancellation and arms nothing. *)
Definition late_call : Scheduling := mkScheduling "game-1" 1 0 false.
Definition cancelled_service : Service := cancel "game-1" sample_service.
Definition late_service : Service :=
  sweepResumes (sc_bySweep late_call)
    (scheduleFound late_call (Ok (Some 9000)) 2500
       (with_scheduling (fun _ => [] ++ []) cancelled_service)).

Lemma cancelled_scheduling : scheduling cancelled_service = [] ++ late_call :: [].
Proof. vm_compute. reflexivity. Qed.

Lemma late_reached :
  steps 1000 cancelled_service [L_scheduleFound late_call (Ok (Some 9000)) 2500] late_service.
Proof.
  exact (Steps_snoc 1000 cancelled_service [] cancelled_service _ late_service
           (Steps_nil 1000 cancelled_service)
           (St_scheduleFound 1000 cancelled_service late_call (Ok (Some 9000)) 2500 [] []
              cancelled_scheduling)).
Qed.

Lemma cancel_is_final_witness : timers late_service !! "game-1" = None.
Proof.
  refine (proj1 (cancel_is_final 1000 _ "game-1" sample_service _ late_service
                   ltac:(lia) sample_service_reached late_reached _)).
  by repeat constructor.
Defined.

Lemma scheduleGame_arms_witness :
  exists h t, armed sample_service !! h = Some t /\ 5000 <= 2000 + tm_delay t.
Proof.
  pose proof (scheduleGame_arms 1000 _ _ [mkScheduling "game-1" 1 0 false]
    (mkScheduling "game-1" 2 0 false) [] (Ok (Some 5000)) 2000 ltac:(lia) sample_scheduled
    eq_refl) as H.
  cbv beta iota zeta in H. rewrite decide_True in H by reflexivity.
  change (_ ++ []) with [mkScheduling "game-1" 1 0 false] in H. fold sample_service in H.
  destruct H as (h & t & _ & _ & Ha & _ & _ & _ & _ & Hd & Hle). exists h, t.
  split; [by rewrite Ha, lookup_insert_eq|]. destruct Hd as [Hd|Hd]; [exact Hd|exfalso].
  rewrite Hd in Hle. vm_compute in Hle. by apply Hle.
Defined.
