(* ===== verification/RealtimeErrors.v ===== *)
(** * The vocabulary of the realtime protocol

    [protocol.constants.ts], [realtime.errors.ts] and the values of
    [realtime.types.ts]: the names of the events, the codes of errors, and the error the
    realtime services throw. *)

From S2P Require Export GameTypes.
Local Open Scope string_scope.
Local Open Scope list_scope.
Local Open Scope Z_scope.

Definition PROTOCOL_VERSION : Z := 1.

Definition CLIENT_EVENT_NAMES : list string :=
  ["queue.join"; "queue.leave"; "game.ready"; "move.submit"; "game.resign"; "game.sync";
   "heartbeat.ping"].

Definition SERVER_EVENT_NAMES : list string :=
  ["session.ready"; "queue.joined"; "queue.left"; "match.found"; "game.snapshot";
   "game.started"; "move.accepted"; "move.rejected"; "player.disconnected";
   "player.reconnected"; "game.ended"; "heartbeat.pong"; "server.error"].

Inductive ProtocolErrorCode : Type :=
| PE_UNAUTHORIZED
| PE_INVALID_PAYLOAD
| PE_UNSUPPORTED_PROTOCOL_VERSION
| PE_UNSUPPORTED_EVENT
| PE_IDEMPOTENCY_KEY_REUSED
| PE_ALREADY_QUEUED
| PE_ALREADY_IN_GAME
| PE_GAME_NOT_FOUND
| PE_GAME_ALREADY_ENDED
| PE_NOT_A_PLAYER
| PE_NOT_YOUR_TURN
| PE_ILLEGAL_MOVE
| PE_STALE_GAME_VERSION
| PE_CLOCK_EXPIRED
| PE_RATE_LIMITED
| PE_SERVICE_UNAVAILABLE
| PE_INTERNAL_ERROR.

#[export] Instance ProtocolErrorCode_eq_dec : EqDecision ProtocolErrorCode.
Proof. solve_decision. Defined.

Definition PROTOCOL_ERROR_CODES : list ProtocolErrorCode :=
  [PE_UNAUTHORIZED; PE_INVALID_PAYLOAD; PE_UNSUPPORTED_PROTOCOL_VERSION; PE_UNSUPPORTED_EVENT;
   PE_IDEMPOTENCY_KEY_REUSED; PE_ALREADY_QUEUED; PE_ALREADY_IN_GAME; PE_GAME_NOT_FOUND;
   PE_GAME_ALREADY_ENDED; PE_NOT_A_PLAYER; PE_NOT_YOUR_TURN; PE_ILLEGAL_MOVE;
   PE_STALE_GAME_VERSION; PE_CLOCK_EXPIRED; PE_RATE_LIMITED; PE_SERVICE_UNAVAILABLE;
   PE_INTERNAL_ERROR].

#[export] Instance ProtocolErrorCode_toString : ToString ProtocolErrorCode := fun code =>
  match code with
  | PE_UNAUTHORIZED => "UNAUTHORIZED"
  | PE_INVALID_PAYLOAD => "INVALID_PAYLOAD"
  | PE_UNSUPPORTED_PROTOCOL_VERSION => "UNSUPPORTED_PROTOCOL_VERSION"
  | PE_UNSUPPORTED_EVENT => "UNSUPPORTED_EVENT"
  | PE_IDEMPOTENCY_KEY_REUSED => "IDEMPOTENCY_KEY_REUSED"
  | PE_ALREADY_QUEUED => "ALREADY_QUEUED"
  | PE_ALREADY_IN_GAME => "ALREADY_IN_GAME"
  | PE_GAME_NOT_FOUND => "GAME_NOT_FOUND"
  | PE_GAME_ALREADY_ENDED => "GAME_ALREADY_ENDED"
  | PE_NOT_A_PLAYER => "NOT_A_PLAYER"
  | PE_NOT_YOUR_TURN => "NOT_YOUR_TURN"
  | PE_ILLEGAL_MOVE => "ILLEGAL_MOVE"
  | PE_STALE_GAME_VERSION => "STALE_GAME_VERSION"
  | PE_CLOCK_EXPIRED => "CLOCK_EXPIRED"
  | PE_RATE_LIMITED => "RATE_LIMITED"
  | PE_SERVICE_UNAVAILABLE => "SERVICE_UNAVAILABLE"
  | PE_INTERNAL_ERROR => "INTERNAL_ERROR"
  end.

(** [RealtimeError] with its options. *)
Record RealtimeError : Type := mkRealtimeError {
  re_code : ProtocolErrorCode;
  re_message : string;
  re_retryable : bool;
  re_authoritativeVersion : option Z;
  re_gameVersion : option Z;
  re_responseType : option ResponseType;
  re_retryAfterMs : option Z
}.

(** Without options. *)
Definition realtimeError (code : ProtocolErrorCode) (message : string) (retryable : bool)
    : RealtimeError :=
  mkRealtimeError code message retryable None None None None.

#[export] Instance ResponseType_toString : ToString ResponseType := fun t =>
  match t with move_rejected => "move.rejected" | server_error => "server.error" end.

Definition allResponseTypes : list ResponseType := [server_error; move_rejected].

Record AuthenticatedSocketIdentity : Type := mkSocketIdentity {
  si_avatar : string;
  si_expiresAt : string;
  si_guestSessionId : string;
  si_name : string
}.
