(* ===== verification/Redis.v ===== *)
(** * Redis, as the services use it

    Redis is a parameter: the class [Redis] has its keyspace and the commands the
    program sends that write, [RedisLaws] what the documentation of each command
    says it does to the keyspace. The commands that read are functions of what
    a key holds. [MapRedis] is an instance, used by the witnesses.

    A command is used on keys of one type only (see [Key]), so that the error
    WRONGTYPE never arises; an [Entry] has a field for each type. Expiry is not a
    command: it is a step of the environment, in [Programs]. *)

From S2P Require Export Json.
From Stdlib Require Import Ascii.
From stdpp Require Import sorting.
Local Open Scope string_scope.
Local Open Scope list_scope.
Local Open Scope Z_scope.

(** ** What a key holds

    A string, a sorted set, a hash, or nothing; [en_px] is the time to live the
    key was last given, [None] when it does not expire. Times to live are
    positive: [duration] of [config.schema.ts] has the minimum 1. *)
Record Entry : Type := mkEntry {
  en_str : option string;
  en_zset : gmap string Z;
  en_hash : gmap string string;
  en_px : option positive
}.

Definition no_entry : Entry := mkEntry None ∅ ∅ None.

Definition bare (e : Entry) : bool :=
  isNull (en_str e) && bool_decide (en_zset e = ∅) && bool_decide (en_hash e = ∅).

(** A key whose last member was removed is gone, with its time to live. *)
Definition settle (e : Entry) : Entry := if bare e then no_entry else e.

Definition with_zset (f : gmap string Z -> gmap string Z) (e : Entry) : Entry :=
  settle (mkEntry (en_str e) (f (en_zset e)) (en_hash e) (en_px e)).

(** A key that does not exist cannot be given a time to live. *)
Definition with_px (px : positive) (e : Entry) : Entry :=
  if bare e then no_entry else mkEntry (en_str e) (en_zset e) (en_hash e) (Some px).

Class Redis : Type := {
  Keyspace : Type;
  entry : Keyspace -> string -> Entry;
  SET : string -> string -> option positive -> Keyspace -> Keyspace;
  DEL : string -> Keyspace -> Keyspace;
  PEXPIRE : string -> positive -> Keyspace -> Keyspace;
  ZADD : string -> Z -> string -> Keyspace -> Keyspace;
  ZREM : string -> string -> Keyspace -> Keyspace;
  ZREMRANGEBYSCORE : string -> Z -> Keyspace -> Keyspace;
  HSET : string -> list (string * string) -> Keyspace -> Keyspace
}.

(** [ZREMRANGEBYSCORE key -inf max] keeps the members with a greater score. *)
Definition above (max : Z) (z : gmap string Z) : gmap string Z :=
  filter (fun m => max < m.2) z.

(** What the documentation of the commands says. *)
Class RedisLaws `{Redis} : Prop := {
  entry_SET k v px r k' :
    entry (SET k v px r) k' =
      if decide (k' = k) then mkEntry (Some v) ∅ ∅ px else entry r k';
  entry_DEL k r k' :
    entry (DEL k r) k' = if decide (k' = k) then no_entry else entry r k';
  entry_PEXPIRE k px r k' :
    entry (PEXPIRE k px r) k' =
      if decide (k' = k) then with_px px (entry r k) else entry r k';
  entry_ZADD k score m r k' :
    entry (ZADD k score m r) k' =
      if decide (k' = k) then with_zset <[m := score]> (entry r k) else entry r k';
  entry_ZREM k m r k' :
    entry (ZREM k m r) k' =
      if decide (k' = k) then with_zset (delete m) (entry r k) else entry r k';
  entry_ZREMRANGEBYSCORE k max r k' :
    entry (ZREMRANGEBYSCORE k max r) k' =
      if decide (k' = k) then with_zset (above max) (entry r k) else entry r k';
  entry_HSET k fields r k' :
    entry (HSET k fields r) k' =
      if decide (k' = k) then
        settle (mkEntry (en_str (entry r k)) (en_zset (entry r k))
                  (list_to_map (reverse fields) ∪ en_hash (entry r k)) (en_px (entry r k)))
      else entry r k'
}.

(** ** Commands that read *)
Section Reads.
Context `{Redis}.

Definition GET (r : Keyspace) (k : string) : option string := en_str (entry r k).
Definition ZSCORES (r : Keyspace) (k : string) : gmap string Z := en_zset (entry r k).
Definition ZSCORE (r : Keyspace) (k m : string) : option Z := ZSCORES r k !! m.
Definition ZCARD (r : Keyspace) (k : string) : Z := Z.of_nat (size (ZSCORES r k)).
Definition HGETALL (r : Keyspace) (k : string) : gmap string string := en_hash (entry r k).
Definition EXISTS (r : Keyspace) (k : string) : bool := negb (bare (entry r k)).

(** Sorted sets are ordered by score, and members of the same score
    lexicographically. *)
Definition byScore (x y : string * Z) : bool :=
  (x.2 <? y.2) || ((x.2 =? y.2) && String.leb x.1 y.1).
Definition ranked (z : gmap string Z) : list (string * Z) := orderBy byScore (map_to_list z).
Definition ZRANGE (r : Keyspace) (k : string) : list (string * Z) := ranked (ZSCORES r k).

(** The position of a member, from 0. *)
Fixpoint indexOf (m : string) (l : list (string * Z)) : option Z :=
  match l with
  | [] => None
  | x :: l => if decide (x.1 = m) then Some 0 else Z.succ <$> indexOf m l
  end.
Definition ZRANK (r : Keyspace) (k m : string) : option Z := indexOf m (ZRANGE r k).

(** [ZPOPMIN key 1] *)
Definition ZPOPMIN (k : string) (r : Keyspace) : option (string * Z) * Keyspace :=
  match ZRANGE r k with
  | [] => (None, r)
  | x :: _ => (Some x, ZREM k x.1 r)
  end.

(** Two keyspaces that answer every command alike. *)
#[export] Instance Keyspace_equiv : Equiv Keyspace :=
  fun r r' => forall k, entry r k = entry r' k.
End Reads.

#[export] Instance Keyspace_equivalence `{Redis} : Equivalence (≡@{Keyspace}).
Proof.
  split; [by intros r k|by intros r r' E k|].
  intros r1 r2 r3 E1 E2 k. by rewrite (E1 k).
Qed.

(** ** Lua scripts

    A script runs alone: a function of the keyspace. *)
Definition lua `{Redis} (A : Type) : Type := Keyspace -> A * Keyspace.

#[export] Instance lua_ret `{Redis} : MRet lua := fun A a r => (a, r).
#[export] Instance lua_bind `{Redis} : MBind lua :=
  fun A B f m r => let '(a, r') := m r in f a r'.

Definition call `{Redis} (f : Keyspace -> Keyspace) : lua () := fun r => ((), f r).
Definition ask `{Redis} {A} (f : Keyspace -> A) : lua A := fun r => (f r, r).

(** ** Names of keys *)

Definition queueKey (mode : string) : string := "mm:queue:" +:+ mode.
Definition guardKey (guest : string) : string := "mm:queued:" +:+ guest.
Definition stateKey (guest : string) : string := "user:" +:+ guest +:+ ":state".
Definition activeGameKey (guest : string) : string := "user:" +:+ guest +:+ ":active-game".
Definition presenceKey (guest : string) : string := "presence:" +:+ guest.
Definition reservationKey (matchId : string) : string := "match:" +:+ matchId +:+ ":reservation".
Definition snapshotKey (gameId : string) : string := "game:" +:+ gameId +:+ ":snapshot".
Definition graceKey (gameId guest : string) : string :=
  "game:" +:+ gameId +:+ ":grace:" +:+ guest.

Definition takenKey (displayName : string) : string := "name:taken:" +:+ displayName.
Definition revokedKey (guest : string) : string := "jwt:revoked-session:" +:+ guest.
Definition denylistKey (jti : string) : string := "jwt:denylist:" +:+ jti.

(** The keys of the services. *)
Inductive Key : Type :=
| KQueue (mode : string)
| KGuard (guest : string)
| KState (guest : string)
| KActive (guest : string)
| KPresence (guest : string)
| KReservation (matchId : string)
| KSnapshot (gameId : string)
| KGrace (gameId guest : string)
| KName (displayName : string)
| KRevoked (guest : string)
| KDenied (jti : string).

#[export] Instance Key_eq_dec : EqDecision Key.
Proof. solve_decision. Defined.

Definition name (k : Key) : string :=
  match k with
  | KQueue mode => queueKey mode
  | KGuard guest => guardKey guest
  | KState guest => stateKey guest
  | KActive guest => activeGameKey guest
  | KPresence guest => presenceKey guest
  | KReservation matchId => reservationKey matchId
  | KSnapshot gameId => snapshotKey gameId
  | KGrace gameId guest => graceKey gameId guest
  | KName displayName => takenKey displayName
  | KRevoked guest => revokedKey guest
  | KDenied jti => denylistKey jti
  end.

Local Arguments String.append !_ _ / : simpl nomatch.

(** Ids are UUIDs; all that matters is that game ids have no colon. *)
Fixpoint no_colon (s : string) : bool :=
  match s with
  | EmptyString => true
  | String c s => negb (Ascii.eqb c ":"%char) && no_colon s
  end.

Definition key_ok (k : Key) : Prop :=
  match k with
  | KSnapshot gameId | KGrace gameId _ => no_colon gameId = true
  | _ => True
  end.

Lemma list_ascii_append s t :
  String.list_ascii_of_string (s +:+ t) = String.list_ascii_of_string s ++ String.list_ascii_of_string t.
Proof. induction s as [|c s IH]; [done|]. simpl. f_equal. exact IH. Qed.

Lemma list_ascii_inj s t : String.list_ascii_of_string s = String.list_ascii_of_string t -> s = t.
Proof.
  intros E. rewrite <- (String.string_of_list_ascii_of_string s), E.
  apply String.string_of_list_ascii_of_string.
Qed.

(** Reading both strings from the end. *)
Lemma append_rev s t s' t' :
  s +:+ t = s' +:+ t' ->
  rev (String.list_ascii_of_string t) ++ rev (String.list_ascii_of_string s) =
  rev (String.list_ascii_of_string t') ++ rev (String.list_ascii_of_string s').
Proof. intros E. by rewrite <- !rev_app_distr, <- !list_ascii_append, E. Qed.

Lemma append_inj_r s s' t : s +:+ t = s' +:+ t -> s = s'.
Proof.
  intros E%append_rev%app_inv_head. apply list_ascii_inj.
  by rewrite <- (rev_involutive (String.list_ascii_of_string s)), E, rev_involutive.
Qed.

Lemma state_active_ne g g' : stateKey g <> activeGameKey g'.
Proof.
  unfold stateKey, activeGameKey. intros E. simpl in E. injection E as E.
  apply append_rev in E. simpl in E. discriminate.
Qed.

Lemma colon_split s s' t t' :
  no_colon s = true -> no_colon s' = true ->
  s +:+ String ":"%char t = s' +:+ String ":"%char t' -> s = s' /\ t = t'.
Proof.
  revert s'. induction s as [|c s IH]; intros [|c' s'] Hs Hs' E; simpl in *; js_bool.
  - by injection E as ->.
  - injection E as <- _. by rewrite Ascii.eqb_refl in *.
  - injection E as -> _. by rewrite Ascii.eqb_refl in *.
  - injection E as <- E. destruct (IH s') as [-> ->]; done.
Qed.

(** Different keys have different names. *)
Lemma name_inj k k' : key_ok k -> key_ok k' -> name k = name k' -> k = k'.
Proof.
  intros Hk Hk'. destruct k, k'; simpl in *;
    unfold queueKey, guardKey, presenceKey, reservationKey, snapshotKey, graceKey,
      takenKey, revokedKey, denylistKey;
    try (unfold stateKey, activeGameKey); intros E; try discriminate E;
    try (simpl in E; congruence).
  - simpl in E. injection E as E%append_inj_r. by subst.
  - by apply state_active_ne in E.
  - symmetry in E. by apply state_active_ne in E.
  - simpl in E. injection E as E%append_inj_r. by subst.
  - simpl in E. injection E as E%append_inj_r. by subst.
  - simpl in E. injection E as E%append_inj_r. by subst.
  - simpl in E. injection E as E. by destruct (colon_split _ _ _ _ Hk Hk' E).
  - simpl in E. injection E as E. by destruct (colon_split _ _ _ _ Hk Hk' E).
  - simpl in E. injection E as E. destruct (colon_split _ _ _ _ Hk Hk' E) as [-> E'].
    injection E' as ->. done.
Qed.

Lemma name_decide {A} k k' (x y : A) :
  key_ok k -> key_ok k' ->
  (if decide (name k = name k') then x else y) = (if decide (k = k') then x else y).
Proof.
  intros Hk Hk'. destruct (decide (k = k')) as [->|Hne]; [by rewrite decide_True|].
  rewrite decide_False; [done|]. intros E. by apply name_inj in E.
Qed.

(** ** Reasoning about keyspaces *)

Ltac key_of s :=
  lazymatch s with
  | queueKey ?m => constr:(KQueue m)
  | guardKey ?g => constr:(KGuard g)
  | stateKey ?g => constr:(KState g)
  | activeGameKey ?g => constr:(KActive g)
  | presenceKey ?g => constr:(KPresence g)
  | reservationKey ?m => constr:(KReservation m)
  | snapshotKey ?g => constr:(KSnapshot g)
  | graceKey ?g ?p => constr:(KGrace g p)
  | takenKey ?n => constr:(KName n)
  | revokedKey ?g => constr:(KRevoked g)
  | denylistKey ?j => constr:(KDenied j)
  | name ?k => k
  end.

(** Proves that two names of keys differ. *)
Ltac key_ne :=
  match goal with
  | |- ?a <> ?b =>
      let k := key_of a in let k' := key_of b in let E := fresh "E" in
      intros E; apply (name_inj k k') in E;
      [first [discriminate E | injection E; intros; congruence | congruence]|done|done]
  end.

(** Rewrites with the laws of the commands, and decides which keys they touch. *)
Ltac redis_decide :=
  match goal with
  | |- context [if decide (?a = ?b) then _ else _] =>
      first [ rewrite (decide_True (P := a = b)) by congruence
            | rewrite (decide_False (P := a = b)) by key_ne ]
  end.
Ltac redis_law :=
  first [ rewrite entry_SET | rewrite entry_DEL | rewrite entry_PEXPIRE | rewrite entry_ZADD
        | rewrite entry_ZREM | rewrite entry_ZREMRANGEBYSCORE | rewrite entry_HSET ].
Ltac redis := repeat (redis_law; try redis_decide); repeat redis_decide.

Lemma settle_str e : en_str (settle e) = en_str e.
Proof.
  unfold settle. destruct (bare e) eqn:E; [|done].
  apply andb_true_iff in E as [E%andb_true_iff _]. destruct E as [E%isNull_true _].
  by rewrite E.
Qed.

Lemma settle_zset e : en_zset (settle e) = en_zset e.
Proof. unfold settle, bare. destruct (isNull _ && _ && _) eqn:E; [|done]. by js_bool. Qed.

Lemma settle_hash e : en_hash (settle e) = en_hash e.
Proof. unfold settle, bare. destruct (isNull _ && _ && _) eqn:E; [|done]. by js_bool. Qed.

Lemma with_zset_str f e : en_str (with_zset f e) = en_str e.
Proof. unfold with_zset. by rewrite settle_str. Qed.
Lemma with_zset_zset f e : en_zset (with_zset f e) = f (en_zset e).
Proof. unfold with_zset. by rewrite settle_zset. Qed.
Lemma with_zset_hash f e : en_hash (with_zset f e) = en_hash e.
Proof. unfold with_zset. by rewrite settle_hash. Qed.

Lemma bare_spec e : bare e = true -> en_str e = None /\ en_zset e = ∅ /\ en_hash e = ∅.
Proof. unfold bare. intros Hb. by js_bool. Qed.

Lemma with_px_str px e : en_str (with_px px e) = en_str e.
Proof. unfold with_px. destruct (bare e) eqn:E; [|done]. by apply bare_spec in E as [-> _]. Qed.
Lemma with_px_zset px e : en_zset (with_px px e) = en_zset e.
Proof. unfold with_px. destruct (bare e) eqn:E; [|done]. by apply bare_spec in E as (_ & -> & _). Qed.
Lemma with_px_hash px e : en_hash (with_px px e) = en_hash e.
Proof. unfold with_px. destruct (bare e) eqn:E; [|done]. by apply bare_spec in E as (_ & _ & ->). Qed.

Lemma bare_settle e : bare (settle e) = bare e.
Proof. unfold bare. by rewrite settle_str, settle_zset, settle_hash. Qed.

#[export] Hint Rewrite settle_str settle_zset settle_hash with_zset_str with_zset_zset
  with_zset_hash with_px_str with_px_zset with_px_hash bare_settle : redis.

(** ** Sorted sets in order *)

Definition before (x y : string * Z) : Prop := byScore x y = true.

Lemma before_total x y : before x y \/ before y x.
Proof.
  unfold before, byScore. destruct (Z.lt_total x.2 y.2) as [Hlt|[E|Hlt]].
  - left. by rewrite (proj2 (Z.ltb_lt _ _) Hlt).
  - rewrite E, Z.ltb_irrefl, Z.eqb_refl. simpl. apply String.leb_total.
  - right. by rewrite (proj2 (Z.ltb_lt _ _) Hlt).
Qed.

Lemma before_spec x y :
  before x y <-> x.2 < y.2 \/ x.2 = y.2 /\ String.leb x.1 y.1 = true.
Proof. unfold before, byScore. by rewrite orb_true_iff, andb_true_iff, Z.ltb_lt, Z.eqb_eq. Qed.

Lemma before_trans x y z : before x y -> before y z -> before x z.
Proof.
  rewrite !before_spec. intros [?|[E1 L1]] [?|[E2 L2]]; [left; lia..|].
  right. split; [lia|].
  pose proof (transitivity (R := String.le) (x := x.1) (y := y.1) (z := z.1)) as Ht.
  unfold String.le in Ht. apply Is_true_true, Ht; by apply Is_true_true.
Qed.

Lemma before_antisym x y : before x y -> before y x -> x = y.
Proof.
  rewrite !before_spec. intros [?|[E1 L1]] [?|[E2 L2]]; [lia..|].
  destruct x, y. simpl in *. f_equal; [|done]. by apply String.leb_antisym.
Qed.

Lemma ranked_perm z : ranked z ≡ₚ map_to_list z.
Proof. apply orderBy_perm. Qed.

Lemma ranked_sorted z : StronglySorted before (ranked z).
Proof. apply orderBy_StronglySorted; [apply before_total|apply before_trans]. Qed.

Lemma ranked_unique z l : StronglySorted before l -> l ≡ₚ map_to_list z -> l = ranked z.
Proof.
  intros Hs Hp. apply (StronglySorted_unique_strong before); [|done|apply ranked_sorted|].
  - intros. by apply before_antisym.
  - by rewrite ranked_perm.
Qed.

Lemma elem_of_ranked z m s : (m, s) ∈ ranked z <-> z !! m = Some s.
Proof. rewrite ranked_perm. apply elem_of_map_to_list. Qed.

Lemma ranked_NoDup z : NoDup (map fst (ranked z)).
Proof. rewrite ranked_perm. apply NoDup_fst_map_to_list. Qed.

Lemma ranked_nil z : ranked z = [] <-> z = ∅.
Proof.
  split; [|by intros ->]. intros E. apply map_to_list_empty_iff, Permutation_nil_r.
  by rewrite <- ranked_perm, E.
Qed.

(** Without its first member, the rest of the order is the same. *)
Lemma ranked_pop z x l : ranked z = x :: l -> ranked (delete x.1 z) = l.
Proof.
  intros E. symmetry. pose proof (ranked_sorted z) as Hs. rewrite E in Hs.
  apply ranked_unique; [by inversion Hs|].
  assert (z !! x.1 = Some x.2) as Hx.
  { apply elem_of_ranked. rewrite E. destruct x. left. }
  apply (Permutation_cons_inv (a := (x.1, x.2))).
  rewrite map_to_list_delete by done. rewrite <- ranked_perm, E. by destruct x.
Qed.

Lemma indexOf_Some m l i :
  indexOf m l = Some i -> 0 <= i < Z.of_nat (length l).
Proof.
  revert i. induction l as [|x l IH]; intros i; [done|]. cbn [indexOf length].
  case_decide; [naive_solver lia|]. destruct (indexOf m l) as [j|]; [|done].
  intros [= <-]. specialize (IH j eq_refl). lia.
Qed.

Lemma indexOf_is_Some m l : is_Some (indexOf m l) <-> m ∈ map fst l.
Proof.
  induction l as [|x l IH]; simpl; [split; [by intros []|by intros ?%not_elem_of_nil]|].
  rewrite elem_of_cons. case_decide as E; [subst; naive_solver|].
  rewrite fmap_is_Some, IH. naive_solver.
Qed.

(** ** Commands respect the equivalence of keyspaces *)
Section Proper.
Context `{RedisLaws}.

#[export] Instance GET_proper k : Proper ((≡@{Keyspace}) ==> eq) (fun r => GET r k).
Proof. intros r r' E. unfold GET. by rewrite (E k). Qed.
#[export] Instance SET_proper k v px : Proper ((≡) ==> (≡)) (SET k v px).
Proof. intros r r' E k'. rewrite !entry_SET. case_decide; [done|apply E]. Qed.
#[export] Instance DEL_proper k : Proper ((≡) ==> (≡)) (DEL k).
Proof. intros r r' E k'. rewrite !entry_DEL. case_decide; [done|apply E]. Qed.
#[export] Instance ZREM_proper k m : Proper ((≡) ==> (≡)) (ZREM k m).
Proof. intros r r' E k'. rewrite !entry_ZREM, (E k). case_decide; [done|apply E]. Qed.
#[export] Instance ZADD_proper k s m : Proper ((≡) ==> (≡)) (ZADD k s m).
Proof. intros r r' E k'. rewrite !entry_ZADD, (E k). case_decide; [done|apply E]. Qed.
End Proper.

(** ** A keyspace in memory *)
Module MapRedis.
Definition at_ (r : gmap string Entry) (k : string) : Entry := default no_entry (r !! k).
Definition put (k : string) (e : Entry) (r : gmap string Entry) : gmap string Entry :=
  <[k := e]> r.

#[local] Instance map_redis : Redis := {|
  Keyspace := gmap string Entry;
  entry := at_;
  SET k v px r := put k (mkEntry (Some v) ∅ ∅ px) r;
  DEL k r := delete k r;
  PEXPIRE k px r := put k (with_px px (at_ r k)) r;
  ZADD k score m r := put k (with_zset <[m := score]> (at_ r k)) r;
  ZREM k m r := put k (with_zset (delete m) (at_ r k)) r;
  ZREMRANGEBYSCORE k max r := put k (with_zset (above max) (at_ r k)) r;
  HSET k fields r :=
    let e := at_ r k in
    put k (settle (mkEntry (en_str e) (en_zset e)
                     (list_to_map (reverse fields) ∪ en_hash e) (en_px e))) r
|}.

#[local] Instance map_redis_laws : RedisLaws.
Proof.
  split; intros; simpl; unfold at_, put;
    (destruct (decide (k' = k)) as [->|Hne];
     [by rewrite ?lookup_insert_eq, ?lookup_delete_eq
     |by rewrite ?lookup_insert_ne, ?lookup_delete_ne]).
Qed.
End MapRedis.
