(* ===== verification/Programs.v ===== *)
(** * Asynchronous programs that share a world

    An [async] function is a program that acts on the world one action at a
    time: between two actions, at each [await], other programs and the
    environment may act. An action is atomic (a database transaction, a Lua
    script, a command); what it finds out from outside (the clock, fresh ids,
    whether the network works) is its [Ext].

    [wp] is what a program guarantees: each of its actions moves the world along
    the relation [guar], and its result satisfies a postcondition, as long as the
    others move the world along [rely] between its actions. [adequacy] says that
    any number of programs that guarantee what the others rely on, interleaved in
    any way and stopped at any time, move the world along [rely]. *)

From S2P Require Export Prelude.
Local Open Scope list_scope.

Section Programs.
Context {World Ext Exn : Type}.

Inductive prog (A : Type) : Type :=
| Ret (a : A)
| Throw (e : Exn)
| Act {X : Type} (act : Ext -> World -> result Exn X * World)
      (k : result Exn X -> prog A).
Arguments Ret {A} a.
Arguments Throw {A} e.
Arguments Act {A X} act k.

#[export] Instance prog_ret : MRet prog := fun A a => Ret a.

Fixpoint prog_bind_ {A B} (f : A -> prog B) (p : prog A) : prog B :=
  match p with
  | Ret a => f a
  | Throw e => Throw e
  | Act act k => Act act (fun r => prog_bind_ f (k r))
  end.
#[export] Instance prog_bind : MBind prog := @prog_bind_.

(** [try { p } catch (e) { h(e) }] *)
Fixpoint catch {A} (p : prog A) (h : Exn -> prog A) : prog A :=
  match p with
  | Ret a => Ret a
  | Throw e => h e
  | Act act k => Act act (fun r => catch (k r) h)
  end.

(** One action, whose error is thrown. *)
Definition perform {X} (act : Ext -> World -> result Exn X * World) : prog X :=
  Act act (fun r => match r with Ok x => Ret x | Err e => Throw e end).

(** The result of a program, whichever it is. *)
Definition attempt {A} (p : prog A) : prog (result Exn A) :=
  catch (prog_bind_ (fun a => Ret (Ok a)) p) (fun e => Ret (Err e)).

(** [await Promise.all([p, q])]: both run to their end, whatever becomes of the
    other, and an error of either is thrown. *)
Definition both {A B} (p : prog A) (q : prog B) : prog (A * B) :=
  prog_bind_ (fun rp => prog_bind_ (fun rq =>
    match rp, rq with
    | Ok a, Ok c => Ret (a, c)
    | Err e, _ | _, Err e => Throw e
    end) (attempt q)) (attempt p).

(** [for (const x of l) await f(x)] *)
Fixpoint forEach {A} (f : A -> prog ()) (l : list A) : prog () :=
  match l with
  | [] => Ret ()
  | x :: l => prog_bind_ (fun _ => forEach f l) (f x)
  end.

(** [await Promise.all(l.map(f))], the calls in the order of the list. *)
Fixpoint mapAll {A B} (f : A -> prog B) (l : list A) : prog (list B) :=
  match l with
  | [] => Ret []
  | x :: l => prog_bind_ (fun y => prog_bind_ (fun ys => Ret (y :: ys)) (mapAll f l)) (f x)
  end.

(** ** Running alone *)

(** The program's result when nobody else acts, and what is left of [exts], in which
    each of its actions finds out one entry. [None]: the entries did not suffice. *)
Fixpoint alone {A} (p : prog A) (exts : list Ext) (w : World)
    : option (result Exn A * World * list Ext) :=
  match p with
  | Ret a => Some (Ok a, w, exts)
  | Throw e => Some (Err e, w, exts)
  | Act act k =>
      match exts with
      | [] => None
      | x :: exts => let '(r, w') := act x w in alone (k r) exts w'
      end
  end.

Lemma alone_bind {A B} (p : prog A) (f : A -> prog B) exts w :
  alone (p ≫= f) exts w =
    match alone p exts w with
    | Some (Ok a, w', exts') => alone (f a) exts' w'
    | Some (Err e, w', exts') => Some (Err e, w', exts')
    | None => None
    end.
Proof.
  revert exts w. induction p as [a|e|X act k IH]; intros exts w; simpl; [done..|].
  destruct exts as [|x exts]; [done|]. destruct (act x w) as [r w']. apply IH.
Qed.

Lemma alone_catch {A} (p : prog A) h exts w :
  alone (catch p h) exts w =
    match alone p exts w with
    | Some (Err e, w', exts') => alone (h e) exts' w'
    | r => r
    end.
Proof.
  revert exts w. induction p as [a|e|X act k IH]; intros exts w; simpl.
  - done.
  - by destruct (alone (h e) exts w) as [[[[]]]|].
  - destruct exts as [|x exts]; [done|]. destruct (act x w) as [r w']. apply IH.
Qed.

Lemma alone_perform {X} (act : Ext -> World -> result Exn X * World) x exts w :
  alone (perform act) (x :: exts) w = Some (act x w, exts).
Proof. simpl. by destruct (act x w) as [[a|e] w']. Qed.

Lemma alone_attempt {A} (p : prog A) exts w :
  alone (attempt p) exts w =
    match alone p exts w with Some (r, w', exts') => Some (Ok r, w', exts') | None => None end.
Proof.
  unfold attempt. rewrite alone_catch. rewrite (alone_bind p (fun a => Ret (Ok a))).
  by destruct (alone p exts w) as [[[[]]]|].
Qed.

Lemma alone_both {A B} (p : prog A) (q : prog B) exts w :
  alone (both p q) exts w =
    match alone p exts w with
    | Some (ra, w', exts') =>
        match alone q exts' w' with
        | Some (rb, w'', exts'') =>
            Some (match ra, rb with
                  | Ok a, Ok c => Ok (a, c)
                  | Err e, _ | _, Err e => Err e
                  end, w'', exts'')
        | None => None
        end
    | None => None
    end.
Proof.
  unfold both. rewrite (alone_bind (attempt p)), alone_attempt.
  destruct (alone p exts w) as [[[ra w'] exts']|]; [|done].
  rewrite (alone_bind (attempt q)), alone_attempt.
  destruct (alone q exts' w') as [[[rb w''] exts'']|]; [|done]. by destruct ra, rb.
Qed.

(** ** Running in a steady environment

    Nobody else acts and every action finds out the same: no fuel is needed, a program
    is a finite tree. *)
Fixpoint steady {A} (x : Ext) (p : prog A) (w : World) : result Exn A * World :=
  match p with
  | Ret a => (Ok a, w)
  | Throw e => (Err e, w)
  | Act act k => let '(r, w') := act x w in steady x (k r) w'
  end.

Lemma steady_bind {A B} x (p : prog A) (f : A -> prog B) w :
  steady x (p ≫= f) w =
    match steady x p w with
    | (Ok a, w') => steady x (f a) w'
    | (Err e, w') => (Err e, w')
    end.
Proof.
  revert w. induction p as [a|e|X act k IH]; intros w; simpl; [done..|].
  destruct (act x w) as [r w']. apply IH.
Qed.

Lemma steady_catch {A} x (p : prog A) h w :
  steady x (catch p h) w =
    match steady x p w with
    | (Ok a, w') => (Ok a, w')
    | (Err e, w') => steady x (h e) w'
    end.
Proof.
  revert w. induction p as [a|e|X act k IH]; intros w; simpl; [done| |].
  - by destruct (steady x (h e) w) as [[] ?].
  - destruct (act x w) as [r w']. apply IH.
Qed.

Lemma steady_perform {X} x (act : Ext -> World -> result Exn X * World) w :
  steady x (perform act) w = act x w.
Proof. simpl. by destruct (act x w) as [[a|e] w']. Qed.

Lemma steady_attempt {A} x (p : prog A) w :
  steady x (attempt p) w = (Ok (steady x p w).1, (steady x p w).2).
Proof.
  unfold attempt. rewrite steady_catch, (steady_bind x p (fun a => Ret (Ok a))).
  by destruct (steady x p w) as [[a|e] w'].
Qed.

(** ** What a program may return

    Whatever its actions answer. *)
Fixpoint returns {A} (Q : A -> Prop) (p : prog A) : Prop :=
  match p with
  | Ret a => Q a
  | Throw _ => True
  | Act act k => forall r, returns Q (k r)
  end.

Lemma returns_mono {A} (Q Q' : A -> Prop) p : (forall a, Q a -> Q' a) -> returns Q p -> returns Q' p.
Proof. intros HQ. induction p as [a|e|X act k IH]; simpl; auto. Qed.

Lemma returns_any {A} (p : prog A) : returns (fun _ => True) p.
Proof. induction p as [a|e|X act k IH]; simpl; auto. Qed.

Lemma returns_bind {A B} (P : A -> Prop) (Q : B -> Prop) (p : prog A) (f : A -> prog B) :
  returns P p -> (forall a, P a -> returns Q (f a)) -> returns Q (p ≫= f).
Proof. intros Hp Hf. induction p as [a|e|X act k IH]; simpl in *; auto. Qed.

Lemma returns_catch {A} (Q : A -> Prop) (p : prog A) h :
  returns Q p -> (forall e, returns Q (h e)) -> returns Q (catch p h).
Proof. intros Hp Hh. induction p as [a|e|X act k IH]; simpl in *; auto. Qed.

Lemma returns_alone {A} (Q : A -> Prop) (p : prog A) exts w a w' left :
  returns Q p -> alone p exts w = Some (Ok a, w', left) -> Q a.
Proof.
  revert exts w. induction p as [b|e|X act k IH]; intros exts w Hp Hrun; simpl in *.
  - by injection Hrun as -> _ _.
  - done.
  - destruct exts as [|x exts]; [done|]. destruct (act x w) as [r w1]. by eapply IH.
Qed.

(** ** What every action of a program does

    Enough for a guarantee that needs no knowledge of what happened before. *)
Section Acts.
Context (G : World -> World -> Prop).

Fixpoint acts {A} (p : prog A) : Prop :=
  match p with
  | Ret _ | Throw _ => True
  | Act act k => (forall x w, G w (act x w).2) /\ forall r, acts (k r)
  end.

Lemma acts_bind {A B} (p : prog A) (f : A -> prog B) :
  acts p -> (forall a, acts (f a)) -> acts (p ≫= f).
Proof. intros Hp Hf. induction p as [a|e|X act k IH]; simpl in *; [done..|naive_solver]. Qed.

Lemma acts_catch {A} (p : prog A) h : acts p -> (forall e, acts (h e)) -> acts (catch p h).
Proof. intros Hp Hh. induction p as [a|e|X act k IH]; simpl in *; [done..|naive_solver]. Qed.

Lemma acts_perform {X} (act : Ext -> World -> result Exn X * World) :
  (forall x w, G w (act x w).2) -> acts (perform act).
Proof. intros Ha. split; [done|]. by intros [a|e]. Qed.

Lemma acts_attempt {A} (p : prog A) : acts p -> acts (attempt p).
Proof. intros Hp. apply acts_catch; [|done]. by apply acts_bind. Qed.

Lemma acts_both {A B} (p : prog A) (q : prog B) : acts p -> acts q -> acts (both p q).
Proof.
  intros Hp Hq. apply (acts_bind (attempt p)); [by apply acts_attempt|]. intros ra.
  apply (acts_bind (attempt q)); [by apply acts_attempt|]. intros rb. by destruct ra, rb.
Qed.

Lemma acts_forEach {A} (f : A -> prog ()) l : (forall a, acts (f a)) -> acts (forEach f l).
Proof.
  intros Hf. induction l as [|a l IH]; [done|].
  by apply (acts_bind (f a) (fun _ => forEach f l)).
Qed.

Lemma acts_mapAll {A B} (f : A -> prog B) l : (forall a, acts (f a)) -> acts (mapAll f l).
Proof.
  intros Hf. induction l as [|a l IH]; [done|].
  apply (acts_bind (f a) (fun y => prog_bind_ (fun ys => Ret (y :: ys)) (mapAll f l))); [done|].
  intros y. by apply (acts_bind (mapAll f l) (fun ys => Ret (y :: ys))).
Qed.
End Acts.

Lemma acts_mono (G G' : World -> World -> Prop) {A} (p : prog A) :
  (forall w w', G w w' -> G' w w') -> acts G p -> acts G' p.
Proof. intros HG. induction p as [a|e|X act k IH]; simpl; [done..|naive_solver]. Qed.

(** ** Guarantees under interference *)
Section Wp.
Context (rely guar : World -> World -> Prop) (ok : Ext -> World -> Prop).

Fixpoint wp {A} (p : prog A) (Q : result Exn A -> World -> Prop) (w : World) : Prop :=
  match p with
  | Ret a => Q (Ok a) w
  | Throw e => Q (Err e) w
  | Act act k =>
      forall w1 x, rely w w1 -> ok x w1 ->
        guar w1 (act x w1).2 /\ wp (k (act x w1).1) Q (act x w1).2
  end.

Lemma wp_acts {A} (p : prog A) w : acts guar p -> wp p (fun _ _ => True) w.
Proof.
  revert w. induction p as [a|e|X act k IH]; intros w; simpl; [done..|].
  intros [Ha Hk] w1 x _ _. split; [apply Ha|]. by apply IH.
Qed.

(** A property of the world that the others' moves do not break. *)
Definition stable (P : World -> Prop) : Prop := forall w w', P w -> rely w w' -> P w'.

Lemma wp_mono {A} (p : prog A) (Q Q' : result Exn A -> World -> Prop) w :
  (forall r w, Q r w -> Q' r w) -> wp p Q w -> wp p Q' w.
Proof.
  intros HQ. revert w. induction p as [a|e|X act k IH]; intros w; simpl; [auto..|].
  intros Hwp w1 x HR Hok. destruct (Hwp w1 x HR Hok) as [? ?]. eauto.
Qed.

Lemma wp_bind {A B} (p : prog A) (f : A -> prog B) (Q : result Exn B -> World -> Prop) w :
  wp p (fun r w => match r with Ok a => wp (f a) Q w | Err e => Q (Err e) w end) w ->
  wp (p ≫= f) Q w.
Proof.
  revert w. induction p as [a|e|X act k IH]; intros w; simpl; [auto..|].
  intros Hwp w1 x HR Hok. destruct (Hwp w1 x HR Hok) as [? ?]. split; [done|]. by apply IH.
Qed.

Lemma wp_catch {A} (p : prog A) h (Q : result Exn A -> World -> Prop) w :
  wp p (fun r w => match r with Ok a => Q (Ok a) w | Err e => wp (h e) Q w end) w ->
  wp (catch p h) Q w.
Proof.
  revert w. induction p as [a|e|X act k IH]; intros w; simpl; [auto..|].
  intros Hwp w1 x HR Hok. destruct (Hwp w1 x HR Hok) as [? ?]. split; [done|]. by apply IH.
Qed.

Lemma wp_perform {X} (act : Ext -> World -> result Exn X * World) Q w :
  (forall w1 x, rely w w1 -> ok x w1 ->
     guar w1 (act x w1).2 /\ Q (act x w1).1 (act x w1).2) ->
  wp (perform act) Q w.
Proof.
  intros Hact w1 x HR Hok. destruct (Hact w1 x HR Hok) as [? HQ]. split; [done|].
  destruct (act x w1) as [[a|e] w2]; done.
Qed.

Lemma wp_attempt {A} (p : prog A) Q w :
  wp p (fun r w => Q (Ok r) w) w -> wp (attempt p) Q w.
Proof.
  intros Hp. apply wp_catch, (wp_bind p (fun a => Ret (Ok a))).
  eapply wp_mono; [|exact Hp]. by intros [a|e] w1.
Qed.

Lemma wp_both {A B} (p : prog A) (q : prog B) Q w :
  wp p (fun ra w => wp q (fun rb w =>
    match ra, rb with
    | Ok a, Ok c => Q (Ok (a, c)) w
    | Err e, _ | _, Err e => Q (Err e) w
    end) w) w ->
  wp (both p q) Q w.
Proof.
  intros Hp. apply (wp_bind (attempt p)), wp_attempt. eapply wp_mono; [|exact Hp].
  intros ra w1 Hq. apply (wp_bind (attempt q)), wp_attempt. eapply wp_mono; [|exact Hq].
  by intros rb w2; destruct ra, rb.
Qed.

(** A program that runs alone. *)
Lemma wp_alone {A} (p : prog A) Q exts w r w' exts' :
  Reflexive rely -> (forall x, x ∈ exts -> forall w, ok x w) -> wp p Q w ->
  alone p exts w = Some (r, w', exts') -> Q r w'.
Proof.
  intros Hrefl. revert exts w. induction p as [a|e|X act k IH]; intros exts w Hok Hwp Hrun;
    simpl in *; [by injection Hrun as <- <- _..|].
  destruct exts as [|x exts]; [done|].
  destruct (Hwp w x (Hrefl w)) as [_ Hk]; [apply Hok; left|].
  destruct (act x w) as [v w1]. simpl in Hk.
  eapply IH; [|exact Hk|exact Hrun]. intros y Hy. apply Hok. by right.
Qed.

Context `{!PreOrder rely}.

Lemma wp_stable {A} (p : prog A) Q :
  (forall r, stable (Q r)) -> stable (wp p Q).
Proof.
  intros HQ w w' Hwp HR. destruct p as [a|e|X act k]; simpl in *; [by eapply HQ..|].
  intros w1 x HR1. apply Hwp. by transitivity w'.
Qed.

Lemma wp_forEach {A} (f : A -> prog ()) l (P : World -> Prop) w :
  P w ->
  (forall x w, x ∈ l -> P w -> wp (f x) (fun r w => P w) w) ->
  wp (forEach f l) (fun r w => P w) w.
Proof.
  intros Hw Hf. revert w Hw. induction l as [|x l IH]; intros w Hw; simpl; [done|].
  apply (wp_bind (f x) (fun _ => forEach f l)).
  eapply wp_mono; [|apply Hf; [left|done]]. intros [[]|e] w1 Hw1; [|done].
  apply IH; [|done]. intros y w2 Hy. apply Hf. by right.
Qed.

(** ** Interleaving *)

(** Threads are programs whose result nobody waits for; a thread may start any
    program of [spawns] and stop at any time; the environment has moves of its
    own. *)
Context (spawns : prog () -> Prop) (env : World -> World -> Prop).

Inductive machine_step : list (prog ()) * World -> list (prog ()) * World -> Prop :=
| M_act ts1 ts2 {X} act (k : result Exn X -> prog ()) w x :
    ok x w ->
    machine_step (ts1 ++ Act act k :: ts2, w)
                 (ts1 ++ k (act x w).1 :: ts2, (act x w).2)
| M_spawn ts p w :
    spawns p -> machine_step (ts, w) (p :: ts, w)
| M_crash ts1 ts2 p w :
    machine_step (ts1 ++ p :: ts2, w) (ts1 ++ ts2, w)
| M_env ts w w' :
    env w w' -> machine_step (ts, w) (ts, w').

(** A program that runs alone is one run of the machine, if what its actions find out
    is possible, which [check] decides. *)
Fixpoint alone_check {A} (check : Ext -> World -> bool) (p : prog A) (exts : list Ext)
    (w : World) : bool :=
  match p, exts with
  | Act act k, x :: exts =>
      check x w && alone_check check (k (act x w).1) exts (act x w).2
  | _, _ => true
  end.

Lemma machine_alone check p exts w r w' left :
  (forall x w, check x w = true -> ok x w) ->
  alone_check check p exts w = true -> alone p exts w = Some (r, w', left) ->
  exists p', rtc machine_step ([p], w) ([p'], w').
Proof.
  intros Hcheck. revert exts w.
  induction p as [a|e|X act k IH]; intros exts w Hok Hrun; simpl in Hrun.
  - injection Hrun as _ <- _. by eexists.
  - injection Hrun as _ <- _. by eexists.
  - destruct exts as [|x exts]; [done|]. simpl in Hok. apply andb_true_iff in Hok as [Hx%Hcheck Hok].
    destruct (act x w) as [v w1] eqn:E. destruct (IH v exts w1 Hok Hrun) as [p' Hp'].
    exists p'. eapply rtc_l; [|exact Hp']. pose proof (M_act [] [] act k w x Hx) as Hstep.
    by rewrite E in Hstep.
Qed.

Definition safe (p : prog ()) (w : World) : Prop := wp p (fun _ _ => True) w.

Context (guar_rely : forall w w', guar w w' -> rely w w')
        (env_rely : forall w w', env w w' -> rely w w')
        (inv : World -> Prop) (inv_rely : forall w w', inv w -> rely w w' -> inv w')
        (spawns_safe : forall p w, inv w -> spawns p -> safe p w).

Lemma safe_stable ts w w' :
  rely w w' -> Forall (fun p => safe p w) ts -> Forall (fun p => safe p w') ts.
Proof.
  intros HR Hts. eapply Forall_impl; [exact Hts|]. intros p Hp.
  by apply (wp_stable p (fun _ _ => True) ltac:(done) w).
Qed.

Lemma adequacy_step s s' :
  machine_step s s' -> inv s.2 -> Forall (fun p => safe p s.2) s.1 ->
  rely s.2 s'.2 /\ Forall (fun p => safe p s'.2) s'.1.
Proof.
  intros Hst. destruct Hst as [ts1 ts2 X act k w x Hok|ts p w Hp|ts1 ts2 p w|ts w w' HR];
    simpl; intros Hinv.
  - rewrite !Forall_app, !Forall_cons. intros (H1 & H & H2).
    destruct (H w x) as [HR%guar_rely Hk]; [reflexivity|done|].
    split; [done|]. split_and!; [by eapply safe_stable|done|by eapply safe_stable].
  - intros H. split; [reflexivity|]. constructor; auto.
  - rewrite !Forall_app, Forall_cons. intros (H1 & H & H2). split; [reflexivity|auto].
  - intros H. split; [by apply env_rely|]. eapply safe_stable; eauto.
Qed.

(** However the threads are interleaved, the world moves as everybody relies on. *)
Lemma adequacy ts w ts' w' :
  rtc machine_step (ts, w) (ts', w') -> inv w -> Forall (fun p => safe p w) ts ->
  rely w w' /\ inv w'.
Proof.
  intros Hst.
  assert (forall s s', rtc machine_step s s' -> inv s.2 -> Forall (fun p => safe p s.2) s.1 ->
            rely s.2 s'.2 /\ inv s'.2) as Hgen; [|exact (Hgen _ _ Hst)].
  induction 1 as [s|s s1 s2 H1 _ IH]; intros Hinv Hs; [by split|].
  destruct (adequacy_step _ _ H1 Hinv Hs) as [HR Hs1].
  destruct (IH (inv_rely _ _ Hinv HR) Hs1) as [HR' ?].
  split; [by etransitivity|done].
Qed.
End Wp.

(** ** How a program may end

    Whatever the others do between its actions, if what each of its actions finds out
    satisfies [possible]. *)
Section Ends.
Context (possible : Ext -> Prop).

Fixpoint ends {A} (Q : result Exn A -> Prop) (p : prog A) : Prop :=
  match p with
  | Ret a => Q (Ok a)
  | Throw e => Q (Err e)
  | Act act k => forall x w, possible x -> ends Q (k (act x w).1)
  end.

Lemma ends_mono {A} (Q Q' : result Exn A -> Prop) p :
  (forall r, Q r -> Q' r) -> ends Q p -> ends Q' p.
Proof. intros HQ. induction p as [a|e|X act k IH]; simpl; auto. Qed.

Lemma ends_any {A} (Q : result Exn A -> Prop) p : (forall r, Q r) -> ends Q p.
Proof. intros HQ. induction p as [a|e|X act k IH]; simpl; auto. Qed.

Lemma ends_and {A} (Q Q' : result Exn A -> Prop) p :
  ends Q p -> ends Q' p -> ends (fun r => Q r /\ Q' r) p.
Proof. induction p as [a|e|X act k IH]; simpl; auto. Qed.

Lemma ends_bind {A B} (p : prog A) (f : A -> prog B) (Q : result Exn B -> Prop) :
  ends (fun r => match r with Ok a => ends Q (f a) | Err e => Q (Err e) end) p ->
  ends Q (p ≫= f).
Proof. intros Hp. induction p as [a|e|X act k IH]; simpl in *; auto. Qed.

Lemma ends_catch {A} (p : prog A) h (Q : result Exn A -> Prop) :
  ends (fun r => match r with Ok a => Q (Ok a) | Err e => ends Q (h e) end) p ->
  ends Q (catch p h).
Proof. intros Hp. induction p as [a|e|X act k IH]; simpl in *; auto. Qed.

Lemma ends_perform {X} (act : Ext -> World -> result Exn X * World) (Q : result Exn X -> Prop) :
  (forall x w, possible x -> Q (act x w).1) -> ends Q (perform act).
Proof. intros HQ x w Hx. specialize (HQ x w Hx). by destruct (act x w).1. Qed.

Lemma ends_ret {A} (a : A) (Q : result Exn A -> Prop) : Q (Ok a) -> ends Q (mret a).
Proof. done. Qed.

Lemma ends_throw {A} e (Q : result Exn A -> Prop) : Q (Err e) -> ends Q (Throw e).
Proof. done. Qed.

Lemma ends_attempt {A} (p : prog A) (Q : result Exn (result Exn A) -> Prop) :
  ends (fun r => Q (Ok r)) p -> ends Q (attempt p).
Proof.
  intros Hp. apply ends_catch, (ends_bind p (fun a => Ret (Ok a))).
  eapply ends_mono; [|exact Hp]. by intros [a|e].
Qed.

(** Nothing is known but that the result is caught. *)
Lemma ends_caught {A} (p : prog A) (Q : result Exn (result Exn A) -> Prop) :
  (forall r, Q (Ok r)) -> ends Q (attempt p).
Proof. intros HQ. by apply ends_attempt, ends_any. Qed.

Lemma ends_alone {A} (Q : result Exn A -> Prop) p exts w r w' left :
  ends Q p -> Forall possible exts -> alone p exts w = Some (r, w', left) -> Q r.
Proof.
  intros Hp Hx. revert w Hp. induction p as [a|e|X act k IH] in exts, Hx |- *; intros w Hp Hrun;
    simpl in *; [by injection Hrun as <- _ _..|].
  destruct Hx as [|x exts Hx Hxs]; [done|].
  specialize (Hp x w Hx). destruct (act x w) as [v w1]. by eapply IH.
Qed.

Lemma ends_steady {A} (Q : result Exn A -> Prop) p x w :
  ends Q p -> possible x -> Q (steady x p w).1.
Proof.
  intros Hp Hx. revert w. induction p as [a|e|X act k IH]; intros w; simpl in *; [done..|].
  specialize (Hp x w Hx). destruct (act x w) as [v w1]. by apply IH.
Qed.
End Ends.
End Programs.

Arguments prog : clear implicits.
Arguments Ret {World Ext Exn A} a.
Arguments Throw {World Ext Exn A} e.
Arguments Act {World Ext Exn A X} act k.
