(* ===== verification/World.v ===== *)
(** * The world the services act on

    The database, the Redis keyspace, and what an action finds out from outside.
    Every server process acts on the same world. *)

From S2P Require Export Database Redis Programs Tokens RealtimeErrors.
Local Open Scope string_scope.
Local Open Scope list_scope.
Local Open Scope Z_scope.

(** ** Configuration

    The values of [config.schema.ts] the services read. [duration(d)] and
    [count(d)] are integers with the minimum 1. *)
Record AppConfig : Type := mkAppConfig {
  TIME_INITIAL_MS : positive;
  TIME_INCREMENT_MS : N;
  JOIN_DEADLINE_MS : positive;
  GRACE_MS : positive;
  RESERVATION_TTL_MS : positive;
  PRESENCE_TTL_MS : positive;
  QUEUE_GUARD_TTL_MS : positive;
  QUEUE_MAX_WAIT_MS : positive;
  MATCH_STATE_TTL_MS : positive;
  SNAPSHOT_CACHE_TTL_MS : positive;
  SOCKET_PING_TIMEOUT_MS : positive;
  JOB_BATCH_SIZE : positive
}.

(** The configuration of [parseEnvironment({})]. *)
Definition default_config : AppConfig :=
  mkAppConfig 300000 2000 20000 30000 30000 45000 120000 120000 3600000 60000 20000 100.

(** ** Errors *)

Inductive MatchmakingErrorCode : Type :=
| MM_ALREADY_IN_GAME
| MM_DEPENDENCY_UNAVAILABLE
| MM_MATCH_ALLOCATION_CONFLICT
| MM_NOT_PRESENT
| MM_RESERVATION_MISMATCH.

Inductive SessionErrorCode : Type :=
| SE_BAD_REQUEST
| SE_IDEMPOTENCY_KEY_REUSED
| SE_INTERNAL_ERROR
| SE_RATE_LIMITED
| SE_SERVICE_UNAVAILABLE
| SE_UNAUTHORIZED.

Inductive SessionRepositoryFailureKind : Type := display_name_conflict | session_unavailable.

Inductive RecoveryErrorCode : Type := RE_BAD_REQUEST | RE_RATE_LIMITED.

(** What a service may throw: an error of the game and database code, of Redis'
    side, of the session and identity services, of the realtime services, or of the recovery
    endpoint. *)
Inductive fault : Type :=
| EApp (e : exn)
| EMatchmaking (code : MatchmakingErrorCode) (retryable : bool)
| ERealtimeRedisUnavailable
| ERedis
| ESession (code : SessionErrorCode) (retryable : bool) (retryAfterMs : option Z)
| ESessionRepository (kind : SessionRepositoryFailureKind)
| ERevocationUnavailable
| EIdentityGeneration
| EToken (reason : Tokens.TokenFailureReason)
| ERealtime (error : RealtimeError)
| ERecovery (code : RecoveryErrorCode) (retryable : bool) (retryAfterMs : option Z).

(** ** Talking to Redis *)

(** How sending a script went: it was answered; Redis does not know the script;
    or the connection failed, before or after the script ran. *)
Inductive Attempt : Type :=
| Replied
| NoScript
| Failed (ran : bool).

(** [ensureConnected], the cache of script hashes, and the two attempts. *)
Record Link : Type := mkLink {
  ln_connected : bool;
  ln_cached : bool;
  ln_loads : bool;
  ln_first : Attempt;
  ln_reloads : bool;
  ln_second : Attempt
}.

Definition good_link : Link := mkLink true true true Replied true Replied.

(** A transaction or query: done, not reached, or done with the answer lost. *)
Inductive DbLink : Type := DbUp | DbDown | DbLost.

(** What an action finds out from outside. [x_locked]: the rows of guest sessions that
    transactions of others, still running, have locked. *)
Record Ext : Type := mkExt {
  x_env : Env;
  x_db : DbLink;
  x_link : Link;
  x_now : Z;
  x_uuids : string * string;
  x_coin : bool;
  x_locked : list string
}.

Section World.
Context `{Redis}.

Record World : Type := mkWorld { w_db : DB; w_redis : Keyspace }.

Local Notation Prog := (prog World Ext fault).

Definition unreachable : exn := EDatabase Unavailable true.

(** An operation of a repository, as an action. *)
Definition dbOp {A} (op : Ext -> DB -> result exn A * DB) (x : Ext) (w : World)
    : result fault A * World :=
  let down := Err (EApp unreachable) in
  match x_db x with
  | DbDown => (down, w)
  | DbLost => (down, mkWorld (op x (w_db w)).2 (w_redis w))
  | DbUp =>
      let '(r, db) := op x (w_db w) in
      (match r with Ok a => Ok a | Err e => Err (EApp e) end, mkWorld db (w_redis w))
  end.

Definition database {A} (op : Ext -> DB -> result exn A * DB) : Prog A := perform (dbOp op).

(** A transaction that may also throw errors of the services. *)
Definition workOp {A} (work : Ext -> tx DB fault A) (x : Ext) (w : World)
    : result fault A * World :=
  let down := Err (EApp unreachable) in
  match x_db x, work x (w_db w) with
  | DbUp, Ok (a, db) => (Ok a, mkWorld db (w_redis w))
  | DbUp, Err e => (Err e, w)
  | DbLost, Ok (_, db) => (down, mkWorld db (w_redis w))
  | DbLost, Err _ | DbDown, _ => (down, w)
  end.

Definition transaction {A} (work : Ext -> tx DB fault A) : Prog A := perform (workOp work).

Definition query {A} (f : Ext -> DB -> result exn A) : Prog A :=
  database (fun x db => (f x db, db)).

(** One Redis command or script with its reply. *)
Definition sendOp {A} (f : Ext -> lua A) (x : Ext) (w : World) : result fault A * World :=
  match ln_first (x_link x) with
  | Replied => let '(a, r) := f x (w_redis w) in (Ok a, mkWorld (w_db w) r)
  | Failed true => (Err ERedis, mkWorld (w_db w) (f x (w_redis w)).2)
  | NoScript | Failed false => (Err ERedis, w)
  end.

(** The same after [ensureConnected]. *)
Definition redisOp {A} (f : Ext -> lua A) (x : Ext) (w : World) : result fault A * World :=
  if negb (ln_connected (x_link x)) then (Err ERedis, w) else sendOp f x w.

Definition command {A} (f : Ext -> lua A) : Prog A := perform (redisOp f).
Definition send {A} (f : Ext -> lua A) : Prog A := perform (sendOp f).

(** [await this.redis.ensureConnected()] *)
Definition ensureConnected : Prog () :=
  perform (fun x w => (if ln_connected (x_link x) then Ok () else Err ERedis, w)).

(** [pipeline.exec()]: the commands are sent one after the other, and others may act
    between them; the result has what became of each. *)
Definition pipeline {A} (commands : list (lua A)) : Prog (list (result fault A)) :=
  mapAll (fun c => attempt (send (fun _ => c))) commands.

(** [results.some(([error]) => error !== null)] throws. *)
Fixpoint all_ok {A} (results : list (result fault A)) : Prog (list A) :=
  match results with
  | [] => Ret []
  | Ok a :: results => l ← all_ok results; Ret (a :: l)
  | Err _ :: _ => Throw ERedis
  end.

(** [Date.now()], [new Date()] *)
Definition clock : Prog Z := perform (fun x w => (Ok (x_now x), w)).

(** [randomUUID()] *)
Definition randomUUID : Prog string := perform (fun x w => (Ok (x_uuids x).1, w)).

(** What a synchronous function returns or throws. *)
Definition lift {A} (r : result fault A) : Prog A :=
  match r with Ok a => Ret a | Err e => Throw e end.

Lemma ends_lift {A} possible (r : result fault A) Q : Q r -> ends possible Q (lift r).
Proof. by destruct r. Qed.

Lemma ends_clock (possible : Ext -> Prop) (Q : result fault Z -> Prop) :
  (forall x, possible x -> Q (Ok (x_now x))) -> ends possible Q clock.
Proof. intros HQ. apply ends_perform. intros x w Hx. by apply HQ. Qed.

Lemma ends_randomUUID (possible : Ext -> Prop) (Q : result fault string -> Prop) :
  (forall x, possible x -> Q (Ok (x_uuids x).1)) -> ends possible Q randomUUID.
Proof. intros HQ. apply ends_perform. intros x w Hx. by apply HQ. Qed.

(** Where a run ended, if it is known to have ended well. *)
Lemma ran_to {R} (o : option (R * World * list Ext)) (Q : World -> Prop) :
  match o with Some (_, w', _) => Q w' | None => False end ->
  exists r w' left, o = Some (r, w', left) /\ Q w'.
Proof. destruct o as [[[r w'] left]|]; [eauto|done]. Qed.

(** ** What the actions of programs do to the world *)
Section Acts.
Context (G : World -> World -> Prop) (G_refl : forall w, G w w).

Lemma acts_query {A} (f : Ext -> DB -> result exn A) : acts G (query f).
Proof. apply acts_perform. intros x w. unfold dbOp. by destruct (x_db x), w. Qed.

Lemma acts_database {A} (op : Ext -> DB -> result exn A * DB) :
  (forall x w, G w (mkWorld (op x (w_db w)).2 (w_redis w))) -> acts G (database op).
Proof.
  intros Hop. apply acts_perform. intros x w. specialize (Hop x w). unfold dbOp.
  destruct (x_db x); [|done|done]. by destruct (op x (w_db w)).
Qed.

Lemma acts_transaction {A} (work : Ext -> tx DB fault A) :
  (forall x w a db, work x (w_db w) = Ok (a, db) -> G w (mkWorld db (w_redis w))) ->
  acts G (transaction work).
Proof.
  intros Hw. apply acts_perform. intros x w. unfold workOp.
  destruct (x_db x), (work x (w_db w)) as [[a db]|e] eqn:E; simpl; eauto.
Qed.

Lemma acts_send {A} (f : Ext -> lua A) :
  (forall x w, G w (mkWorld (w_db w) (f x (w_redis w)).2)) -> acts G (send f).
Proof.
  intros Hf. apply acts_perform. intros x w. specialize (Hf x w). unfold sendOp.
  destruct (ln_first _) as [| |[]]; [|done..]. by destruct (f x (w_redis w)).
Qed.

Lemma acts_command {A} (f : Ext -> lua A) :
  (forall x w, G w (mkWorld (w_db w) (f x (w_redis w)).2)) -> acts G (command f).
Proof.
  intros Hf. apply acts_perform. intros x w. unfold redisOp. destruct (negb _); [done|].
  by apply (acts_send f Hf).
Qed.

Lemma acts_pipeline {A} (commands : list (lua A)) :
  (forall c w, c ∈ commands -> G w (mkWorld (w_db w) (c (w_redis w)).2)) ->
  acts G (pipeline commands).
Proof.
  intros Hc. unfold pipeline. induction commands as [|c commands IH]; [done|].
  apply (acts_bind G (attempt (send (fun _ => c))) _).
  - apply acts_attempt, acts_send. intros _ w. apply Hc. left.
  - intros y. apply (acts_bind G (mapAll _ commands)); [|done].
    apply IH. intros c' w Hc'. apply Hc. by right.
Qed.

Lemma acts_all_ok {A} (results : list (result fault A)) : acts G (all_ok results).
Proof.
  induction results as [|[a|e] results IH]; [done| |done].
  by apply (acts_bind G (all_ok results)).
Qed.

Lemma acts_lift {A} (r : result fault A) : acts G (lift r).
Proof. by destruct r. Qed.

(** An action that only looks. *)
Lemma acts_look {X} (f : Ext -> World -> result fault X) : acts G (perform (fun x w => (f x w, w))).
Proof. by apply acts_perform. Qed.
End Acts.
End World.

(** The programs of the services. *)
Notation Prog := (prog World Ext fault).
