(* ===== verification/Identity.v ===== *)
(** * Anonymous names

    [identity.service.ts], [name-reservation.service.ts] and the catalogs and the
    profanity filter of [identity/domain]: a guest is given a display name made of two
    words and a suffix, which is reserved in Redis until the session is in the
    database. The random source is an argument: what it answers at each attempt.
    Names are ASCII, on which [normalize('NFKD')] changes nothing. *)

From S2P Require Export World.
From Stdlib Require Import Ascii.
Local Open Scope string_scope.
Local Open Scope list_scope.
Local Open Scope Z_scope.

Module Identity.

(** ** identity.catalogs.ts *)

Definition ADJECTIVES : list string :=
  ["Agile"; "Amber"; "Bold"; "Brave"; "Bright"; "Calm"; "Clever"; "Crimson"; "Daring";
   "Emerald"; "Gentle"; "Golden"; "Grand"; "Hidden"; "Honest"; "Jolly"; "Kind";
   "Lively"; "Lucky"; "Merry"; "Mighty"; "Nimble"; "Noble"; "Quiet"; "Rapid"; "Royal";
   "Silent"; "Silver"; "Steady"; "Swift"; "Valiant"; "Wise"].

Definition NOUNS : list string :=
  ["Beacon"; "Bear"; "Bishop"; "Castle"; "Charger"; "Cipher"; "Comet"; "Crown";
   "Dragon"; "Falcon"; "File"; "Fork"; "Fox"; "Gambit"; "Harbor"; "Knight"; "Lion";
   "Meadow"; "Monarch"; "Nova"; "Orbit"; "Pawn"; "Pin"; "Rank"; "Raven"; "Rider";
   "Rook"; "Stallion"; "Summit"; "Tempo"; "Tiger"; "Wolf"].

Record Avatar : Type := mkAvatar { av_cdnPath : string; av_key : string }.

Definition AVATARS : list Avatar :=
  [mkAvatar "/avatars/knight-amber-01.webp" "knight_amber_01";
   mkAvatar "/avatars/knight-bay-02.webp" "knight_bay_02";
   mkAvatar "/avatars/knight-bay-03.webp" "knight_bay_03";
   mkAvatar "/avatars/knight-black-01.webp" "knight_black_01";
   mkAvatar "/avatars/knight-chestnut-01.webp" "knight_chestnut_01";
   mkAvatar "/avatars/knight-gray-02.webp" "knight_gray_02";
   mkAvatar "/avatars/knight-palomino-01.webp" "knight_palomino_01";
   mkAvatar "/avatars/knight-white-02.webp" "knight_white_02"].

(** ** profanity.ts *)

Definition DENYLIST : list string :=
  ["bitch"; "cunt"; "dick"; "faggot"; "fuck"; "hitler"; "nazi"; "nigga"; "nigger";
   "penis"; "shit"; "slut"; "whore"].

Definition LEET_CHARACTERS : list (ascii * ascii) :=
  [("!"%char, "i"%char); ("$"%char, "s"%char); ("0"%char, "o"%char); ("1"%char, "i"%char);
   ("3"%char, "e"%char); ("4"%char, "a"%char); ("5"%char, "s"%char); ("7"%char, "t"%char);
   ("8"%char, "b"%char); ("@"%char, "a"%char)].

Definition unleet (c : ascii) : ascii :=
  match List.find (fun p => Ascii.eqb p.1 c) LEET_CHARACTERS with Some p => p.2 | None => c end.

Definition normalizeForProfanity (value : string) : string :=
  text (filter (fun c => lowercase c = true) (map unleet (chars (toLower value)))).

Definition containsProfanity (value : string) : bool :=
  existsb (fun blocked => contains blocked (normalizeForProfanity value)) DENYLIST.

(** ** name-reservation.service.ts *)

Definition RESERVATION_SECONDS : positive := 86400.

Section Service.
Context `{Redis}.

Definition nameKey (displayName : string) : string := takenKey (toLower displayName).

(** [SET key value EX seconds NX] *)
Definition set_if_free (key value : string) (px : positive) : lua bool :=
  taken ← ask (fun r => EXISTS r key);
  if taken : bool then mret false else
  _ ← call (SET key value (Some px)); mret true.

Definition reserve (displayName guestSessionId : string) : Prog bool :=
  command (fun _ => set_if_free (nameKey displayName) guestSessionId (RESERVATION_SECONDS * 1000)).

Definition delete_if_own (key value : string) : lua () :=
  current ← ask (fun r => GET r key);
  if bool_decide (current = Some value) then call (DEL key) else mret ().

Definition releaseName (displayName guestSessionId : string) : Prog () :=
  command (fun _ => delete_if_own (nameKey displayName) guestSessionId).

(** ** identity.service.ts *)

Definition CANDIDATE_ATTEMPTS : nat := 12.
Definition FALLBACK_ATTEMPTS : nat := 4.

Record GeneratedIdentity : Type := mkIdentity { gi_avatarKey : string; gi_displayName : string }.

(** What the random source answers at one attempt: indices in the catalogs, digits,
    and hexadecimal digits. *)
Record Draw : Type := mkDraw {
  dr_adjective : nat;
  dr_noun : nat;
  dr_numericSuffix : nat -> string;
  dr_fallbackSuffix : string;
  dr_avatar : nat
}.

Definition pick {A} (catalog : list A) (index : nat) : result fault A :=
  match catalog !! index with Some item => Ok item | None => Err EIdentityGeneration end.

Definition displayName_of (draw : Draw) (suffix : string) : result fault string :=
  adjective ← pick ADJECTIVES (dr_adjective draw);
  noun ← pick NOUNS (dr_noun draw);
  Ok (adjective +:+ noun +:+ suffix).

(** One attempt; [None]: the name is unfit or taken. *)
Definition try_name (draw : Draw) (suffix guestSessionId : string) : Prog (option GeneratedIdentity) :=
  displayName ← lift (displayName_of draw suffix);
  if containsProfanity displayName then mret None else
  reserved ← reserve displayName guestSessionId;
  if reserved : bool then
    avatar ← lift (pick AVATARS (dr_avatar draw));
    mret (Some (mkIdentity (av_key avatar) displayName))
  else mret None.

Fixpoint first_of {A} (tries : list (Prog (option A))) : Prog A :=
  match tries with
  | [] => Throw EIdentityGeneration
  | p :: tries =>
      r ← p;
      match r with Some a => mret a | None => first_of tries end
  end.

Definition candidates (random : nat -> Draw) (guestSessionId : string)
    : list (Prog (option GeneratedIdentity)) :=
  map (fun attempt =>
         let suffixLength := Nat.min 4 (2 + attempt / 4) in
         let draw := random attempt in
         try_name draw (dr_numericSuffix draw suffixLength) guestSessionId)
    (seq 0 CANDIDATE_ATTEMPTS).

Definition fallbacks (random : nat -> Draw) (guestSessionId : string)
    : list (Prog (option GeneratedIdentity)) :=
  map (fun attempt =>
         let draw := random (CANDIDATE_ATTEMPTS + attempt)%nat in
         try_name draw (dr_fallbackSuffix draw) guestSessionId)
    (seq 0 FALLBACK_ATTEMPTS).

Definition generate (random : nat -> Draw) (guestSessionId : string) : Prog GeneratedIdentity :=
  catch (first_of (candidates random guestSessionId ++ fallbacks random guestSessionId))
    (fun _ => Throw EIdentityGeneration).

Definition release (identity : GeneratedIdentity) (guestSessionId : string) : Prog () :=
  releaseName (gi_displayName identity) guestSessionId.
End Service.
End Identity.
