(* ===== verification/SessionRepository.v ===== *)
(** * Guest sessions in the database

    [prisma-guest-session.repository.ts]: the tables [guest_sessions] and
    [session_commands], and the transactions that create, renew, reset and delete
    sessions. A command is recorded under the hash of its idempotency key, and a
    command whose hash is on record is answered from the record. *)

From S2P Require Export World Schema.
Local Open Scope string_scope.
Local Open Scope list_scope.
Local Open Scope Z_scope.

Module Sessions.

(** ** guest-session.repository.ts *)

Inductive CommandType : Type := CREATE | RENEW | RESET.

#[export] Instance CommandType_eq_dec : EqDecision CommandType.
Proof. solve_decision. Defined.

#[export] Instance CommandType_ToString : ToString CommandType := fun t =>
  match t with CREATE => "CREATE" | RENEW => "RENEW" | RESET => "RESET" end.

Record GuestSessionRecord : Type := mkSession {
  gs_avatarKey : string;
  gs_createdAt : Z;
  gs_currentJti : option string;
  gs_displayName : string;
  gs_expiresAt : Z;
  gs_id : string;
  gs_issuedAt : Z;
  gs_revokedAt : option Z
}.

Record IssuedSessionClaims : Type := mkIssued {
  ic_expiresAt : Z;
  ic_issuedAt : Z;
  ic_jti : string
}.

Record CreateGuestSession : Type := mkCreate {
  cr_avatarKey : string;
  cr_displayName : string;
  cr_guestSessionId : string;
  cr_idempotencyHash : string;
  cr_issuedClaims : IssuedSessionClaims
}.

Record RenewGuestSession : Type := mkRenew {
  rn_guestSessionId : string;
  rn_idempotencyHash : string;
  rn_issuedClaims : IssuedSessionClaims
}.

Record ResetGuestSession : Type := mkReset {
  rs_guestSessionId : string;
  rs_idempotencyHash : string;
  rs_revokedAt : Z
}.

Record SessionCommandReplay : Type := mkReplay {
  rp_commandType : CommandType;
  rp_guestSession : GuestSessionRecord;
  rp_issuedClaims : option IssuedSessionClaims
}.

Record SessionMutationResult : Type := mkMutation {
  mu_replayed : bool;
  mu_value : SessionCommandReplay
}.

Record RevokedSessionCursor : Type := mkCursor { rc_id : string; rc_revokedAt : Z }.

(** ** Rows *)

Definition toGuestSession (id : string) (row : GuestRow) : GuestSessionRecord :=
  mkSession (s_avatarKey row) (s_createdAt row) (s_currentJti row) (s_displayName row)
    (s_expiresAt row) id (s_issuedAt row) (s_revokedAt row).

Definition issuedClaims_of (row : SessionCommandRow) : option IssuedSessionClaims :=
  match sc_issuedJti row, sc_issuedAt row, sc_expiresAt row with
  | Some jti, Some issuedAt, Some expiresAt => Some (mkIssued expiresAt issuedAt jti)
  | _, _, _ => None
  end.

Definition commandType_of (s : string) : option CommandType :=
  List.find (fun t => bool_decide (toString t = s)) [CREATE; RENEW; RESET].

Definition toCommandReplay (row : SessionCommandRow) (guest : GuestRow)
    : result exn SessionCommandReplay :=
  match commandType_of (sc_commandType row) with
  | None => Err (EDatabase Constraint false)
  | Some t => Ok (mkReplay t (toGuestSession (sc_guestSessionId row) guest) (issuedClaims_of row))
  end.

(** The CHECK constraints of the two tables. *)
Definition guest_sessions_checks (row : GuestRow) : bool :=
  (s_issuedAt row <? s_expiresAt row) &&
  match s_revokedAt row with None => true | Some t => s_issuedAt row <=? t end.

Definition session_commands_checks (row : SessionCommandRow) : bool :=
  includes ["CREATE"; "RENEW"; "RESET"] (sc_commandType row) &&
  match sc_issuedJti row, sc_issuedAt row, sc_expiresAt row with
  | None, None, None => true
  | Some _, Some issuedAt, Some expiresAt => issuedAt <? expiresAt
  | _, _, _ => false
  end.

Section Repository.
Context `{Prisma}.

(** *** Statements *)

(** [sessionCommand.findUnique({ include: { guestSession: true } })]; the client
    throws when the session of a command is missing. *)
Definition findReplay (db : DB) (hash : string) : result exn (option SessionCommandReplay) :=
  match sessionCommands db !! hash with
  | None => Ok None
  | Some row =>
      match guests db !! sc_guestSessionId row with
      | None => Err EOther
      | Some guest => Some <$> toCommandReplay row guest
      end
  end.

(** [guestSession.create({ data })]: the primary key, the unique index on
    [display_name_ci] and the CHECK constraints. *)
Definition name_taken (db : DB) (displayName : string) : bool :=
  existsb (fun kv => bool_decide (toLower (s_displayName kv.2) = toLower displayName))
    (map_to_list (guests db)).

Definition guestSession_create (id : string) (row : GuestRow) : tx DB fault () := fun db =>
  if negb (guest_sessions_checks row) then Err (EApp prisma_checkViolation) else
  if name_taken db (s_displayName row) then Err (EApp prisma_uniqueViolation) else
  match guests db !! id with
  | Some _ => Err (EApp prisma_uniqueViolation)
  | None => Ok ((), with_guests <[id := row]> db)
  end.

(** [guestSession.update({ data, where: { id } })] *)
Definition guestSession_update (id : string) (f : GuestRow -> GuestRow) : tx DB fault GuestRow := fun db =>
  match guests db !! id with
  | None => Err (EApp prisma_recordNotFound)
  | Some row =>
      if negb (guest_sessions_checks (f row)) then Err (EApp prisma_checkViolation) else
      Ok (f row, with_guests <[id := f row]> db)
  end.

(** [sessionCommand.create({ data })]: the CHECK constraints, the unique index on the
    hash and the foreign key. *)
Definition sessionCommand_create (hash : string) (row : SessionCommandRow) : tx DB fault () := fun db =>
  if negb (session_commands_checks row) then Err (EApp prisma_checkViolation) else
  match sessionCommands db !! hash, guests db !! sc_guestSessionId row with
  | Some _, _ => Err (EApp prisma_uniqueViolation)
  | None, None => Err (EApp prisma_rawQueryFailed)
  | None, Some _ => Ok ((), with_sessionCommands <[hash := row]> db)
  end.

(** *** Transactions

    Each begins by looking for the command on record. Nothing is locked then, so the
    rest, from the first lock or write on, is an action of its own. *)

Definition issued_command (t : CommandType) (id : string) (claims : IssuedSessionClaims)
    : SessionCommandRow :=
  mkSessionCommandRow (toString t) id (Some (ic_jti claims)) (Some (ic_issuedAt claims))
    (Some (ic_expiresAt claims)).

Definition createWork (input : CreateGuestSession) (x : Ext) : tx DB fault SessionMutationResult :=
  let claims := cr_issuedClaims input in
  let id := cr_guestSessionId input in
  let row := mkGuestRow (env_observedAt (x_env x)) (cr_displayName input) (cr_avatarKey input)
               (Some (ic_jti claims)) (ic_issuedAt claims) (ic_expiresAt claims) None in
  _ ← guestSession_create id row;
  _ ← sessionCommand_create (cr_idempotencyHash input) (issued_command CREATE id claims);
  mret (mkMutation false (mkReplay CREATE (toGuestSession id row) (Some claims))).

(** The session is locked and read; it must be live at [now]. *)
Definition liveSession (id : string) (now : Z) : tx DB fault () := fun db =>
  match guests db !! id with
  | Some row =>
      if negb (isNull (s_revokedAt row)) || (s_expiresAt row <=? now)
      then Err (ESessionRepository session_unavailable) else Ok ((), db)
  | None => Err (ESessionRepository session_unavailable)
  end.

Definition renewed (claims : IssuedSessionClaims) (row : GuestRow) : GuestRow :=
  mkGuestRow (s_createdAt row) (s_displayName row) (s_avatarKey row) (Some (ic_jti claims))
    (ic_issuedAt claims) (ic_expiresAt claims) (s_revokedAt row).

Definition renewWork (input : RenewGuestSession) : tx DB fault SessionMutationResult :=
  let claims := rn_issuedClaims input in
  let id := rn_guestSessionId input in
  _ ← liveSession id (ic_issuedAt claims);
  row ← guestSession_update id (renewed claims);
  _ ← sessionCommand_create (rn_idempotencyHash input) (issued_command RENEW id claims);
  mret (mkMutation false (mkReplay RENEW (toGuestSession id row) (Some claims))).

Definition revoked (revokedAt : Z) (row : GuestRow) : GuestRow :=
  mkGuestRow (s_createdAt row) (s_displayName row) (s_avatarKey row) (s_currentJti row)
    (s_issuedAt row) (s_expiresAt row) (Some revokedAt).

Definition resetWork (input : ResetGuestSession) : tx DB fault SessionMutationResult :=
  let id := rs_guestSessionId input in
  _ ← liveSession id (rs_revokedAt input);
  row ← guestSession_update id (revoked (rs_revokedAt input));
  _ ← sessionCommand_create (rs_idempotencyHash input)
        (mkSessionCommandRow (toString RESET) id None None None);
  mret (mkMutation false (mkReplay RESET (toGuestSession id row) None)).

(** [cleanupExpired]: sessions that expired before [cutoff] and that no row of a game
    names, the oldest first, with their commands. *)
Definition referenced (db : DB) (id : string) : bool :=
  existsb (fun p => bool_decide (p_guestSessionId p = id)) (players db) ||
  negb (isNull (assignments db !! id)) ||
  existsb (fun m => bool_decide (m_guestSessionId m = id)) (moves db) ||
  existsb (fun kv => bool_decide (c_guestSessionId kv.2 = id)) (map_to_list (commands db)).

Definition byExpiry (x y : string * GuestRow) : bool := s_expiresAt x.2 <=? s_expiresAt y.2.

(** [FOR UPDATE SKIP LOCKED]: rows [locked] by transactions that are running are passed
    over, and do not count for the limit. *)
Definition candidates (db : DB) (cutoff : Z) (limit : nat) (locked : list string) : list string :=
  map fst (take limit (orderBy byExpiry
    (filter (fun kv => (s_expiresAt kv.2 <? cutoff) && negb (referenced db kv.1) &&
                       negb (bool_decide (kv.1 ∈ locked)) = true)
       (map_to_list (guests db))))).

Definition cleanupWork (cutoff : Z) (limit : nat) (locked : list string) : tx DB fault Z := fun db =>
  let ids := candidates db cutoff limit locked in
  Ok (Z.of_nat (length ids),
      with_guests (filter (fun kv => kv.1 ∉ ids))
        (with_sessionCommands (filter (fun kv => sc_guestSessionId kv.2 ∉ ids)) db)).
End Repository.

Section Programs.
Context `{Prisma} `{Redis}.

Definition databaseFault (error : fault) : fault :=
  match error with EApp e => EApp (toDatabaseError e) | _ => error end.

(** [catch (error) { throw toDatabaseError(error) }] *)
Definition asDatabase {A} (p : Prog A) : Prog A := catch p (fun e => Throw (databaseFault e)).

Definition findCommand (hash : string) : Prog (option SessionCommandReplay) :=
  asDatabase (query (fun _ db => findReplay db hash)).

Definition findById (id : string) : Prog (option GuestSessionRecord) :=
  asDatabase (query (fun _ db => Ok (option_map (toGuestSession id) (guests db !! id)))).

Definition findByDisplayName (displayName : string) : Prog (option GuestSessionRecord) :=
  asDatabase (query (fun _ db =>
    Ok (option_map (fun kv => toGuestSession kv.1 kv.2)
          (List.find (fun kv => bool_decide (toLower (s_displayName kv.2) = toLower displayName))
             (map_to_list (guests db)))))).

Definition recoverUniqueOrThrow (error : fault) (hash : string) (displayNameCanConflict : bool)
    : Prog SessionMutationResult :=
  match error with
  | ESessionRepository _ => Throw error
  | _ =>
      match databaseFault error with
      | EApp (EDatabase Unique r) =>
          replay ← findCommand hash;
          match replay with
          | Some replay => mret (mkMutation true replay)
          | None =>
              if displayNameCanConflict then Throw (ESessionRepository display_name_conflict)
              else Throw (EApp (EDatabase Unique r))
          end
      | databaseError => Throw databaseError
      end
  end.

(** The three transactions share their frame. *)
Definition mutate (hash : string) (displayNameCanConflict : bool)
    (work : Ext -> tx DB fault SessionMutationResult) : Prog SessionMutationResult :=
  catch
    (existing ← query (fun _ db => findReplay db hash);
     match existing with
     | Some existing => mret (mkMutation true existing)
     | None => transaction work
     end)
    (fun error => recoverUniqueOrThrow error hash displayNameCanConflict).

Definition create (input : CreateGuestSession) : Prog SessionMutationResult :=
  mutate (cr_idempotencyHash input) true (createWork input).
Definition renew (input : RenewGuestSession) : Prog SessionMutationResult :=
  mutate (rn_idempotencyHash input) false (fun _ => renewWork input).
Definition reset (input : ResetGuestSession) : Prog SessionMutationResult :=
  mutate (rs_idempotencyHash input) false (fun _ => resetWork input).

(** [orderBy: [{ revokedAt: 'asc' }, { id: 'asc' }]] *)
Definition revocation (s : GuestSessionRecord) : Z := default 0 (gs_revokedAt s).
Definition byRevocation (x y : GuestSessionRecord) : bool :=
  (revocation x <? revocation y) ||
  ((revocation x =? revocation y) && String.leb (gs_id x) (gs_id y)).

Definition afterRevoked (cursor : option RevokedSessionCursor) (s : GuestSessionRecord) : bool :=
  match cursor with
  | None => true
  | Some cursor =>
      (rc_revokedAt cursor <? revocation s) ||
      ((revocation s =? rc_revokedAt cursor) && String.ltb (rc_id cursor) (gs_id s))
  end.

(** The sessions that are revoked and not yet expired. *)
Definition liveRevoked (now : Z) (s : GuestSessionRecord) : bool :=
  negb (isNull (gs_revokedAt s)) && (now <? gs_expiresAt s).

Definition allSessions (db : DB) : list GuestSessionRecord :=
  map (fun kv => toGuestSession kv.1 kv.2) (map_to_list (guests db)).

Definition revokedPage (db : DB) (now : Z) (limit : nat) (cursor : option RevokedSessionCursor)
    : list GuestSessionRecord :=
  take limit (orderBy byRevocation
    (filter (fun s => liveRevoked now s && afterRevoked cursor s = true) (allSessions db))).

Definition findLiveRevoked (now : Z) (limit : nat) (cursor : option RevokedSessionCursor)
    : Prog (list GuestSessionRecord) :=
  asDatabase (query (fun _ db => Ok (revokedPage db now limit cursor))).

Definition cleanupExpired (cutoff : Z) (limit : nat) : Prog Z :=
  asDatabase (transaction (fun x => cleanupWork cutoff limit (x_locked x))).
End Programs.
End Sessions.
