(* ===== verification/SessionServices.v ===== *)
(** * The services of guest sessions

    [session.service.ts], [session-revocation.service.ts],
    [session-authentication.service.ts] and [session-maintenance.service.ts]: issuing
    and renewing tokens, ending sessions, deciding whether a request is from a live
    session, and the job that restores the marks of revoked sessions. Instants are
    milliseconds; the public views hold them as such and not as ISO strings. *)

From S2P Require Export SessionRepository Identity.
From Stdlib Require Import Ascii.
Local Open Scope string_scope.
Local Open Scope list_scope.
Local Open Scope Z_scope.

(** [createHash('sha256').update(s).digest('hex')] *)
Class NodeHash : Type := { sha256_hex : string -> string }.

(** What the session service calls in other modules: [game-lifecycle.service.ts] and
    the port of the sockets. *)
Class SessionPorts `{Redis} : Type := {
  terminateForReset : string -> Prog ();
  disconnectGuest : string -> Prog ()
}.

Module SessionServices.
Import Sessions Identity Tokens.

(** ** session-revocation.service.ts *)

Definition sessionKey (guestSessionId : string) : string := revokedKey guestSessionId.
Definition tokenKey (jti : string) : string := denylistKey jti.

Section Revocation.
Context `{Redis} (clockSkewSeconds : Z).

(** [Math.ceil((expiryMs - now) / 1000) + clockSkewSeconds], at least 1. *)
Definition revocationSeconds (expiryMs now : Z) : Z :=
  Z.max 1 (- ((now - expiryMs) / 1000) + clockSkewSeconds).
Definition revocationPx (expiryMs now : Z) : positive := Z.to_pos (revocationSeconds expiryMs now * 1000).

Definition unavailable_revocations {A} (p : Prog A) : Prog A :=
  catch p (fun _ => Throw ERevocationUnavailable).

(** [mget]: one command. *)
Definition isRevoked (identity : AuthenticatedGuest) : Prog bool :=
  unavailable_revocations
    (marks ← command (fun _ => ask (fun r =>
       (GET r (sessionKey (ag_guestSessionId identity)), GET r (tokenKey (ag_jti identity)))));
     mret (negb (isNull marks.1) || negb (isNull marks.2))).

(** The number as JavaScript prints it; nobody reads it. *)
Definition milliseconds (n : Z) : string := pretty.pretty n.

Definition revoke (guestSession : GuestSessionRecord) (identity : AuthenticatedGuest) : Prog () :=
  now ← clock;
  let latestExpiryMs := Z.max (gs_expiresAt guestSession) (ag_expiresAt identity) in
  unavailable_revocations
    (_ ← ensureConnected;
     results ← pipeline
       [call (SET (sessionKey (gs_id guestSession)) (milliseconds latestExpiryMs)
                (Some (revocationPx latestExpiryMs now)));
        call (SET (tokenKey (ag_jti identity)) "1" (Some (revocationPx (ag_expiresAt identity) now)))];
     _ ← all_ok results;
     mret ()).

Definition restoreSessionRevocation (guestSession : GuestSessionRecord) (now : Z) : Prog () :=
  unavailable_revocations
    (command (fun _ => call (SET (sessionKey (gs_id guestSession))
       (milliseconds (gs_expiresAt guestSession))
       (Some (revocationPx (gs_expiresAt guestSession) now))))).
End Revocation.

(** ** session-authentication.service.ts *)

Definition unauthorized : fault := ESession SE_UNAUTHORIZED false None.
Definition session_unavailable_now : fault := ESession SE_SERVICE_UNAVAILABLE true None.

Record SessionRequest : Type := mkRequest {
  rq_authorization : option string;
  rq_cookie : option string
}.

(** [/^Bearer ([^\s]+)$/i] *)
Definition bearer (authorization : string) : option string :=
  let l := chars authorization in
  let token := drop 7 l in
  if bool_decide (toLower (text (take 7 l)) = "bearer ") && negb (bool_decide (token = [])) &&
     forallb (fun c => negb (is_space c)) token
  then Some (text token) else None.

(** [part.slice(0, separator)] and [part.slice(separator + 1)] at the first [=]. *)
Fixpoint cut_at (sep : ascii) (l : list ascii) : option (list ascii * list ascii) :=
  match l with
  | [] => None
  | c :: l =>
      if is_char sep c then Some ([], l) else
      match cut_at sep l with Some (x, y) => Some (c :: x, y) | None => None end
  end.

Fixpoint cookieToken (cookieName : string) (parts : list string) : option string :=
  match parts with
  | [] => None
  | part :: parts =>
      match cut_at "="%char (chars part) with
      | None => cookieToken cookieName parts
      | Some (name, value) =>
          let value := trim (text value) in
          if bool_decide (trim (text name) = cookieName) && (0 <? Z.of_nat (String.length value))
          then Some value else cookieToken cookieName parts
      end
  end.

Definition extractToken (cookieName : string) (request : SessionRequest) : option string :=
  match rq_authorization request with
  | Some authorization => bearer authorization
  | None =>
      match rq_cookie request with
      | Some cookie => cookieToken cookieName (str_split ";"%char cookie)
      | None => None
      end
  end.

Section Services.
Context `{JsonText} `{NodeCrypto} `{NodeHash} `{Prisma} `{Redis} `{!SessionPorts}.
Context (tokens : JwtTokenService) (cookieName : string).

Let skew := clockSkewSeconds tokens.

(** The guest and whether its token was revoked, as left in the request. *)
Definition authenticate (request : SessionRequest) (allowRevoked : bool)
    : Prog (AuthenticatedGuest * bool) :=
  catch
    (token ← lift (match extractToken cookieName request with
                   | Some token => Ok token
                   | None => Err unauthorized
                   end);
     now ← clock;
     identity ← lift (match verify tokens token now with
                      | Ok identity => Ok identity
                      | Err reason => Err (EToken reason)
                      end);
     revoked ← isRevoked identity;
     if (revoked : bool) && negb allowRevoked then Throw unauthorized else mret (identity, revoked))
    (fun error =>
       match error with
       | ESession _ _ _ => Throw error
       | ERevocationUnavailable => Throw session_unavailable_now
       | _ => Throw unauthorized
       end).

(** ** session.service.ts *)

Definition DATABASE_NAME_ATTEMPTS : nat := 8.

Record PublicGuestSession : Type := mkPublic {
  pg_avatar : string;
  pg_expiresAt : Z;
  pg_id : string;
  pg_issuedAt : Z;
  pg_name : string
}.

Record IssuedGuestSession : Type := mkIssuedSession {
  is_guest : PublicGuestSession;
  is_replayed : bool;
  is_token : string
}.

Definition internal_error : fault := ESession SE_INTERNAL_ERROR false None.

Definition assertCommand (command : SessionCommandReplay) (expectedType : CommandType)
    (expectedGuestSessionId : option string) : result fault () :=
  if negb (bool_decide (rp_commandType command = expectedType)) ||
     match expectedGuestSessionId with
     | Some id => negb (bool_decide (gs_id (rp_guestSession command) = id))
     | None => false
     end
  then Err (ESession SE_IDEMPOTENCY_KEY_REUSED false None) else
  if (bool_decide (expectedType = CREATE) || bool_decide (expectedType = RENEW)) &&
     isNull (rp_issuedClaims command)
  then Err internal_error else Ok ().

Definition claims_at (now : Z) (jti : string) : IssuedSessionClaims :=
  let issuedAtMs := now / 1000 * 1000 in
  mkIssued (issuedAtMs + ttlSeconds tokens * 1000) issuedAtMs jti.

Definition createIssuedClaims : Prog IssuedSessionClaims :=
  now ← clock;
  jti ← randomUUID;
  mret (claims_at now jti).

Definition hashIdempotencyKey (idempotencyKey : string) : result fault string :=
  let normalized := toLower (trim idempotencyKey) in
  if negb (UUID_V4 normalized) then Err (ESession SE_BAD_REQUEST false None)
  else Ok (sha256_hex normalized).

Definition toPublicGuest (guestSession : GuestSessionRecord) : PublicGuestSession :=
  mkPublic (gs_avatarKey guestSession) (gs_expiresAt guestSession) (gs_id guestSession)
    (gs_issuedAt guestSession) (gs_displayName guestSession).

(** What [tokens.issue] reads of the session and the claims. *)
Definition issuance (guestSession : GuestSessionRecord) (claims : IssuedSessionClaims) : Issuance :=
  mkIssuance (gs_avatarKey guestSession) (gs_displayName guestSession) (gs_id guestSession)
    (ic_expiresAt claims) (ic_issuedAt claims) (ic_jti claims).

Definition toIssuedSession (command : SessionCommandReplay) (replayed : bool)
    : result fault IssuedGuestSession :=
  match rp_issuedClaims command with
  | None => Err internal_error
  | Some claims =>
      match issue tokens (issuance (rp_guestSession command) claims) with
      | None => Err (EApp EOther)
      | Some token => Ok (mkIssuedSession (toPublicGuest (rp_guestSession command)) replayed token)
      end
  end.

Definition safeRelease (identity : GeneratedIdentity) (guestSessionId : string) : Prog () :=
  catch (release identity guestSessionId) (fun _ => mret ()).

Definition rethrowStable (error : fault) : fault :=
  match error with
  | ESession _ _ _ => error
  | EIdentityGeneration | ERevocationUnavailable => session_unavailable_now
  | ESessionRepository session_unavailable => unauthorized
  | ESessionRepository _ => session_unavailable_now
  | EApp (EDatabase Unknown retryable) => ESession SE_INTERNAL_ERROR retryable None
  | EApp (EDatabase _ retryable) => ESession SE_SERVICE_UNAVAILABLE retryable None
  | _ => internal_error
  end.

Definition stably {A} (p : Prog A) : Prog A := catch p (fun error => Throw (rethrowStable error)).

(** One attempt at a new session; [None]: its name was taken in the database. *)
Definition createAttempt (random : nat -> Draw) (guestSessionId idempotencyHash : string)
    : Prog (option IssuedGuestSession) :=
  identity ← generate random guestSessionId;
  issuedClaims ← createIssuedClaims;
  catch
    (result ← create (mkCreate (gi_avatarKey identity) (gi_displayName identity) guestSessionId
                        idempotencyHash issuedClaims);
     _ ← lift (assertCommand (mu_value result) CREATE None);
     _ ← if bool_decide (gs_id (rp_guestSession (mu_value result)) = guestSessionId)
         then mret () else safeRelease identity guestSessionId;
     session ← lift (toIssuedSession (mu_value result) (mu_replayed result));
     mret (Some session))
    (fun error =>
       _ ← safeRelease identity guestSessionId;
       match error with
       | ESessionRepository display_name_conflict => mret None
       | _ => Throw error
       end).

(** [random i] is the random source in the [i]-th attempt. *)
Definition createSession (random : nat -> nat -> Draw) (idempotencyKey : string)
    : Prog IssuedGuestSession :=
  idempotencyHash ← lift (hashIdempotencyKey idempotencyKey);
  stably
    (existing ← findCommand idempotencyHash;
     match existing with
     | Some existing =>
         _ ← lift (assertCommand existing CREATE None);
         lift (toIssuedSession existing true)
     | None =>
         guestSessionId ← randomUUID;
         first_of (map (fun attempt => createAttempt (random attempt) guestSessionId idempotencyHash)
                     (seq 0 DATABASE_NAME_ATTEMPTS))
     end).

Definition renewSession (authenticatedGuest : AuthenticatedGuest) (idempotencyKey : string)
    : Prog IssuedGuestSession :=
  let id := ag_guestSessionId authenticatedGuest in
  idempotencyHash ← lift (hashIdempotencyKey idempotencyKey);
  stably
    (existing ← findCommand idempotencyHash;
     match existing with
     | Some existing =>
         _ ← lift (assertCommand existing RENEW (Some id));
         lift (toIssuedSession existing true)
     | None =>
         issuedClaims ← createIssuedClaims;
         result ← renew (mkRenew id idempotencyHash issuedClaims);
         _ ← lift (assertCommand (mu_value result) RENEW (Some id));
         lift (toIssuedSession (mu_value result) (mu_replayed result))
     end).

Definition getCurrent (authenticatedGuest : AuthenticatedGuest) (now : Z) : Prog PublicGuestSession :=
  stably
    (guestSession ← findById (ag_guestSessionId authenticatedGuest);
     match guestSession with
     | Some guestSession =>
         if negb (isNull (gs_revokedAt guestSession)) || (gs_expiresAt guestSession <=? now)
         then Throw unauthorized else mret (toPublicGuest guestSession)
     | None => Throw unauthorized
     end).

Definition finishReset (guestSession : GuestSessionRecord) (authenticatedGuest : AuthenticatedGuest)
    : Prog () :=
  _ ← terminateForReset (gs_id guestSession);
  _ ← revoke skew guestSession authenticatedGuest;
  disconnectGuest (gs_id guestSession).

Definition resetSession (authenticatedGuest : AuthenticatedGuest) (idempotencyKey : string)
    (tokenWasRevoked : bool) : Prog () :=
  let id := ag_guestSessionId authenticatedGuest in
  idempotencyHash ← lift (hashIdempotencyKey idempotencyKey);
  stably
    (existing ← findCommand idempotencyHash;
     match existing with
     | Some existing =>
         _ ← lift (assertCommand existing RESET (Some id));
         finishReset (rp_guestSession existing) authenticatedGuest
     | None =>
         if tokenWasRevoked then Throw unauthorized else
         revokedAt ← clock;
         result ← reset (mkReset id idempotencyHash revokedAt);
         _ ← lift (assertCommand (mu_value result) RESET (Some id));
         finishReset (rp_guestSession (mu_value result)) authenticatedGuest
     end).

(** ** session-maintenance.service.ts

    The timers call [reconcileSafely] and [cleanupSafely], each of which lets one run
    finish before it starts another. *)

Context (batchSize : nat) (retentionMs : Z).

Definition next_cursor (sessions : list GuestSessionRecord) : option RevokedSessionCursor :=
  if negb (length sessions =? batchSize)%nat then None else
  match last sessions with
  | Some session => mkCursor (gs_id session) <$> gs_revokedAt session
  | None => None
  end.

(** The cursor the next run starts from. *)
Definition reconcileRevocations (revocationCursor : option RevokedSessionCursor) (now : Z)
    : Prog (option RevokedSessionCursor) :=
  revokedSessions ← findLiveRevoked now batchSize revocationCursor;
  _ ← forEach (fun session => restoreSessionRevocation skew session now) revokedSessions;
  mret (next_cursor revokedSessions).

Definition cleanupExpiredAt (now : Z) : Prog Z := cleanupExpired (now - retentionMs) batchSize.

(** A run that fails leaves the cursor as it was. *)
Definition reconcileSafely (revocationCursor : option RevokedSessionCursor)
    : Prog (option RevokedSessionCursor) :=
  catch (now ← clock; reconcileRevocations revocationCursor now) (fun _ => mret revocationCursor).

Definition cleanupSafely : Prog () :=
  catch (now ← clock; _ ← cleanupExpiredAt now; mret ()) (fun _ => mret ()).

Definition runOnce (revocationCursor : option RevokedSessionCursor) (now : Z)
    : Prog (option RevokedSessionCursor * Z) :=
  cursor ← reconcileRevocations revocationCursor now;
  count ← cleanupExpiredAt now;
  mret (cursor, count).
End Services.
End SessionServices.
