(* ===== verification/SessionActions.v ===== *)
(** * What the actions of the session services do

    Every action of a program of the session and identity services is one of a few: it
    only looks, it writes or removes a key of theirs in Redis, or it is one of four
    transactions. [SessionGuarantee G] says that [G] allows these; then [G] holds of
    every action of every program. *)

From S2P Require Export SessionServices.
Local Open Scope string_scope.
Local Open Scope list_scope.
Local Open Scope Z_scope.

Module SessionActions.
Import Sessions Identity Tokens SessionServices.

(** The keys of the session and identity services. *)
Definition session_key (k : Key) : Prop :=
  match k with KName _ | KRevoked _ | KDenied _ => True | _ => False end.

Section Actions.
Context `{JsonText} `{NodeCrypto} `{NodeHash} `{Prisma} `{Redis} `{!SessionPorts}.

(** The transactions, when they commit. *)
Inductive session_work (db db' : DB) : Prop :=
| SW_create input x r : createWork input x db = Ok (r, db') -> session_work db db'
| SW_renew input r : renewWork input db = Ok (r, db') -> session_work db db'
| SW_reset input r : resetWork input db = Ok (r, db') -> session_work db db'
| SW_cleanup cutoff limit locked r : cleanupWork cutoff limit locked db = Ok (r, db') -> session_work db db'.

Class SessionGuarantee (G : World -> World -> Prop) : Prop := {
  sg_refl w : G w w;
  sg_set w k v px : session_key k -> G w (mkWorld (w_db w) (SET (name k) v px (w_redis w)));
  sg_del w n : G w (mkWorld (w_db w) (DEL (name (KName n)) (w_redis w)));
  sg_work w db' : session_work (w_db w) db' -> G w (mkWorld db' (w_redis w))
}.

Context (tokens : JwtTokenService) (cookieName : string) (batchSize : nat) (retentionMs : Z).
Context (G : World -> World -> Prop) `{!SessionGuarantee G}.

Lemma sg_same w : G w (mkWorld (w_db w) (w_redis w)).
Proof. destruct w. apply sg_refl. Qed.

Create HintDb sound discriminated.
Ltac sound :=
  repeat first
    [ done
    | solve [auto 1 with sound nocore]
    | apply acts_bind; [|intros ?]
    | apply acts_catch; [|intros ?]
    | apply acts_query, sg_refl
    | apply acts_command; [exact sg_refl|intros; apply sg_same]
    | apply acts_look, sg_refl
    | apply acts_lift
    | apply acts_forEach; intros ?
    | case_match ].

Lemma mutate_acts hash conflict work :
  (forall x w r db', work x (w_db w) = Ok (r, db') -> session_work (w_db w) db') ->
  acts G (mutate hash conflict work).
Proof.
  intros Hwork. unfold mutate, recoverUniqueOrThrow, findCommand, asDatabase. sound.
  apply acts_transaction; [exact sg_refl|]. intros x w r db' Hr. eapply sg_work, Hwork, Hr.
Qed.

Lemma create_acts input : acts G (create input).
Proof. apply mutate_acts. intros x w r db'. apply SW_create. Qed.

Lemma renew_acts input : acts G (renew input).
Proof. apply mutate_acts. intros x w r db'. apply SW_renew. Qed.

Lemma reset_acts input : acts G (reset input).
Proof. apply mutate_acts. intros x w r db'. apply SW_reset. Qed.

Lemma cleanup_acts now : acts G (cleanupExpiredAt batchSize retentionMs now).
Proof.
  unfold cleanupExpiredAt, cleanupExpired, asDatabase. sound.
  apply acts_transaction; [exact sg_refl|]. intros x w r db' Hr. eapply sg_work, SW_cleanup, Hr.
Qed.

Lemma first_of_acts {A} (tries : list (Prog (option A))) :
  (forall p, p ∈ tries -> acts G p) -> acts G (first_of tries).
Proof.
  induction tries as [|p tries IH]; intros Ht; simpl; [done|].
  apply acts_bind; [apply Ht; left|]. intros [a|]; [done|]. apply IH. intros q Hq. apply Ht. by right.
Qed.

Lemma reserve_acts displayName id : acts G (reserve displayName id).
Proof.
  unfold reserve. apply acts_command; [exact sg_refl|]. intros _ w. unfold set_if_free, mbind, lua_bind, ask.
  destruct (EXISTS _ _); [apply sg_same|]. by apply (sg_set w (KName (toLower displayName))).
Qed.

Lemma releaseName_acts displayName id : acts G (releaseName displayName id).
Proof.
  unfold releaseName. apply acts_command; [exact sg_refl|]. intros _ w.
  unfold delete_if_own, mbind, lua_bind, ask. case_bool_decide; [apply sg_del|apply sg_same].
Qed.
#[local] Hint Resolve reserve_acts releaseName_acts : sound.

Lemma generate_acts random id : acts G (generate random id).
Proof.
  apply acts_catch; [|done]. apply first_of_acts. intros p Hp.
  rewrite elem_of_app in Hp. destruct Hp as [Hp|Hp]; apply list_elem_of_fmap in Hp as (i & -> & _);
    unfold try_name; sound.
Qed.

Lemma release_acts identity id : acts G (safeRelease identity id).
Proof. unfold safeRelease, release. sound. Qed.

Lemma claims_acts : acts G (createIssuedClaims tokens).
Proof. unfold createIssuedClaims, clock, randomUUID. sound. Qed.

Lemma revoke_acts skew session identity : acts G (revoke skew session identity).
Proof.
  unfold revoke, clock, ensureConnected. apply acts_bind; [sound|intros now].
  apply acts_catch; [|done]. apply acts_bind; [sound|intros _]. apply acts_bind.
  - apply acts_pipeline; [exact sg_refl|]. intros c w [->|[->|[]%not_elem_of_nil]%elem_of_cons]%elem_of_cons.
    + by apply (sg_set w (KRevoked (gs_id session))).
    + by apply (sg_set w (KDenied (ag_jti identity))).
  - intros results. apply (acts_bind _ (all_ok results) (fun _ => mret ())); [|done]. apply acts_all_ok.
Qed.

Lemma restore_acts skew session now : acts G (restoreSessionRevocation skew session now).
Proof.
  unfold restoreSessionRevocation, unavailable_revocations. apply acts_catch; [|done].
  apply acts_command; [exact sg_refl|]. intros _ w. by apply (sg_set w (KRevoked (gs_id session))).
Qed.
#[local] Hint Resolve release_acts claims_acts restore_acts renew_acts cleanup_acts : sound.

Lemma createAttempt_acts random id hash : acts G (createAttempt tokens random id hash).
Proof.
  unfold createAttempt. apply acts_bind; [apply generate_acts|intros identity].
  apply acts_bind; [apply claims_acts|intros claims].
  apply acts_catch; [|intros e; apply acts_bind; [apply release_acts|sound]].
  apply acts_bind; [apply create_acts|intros result]. sound.
Qed.

Lemma attempts_acts (random : nat -> nat -> Draw) id hash l :
  acts G (first_of (map (fun attempt => createAttempt tokens (random attempt) id hash) l)).
Proof. apply first_of_acts. intros p (i & -> & _)%list_elem_of_fmap. apply createAttempt_acts. Qed.
#[local] Hint Resolve attempts_acts : sound.

(** ** The programs *)

Lemma authenticate_acts request allowRevoked : acts G (authenticate tokens cookieName request allowRevoked).
Proof. unfold authenticate, isRevoked, unavailable_revocations, clock. sound. Qed.

Lemma findCommand_acts hash : acts G (findCommand hash).
Proof. unfold findCommand, asDatabase. sound. Qed.
#[local] Hint Resolve findCommand_acts : sound.

Lemma createSession_acts random key : acts G (createSession tokens random key).
Proof. unfold createSession, stably, randomUUID. sound. Qed.

Lemma renewSession_acts guest key : acts G (renewSession tokens guest key).
Proof. unfold renewSession, stably. sound. Qed.

Lemma getCurrent_acts guest now : acts G (getCurrent guest now).
Proof. unfold getCurrent, stably, findById, asDatabase. sound. Qed.

Lemma reconcile_acts cursor now : acts G (reconcileRevocations tokens batchSize cursor now).
Proof. unfold reconcileRevocations, findLiveRevoked, asDatabase. sound. Qed.
#[local] Hint Resolve reconcile_acts : sound.

Lemma reconcileSafely_acts cursor : acts G (reconcileSafely tokens batchSize cursor).
Proof. unfold reconcileSafely, clock. sound. Qed.

Lemma cleanupSafely_acts : acts G (cleanupSafely batchSize retentionMs).
Proof. unfold cleanupSafely, clock. sound. Qed.

Lemma runOnce_acts cursor now : acts G (runOnce tokens batchSize retentionMs cursor now).
Proof. unfold runOnce. sound. Qed.

(** A reset also ends the guest's game and its connections. *)
Lemma resetSession_acts guest key revoked :
  (forall id, acts G (terminateForReset id)) -> (forall id, acts G (disconnectGuest id)) ->
  acts G (resetSession tokens guest key revoked).
Proof.
  intros Hterminate Hdisconnect.
  pose proof reset_acts as Hreset. assert (Hfinish : forall session, acts G (finishReset tokens session guest)).
  { intros session. apply acts_bind; [apply Hterminate|intros _].
    apply acts_bind; [apply revoke_acts|intros _]. apply Hdisconnect. }
  unfold resetSession, stably, clock. sound.
Qed.
End Actions.
End SessionActions.
