(* ===== verification/SessionInvariant.v ===== *)
(** * What the database holds of guest sessions is always sound

    The invariant of the tables [guest_sessions] and [session_commands], that every
    transaction keeps it, and [sessions_are_sound]: it holds in every state that any
    number of processes reach, whatever happens to the other tables and to Redis.
    [session_records_are_final] says what one transaction may do to the rows there
    are. *)

From S2P Require Export SessionActions.
Local Open Scope string_scope.
Local Open Scope list_scope.
Local Open Scope Z_scope.

(** What the session service relies on of the modules it calls: they leave the tables
    of sessions alone. *)
Definition same_sessions `{Redis} (w w' : World) : Prop :=
  guests (w_db w') = guests (w_db w) /\ sessionCommands (w_db w') = sessionCommands (w_db w).

Class SessionPortsLaws `{Redis, !SessionPorts} : Prop := {
  terminateForReset_acts : forall guest, acts same_sessions (terminateForReset guest);
  disconnectGuest_acts : forall guest, acts same_sessions (disconnectGuest guest)
}.

Module SessionInvariant.
Import Sessions Identity Tokens SessionServices SessionActions.

(** ** The invariant *)

Definition is_reset (c : SessionCommandRow) : Prop := sc_commandType c = toString RESET.

(** The claims of a command are those the session holds now. *)
Definition holds_claims (claims : IssuedSessionClaims) (row : GuestRow) : Prop :=
  s_currentJti row = Some (ic_jti claims) /\ s_issuedAt row = ic_issuedAt claims /\
  s_expiresAt row = ic_expiresAt claims.

Definition command_ok (db : DB) (c : SessionCommandRow) : Prop :=
  session_commands_checks c = true /\ is_Some (guests db !! sc_guestSessionId c) /\
  (issuedClaims_of c = None <-> is_reset c).

Definition guest_ok (db : DB) (id : string) (row : GuestRow) : Prop :=
  guest_sessions_checks row = true /\
  (exists hash c claims, sessionCommands db !! hash = Some c /\ sc_guestSessionId c = id /\
     issuedClaims_of c = Some claims /\ holds_claims claims row) /\
  (is_Some (s_revokedAt row) <->
     exists hash c, sessionCommands db !! hash = Some c /\ sc_guestSessionId c = id /\ is_reset c).

Record sessions_ok (db : DB) : Prop := {
  so_commands : forall hash c, sessionCommands db !! hash = Some c -> command_ok db c;
  so_guests : forall id row, guests db !! id = Some row -> guest_ok db id row;
  so_names : forall id id' row row', guests db !! id = Some row -> guests db !! id' = Some row' ->
    toLower (s_displayName row) = toLower (s_displayName row') -> id = id'
}.

(** ** What the statements do *)
Section Statements.
Context `{Prisma}.

Lemma name_taken_spec db name :
  name_taken db name = false <->
  forall id row, guests db !! id = Some row -> toLower (s_displayName row) <> toLower name.
Proof.
  unfold name_taken. split.
  - intros Hn id row Hrow E. apply not_true_iff_false in Hn. apply Hn, existsb_exists.
    exists (id, row). split; [|by apply bool_decide_eq_true].
    by apply list_elem_of_In, elem_of_map_to_list.
  - intros Hn. apply not_true_iff_false. intros ([id row] & Hin & E)%existsb_exists.
    apply list_elem_of_In, elem_of_map_to_list in Hin. apply bool_decide_eq_true in E. by eapply Hn.
Qed.

Lemma guestSession_create_Ok id row db u db' :
  guestSession_create id row db = Ok (u, db') ->
  guest_sessions_checks row = true /\ name_taken db (s_displayName row) = false /\
  guests db !! id = None /\ db' = with_guests <[id := row]> db.
Proof.
  unfold guestSession_create. destruct (guest_sessions_checks row); [|done]. simpl.
  destruct (name_taken _ _); [done|]. destruct (guests db !! id); [done|]. by intros [= _ <-].
Qed.

Lemma guestSession_update_Ok id f db row' db' :
  guestSession_update id f db = Ok (row', db') ->
  exists row, guests db !! id = Some row /\ row' = f row /\ guest_sessions_checks row' = true /\
    db' = with_guests <[id := row']> db.
Proof.
  unfold guestSession_update. destruct (guests db !! id) as [row|]; [|done].
  destruct (guest_sessions_checks (f row)) eqn:E; [|done]. simpl. intros [= <- <-]. by exists row.
Qed.

Lemma sessionCommand_create_Ok hash c db u db' :
  sessionCommand_create hash c db = Ok (u, db') ->
  session_commands_checks c = true /\ sessionCommands db !! hash = None /\
  is_Some (guests db !! sc_guestSessionId c) /\ db' = with_sessionCommands <[hash := c]> db.
Proof.
  unfold sessionCommand_create. destruct (session_commands_checks c); [|done]. simpl.
  destruct (sessionCommands db !! hash); [done|].
  destruct (guests db !! _) as [g|]; [|done]. intros [= _ <-]. eauto.
Qed.

Lemma liveSession_Ok id now db u db' :
  liveSession id now db = Ok (u, db') ->
  db' = db /\ exists row, guests db !! id = Some row /\ s_revokedAt row = None /\ now < s_expiresAt row.
Proof.
  unfold liveSession. destruct (guests db !! id) as [row|]; [|done].
  destruct (s_revokedAt row) eqn:E; [done|]. simpl. destruct (_ <=? _) eqn:Hx; [done|].
  intros [= _ <-]. split; [done|]. exists row. split_and!; [done..|lia].
Qed.

(** ** What the transactions do *)

Definition session_row (input : CreateGuestSession) (x : Ext) : GuestRow :=
  let claims := cr_issuedClaims input in
  mkGuestRow (env_observedAt (x_env x)) (cr_displayName input) (cr_avatarKey input)
    (Some (ic_jti claims)) (ic_issuedAt claims) (ic_expiresAt claims) None.

Lemma createWork_Ok input x db r db' :
  let id := cr_guestSessionId input in
  let row := session_row input x in
  let c := issued_command CREATE id (cr_issuedClaims input) in
  createWork input x db = Ok (r, db') ->
  guest_sessions_checks row = true /\ name_taken db (s_displayName row) = false /\
  guests db !! id = None /\ session_commands_checks c = true /\
  sessionCommands db !! cr_idempotencyHash input = None /\
  r = mkMutation false (mkReplay CREATE (toGuestSession id row) (Some (cr_issuedClaims input))) /\
  db' = with_sessionCommands <[cr_idempotencyHash input := c]> (with_guests <[id := row]> db).
Proof.
  intros id row c. unfold createWork.
  intros (u & db1 & Hg & Hc)%tx_bind_Ok. apply guestSession_create_Ok in Hg as (Hrow & Hn & Hid & ->).
  apply tx_bind_Ok in Hc as (u' & db2 & Hc & [= <- <-]).
  apply sessionCommand_create_Ok in Hc as (Hchk & Hh & _ & ->). by split_and!.
Qed.

Lemma renewWork_Ok input db r db' :
  let id := rn_guestSessionId input in
  let claims := rn_issuedClaims input in
  let c := issued_command RENEW id claims in
  renewWork input db = Ok (r, db') ->
  exists row, guests db !! id = Some row /\ s_revokedAt row = None /\
    ic_issuedAt claims < s_expiresAt row /\ guest_sessions_checks (renewed claims row) = true /\
    session_commands_checks c = true /\ sessionCommands db !! rn_idempotencyHash input = None /\
    r = mkMutation false (mkReplay RENEW (toGuestSession id (renewed claims row)) (Some claims)) /\
    db' = with_sessionCommands <[rn_idempotencyHash input := c]>
            (with_guests <[id := renewed claims row]> db).
Proof.
  intros id claims c. unfold renewWork.
  intros (u & db0 & Hl & Hw)%tx_bind_Ok. apply liveSession_Ok in Hl as (-> & row & Hrow & Hrev & Hexp).
  apply tx_bind_Ok in Hw as (row' & db1 & Hu & Hw).
  apply guestSession_update_Ok in Hu as (row0 & Hrow0 & -> & Hchk & ->).
  rewrite Hrow in Hrow0. injection Hrow0 as <-.
  apply tx_bind_Ok in Hw as (u' & db2 & Hc & [= <- <-]).
  apply sessionCommand_create_Ok in Hc as (Hcc & Hh & _ & ->). exists row. by split_and!.
Qed.

Lemma resetWork_Ok input db r db' :
  let id := rs_guestSessionId input in
  let t := rs_revokedAt input in
  let c := mkSessionCommandRow (toString RESET) id None None None in
  resetWork input db = Ok (r, db') ->
  exists row, guests db !! id = Some row /\ s_revokedAt row = None /\ t < s_expiresAt row /\
    guest_sessions_checks (revoked t row) = true /\
    sessionCommands db !! rs_idempotencyHash input = None /\
    r = mkMutation false (mkReplay RESET (toGuestSession id (revoked t row)) None) /\
    db' = with_sessionCommands <[rs_idempotencyHash input := c]>
            (with_guests <[id := revoked t row]> db).
Proof.
  intros id t c. unfold resetWork.
  intros (u & db0 & Hl & Hw)%tx_bind_Ok. apply liveSession_Ok in Hl as (-> & row & Hrow & Hrev & Hexp).
  apply tx_bind_Ok in Hw as (row' & db1 & Hu & Hw).
  apply guestSession_update_Ok in Hu as (row0 & Hrow0 & -> & Hchk & ->).
  rewrite Hrow in Hrow0. injection Hrow0 as <-.
  apply tx_bind_Ok in Hw as (u' & db2 & Hc & [= <- <-]).
  apply sessionCommand_create_Ok in Hc as (_ & Hh & _ & ->). exists row. by split_and!.
Qed.

(** ** The transactions keep the invariant *)

(** A session's row is written together with a command of it. *)
Definition recorded (hash : string) (c : SessionCommandRow) (id : string) (row : GuestRow) (db : DB) : DB :=
  with_sessionCommands <[hash := c]> (with_guests <[id := row]> db).

Lemma recorded_command hash c id row db hash' c' :
  sessionCommands db !! hash = None ->
  sessionCommands (recorded hash c id row db) !! hash' = Some c' <->
  (hash' = hash /\ c' = c) \/ sessionCommands db !! hash' = Some c'.
Proof. intros Hh. simpl. rewrite lookup_insert_Some. split; [naive_solver|]. intros [[-> ->]|Hc]; naive_solver. Qed.

Lemma recorded_new hash c id row db :
  sessionCommands (recorded hash c id row db) !! hash = Some c.
Proof. apply lookup_insert_eq. Qed.

Lemma recorded_ok hash c id row db :
  sessions_ok db -> sessionCommands db !! hash = None ->
  sc_guestSessionId c = id -> session_commands_checks c = true ->
  (issuedClaims_of c = None <-> is_reset c) ->
  (forall id' row', guests db !! id' = Some row' ->
     toLower (s_displayName row') = toLower (s_displayName row) -> id' = id) ->
  guest_ok (recorded hash c id row db) id row -> sessions_ok (recorded hash c id row db).
Proof.
  intros Hok Hh Hid Hc Hreset Hname Hrow. split.
  - intros h' c' [[-> ->]|Hc']%recorded_command; [| |done].
    + split_and!; [done| |done]. simpl. rewrite Hid, lookup_insert_eq. by eexists.
    + destruct (so_commands _ Hok _ _ Hc') as (? & [g Hg] & ?). split_and!; [done| |done].
      simpl. destruct (decide (sc_guestSessionId c' = id)) as [->|Hne].
      * rewrite lookup_insert_eq. by eexists.
      * rewrite lookup_insert_ne by congruence. by eexists.
  - intros id' row' Hg. simpl in Hg. apply lookup_insert_Some in Hg as [[<- <-]|[Hne Hg]]; [done|].
    destruct (so_guests _ Hok _ _ Hg) as (? & (h & c0 & claims & Hc0 & ? & ?) & Hrev).
    split_and!; [done| |].
    + exists h, c0, claims. split; [|done]. apply recorded_command; auto.
    + rewrite Hrev. split; intros (h' & c' & Hc' & Hg' & Hr).
      * exists h', c'. split; [|done]. apply recorded_command; auto.
      * exists h', c'. apply recorded_command in Hc' as [[-> ->]|Hc']; [congruence|done|done].
  - intros id1 id2 r1 r2 H1 H2 E. simpl in H1, H2.
    apply lookup_insert_Some in H1 as [[<- <-]|[N1 H1]], H2 as [[<- <-]|[N2 H2]]; [done|..].
    + symmetry. by eapply Hname.
    + by eapply Hname.
    + by eapply (so_names _ Hok).
Qed.

Lemma issued_claims_ok t id claims : issuedClaims_of (issued_command t id claims) = Some claims.
Proof. by destruct claims. Qed.

Lemma createWork_ok input x db r db' :
  sessions_ok db -> createWork input x db = Ok (r, db') -> sessions_ok db'.
Proof.
  intros Hok (Hchk & Hn & Hid & Hc & Hh & _ & ->)%createWork_Ok.
  set (id := cr_guestSessionId input) in *. apply recorded_ok; try done.
  - intros id' row' Hg E. destruct (proj1 (name_taken_spec _ _) Hn id' row' Hg E).
  - split_and!; [done| |].
    + eexists _, _, (cr_issuedClaims input). split; [apply recorded_new|].
      split; [done|]. split; [apply issued_claims_ok|repeat split].
    + split; [by intros [? ?]|]. intros (h & c & [[-> ->]|Hc']%recorded_command & Hg & Hr);
        [discriminate Hr| |done].
      destruct (so_commands _ Hok _ _ Hc') as (_ & [g Hg'] & _). rewrite Hg in Hg'. congruence.
Qed.

Lemma renewWork_ok input db r db' :
  sessions_ok db -> renewWork input db = Ok (r, db') -> sessions_ok db'.
Proof.
  intros Hok (row & Hrow & Hrev & _ & Hchk & Hc & Hh & _ & ->)%renewWork_Ok.
  set (id := rn_guestSessionId input) in *. apply recorded_ok; try done.
  - intros id' row' Hg E. by apply (so_names _ Hok _ _ _ _ Hg Hrow).
  - destruct (so_guests _ Hok _ _ Hrow) as (_ & _ & Hold). split_and!; [done| |].
    + eexists _, _, (rn_issuedClaims input). split; [apply recorded_new|].
      split; [done|]. split; [apply issued_claims_ok|repeat split].
    + etransitivity; [exact Hold|]. split; intros (h & c & Hc' & Hg & Hr).
      * exists h, c. split; [|done]. apply recorded_command; auto.
      * exists h, c. apply recorded_command in Hc' as [[-> ->]|Hc']; [discriminate Hr|done|done].
Qed.

Lemma resetWork_ok input db r db' :
  sessions_ok db -> resetWork input db = Ok (r, db') -> sessions_ok db'.
Proof.
  intros Hok (row & Hrow & Hrev & _ & Hchk & Hh & _ & ->)%resetWork_Ok.
  set (id := rs_guestSessionId input) in *. apply recorded_ok; try done.
  - intros id' row' Hg E. by apply (so_names _ Hok _ _ _ _ Hg Hrow).
  - destruct (so_guests _ Hok _ _ Hrow) as (_ & (h & c & claims & Hc & ?) & _). split_and!; [done| |].
    + exists h, c, claims. split; [|done]. apply recorded_command; auto.
    + split; [|by eexists]. intros _. eexists _, _. split; [apply recorded_new|done].
Qed.

Lemma cleanupWork_ok cutoff limit locked db r db' :
  sessions_ok db -> cleanupWork cutoff limit locked db = Ok (r, db') -> sessions_ok db'.
Proof.
  intros Hok [= _ <-]. set (ids := Sessions.candidates db cutoff limit locked). split; simpl.
  - intros h c [Hc Hni]%map_lookup_filter_Some.
    destruct (so_commands _ Hok _ _ Hc) as (? & [g Hg] & ?). split_and!; [done| |done].
    exists g. by apply map_lookup_filter_Some.
  - intros id row [Hg Hni]%map_lookup_filter_Some. simpl in Hni.
    destruct (so_guests _ Hok _ _ Hg) as (? & (h & c & claims & Hc & <- & ?) & Hrev).
    split_and!; [done| |].
    + exists h, c, claims. split; [|done]. by apply map_lookup_filter_Some.
    + rewrite Hrev. split; intros (h' & c' & Hc' & E & Hr); exists h', c'.
      * split; [|done]. apply map_lookup_filter_Some. simpl. by rewrite E.
      * by apply map_lookup_filter_Some in Hc' as [? _].
  - intros id id' row row' [Hg _]%map_lookup_filter_Some [Hg' _]%map_lookup_filter_Some.
    by apply (so_names _ Hok).
Qed.

(** ** What one transaction may do to the rows there are

    A command stays as it was recorded, and goes only with its session. A session
    keeps its name, its avatar and its creation, and once it is revoked it stays as
    it is; it goes only when nothing of a game names it. *)
Definition same_person (row row' : GuestRow) : Prop :=
  s_displayName row' = s_displayName row /\ s_avatarKey row' = s_avatarKey row /\
  s_createdAt row' = s_createdAt row.

Definition evolves (db db' : DB) : Prop :=
  (forall hash c, sessionCommands db !! hash = Some c ->
     sessionCommands db' !! hash = Some c \/
     (sessionCommands db' !! hash = None /\ guests db' !! sc_guestSessionId c = None)) /\
  (forall id row, guests db !! id = Some row ->
     (guests db' !! id = None /\ referenced db id = false) \/
     (exists row', guests db' !! id = Some row' /\ same_person row row' /\
        (is_Some (s_revokedAt row) -> row' = row))).

Lemma evolves_refl db : evolves db db.
Proof. split; [by left|]. intros id row Hrow. right. by exists row. Qed.

Lemma recorded_evolves hash c id row db :
  sessionCommands db !! hash = None ->
  (forall row0, guests db !! id = Some row0 -> same_person row0 row /\ s_revokedAt row0 = None) ->
  evolves db (recorded hash c id row db).
Proof.
  intros Hh Hrow. split.
  - intros h' c' Hc'. left. apply recorded_command; auto.
  - intros id' row' Hg. right. simpl. destruct (decide (id' = id)) as [->|Hne].
    + destruct (Hrow _ Hg) as [Hs Hr]. exists row. rewrite lookup_insert_eq.
      split_and!; [done..|]. rewrite Hr. by intros [? ?].
    + exists row'. by rewrite lookup_insert_ne by congruence.
Qed.

Lemma createWork_evolves input x db r db' : createWork input x db = Ok (r, db') -> evolves db db'.
Proof.
  intros (_ & _ & Hid & _ & Hh & _ & ->)%createWork_Ok. apply recorded_evolves; [done|].
  intros row0 Hrow. congruence.
Qed.

Lemma renewWork_evolves input db r db' : renewWork input db = Ok (r, db') -> evolves db db'.
Proof.
  intros (row & Hrow & Hrev & _ & _ & _ & Hh & _ & ->)%renewWork_Ok. apply recorded_evolves; [done|].
  intros row0 Hrow0. rewrite Hrow in Hrow0. by injection Hrow0 as <-.
Qed.

Lemma resetWork_evolves input db r db' : resetWork input db = Ok (r, db') -> evolves db db'.
Proof.
  intros (row & Hrow & Hrev & _ & _ & Hh & _ & ->)%resetWork_Ok. apply recorded_evolves; [done|].
  intros row0 Hrow0. rewrite Hrow in Hrow0. by injection Hrow0 as <-.
Qed.

Lemma candidates_unreferenced db cutoff limit locked id :
  id ∈ Sessions.candidates db cutoff limit locked -> referenced db id = false.
Proof.
  unfold Sessions.candidates. intros ([id' row] & -> & Hin)%list_elem_of_fmap.
  apply elem_of_take in Hin as (i & Hi & _). apply list_elem_of_lookup_2 in Hi.
  rewrite orderBy_perm in Hi. apply list_elem_of_filter in Hi as [[[_ Hr]%andb_true_iff _]%andb_true_iff _].
  by apply negb_true_iff.
Qed.

Lemma cleanupWork_evolves cutoff limit locked db r db' :
  cleanupWork cutoff limit locked db = Ok (r, db') -> evolves db db'.
Proof.
  intros [= _ <-]. set (ids := Sessions.candidates db cutoff limit locked). split; simpl.
  - intros h c Hc. destruct (decide (sc_guestSessionId c ∈ ids)) as [Hin|Hni].
    + right. split; apply map_lookup_filter_None; right; naive_solver.
    + left. by apply map_lookup_filter_Some.
  - intros id row Hrow. destruct (decide (id ∈ ids)) as [Hin|Hni].
    + left. split; [apply map_lookup_filter_None; right; naive_solver|].
      by eapply candidates_unreferenced.
    + right. exists row. split; [by apply map_lookup_filter_Some|done].
Qed.
End Statements.

(** ** The programs *)
Section Services.
Context `{JsonText} `{NodeCrypto} `{NodeHash} `{Prisma} `{Redis} `{!SessionPorts, !SessionPortsLaws}.
Context (tokens : JwtTokenService) (cookieName : string) (batchSize : nat) (retentionMs : Z).

Definition sound_step (w w' : World) : Prop :=
  sessions_ok (w_db w) -> sessions_ok (w_db w') /\ evolves (w_db w) (w_db w').

Lemma sound_refl w : sound_step w w.
Proof. intros Hw. split; [done|apply evolves_refl]. Qed.

Lemma sound_redis w r : sound_step w (mkWorld (w_db w) r).
Proof. intros Hw. split; [done|apply evolves_refl]. Qed.

Lemma same_sessions_ok db db' :
  guests db' = guests db -> sessionCommands db' = sessionCommands db -> sessions_ok db -> sessions_ok db'.
Proof.
  intros Eg Ec [Hc Hg Hn]. split; rewrite ?Eg, ?Ec; [|intros id row Hrow|done].
  - intros h c Hc'. destruct (Hc _ _ Hc') as (? & ? & ?). split_and!; [done| |done]. by rewrite Eg.
  - destruct (Hg _ _ Hrow) as (? & Hex & Hrev). split_and!; [done| |]; by rewrite Ec.
Qed.

Lemma same_sessions_sound w w' : same_sessions w w' -> sound_step w w'.
Proof.
  intros [Eg Ec] Hw. split; [by eapply same_sessions_ok|].
  split; intros k v Hv; [left; by rewrite Ec|right; exists v; by rewrite Eg].
Qed.

(** The programs of the session and identity services. *)
Inductive session_service : forall A : Type, Prog A -> Prop :=
| SS_authenticate request allowRevoked :
    session_service _ (authenticate tokens cookieName request allowRevoked)
| SS_create random key : session_service _ (createSession tokens random key)
| SS_renew guest key : session_service _ (renewSession tokens guest key)
| SS_current guest now : session_service _ (getCurrent guest now)
| SS_reset guest key revoked : session_service _ (resetSession tokens guest key revoked)
| SS_reconcile cursor : session_service _ (reconcileSafely tokens batchSize cursor)
| SS_cleanup : session_service _ (cleanupSafely batchSize retentionMs)
| SS_runOnce cursor now : session_service _ (runOnce tokens batchSize retentionMs cursor now).

Lemma session_work_sound db db' :
  session_work db db' -> sessions_ok db -> sessions_ok db' /\ evolves db db'.
Proof.
  intros Hw Hok. destruct Hw as [input x r Hw|input r Hw|input r Hw|cutoff limit locked r Hw]; split;
    eauto using createWork_ok, renewWork_ok, resetWork_ok, cleanupWork_ok, createWork_evolves,
      renewWork_evolves, resetWork_evolves, cleanupWork_evolves.
Qed.

#[local] Instance sound_guarantee : SessionGuarantee sound_step.
Proof.
  split; [exact sound_refl|intros; apply sound_redis..|].
  intros w db' Hw Hok. by apply session_work_sound.
Qed.

Lemma session_service_acts A p : session_service A p -> acts sound_step p.
Proof.
  intros Hp. destruct Hp; eauto using authenticate_acts, createSession_acts, renewSession_acts,
    getCurrent_acts, reconcileSafely_acts, cleanupSafely_acts, runOnce_acts with typeclass_instances.
  apply resetSession_acts; [exact sound_guarantee|..]; intros id;
    apply (acts_mono _ _ _ same_sessions_sound); [apply terminateForReset_acts|apply disconnectGuest_acts].
Qed.

(** No transaction of the session services, nor any other action of theirs, at
    whatever point of whatever program, changes what is on record except as follows:
    a command of an idempotency key stays as it was recorded, and goes only together
    with its session; a session keeps its name, avatar and creation time, is not
    touched once it is revoked, and goes only when nothing of a game names it. *)
Theorem session_records_are_final A p :
  session_service A p ->
  acts (fun w w' => sessions_ok (w_db w) -> evolves (w_db w) (w_db w')) p.
Proof.
  intros Hp%session_service_acts. eapply acts_mono; [|exact Hp]. intros w w' Hs Hw. by apply Hs.
Qed.

(** ** Interleaved with everything else *)

Inductive session_program : Prog () -> Prop :=
| Session_program {A} (p : Prog A) : session_service A p -> session_program (_ ← p; mret ()).

(** C10: the tables of sessions are always sound. Start without sessions, and let any
    number of processes run any programs of the session services, interleaved in any
    way, each possibly stopped at any of its actions, with answers that may be lost,
    while the rest of the database and Redis change in any way. Then at every time:
    every command on record belongs to a session there is, and has the claims of a
    token just if it is no reset; every session holds exactly the claims of one of
    its commands, and is revoked just if a reset of it is on record; names are unique
    up to case; and the CHECK constraints hold. *)
Theorem sessions_are_sound ts w w' :
  guests (w_db w) = ∅ -> sessionCommands (w_db w) = ∅ ->
  rtc (machine_step (fun _ _ => True) session_program same_sessions) ([], w) (ts, w') ->
  sessions_ok (w_db w').
Proof.
  intros Eg Ec Hrun. pose (kept w1 w2 := sessions_ok (w_db w1) -> sessions_ok (w_db w2)).
  assert (PreOrder kept) by (split; [by intros ? ?|intros w1 w2 w3 H12 H23 Hw; auto]).
  eapply (adequacy kept kept (fun _ _ => True) session_program same_sessions
    (fun _ _ HR => HR) (fun w1 w2 HS Hw => proj1 (same_sessions_sound _ _ HS Hw))
    (fun w => sessions_ok (w_db w)) (fun _ _ Hw HR => HR Hw)); [|exact Hrun| |by constructor].
  - intros p w0 _ [A q Hq]. apply wp_acts, acts_bind; [|done].
    eapply acts_mono; [|by apply session_service_acts]. intros w1 w2 Hs Hw. by apply Hs.
  - split; rewrite ?Eg, ?Ec; by intros ? ?; rewrite lookup_empty.
Qed.
End Services.
End SessionInvariant.
