(* ===== verification/SessionTokens.v ===== *)
(** * Tokens of sessions, from their issue to their end

    What the tables, the tokens and the marks in Redis make together: a token that was
    handed out verifies to its session, a retried request is answered with the same
    token, a revoked session's tokens are refused as long as they could be accepted,
    and the maintenance job restores every mark that was lost. *)

From S2P Require Export SessionInvariant.
Local Open Scope string_scope.
Local Open Scope list_scope.
Local Open Scope Z_scope.

Module SessionTokens.
Import Sessions Identity Tokens SessionServices SessionInvariant.

Section Services.
Context `{JsonText, !JsonTextLaws} `{NodeCrypto, !NodeCryptoLaws} `{NodeHash} `{Prisma}.
Context `{RedisLaws} `{!SessionPorts}.

(** ** Issued tokens *)

(** The token of an answer verifies, at any time, as one issued for the session of the
    answer, with some claims of the configured lifetime. *)
Definition good_token (tokens : JwtTokenService) (s : IssuedGuestSession) : Prop :=
  let guest := is_guest s in
  exists expiresAt issuedAt jti,
    expiresAt / 1000 = issuedAt / 1000 + ttlSeconds tokens /\
    forall t, (String.length (is_token s) <= 8192)%nat ->
      verify tokens (is_token s) t =
      judged tokens
        (mkIssuance (pg_avatar guest) (pg_name guest) (pg_id guest) expiresAt issuedAt jti) t.

Section Issued.
Context (kid : string) (ttl skew : Z) (key : PrivateKey) (entries : list DirectoryEntry).
Context (tokens : JwtTokenService) (Hmade : construct kid skew ttl key entries = Some tokens).

Lemma toIssuedSession_good command replayed s :
  toIssuedSession tokens command replayed = Ok s ->
  good_token tokens s /\ pg_id (is_guest s) = gs_id (rp_guestSession command) /\
  is_replayed s = replayed.
Proof.
  unfold toIssuedSession. destruct (rp_issuedClaims command) as [claims|]; [|done].
  destruct (issue tokens _) as [token|] eqn:Hi; [|done]. intros [= <-]. split; [|done].
  exists (ic_expiresAt claims), (ic_issuedAt claims), (ic_jti claims). split.
  - unfold issue in Hi. apply bind_Some in Hi as (c & Hc & Hi).
    apply claims_parsed in Hc as ->. simpl in Hi. destruct (_ =? _) eqn:E; [|done]. lia.
  - intros t Hl. exact (issued_tokens_verify _ _ _ _ _ _ _ _ t Hmade Hi Hl).
Qed.

Lemma returns_lift {A} (Q : A -> Prop) (r : result fault A) :
  (forall a, r = Ok a -> Q a) -> returns Q (lift r).
Proof. intros HQ. destruct r; simpl; auto. Qed.

(** A part of a program whose result does not matter, and the rest. *)
Lemma returns_then {A B} (Q : B -> Prop) (p : Prog A) (f : A -> Prog B) :
  (forall a, returns Q (f a)) -> returns Q (p ≫= f).
Proof. intros Hf. apply (returns_bind (fun _ => True)); [apply returns_any|auto]. Qed.

Lemma returns_first_of {A} (Q : A -> Prop) (tries : list (Prog (option A))) :
  (forall p, p ∈ tries -> returns (fun r => forall a, r = Some a -> Q a) p) -> returns Q (first_of tries).
Proof.
  induction tries as [|p tries IH]; intros Ht; [done|]. simpl.
  apply (returns_bind _ _ _ _ (Ht p (list_elem_of_here _ _))). intros [a|] Ha; [by apply Ha|].
  apply IH. intros q Hq. apply Ht. by right.
Qed.

Lemma assertCommand_Ok command t id :
  assertCommand command t id = Ok () ->
  rp_commandType command = t /\ (forall i, id = Some i -> gs_id (rp_guestSession command) = i) /\
  (t <> RESET -> is_Some (rp_issuedClaims command)).
Proof.
  unfold assertCommand. case_bool_decide as Ht; simpl; [|done].
  destruct (match id with Some _ => _ | None => _ end) eqn:Hid; [done|].
  intros Hc. split_and!; [done| |].
  - intros i ->. by apply negb_false_iff, bool_decide_eq_true in Hid.
  - intros Hr. destruct (rp_issuedClaims command); [done|]. by destruct t.
Qed.

(** Whatever happens while a session is created or renewed, an answer the guest gets
    carries a token that verifies, from then on and until it expires, exactly as the
    session of the answer; and a renewal answers for the session it was asked for. *)
Theorem issued_sessions_authenticate random guest idempotencyKey :
  returns (good_token tokens) (createSession tokens random idempotencyKey) /\
  returns (fun s => good_token tokens s /\ pg_id (is_guest s) = ag_guestSessionId guest)
    (renewSession tokens guest idempotencyKey).
Proof.
  split.
  - apply returns_then. intros hash. apply returns_catch; [|done]. apply returns_then.
    intros [existing|].
    + apply returns_then. intros _. apply returns_lift. intros s Hs.
      exact (proj1 (toIssuedSession_good _ _ _ Hs)).
    + apply returns_then. intros id. apply returns_first_of.
      intros p (attempt & -> & _)%list_elem_of_fmap.
      apply returns_then. intros identity. apply returns_then. intros claims.
      apply returns_catch; [|intros e; apply returns_then; intros _; by repeat case_match].
      apply returns_then. intros result. apply returns_then. intros _. apply returns_then. intros _.
      apply (returns_bind (good_token tokens)); [|intros s Hs; simpl; by intros a [= <-]].
      apply returns_lift. intros s Hs. exact (proj1 (toIssuedSession_good _ _ _ Hs)).
  - assert (Hfinal : forall command replayed,
      returns (fun s => good_token tokens s /\ pg_id (is_guest s) = ag_guestSessionId guest)
        (_ ← lift (assertCommand command RENEW (Some (ag_guestSessionId guest)));
         lift (toIssuedSession tokens command replayed))).
    { intros command replayed. apply (returns_bind (fun _ => gs_id (rp_guestSession command) =
        ag_guestSessionId guest)).
      - apply returns_lift. intros [] Ha%assertCommand_Ok. by apply Ha.
      - intros _ Hid. apply returns_lift. intros s Hs.
        apply toIssuedSession_good in Hs as (Hs & -> & _). by split. }
    apply returns_then. intros hash. apply returns_catch; [|done]. apply returns_then.
    intros [existing|]; [apply Hfinal|]. apply returns_then. intros claims.
    apply returns_then. intros result. apply Hfinal.
Qed.
End Issued.

(** ** Retried requests *)

(** What the transactions of the session services do to the tables, as long as the
    commands under [hash] are not cleaned up. *)
Definition kept_step (hash : string) (db db' : DB) : Prop :=
  evolves db db' /\ sessions_ok db' /\
  (is_Some (sessionCommands db !! hash) -> is_Some (sessionCommands db' !! hash)).

Definition goes_on (hash : string) (w w' : World) : Prop := rtc (kept_step hash) (w_db w) (w_db w').

(** The claims of a command on record, and the name and avatar of its session, are those
    of [command]; whether the session lives still, and until when, may change. *)
Definition on_file (hash : string) (command : SessionCommandReplay) (db : DB) : Prop :=
  exists c row,
    sessionCommands db !! hash = Some c /\ guests db !! sc_guestSessionId c = Some row /\
    commandType_of (sc_commandType c) = Some (rp_commandType command) /\
    issuedClaims_of c = rp_issuedClaims command /\
    gs_id (rp_guestSession command) = sc_guestSessionId c /\
    s_displayName row = gs_displayName (rp_guestSession command) /\
    s_avatarKey row = gs_avatarKey (rp_guestSession command).

Section Retry.
Context (hash : string).

Notation on_file := (on_file hash).

Lemma on_file_kept command w w' :
  goes_on hash w w' -> on_file command (w_db w) -> on_file command (w_db w').
Proof.
  unfold goes_on. generalize (w_db w) (w_db w'). intros db db' Hrun.
  induction Hrun as [db|db db1 db2 (Hev & Hok & Hkept) _ IH]; [done|].
  intros (c & row & Hc & Hrow & Ht & Hcl & Hid & Hn & Ha). apply IH. destruct Hev as [Hcs Hgs].
  destruct (Hkept ltac:(by eexists)) as [c' Hc'].
  destruct (Hcs _ _ Hc) as [Hc1|[Hc1 _]]; [|congruence].
  destruct (so_commands _ Hok _ _ Hc1) as (_ & [g Hg] & _).
  destruct (Hgs _ _ Hrow) as [[Hgone _]|(row1 & Hrow1 & (Hn1 & Ha1 & _) & _)]; [congruence|].
  exists c, row1. split_and!; congruence.
Qed.

Lemma findReplay_on_file db command : findReplay db hash = Ok (Some command) -> on_file command db.
Proof.
  unfold findReplay. destruct (sessionCommands db !! hash) as [c|] eqn:Hc; [|done].
  destruct (guests db !! sc_guestSessionId c) as [row|] eqn:Hrow; [|done].
  unfold toCommandReplay. destruct (commandType_of _) as [t|] eqn:Ht; [|done]. simpl. intros [= <-].
  exists c, row. done.
Qed.

(** Such a command is read back with the same claims, and answered with the same token. *)
Lemma on_file_answered tokens command replayed s t id db :
  on_file command db -> assertCommand command t id = Ok () ->
  toIssuedSession tokens command replayed = Ok s ->
  exists found s', findReplay db hash = Ok (Some found) /\ assertCommand found t id = Ok () /\
    toIssuedSession tokens found true = Ok s' /\ is_token s' = is_token s /\
    is_replayed s' = true /\ pg_id (is_guest s') = pg_id (is_guest s).
Proof.
  intros (c & row & Hc & Hrow & Ht & Hcl & Hid & Hn & Ha) Has Hs.
  unfold findReplay. rewrite Hc, Hrow. unfold toCommandReplay. rewrite Ht. cbn [fmap result_fmap].
  unfold toIssuedSession in Hs. destruct (rp_issuedClaims command) as [claims|] eqn:Ecl; [|done].
  destruct (issue tokens _) as [token|] eqn:Ei; [|done]. injection Hs as <-.
  eexists _, _. split; [reflexivity|]. unfold assertCommand, toIssuedSession in *.
  cbn [rp_commandType rp_guestSession rp_issuedClaims toGuestSession gs_id] in *.
  rewrite Hcl. rewrite Hid, Ecl in Has. split; [exact Has|].
  assert (issuance (toGuestSession (sc_guestSessionId c) row) claims =
          issuance (rp_guestSession command) claims) as -> by (unfold issuance; simpl; congruence).
  rewrite Ei. by split.
Qed.

(** ** Knowing what is on record, under interference

    [known P p Q]: started where [P] holds, whatever the session services of others do
    meanwhile, what [p] returns satisfies [Q] of the tables when it returns. *)
Notation wp := (wp (goes_on hash) (fun _ _ => True) (fun _ _ => True)).

Definition known {A} (P : DB -> Prop) (p : Prog A) (Q : A -> DB -> Prop) : Prop :=
  forall w, P (w_db w) -> wp p (fun r w' => forall a, r = Ok a -> Q a (w_db w')) w.

Definition kept (P : DB -> Prop) : Prop := forall w w', goes_on hash w w' -> P (w_db w) -> P (w_db w').

Lemma known_ret {A} P (a : A) (Q : A -> DB -> Prop) : (forall db, P db -> Q a db) -> known P (mret a) Q.
Proof. intros HQ w Hw _ [= <-]. by apply HQ. Qed.

Lemma known_throw {A} P e (Q : A -> DB -> Prop) : known P (Throw e) Q.
Proof. by intros w _ a [=]. Qed.

Lemma known_lift {A} P (r : result fault A) (Q : A -> DB -> Prop) :
  (forall a db, r = Ok a -> P db -> Q a db) -> known P (lift r) Q.
Proof. intros HQ. destruct r as [a|e]; [apply known_ret; auto|apply known_throw]. Qed.

Lemma known_bind {A B} P (p : Prog A) (f : A -> Prog B) Q Q' :
  known P p Q -> (forall a, known (Q a) (f a) Q') -> known P (p ≫= f) Q'.
Proof.
  intros Hp Hf w Hw. apply wp_bind. eapply wp_mono; [|by apply Hp].
  intros [a|e] w' Ha; [by apply Hf, Ha|done].
Qed.

Lemma known_catch {A} P (p : Prog A) h Q :
  known P p Q -> (forall e, known (fun _ => True) (h e) Q) -> known P (catch p h) Q.
Proof.
  intros Hp Hh w Hw. apply wp_catch. eapply wp_mono; [|by apply Hp].
  intros [a|e] w' Ha; [done|by apply Hh].
Qed.

Lemma known_any {A} P (p : Prog A) : known P p (fun _ _ => True).
Proof.
  intros w _. eapply wp_mono; [|apply wp_acts]; [done|].
  induction p as [a|e|X act k IH]; simpl; auto.
Qed.

Lemma known_then {A B} P (p : Prog A) (f : A -> Prog B) Q :
  (forall a, known (fun _ => True) (f a) Q) -> known P (p ≫= f) Q.
Proof. intros Hf. by eapply known_bind; [apply known_any|]. Qed.

(** A program that leaves the tables alone. *)
Lemma known_frame {A} P (p : Prog A) :
  kept P -> acts (fun w w' => w_db w' = w_db w) p -> known P p (fun _ => P).
Proof.
  intros HP Hp w Hw. revert w Hw. induction p as [a|e|X act k IH]; intros w Hw; simpl;
    [by intros _ [= <-]|done|].
  destruct Hp as [Ha Hk]. intros w1 x HR _. split; [done|]. apply IH; [done|].
  rewrite Ha. by eapply HP.
Qed.

Lemma kept_on_file command : kept (on_file command).
Proof. intros w w'. apply on_file_kept. Qed.

Lemma release_frame identity id : acts (fun w w' => w_db w' = w_db w) (safeRelease identity id).
Proof.
  apply acts_catch; [|done]. unfold release, releaseName. repeat case_match; try done.
  all: repeat first [apply acts_catch; [|intros ?]|apply acts_bind; [|intros ?]|done
                    |apply acts_command; [done|done]].
Qed.

Notation found := (fun r db => forall command, r = Some command -> on_file command db).

Lemma known_findReplay P : known P (query (fun _ db => findReplay db hash)) found.
Proof.
  intros w _. apply wp_perform. intros w1 x _ _. split; [done|]. intros r.
  unfold dbOp. destruct (x_db x); simpl; try done.
  destruct (findReplay (w_db w1) hash) as [command'|] eqn:Ef; [|done]. intros [= <-] command ->.
  by apply findReplay_on_file.
Qed.

Lemma known_findCommand P : known P (findCommand hash) found.
Proof. apply known_catch; [apply known_findReplay|intros e; apply known_throw]. Qed.

Lemma known_transaction P (work : Ext -> tx DB fault SessionMutationResult) Q :
  (forall x db r db', work x db = Ok (r, db') -> Q r db') -> known P (transaction work) Q.
Proof.
  intros Hwork w _. apply wp_perform. intros w1 x _ _. split; [done|]. intros r Hr.
  unfold workOp in *. destruct (work x (w_db w1)) as [[r' db']|] eqn:Ew, (x_db x); try done.
  injection Hr as <-. by eapply Hwork.
Qed.

Lemma known_mutate P b work :
  (forall x db r db', work x db = Ok (r, db') -> on_file (mu_value r) db') ->
  known P (mutate hash b work) (fun r => on_file (mu_value r)).
Proof.
  intros Hwork. apply known_catch.
  - eapply known_bind; [apply known_findReplay|].
    intros [existing|]; [apply known_ret; auto|by apply known_transaction].
  - intros e. unfold recoverUniqueOrThrow.
    repeat case_match; try apply known_throw;
      (eapply known_bind; [apply known_findCommand|]; intros [replay|];
       [apply known_ret; auto|]; repeat case_match; apply known_throw).
Qed.

Lemma issued_command_claims t id claims : issuedClaims_of (issued_command t id claims) = Some claims.
Proof. by destruct claims. Qed.

Lemma create_on_file input x db r db' :
  cr_idempotencyHash input = hash -> createWork input x db = Ok (r, db') -> on_file (mu_value r) db'.
Proof.
  intros <- (_ & _ & _ & _ & _ & -> & ->)%createWork_Ok.
  exists (issued_command CREATE (cr_guestSessionId input) (cr_issuedClaims input)), (session_row input x).
  split_and!; simpl; rewrite ?lookup_insert_eq; try done. apply issued_command_claims.
Qed.

Lemma renew_on_file input db r db' :
  rn_idempotencyHash input = hash -> renewWork input db = Ok (r, db') -> on_file (mu_value r) db'.
Proof.
  intros <- (row & _ & _ & _ & _ & _ & _ & -> & ->)%renewWork_Ok.
  exists (issued_command RENEW (rn_guestSessionId input) (rn_issuedClaims input)), (renewed (rn_issuedClaims input) row).
  split_and!; simpl; rewrite ?lookup_insert_eq; try done. apply issued_command_claims.
Qed.

(** ** The answer to a request, and to the same request again *)

Context (tokens : JwtTokenService).

(** The answer is that to a command on record. *)
Definition answers_record (t : CommandType) (id : option string) (s : IssuedGuestSession) (db : DB) : Prop :=
  exists command replayed, on_file command db /\ assertCommand command t id = Ok () /\
    toIssuedSession tokens command replayed = Ok s.

Lemma known_answer t id command replayed :
  known (on_file command)
    (_ ← lift (assertCommand command t id); lift (toIssuedSession tokens command replayed))
    (answers_record t id).
Proof.
  apply (known_bind _ _ _ (fun _ db => on_file command db /\ assertCommand command t id = Ok ())).
  - apply known_lift. intros [] db Ha Hf. by split.
  - intros _. apply known_lift. intros s db Hs [Hf Ha]. exists command, replayed. auto.
Qed.

Lemma known_first_of {A} (Q : A -> DB -> Prop) (tries : list (Prog (option A))) :
  (forall p, p ∈ tries ->
     known (fun _ => True) p (fun r db => forall a, r = Some a -> Q a db)) ->
  known (fun _ => True) (first_of tries) Q.
Proof.
  induction tries as [|p tries IH]; intros Ht; [apply known_throw|]. simpl.
  eapply known_bind; [apply Ht; left|]. intros [a|]; [apply known_ret; auto|].
  intros w _. apply IH; [|done]. intros q Hq. apply Ht. by right.
Qed.

Lemma known_createAttempt random id :
  known (fun _ => True) (createAttempt tokens random id hash)
    (fun r db => forall s, r = Some s -> answers_record CREATE None s db).
Proof.
  unfold createAttempt. apply known_then. intros identity. apply known_then. intros claims.
  apply known_catch.
  - eapply known_bind; [apply known_mutate; intros x db r db'; by apply create_on_file|].
    intros result. cbv beta.
    apply (known_bind _ _ _ (fun _ db => on_file (mu_value result) db /\
                                          assertCommand (mu_value result) CREATE None = Ok ())).
    { apply known_lift. intros [] db Ha Hf. by split. }
    intros _. apply (known_bind _ _ _ (fun _ db => on_file (mu_value result) db /\
                                          assertCommand (mu_value result) CREATE None = Ok ())).
    { case_bool_decide; [by apply known_ret|]. apply known_frame; [|apply release_frame].
      intros w w' Hgo [Hf Ha]. split; [by eapply on_file_kept|done]. }
    intros _. eapply known_bind; [by apply (known_lift _ _ (fun s db => answers_record CREATE None s db));
      intros s db Hs [Hf Ha]; exists (mu_value result), (mu_replayed result)|].
    intros s. apply known_ret. by intros db Hs _ [= <-].
  - intros e. apply known_then. intros _. repeat case_match; first [apply known_throw|by apply known_ret].
Qed.

(** An answer on record is given again. *)
Lemma answers_record_again t id s w w' x :
  answers_record t id s (w_db w) -> goes_on hash w w' -> x_db x = DbUp ->
  exists found s', steady x (findCommand hash) w' = (Ok (Some found), w') /\
    assertCommand found t id = Ok () /\ toIssuedSession tokens found true = Ok s' /\
    is_token s' = is_token s /\ is_replayed s' = true /\ pg_id (is_guest s') = pg_id (is_guest s).
Proof.
  intros (command & replayed & Hf & Ha & Hs) Hgo Hx. eapply on_file_kept in Hf; [|exact Hgo].
  destruct (on_file_answered _ _ _ _ _ _ _ Hf Ha Hs) as (found & s' & Hr & Hrest).
  exists found, s'. split; [|exact Hrest]. unfold findCommand, asDatabase. rewrite steady_catch.
  unfold query, database. rewrite steady_perform. unfold dbOp. rewrite Hx, Hr. by destruct w'.
Qed.
End Retry.

(** What it means that the same request, sent again as [again], gets the same answer. *)
Definition answered_alike (hash : string) (again : Prog IssuedGuestSession) (s : IssuedGuestSession)
    (w : World) : Prop :=
  forall w' x, goes_on hash w w' -> x_db x = DbUp ->
  exists s', steady x again w' = (Ok s', w') /\ is_token s' = is_token s /\
    is_replayed s' = true /\ pg_id (is_guest s') = pg_id (is_guest s).

(** C14: a request that is sent again gets the same token again. Let a session be created,
    or renewed, under an idempotency key, while the session services of others run as they
    like, and with answers of the database and of Redis that may be lost. If the request is
    answered with a session and its token, then at any later time at which its command is
    still on record, whatever transactions of the session services ran since, the same
    request is answered with the very same token, for the same session, as a replay, and
    changes nothing. *)
Theorem retried_request_gets_same_token tokens random idempotencyKey hash guest w :
  hashIdempotencyKey idempotencyKey = Ok hash ->
  wp (goes_on hash) (fun _ _ => True) (fun _ _ => True) (createSession tokens random idempotencyKey)
    (fun r w' => forall s, r = Ok s -> forall random',
       answered_alike hash (createSession tokens random' idempotencyKey) s w') w /\
  wp (goes_on hash) (fun _ _ => True) (fun _ _ => True) (renewSession tokens guest idempotencyKey)
    (fun r w' => forall s, r = Ok s -> forall guest',
       ag_guestSessionId guest' = ag_guestSessionId guest ->
       answered_alike hash (renewSession tokens guest' idempotencyKey) s w') w.
Proof.
  intros Hh. split.
  - unfold createSession at 1. rewrite Hh. cbn [lift]. change (Ret hash ≫= ?f) with (f hash). cbv beta.
    assert (known hash (fun _ => True) (stably
      (existing ← findCommand hash;
       match existing with
       | Some existing => _ ← lift (assertCommand existing CREATE None); lift (toIssuedSession tokens existing true)
       | None => id ← randomUUID;
           first_of (map (fun attempt => createAttempt tokens (random attempt) id hash) (seq 0 DATABASE_NAME_ATTEMPTS))
       end)) (answers_record hash tokens CREATE None)) as Hk.
    { apply known_catch; [|intros e; apply known_throw].
      eapply known_bind; [apply known_findCommand|]. intros [existing|].
      - intros w0 Hw0. apply known_answer. by apply Hw0.
      - intros w0 _. apply (known_then hash (fun _ => True)); [|done]. intros id. apply known_first_of.
        intros p (attempt & -> & _)%list_elem_of_fmap. apply known_createAttempt. }
    eapply wp_mono; [|by apply Hk]. intros r w1 Hs s -> random' w' x Hgo Hx.
    destruct (answers_record_again _ _ _ _ _ _ _ _ (Hs s eq_refl) Hgo Hx)
      as (found & s' & Hf & Ha & Hi & Hrest). exists s'. split; [|exact Hrest].
    unfold createSession. rewrite Hh. cbn [lift]. change (Ret hash ≫= ?f) with (f hash). cbv beta.
    unfold stably. rewrite steady_catch, steady_bind, Hf, Ha. simpl. by rewrite Hi.
  - unfold renewSession at 1. rewrite Hh. cbn [lift]. change (Ret hash ≫= ?f) with (f hash). cbv beta.
    set (id := ag_guestSessionId guest).
    assert (known hash (fun _ => True) (stably
      (existing ← findCommand hash;
       match existing with
       | Some existing => _ ← lift (assertCommand existing RENEW (Some id)); lift (toIssuedSession tokens existing true)
       | None => issuedClaims ← createIssuedClaims tokens;
           result ← renew (mkRenew id hash issuedClaims);
           _ ← lift (assertCommand (mu_value result) RENEW (Some id));
           lift (toIssuedSession tokens (mu_value result) (mu_replayed result))
       end)) (answers_record hash tokens RENEW (Some id))) as Hk.
    { apply known_catch; [|intros e; apply known_throw].
      eapply known_bind; [apply known_findCommand|]. intros [existing|].
      - intros w0 Hw0. apply known_answer. by apply Hw0.
      - intros w0 _. apply (known_then hash (fun _ => True)); [|done]. intros claims.
        eapply known_bind; [apply known_mutate; intros x db r db'; by apply renew_on_file|].
        intros result. apply known_answer. }
    eapply wp_mono; [|by apply Hk]. intros r w1 Hs s -> guest' Hid w' x Hgo Hx.
    destruct (answers_record_again _ _ _ _ _ _ _ _ (Hs s eq_refl) Hgo Hx)
      as (found & s' & Hf & Ha & Hi & Hrest). exists s'. split; [|exact Hrest].
    unfold renewSession. rewrite Hh, Hid. cbn [lift]. change (Ret hash ≫= ?f) with (f hash). cbv beta.
    unfold stably. rewrite steady_catch, steady_bind, Hf. fold id. rewrite Ha. simpl. by rewrite Hi.
Qed.

(** ** Revoked sessions *)

Lemma sessionKey_tokenKey g j : sessionKey g <> tokenKey j.
Proof. unfold sessionKey, tokenKey. key_ne. Qed.

Lemma send_call_Ok f x w a w' :
  sendOp (fun _ => call f) x w = (Ok a, w') -> w' = mkWorld (w_db w) (f (w_redis w)).
Proof. unfold sendOp. destruct (ln_first (x_link x)) as [| |[]]; try done. simpl. by intros [= _ <-]. Qed.

Lemma alone_pipeline2 (c1 c2 : lua ()) exts w :
  alone (pipeline [c1; c2]) exts w =
    match exts with
    | x1 :: x2 :: exts =>
        let '(r1, w1) := sendOp (fun _ => c1) x1 w in
        let '(r2, w2) := sendOp (fun _ => c2) x2 w1 in
        Some (Ok [r1; r2], w2, exts)
    | _ => None
    end.
Proof.
  unfold pipeline. cbn [mapAll].
  change (fun y => prog_bind_ ?f ?p) with (fun y => p ≫= f). simpl.
  destruct exts as [|x1 exts]; [done|]. destruct (sendOp _ x1 w) as [[a1|e1] w1]; simpl;
    destruct exts as [|x2 exts]; try done; by destruct (sendOp _ x2 w1) as [[a2|e2] w2].
Qed.

(** The mark a revocation leaves, if it returns. *)
Lemma revoke_marks skew session identity x exts w w' left :
  alone (revoke skew session identity) (x :: exts) w = Some (Ok (), w', left) ->
  let latest := Z.max (gs_expiresAt session) (ag_expiresAt identity) in
  entry (w_redis w') (sessionKey (gs_id session)) =
    mkEntry (Some (milliseconds latest)) ∅ ∅ (Some (revocationPx skew latest (x_now x))).
Proof.
  unfold revoke. rewrite alone_bind. unfold clock. rewrite alone_perform.
  unfold unavailable_revocations. rewrite alone_catch, alone_bind.
  destruct exts as [|x1 exts]; [done|]. unfold ensureConnected. rewrite alone_perform.
  destruct (ln_connected (x_link x1)); [|done]. rewrite alone_bind.
  set (c1 := call (SET (sessionKey (gs_id session)) _ _)). set (c2 := call (SET (tokenKey _) _ _)).
  rewrite (alone_pipeline2 c1 c2). destruct exts as [|x2 [|x3 exts]]; [done..|].
  destruct (sendOp (fun _ => c1) x2 w) as [[[]|e1] w1] eqn:E1;
    destruct (sendOp (fun _ => c2) x3 w1) as [[[]|e2] w2] eqn:E2; try done.
  intros [= <- _]. apply send_call_Ok in E1 as ->, E2 as ->. simpl.
  rewrite entry_SET, decide_False by apply sessionKey_tokenKey. by rewrite entry_SET, decide_True.
Qed.

Lemma revocation_outlives (tokens : JwtTokenService) token t guest latest now :
  verify tokens token t = Ok guest -> ag_expiresAt guest <= latest ->
  t < now + Zpos (revocationPx (clockSkewSeconds tokens) latest now).
Proof.
  intros Hv Hle. apply verified_token_is_signed in Hv as (? & ? & ? & ? & ? & _ & _ & _ & Ht & _).
  unfold revocationPx, revocationSeconds. rewrite Z2Pos.id by lia.
  Z.div_mod_to_equations. lia.
Qed.

Lemma isRevoked_marked x identity w :
  en_str (entry (w_redis w) (sessionKey (ag_guestSessionId identity))) <> None ->
  steady x (isRevoked identity) w = (Ok true, w) \/
  steady x (isRevoked identity) w = (Err ERevocationUnavailable, w).
Proof.
  intros Hmark. unfold isRevoked, unavailable_revocations, command.
  rewrite steady_catch, steady_bind, steady_perform. unfold redisOp, sendOp, ask.
  destruct (negb (ln_connected (x_link x))); [by right|].
  destruct (ln_first (x_link x)) as [| |[]]; simpl; [|by destruct w; right..].
  destruct w as [db r]. simpl in *. left. unfold GET at 1.
  by destruct (en_str (entry r _)) eqn:E; [|done].
Qed.

(** The command on record under the hash of the idempotency key of a request. *)
Definition on_record_as (idempotencyKey : string) (command : SessionCommandReplay) (db : DB) : Prop :=
  exists hash, hashIdempotencyKey idempotencyKey = Ok hash /\ findReplay db hash = Ok (Some command).

(** It is a reset of the session of [guest]. *)
Definition reset_of (guest : AuthenticatedGuest) (command : SessionCommandReplay) : Prop :=
  rp_commandType command = RESET /\ gs_id (rp_guestSession command) = ag_guestSessionId guest.

Lemma assertCommand_reset command guest :
  assertCommand command RESET (Some (ag_guestSessionId guest)) = Ok () <-> reset_of guest command.
Proof.
  unfold assertCommand, reset_of.
  destruct (bool_decide_reflect (rp_commandType command = RESET)),
    (bool_decide_reflect (gs_id (rp_guestSession command) = ag_guestSessionId guest)); simpl;
    split; try done; by intros [? ?].
Qed.

(** A look at a command changes nothing, and an answer is what is on record. *)
Lemma steady_findCommand x hash w :
  steady x (findCommand hash) w =
    match x_db x, findReplay (w_db w) hash with
    | DbUp, Ok replay => (Ok replay, w)
    | DbUp, Err e => (Err (EApp (toDatabaseError e)), w)
    | _, _ => (Err (EApp (toDatabaseError unreachable)), w)
    end.
Proof.
  unfold findCommand, asDatabase. rewrite steady_catch. unfold query, database.
  rewrite steady_perform. unfold dbOp. destruct w as [db r]. simpl.
  destruct (x_db x), (findReplay db hash); done.
Qed.

(** A reset that is asked for with a revoked token does nothing but finish the reset of the
    session that is on record under its key. *)
Lemma steady_reset_again tokens guest key x w :
  (forall command, on_record_as key command (w_db w) -> reset_of guest command -> x_db x = DbUp ->
     steady x (resetSession tokens guest key true) w =
       steady x (stably (finishReset tokens (rp_guestSession command) guest)) w) /\
  ((forall command, on_record_as key command (w_db w) -> ~ reset_of guest command) ->
     exists error, steady x (resetSession tokens guest key true) w = (Err error, w)).
Proof.
  unfold resetSession, on_record_as.
  destruct (hashIdempotencyKey key) as [hash|e]; cbn [lift];
    [|split; [by intros command (hash & [=] & _)|by eexists]].
  change (Ret hash ≫= ?f) with (f hash). cbv beta. unfold stably. rewrite !steady_catch, steady_bind.
  pose proof (steady_findCommand x hash w) as Hf. split.
  - intros command (hash' & [= <-] & Hr) Hof Hx. rewrite Hx, Hr in Hf. rewrite Hf.
    apply assertCommand_reset in Hof. by rewrite Hof, steady_catch.
  - intros Hno. destruct (x_db x); [|rewrite Hf; by eexists..].
    destruct (findReplay (w_db w) hash) as [[command|]|e] eqn:Hr; rewrite Hf; [|by eexists..].
    destruct (assertCommand command RESET _) as [[]|e] eqn:Ha; [|by eexists].
    apply assertCommand_reset in Ha. destruct (Hno command ltac:(by exists hash) Ha).
Qed.

(** C11: revocation is in time and lasts. Once the revocation of a session, on behalf of
    one of its tokens, has returned, then every token of that session that expires no
    later than the session or than that token is covered: at any time at which it
    still verifies, the mark of the session has not yet reached the end of its time to
    live; and as long as the mark is there, then, whether or not Redis answers,
    every request with the token is refused by every endpoint but the reset of the
    session. The reset of the session, which is there to be repeated, is refused too if
    Redis does not answer, and is otherwise told that the token is revoked: it then
    does what finishes a reset of that session that is on record under the key of the request,
    and without such a reset on record it fails and changes nothing. *)
Theorem revocation_covers_live_tokens (tokens : JwtTokenService) cookieName session identity x exts
    w w' left request token t guest :
  alone (revoke (clockSkewSeconds tokens) session identity) (x :: exts) w = Some (Ok (), w', left) ->
  extractToken cookieName request = Some token -> verify tokens token t = Ok guest ->
  ag_guestSessionId guest = gs_id session ->
  ag_expiresAt guest <= Z.max (gs_expiresAt session) (ag_expiresAt identity) ->
  let mark := entry (w_redis w') (sessionKey (gs_id session)) in
  (exists px, en_px mark = Some px /\ t < x_now x + Zpos px) /\
  forall w2 x2, x_now x2 = t -> entry (w_redis w2) (sessionKey (gs_id session)) = mark ->
    (exists error, error ∈ [unauthorized; session_unavailable_now] /\
       steady x2 (authenticate tokens cookieName request false) w2 = (Err error, w2)) /\
    (steady x2 (authenticate tokens cookieName request true) w2 ∈
       [(Ok (guest, true), w2); (Err session_unavailable_now, w2)]) /\
    forall key,
      (forall command, on_record_as key command (w_db w2) -> reset_of guest command -> x_db x2 = DbUp ->
         steady x2 (resetSession tokens guest key true) w2 =
           steady x2 (stably (finishReset tokens (rp_guestSession command) guest)) w2) /\
      ((forall command, on_record_as key command (w_db w2) -> ~ reset_of guest command) ->
         exists error, steady x2 (resetSession tokens guest key true) w2 = (Err error, w2)).
Proof.
  intros Hrun Htok Hv Hid Hle mark. pose proof (revoke_marks _ _ _ _ _ _ _ _ Hrun) as Hmark.
  cbv zeta in Hmark. fold mark in Hmark. split.
  { rewrite Hmark. eexists. split; [done|]. by eapply revocation_outlives. }
  intros w2 x2 Hnow Hw2.
  assert (en_str (entry (w_redis w2) (sessionKey (ag_guestSessionId guest))) <> None) as Hmarked
    by (by rewrite Hid, Hw2, Hmark).
  assert (forall allowRevoked, steady x2 (authenticate tokens cookieName request allowRevoked) w2 =
    match steady x2 (isRevoked guest) w2 with
    | (Ok _, _) => (if allowRevoked then Ok (guest, true) else Err unauthorized, w2)
    | _ => (Err session_unavailable_now, w2)
    end) as Hauth.
  { intros allowRevoked. unfold authenticate. rewrite Htok, steady_catch.
    cbn [lift]. change (Ret token ≫= ?f) with (f token). cbv beta.
    rewrite steady_bind. unfold clock. rewrite steady_perform, Hnow, Hv. cbn [lift].
    change (Ret guest ≫= ?f) with (f guest). cbv beta. rewrite steady_bind.
    destruct (isRevoked_marked x2 guest w2 Hmarked) as [-> | ->]; by destruct allowRevoked. }
  split; [|split; [|intros key; apply steady_reset_again]]; rewrite Hauth;
    destruct (isRevoked_marked x2 guest w2 Hmarked) as [-> | ->].
  - exists unauthorized. split; [left|done].
  - exists session_unavailable_now. split; [right; left|done].
  - left.
  - right. left.
Qed.

(** ** A renewal overtaken by a later one

    [renew] accepts claims issued before those the session holds, so the session's
    expiry can go back: tokens of the later renewal outlive it. *)
Theorem overtaken_renewal_lowers_expiry db id row hash hash' claims claims' :
  guests db !! id = Some row -> s_revokedAt row = None ->
  sessionCommands db !! hash = None -> sessionCommands db !! hash' = None -> hash <> hash' ->
  ic_issuedAt claims < ic_issuedAt claims' < s_expiresAt row ->
  ic_issuedAt claims < ic_expiresAt claims < ic_expiresAt claims' ->
  ic_issuedAt claims' < ic_expiresAt claims' ->
  exists r db1 r' db2 row2,
    renewWork (mkRenew id hash' claims') db = Ok (r, db1) /\
    renewWork (mkRenew id hash claims) db1 = Ok (r', db2) /\
    guests db2 !! id = Some row2 /\ s_expiresAt row2 < ic_expiresAt claims' /\
    is_Some (sessionCommands db2 !! hash').
Proof.
  intros Hrow Hrev Hh Hh' Hne Hi He Hp.
  assert (Hstep : forall d row h c, guests d !! id = Some row -> s_revokedAt row = None ->
    sessionCommands d !! h = None -> ic_issuedAt c < s_expiresAt row -> ic_issuedAt c < ic_expiresAt c ->
    exists r, renewWork (mkRenew id h c) d =
      Ok (r, recorded h (issued_command RENEW id c) id (renewed c row) d)).
  { intros d row0 h c Hd Hr Hhd Hlt Hpos. unfold renewWork, liveSession, guestSession_update,
      sessionCommand_create. simpl. unfold mbind, tx_bind. rewrite Hd, Hr. simpl.
    rewrite (proj2 (Z.leb_gt _ _)) by lia. rewrite Hd. unfold guest_sessions_checks. simpl. rewrite Hr.
    rewrite (proj2 (Z.ltb_lt _ _)) by lia. simpl. unfold session_commands_checks. simpl.
    rewrite (proj2 (Z.ltb_lt _ _)) by lia. simpl. rewrite Hhd, lookup_insert_eq. by eexists. }
  destruct (Hstep db row hash' claims') as [r Hr]; [done..|lia|lia|].
  set (db1 := recorded _ _ _ _ _) in Hr.
  destruct (Hstep db1 (renewed claims' row) hash claims) as [r' Hr']; [|done| |simpl; lia|lia|].
  - simpl. by rewrite lookup_insert_eq.
  - simpl. by rewrite lookup_insert_ne by congruence.
  - eexists r, db1, r', _, (renewed claims (renewed claims' row)). split_and!; [done|done| |simpl; lia|].
    + simpl. by rewrite lookup_insert_eq.
    + simpl. rewrite lookup_insert_ne by congruence. rewrite lookup_insert_eq. by eexists.
Qed.
End Services.
End SessionTokens.
