(* ===== verification/SessionMaintenance.v ===== *)
(** * The maintenance job restores the marks of revoked sessions

    [session-maintenance.service.ts] walks through the sessions that are revoked and
    not yet expired, a page at a time, in the order of their revocation, and writes
    their marks in Redis again. A page begins where the one before ended, and a short
    page is followed by the first. *)

From S2P Require Export SessionTokens.
From stdpp Require Import sorting.
Local Open Scope string_scope.
Local Open Scope list_scope.
Local Open Scope Z_scope.

Module Maintenance.
Import Sessions Tokens SessionServices SessionTokens.

(** ** The order of revocations *)

Definition earlier (x y : GuestSessionRecord) : Prop := byRevocation x y = true.

Lemma earlier_spec x y :
  earlier x y <->
  revocation x < revocation y \/ revocation x = revocation y /\ String.leb (gs_id x) (gs_id y) = true.
Proof. unfold earlier, byRevocation. by rewrite orb_true_iff, andb_true_iff, Z.ltb_lt, Z.eqb_eq. Qed.

Lemma earlier_total x y : earlier x y \/ earlier y x.
Proof.
  rewrite !earlier_spec. destruct (Z.lt_total (revocation x) (revocation y)) as [?|[E|?]]; auto.
  destruct (String.leb_total (gs_id x) (gs_id y)); auto.
Qed.

Lemma earlier_trans x y z : earlier x y -> earlier y z -> earlier x z.
Proof.
  rewrite !earlier_spec. intros [?|[E1 L1]] [?|[E2 L2]]; [left; lia..|].
  right. split; [lia|].
  pose proof (transitivity (R := String.le) (x := gs_id x) (y := gs_id y) (z := gs_id z)) as Ht.
  unfold String.le in Ht. apply Is_true_true, Ht; by apply Is_true_true.
Qed.

Lemma earlier_antisym x y : earlier x y -> earlier y x -> gs_id x = gs_id y.
Proof. rewrite !earlier_spec. intros [?|[E1 L1]] [?|[E2 L2]]; [lia..|]. by apply String.leb_antisym. Qed.

Lemma ltb_spec s t : String.ltb s t = true <-> String.leb s t = true /\ s <> t.
Proof.
  unfold String.ltb, String.leb. pose proof (String.compare_eq_iff s t) as He.
  pose proof (String.compare_antisym t s) as Ha.
  destruct (String.compare s t) eqn:E; split; try done; naive_solver congruence.
Qed.

(** The condition of the query, for the cursor left behind by a session. *)
Definition cursor_of (s : GuestSessionRecord) : RevokedSessionCursor := mkCursor (gs_id s) (revocation s).

Lemma afterRevoked_spec c s :
  afterRevoked (Some (cursor_of c)) s = true <->
  earlier c s /\ (revocation c < revocation s \/ gs_id c <> gs_id s).
Proof.
  rewrite earlier_spec. simpl. rewrite orb_true_iff, andb_true_iff, Z.ltb_lt, Z.eqb_eq, ltb_spec.
  intuition lia.
Qed.

(** ** Pages *)

Definition distinct (l : list GuestSessionRecord) : Prop := NoDup (map gs_id l).

Lemma filter_all {A} (P : A -> Prop) `{forall x, Decision (P x)} (l : list A) :
  (forall x, x ∈ l -> P x) -> filter P l = l.
Proof.
  induction l as [|x l IH]; intros HP; [done|].
  rewrite filter_cons_True by (apply HP; left). f_equal. apply IH. intros y Hy. apply HP. by right.
Qed.

Lemma filter_none {A} (P : A -> Prop) `{forall x, Decision (P x)} (l : list A) :
  (forall x, x ∈ l -> ~ P x) -> filter P l = [].
Proof.
  induction l as [|x l IH]; intros HP; [done|].
  rewrite filter_cons_False by (apply HP; left). apply IH. intros y Hy. apply HP. by right.
Qed.

(** What is after an element of a sorted list is what follows it. *)
Lemma filter_after l1 c l2 :
  StronglySorted earlier (l1 ++ c :: l2) -> distinct (l1 ++ c :: l2) ->
  filter (fun s => afterRevoked (Some (cursor_of c)) s = true) (l1 ++ c :: l2) = l2.
Proof.
  intros Hs Hd. unfold distinct in Hd. rewrite map_app in Hd. simpl in Hd.
  apply NoDup_app in Hd as (_ & Hd1 & Hd2). apply NoDup_cons in Hd2 as [Hd2 _].
  assert (Hbefore : forall s, s ∈ l1 -> afterRevoked (Some (cursor_of c)) s <> true).
  { intros s Hin [Hcs _]%afterRevoked_spec.
    assert (earlier s c) as Hsc.
    { apply (StronglySorted_app_1_elem_of earlier l1 (c :: l2)); [done..|left]. }
    apply (Hd1 (gs_id s)); [by apply list_elem_of_fmap_2|].
    rewrite (earlier_antisym _ _ Hsc Hcs). left. }
  rewrite filter_app, filter_cons_False, (filter_none _ l1), (filter_all _ l2); [done| |done|].
  - intros s Hin. apply afterRevoked_spec. split.
    + apply StronglySorted_app_1_r in Hs. inversion Hs as [|? ? _ Hall]; subst.
      by eapply (proj1 (Forall_forall _ _) Hall).
    + right. intros E. apply Hd2. rewrite E. by apply list_elem_of_fmap_2.
  - rewrite afterRevoked_spec. intros [_ [Hlt|Hne]]; [lia|done].
Qed.

(** All the sessions the job is about, in order. *)
Definition worklist (db : DB) (now : Z) : list GuestSessionRecord :=
  orderBy byRevocation (filter (fun s => liveRevoked now s = true) (allSessions db)).

Lemma elem_of_worklist db now s :
  s ∈ worklist db now <->
  exists row, guests db !! gs_id s = Some row /\ s = toGuestSession (gs_id s) row /\ liveRevoked now s = true.
Proof.
  unfold worklist. rewrite orderBy_perm, list_elem_of_filter. unfold allSessions.
  rewrite list_elem_of_fmap. split.
  - intros [Hl ([id row] & -> & Hin%elem_of_map_to_list)]. by exists row.
  - intros (row & Hrow & E & Hl). split; [done|]. exists (gs_id s, row).
    by rewrite elem_of_map_to_list.
Qed.

Lemma worklist_sorted db now : StronglySorted earlier (worklist db now).
Proof. apply orderBy_StronglySorted; [apply earlier_total|apply earlier_trans]. Qed.

Lemma allSessions_distinct db : distinct (allSessions db).
Proof.
  unfold distinct, allSessions. rewrite map_map. simpl.
  replace (map _ _) with (map fst (map_to_list (guests db))) by (by apply map_ext).
  apply NoDup_fst_map_to_list.
Qed.

Lemma distinct_filter P `{forall x, Decision (P x)} l : distinct l -> distinct (filter P l).
Proof. unfold distinct. intros Hd. eapply sublist_NoDup; [exact Hd|]. apply fmap_sublist, sublist_filter. Qed.

Lemma worklist_distinct db now : distinct (worklist db now).
Proof.
  unfold distinct, worklist. rewrite orderBy_perm. apply distinct_filter, allSessions_distinct.
Qed.

Definition cursor_at (db : DB) (now : Z) (j : nat) : option RevokedSessionCursor :=
  match j with O => None | S i => cursor_of <$> worklist db now !! i end.

(** The page from the cursor left after [j] sessions is the next of the worklist. *)
Lemma revokedPage_eval db now limit j :
  (j <= length (worklist db now))%nat ->
  revokedPage db now limit (cursor_at db now j) = take limit (drop j (worklist db now)).
Proof.
  intros Hj. unfold revokedPage. f_equal.
  set (after := afterRevoked (cursor_at db now j)).
  assert (Hrest : filter (fun s => after s = true) (worklist db now) = drop j (worklist db now)).
  { subst after. destruct j as [|i]; simpl cursor_at.
    - by apply filter_all.
    - destruct (lookup_lt_is_Some_2 (worklist db now) i) as [c Hc]; [lia|]. rewrite Hc. simpl fmap.
      rewrite <- (take_drop_middle _ _ _ Hc) at 1. apply filter_after;
        rewrite take_drop_middle by done; [apply worklist_sorted|apply worklist_distinct]. }
  rewrite <- Hrest. apply (StronglySorted_unique_strong earlier).
  - intros x y Hx Hy Hxy Hyx.
    assert (x ∈ allSessions db /\ y ∈ allSessions db) as [Hx' Hy'].
    { rewrite orderBy_perm in Hx. apply list_elem_of_filter in Hx as [_ Hx].
      apply list_elem_of_filter in Hy as [_ Hy]. unfold worklist in Hy. rewrite orderBy_perm in Hy.
      by apply list_elem_of_filter in Hy as [_ Hy]. }
    pose proof (earlier_antisym _ _ Hxy Hyx) as E. unfold allSessions in Hx', Hy'.
    apply list_elem_of_fmap in Hx' as ([i r] & -> & Hr%elem_of_map_to_list).
    apply list_elem_of_fmap in Hy' as ([i' r'] & -> & Hr'%elem_of_map_to_list).
    simpl in E. subst i'. congruence.
  - apply orderBy_StronglySorted; [apply earlier_total|apply earlier_trans].
  - rewrite Hrest. apply (StronglySorted_app_1_r _ (take j (worklist db now))).
    rewrite take_drop. apply worklist_sorted.
  - rewrite orderBy_perm. unfold worklist. rewrite orderBy_perm, list_filter_filter.
    rewrite (list_filter_iff _ (fun s => after s = true /\ liveRevoked now s = true)); [done|].
    intros s. rewrite andb_true_iff. tauto.
Qed.

(** ** Runs *)
Section Runs.
Context `{JsonText} `{NodeCrypto} `{Prisma} `{RedisLaws}.
Context (tokens : JwtTokenService) (batchSize : nat) (x : Ext).
Context (Hdb : x_db x = DbUp) (Hup : ln_connected (x_link x) = true) (Hreplied : ln_first (x_link x) = Replied).

Definition marked (r : Keyspace) (s : GuestSessionRecord) : Prop :=
  is_Some (GET r (sessionKey (gs_id s))).

Lemma restore_eval skew session now w :
  steady x (restoreSessionRevocation skew session now) w =
    (Ok (), mkWorld (w_db w)
       (SET (sessionKey (gs_id session)) (milliseconds (gs_expiresAt session))
          (Some (revocationPx skew (gs_expiresAt session) now)) (w_redis w))).
Proof using Hup Hreplied.
  unfold restoreSessionRevocation, unavailable_revocations, command.
  rewrite steady_catch, steady_perform. unfold redisOp, sendOp. by rewrite Hup, Hreplied.
Qed.

(** Marks are written and none is taken away. *)
Lemma restore_all sessions skew now w :
  exists r, steady x (forEach (fun s => restoreSessionRevocation skew s now) sessions) w =
              (Ok (), mkWorld (w_db w) r) /\
    (forall s, marked (w_redis w) s -> marked r s) /\ (forall s, s ∈ sessions -> marked r s).
Proof using Type*.
  revert w. induction sessions as [|s sessions IH]; intros w.
  { exists (w_redis w). split_and!; [by destruct w|done|by intros s ?%not_elem_of_nil]. }
  set (r1 := SET (sessionKey (gs_id s)) (milliseconds (gs_expiresAt s))
               (Some (revocationPx skew (gs_expiresAt s) now)) (w_redis w)).
  destruct (IH (mkWorld (w_db w) r1)) as (r & Hrun & Hkept & Hall). exists r. split_and!.
  - change (forEach ?f (s :: ?l)) with (f s ≫= fun _ => forEach f l).
    rewrite steady_bind, restore_eval. exact Hrun.
  - intros s' Hs'. apply Hkept. unfold marked, GET in *. simpl. unfold r1. rewrite entry_SET.
    case_decide; [by eexists|done].
  - intros s' [->|Hs']%elem_of_cons; [|by apply Hall]. apply Hkept. unfold marked, GET. simpl.
    unfold r1. rewrite entry_SET, decide_True by done. by eexists.
Qed.

(** The job's runs one after the other. *)
Fixpoint reconcile_runs (n : nat) (cursor : option RevokedSessionCursor)
    : Prog (option RevokedSessionCursor) :=
  match n with
  | O => mret cursor
  | S n => cursor ← reconcileSafely tokens batchSize cursor; reconcile_runs n cursor
  end.

Let now := x_now x.

Lemma run_eval cursor w :
  let page := revokedPage (w_db w) now batchSize cursor in
  exists r, steady x (reconcileSafely tokens batchSize cursor) w =
              (Ok (next_cursor batchSize page), mkWorld (w_db w) r) /\
    (forall s, marked (w_redis w) s -> marked r s) /\ (forall s, s ∈ page -> marked r s).
Proof using Type*.
  intros page. destruct (restore_all page (clockSkewSeconds tokens) now w) as (r & Hrun & Hkept & Hall).
  exists r. split; [|done]. unfold reconcileSafely, reconcileRevocations.
  rewrite steady_catch, steady_bind. unfold clock. rewrite steady_perform, steady_bind.
  unfold findLiveRevoked, asDatabase. rewrite steady_catch. unfold query, database.
  rewrite steady_perform. unfold dbOp. rewrite Hdb.
  assert (mkWorld (w_db w) (w_redis w) = w) as -> by by destruct w.
  rewrite steady_bind. fold now page. by rewrite Hrun.
Qed.

Lemma runs_keep n cursor w :
  exists cursor' r, steady x (reconcile_runs n cursor) w = (Ok cursor', mkWorld (w_db w) r) /\
    forall s, marked (w_redis w) s -> marked r s.
Proof using Type*.
  revert cursor w. induction n as [|n IH]; intros cursor w.
  { exists cursor, (w_redis w). split; [by destruct w|done]. }
  destruct (run_eval cursor w) as (r & Hrun & Hkept & _).
  destruct (IH (next_cursor batchSize (revokedPage (w_db w) now batchSize cursor)) (mkWorld (w_db w) r))
    as (cursor' & r' & Hruns & Hkept').
  exists cursor', r'. split; [|auto]. cbn [reconcile_runs]. by rewrite steady_bind, Hrun.
Qed.

(** A full page leaves the cursor at its end. *)
Lemma next_cursor_full db j :
  (0 < batchSize)%nat -> (j + batchSize <= length (worklist db now))%nat ->
  next_cursor batchSize (take batchSize (drop j (worklist db now))) = cursor_at db now (j + batchSize).
Proof using Type*.
  intros Hb Hj. unfold next_cursor. rewrite length_take, length_drop, Nat.min_l by lia.
  rewrite Nat.eqb_refl. simpl negb. cbv iota.
  rewrite last_lookup, length_take, length_drop, Nat.min_l by lia.
  rewrite lookup_take_lt, lookup_drop by lia.
  destruct (j + batchSize)%nat as [|i] eqn:E; [lia|].
  replace (j + Nat.pred batchSize)%nat with i by lia. simpl.
  destruct (worklist db now !! i) as [s|] eqn:Hs; [|done]. simpl.
  apply list_elem_of_lookup_2, elem_of_worklist in Hs as (row & _ & _ & Hl).
  unfold liveRevoked in Hl. unfold cursor_of, revocation. by destruct (gs_revokedAt s).
Qed.

Lemma runs_restore n j w :
  (0 < batchSize)%nat -> (j <= length (worklist (w_db w) now))%nat ->
  (length (worklist (w_db w) now) <= j + n * batchSize)%nat ->
  (forall s, s ∈ take j (worklist (w_db w) now) -> marked (w_redis w) s) ->
  exists cursor r, steady x (reconcile_runs n (cursor_at (w_db w) now j)) w =
                     (Ok cursor, mkWorld (w_db w) r) /\
    forall s, s ∈ worklist (w_db w) now -> marked r s.
Proof using Type*.
  intros Hb. revert j w. induction n as [|n IH]; intros j w Hj Hn Hdone.
  { exists (cursor_at (w_db w) now j), (w_redis w). split; [by destruct w|].
    intros s Hs. apply Hdone. by rewrite take_ge by lia. }
  destruct (run_eval (cursor_at (w_db w) now j) w) as (r & Hrun & Hkept & Hpage).
  rewrite revokedPage_eval in Hrun, Hpage by done. cbn [reconcile_runs]. rewrite steady_bind, Hrun.
  assert (Hmore : forall s, s ∈ take (j + batchSize) (worklist (w_db w) now) -> marked r s).
  { intros s. rewrite <- (take_drop j (worklist (w_db w) now)) at 1.
    rewrite take_app, length_take, Nat.min_l by lia. rewrite elem_of_app.
    replace (j + batchSize - j)%nat with batchSize by lia. intros [Hs|Hs]; [|by apply Hpage].
    apply Hkept, Hdone. rewrite take_take in Hs. by rewrite Nat.min_r in Hs by lia. }
  destruct (decide (j + batchSize <= length (worklist (w_db w) now))%nat) as [Hfull|Hshort].
  - rewrite next_cursor_full by done.
    apply (IH (j + batchSize)%nat (mkWorld (w_db w) r)); simpl; [done|lia|done].
  - destruct (runs_keep n (next_cursor batchSize (take batchSize (drop j (worklist (w_db w) now))))
      (mkWorld (w_db w) r)) as (cursor & r' & Hruns & Hkept').
    exists cursor, r'. split; [exact Hruns|]. intros s Hs. apply Hkept', Hmore.
    by rewrite take_ge by lia.
Qed.

(** C12: the marks of revoked sessions come back. If Redis lost marks, or a reset could
    not write its mark, then as soon as the database and Redis answer, enough runs of
    the job to cover the revoked sessions that are still live, started from the
    beginning, leave every one of them marked; whatever their number, and however
    many of them were revoked in the same millisecond. *)
Theorem revocations_are_restored n w :
  (0 < batchSize)%nat -> (length (worklist (w_db w) now) <= n * batchSize)%nat ->
  exists cursor r, steady x (reconcile_runs n None) w = (Ok cursor, mkWorld (w_db w) r) /\
    forall id row revokedAt, guests (w_db w) !! id = Some row -> s_revokedAt row = Some revokedAt ->
      now < s_expiresAt row -> is_Some (GET r (sessionKey id)).
Proof using Type*.
  intros Hb Hn. destruct (runs_restore n 0 w Hb) as (cursor & r & Hruns & Hall); [lia|lia| |].
  { simpl. by intros s ?%not_elem_of_nil. }
  exists cursor, r. split; [exact Hruns|]. intros id row t Hrow Ht Hexp.
  apply (Hall (toGuestSession id row)), elem_of_worklist. exists row. split_and!; [done..|].
  unfold liveRevoked. simpl. rewrite Ht. simpl. lia.
Qed.
End Runs.
End Maintenance.
