(* ===== verification/SessionExamples.v ===== *)
(** * Guest sessions at work

    A guest session is created, its token is checked, and it is reset: the theorems of
    [SessionInvariant], [SessionTokens] and [SessionMaintenance] at a concrete input,
    with a signature scheme, a hash and a Redis that satisfy what is asked of them. *)

From S2P Require Export SessionMaintenance.
Local Open Scope string_scope.
Local Open Scope list_scope.
Local Open Scope Z_scope.

Module SessionExamples.
Import Sessions Identity Tokens SessionServices SessionInvariant SessionTokens Maintenance.

#[local] Existing Instance MapRedis.map_redis.
#[local] Existing Instance MapRedis.map_redis_laws.
#[local] Existing Instance sample_prisma.
#[local] Existing Instance sample_crypto.
#[local] Existing Instance sample_crypto_laws.
#[local] Instance sample_hash : NodeHash := {| sha256_hex s := s |}.
#[local] Instance sample_ports : SessionPorts :=
  {| terminateForReset _ := mret (); disconnectGuest _ := mret () |}.
#[local] Instance sample_ports_laws : SessionPortsLaws.
Proof. split; done. Qed.

Definition at_time (now : Z) (uuid : string) : Ext :=
  mkExt (mkEnv (now * 1000) now ("p-1", "p-2")) DbUp good_link now (uuid, uuid) true [].

Definition now0 : Z := 1700000000500.
Definition guest_id : string := "3f2504e0-4f89-41d3-9a0c-0305e82c3301".
Definition create_key : string := " 6FA459EA-ee8a-4ca4-894e-db77e160355e ".
Definition reset_key : string := "16fd2706-8baf-433b-82eb-8c7fada847da".
Definition x0 : Ext := at_time now0 guest_id.
Definition draws : nat -> nat -> Draw := fun _ _ => mkDraw 2 12 (fun _ => "42") "c0ffee" 1.

Definition w0 : World := mkWorld (mkDB ∅ [] [] ∅ ∅ ∅ ∅) (∅ : gmap string Entry).

(** The session is created, and the guest's token is read. *)
Definition created : result fault IssuedGuestSession * World :=
  steady x0 (createSession sample_service draws create_key) w0.
Definition w1 : World := created.2.
Definition session : IssuedGuestSession :=
  match created.1 with
  | Ok s => s
  | Err _ => mkIssuedSession (mkPublic "" 0 "" 0 "") false ""
  end.

Example created_session :
  created.1 = Ok session /\ is_guest session =
    mkPublic "knight_bay_02" 1700003600000 guest_id 1700000000000 "BoldFox42".
Proof. vm_compute. done. Qed.

Lemma ran_leaving (Q : World -> Prop) (o : option (result fault () * World * list Ext)) :
  match o with Some (Ok _, w', []) => Q w' | _ => False end ->
  exists w', o = Some (Ok (), w', []) /\ Q w'.
Proof. destruct o as [[[[[]|e] w'] [|y l]]|]; try done. by exists w'. Qed.

Lemma ran_value {A} (o : option (result fault A * World * list Ext)) (v : A) :
  match o with Some (Ok a, _, _) => a = v | _ => False end -> exists w' left, o = Some (Ok v, w', left).
Proof. destruct o as [[[[a|e] w'] left]|]; [|done..]. intros ->. by exists w', left. Qed.

Lemma sample_made :
  construct "k1" 30 3600 "key" [mkFile true "k1.pem" "key"] = Some sample_service.
Proof. reflexivity. Qed.

Lemma issued_sessions_authenticate_witness :
  good_token sample_service session /\
  verify sample_service (is_token session) 1700003629999 =
    Ok (mkGuest "knight_bay_02" 1700003600000 guest_id 1700000000000 guest_id "BoldFox42").
Proof.
  assert (match alone (createSession sample_service draws create_key) (repeat x0 20) w0 with
          | Some (Ok s, _, _) => s = session
          | _ => False
          end) as Hs by (vm_compute; reflexivity).
  apply ran_value in Hs as (w' & left & E). split.
  - exact (returns_alone _ _ _ _ _ _ _ (proj1 (issued_sessions_authenticate _ _ _ _ _ sample_service
      sample_made draws (mkGuest "" 0 "" 0 "" "") create_key)) E).
  - vm_compute. reflexivity.
Defined.

Lemma session_records_are_final_witness :
  acts (fun w w' => sessions_ok (w_db w) -> evolves (w_db w) (w_db w'))
    (createSession sample_service draws create_key).
Proof.
  apply (session_records_are_final sample_service "guest" 10 0 _ _
           (SS_create sample_service "guest" 10 0 draws create_key)).
Defined.

Lemma sessions_are_sound_witness :
  exists ts w', rtc (machine_step (fun _ _ => True) (session_program sample_service "guest" 10 0)
                       same_sessions) ([], w0) (ts, w') /\
    is_Some (guests (w_db w') !! guest_id) /\ sessions_ok (w_db w').
Proof.
  set (p := _ ← createSession sample_service draws create_key; mret ()).
  assert (match alone p (repeat x0 20) w0 with
          | Some (_, w', _) => isNull (guests (w_db w') !! guest_id) = false
          | None => False
          end) as Hrow by (vm_compute; reflexivity).
  apply (ran_to _ (fun w' => isNull (guests (w_db w') !! guest_id) = false)) in Hrow
    as (r & w' & rest & E & Hrow).
  assert (alone_check (fun _ _ => true) p (repeat x0 20) w0 = true) as Hcheck
    by (vm_compute; reflexivity).
  destruct (machine_alone (fun _ _ => True) (session_program sample_service "guest" 10 0) same_sessions
              (fun _ _ => true) p _ _ _ _ _ (fun _ _ _ => I) Hcheck E) as [p' Hrun].
  assert (rtc (machine_step (fun _ _ => True) (session_program sample_service "guest" 10 0)
                 same_sessions) ([], w0) ([p'], w')) as Hall.
  { eapply rtc_l; [|exact Hrun]. apply M_spawn. apply Session_program, SS_create. }
  exists [p'], w'. split; [exact Hall|]. split.
  - destruct (guests (w_db w') !! guest_id); [by eexists|discriminate Hrow].
  - exact (sessions_are_sound sample_service "guest" 10 0 [p'] w0 w' eq_refl eq_refl Hall).
Defined.

(** The same request again, some seconds later. *)
Definition created_row : GuestRow :=
  mkGuestRow now0 "BoldFox42" "knight_bay_02" (Some guest_id) 1700000000000 1700003600000 None.
Definition create_hash : string := "6fa459ea-ee8a-4ca4-894e-db77e160355e".

Lemma retried_request_gets_same_token_witness :
  exists w' left s, alone (createSession sample_service draws create_key) (repeat x0 20) w0 =
      Some (Ok session, w', left) /\
    steady (at_time (now0 + 5000) "") (createSession sample_service draws create_key) w' = (Ok s, w') /\
    is_token s = is_token session /\ is_replayed s = true.
Proof.
  assert (match alone (createSession sample_service draws create_key) (repeat x0 20) w0 with
          | Some (Ok s, _, _) => s = session
          | _ => False
          end) as Hs by (vm_compute; reflexivity).
  apply ran_value in Hs as (w' & left & E).
  assert (answered_alike create_hash (createSession sample_service draws create_key) session w') as Hagain.
  { exact (wp_alone (goes_on create_hash) (fun _ _ => True) (fun _ _ => True) _ _ _ _ _ _ _
      (fun _ => rtc_refl _ _) (fun _ _ _ => I)
      (proj1 (retried_request_gets_same_token sample_service draws create_key create_hash
                (mkGuest "" 0 "" 0 "" "") w0 eq_refl)) E session eq_refl draws). }
  destruct (Hagain w' (at_time (now0 + 5000) "") (rtc_refl _ _) eq_refl) as (s & Hs & Ht & Hr & _).
  exists w', left, s. exact (conj E (conj Hs (conj Ht Hr))).
Defined.

(** The session is revoked on behalf of its token, and the token is refused. *)
Definition guest : AuthenticatedGuest :=
  mkGuest "knight_bay_02" 1700003600000 guest_id 1700000000000 guest_id "BoldFox42".
Definition request : SessionRequest := mkRequest None (Some ("theme=dark; guest=" +:+ is_token session)).
Definition x1 : Ext := at_time (now0 + 60000) "".

Lemma revocation_covers_live_tokens_witness :
  exists w', alone (revoke 30 (toGuestSession guest_id created_row) guest) (repeat x1 4) w1 =
      Some (Ok (), w', []) /\
    (steady x1 (authenticate sample_service "guest" request false) w1).1 = Ok (guest, false) /\
    (exists error, steady x1 (authenticate sample_service "guest" request false) w' = (Err error, w')) /\
    exists error, steady x1 (resetSession sample_service guest reset_key true) w' = (Err error, w').
Proof.
  assert (match alone (revoke 30 (toGuestSession guest_id created_row) guest) (repeat x1 4) w1 with
          | Some (Ok _, w', []) => findReplay (w_db w') reset_key = Ok None
          | _ => False
          end) as Hran by (vm_compute; reflexivity).
  apply ran_leaving in Hran as (w' & E & Hnone).
  exists w'. split; [exact E|]. split; [vm_compute; reflexivity|].
  assert (extractToken "guest" request = Some (is_token session)) as Ht by (vm_compute; reflexivity).
  assert (verify sample_service (is_token session) (now0 + 60000) = Ok guest) as Hv
    by (vm_compute; reflexivity).
  destruct (revocation_covers_live_tokens sample_service "guest" (toGuestSession guest_id created_row)
    guest x1 (repeat x1 3) w1 w' [] request (is_token session) (now0 + 60000) guest E Ht Hv eq_refl)
    as [_ Hrefused]; [vm_compute; discriminate|].
  destruct (Hrefused w' x1 eq_refl eq_refl) as ((error & _ & Hs) & _ & Hreset).
  split; [by exists error|]. apply (Hreset reset_key). intros command (hash & Hh & Hr) _.
  assert (hash = reset_key) as -> by (assert (hashIdempotencyKey reset_key = Ok reset_key) as Hk by (vm_compute; reflexivity); congruence).
  rewrite Hnone in Hr. discriminate Hr.
Defined.

(** Two renewals of that session, a second apart; the later one comes first. *)
Lemma overtaken_renewal_lowers_expiry_witness :
  exists r db1 r' db2 row2,
    renewWork (mkRenew guest_id "h2" (mkIssued 1700003661000 1700000061000 "j2")) (w_db w1) = Ok (r, db1) /\
    renewWork (mkRenew guest_id "h1" (mkIssued 1700003660000 1700000060000 "j1")) db1 = Ok (r', db2) /\
    guests db2 !! guest_id = Some row2 /\ s_expiresAt row2 < 1700003661000.
Proof.
  destruct (overtaken_renewal_lowers_expiry (w_db w1) guest_id created_row "h1" "h2"
    (mkIssued 1700003660000 1700000060000 "j1") (mkIssued 1700003661000 1700000061000 "j2"))
    as (r & db1 & r' & db2 & row2 & Hr & Hr' & Hrow & Hlt & _);
    [vm_compute; reflexivity|reflexivity|vm_compute; reflexivity|vm_compute; reflexivity|discriminate
    |split; reflexivity|split; reflexivity|reflexivity|].
  exists r, db1, r', db2, row2. exact (conj Hr (conj Hr' (conj Hrow Hlt))).
Defined.

(** A revoked session whose mark Redis lost. *)
Definition revoked_world : World :=
  mkWorld (mkDB ∅ [] [] ∅ ∅ {[guest_id := revoked 1700000050000 created_row]} ∅) (∅ : gmap string Entry).

Lemma revocations_are_restored_witness :
  exists cursor r, steady x1 (reconcile_runs sample_service 1 1 None) revoked_world =
      (Ok cursor, mkWorld (w_db revoked_world) r) /\
    is_Some (GET r (sessionKey guest_id)).
Proof.
  destruct (revocations_are_restored sample_service 1 x1 eq_refl eq_refl eq_refl 1 revoked_world)
    as (cursor & r & Hs & Hall).
  - apply Nat.lt_0_1.
  - apply Nat.leb_le. vm_compute. reflexivity.
  - exists cursor, r. split; [exact Hs|]. apply (Hall guest_id (revoked 1700000050000 created_row) 1700000050000);
      vm_compute; reflexivity.
Defined.
End SessionExamples.
