(* ===== verification/MatchmakingScripts.v ===== *)
(** * The matchmaking scripts

    [src/src/modules/matchmaking/infrastructure]: the Lua scripts of [lua/], which
    Redis runs atomically, and the methods of [matchmaking-script.service.ts] that
    send them and check their replies. Lua's numbers are integers here: they are
    milliseconds and positions, which both Lua's and JSON's numbers represent. *)

From S2P Require Export World.
From Stdlib Require Import DecimalString DecimalPos DecimalZ.
Local Open Scope string_scope.
Local Open Scope list_scope.
Local Open Scope Z_scope.

Module Scripts.

(** ** matchmaking.types.ts *)

Inductive RemovalReason : Type := reason_disconnected | reason_stale | reason_timeout.

#[export] Instance RemovalReason_toString : ToString RemovalReason := fun r =>
  match r with
  | reason_disconnected => "disconnected"
  | reason_stale => "stale"
  | reason_timeout => "timeout"
  end.

Record MatchReservation : Type := mkReservation {
  rv_a : string;
  rv_aScore : Z;
  rv_b : string;
  rv_bScore : Z;
  rv_createdAt : Z;
  rv_gameId : string;
  rv_matchId : string;
  rv_mode : string
}.

Record RemovedQueueGuest : Type := mkRemoved {
  rm_guestSessionId : string;
  rm_reason : RemovalReason
}.

Record QueueJoin : Type := mkQueueJoin {
  qj_duplicate : bool;
  qj_position : Z;
  qj_since : Z
}.

Record MatchAttempt : Type := mkMatchAttempt {
  mt_discarded : list RemovedQueueGuest;
  mt_reservation : option MatchReservation
}.

Record Requeued : Type := mkRequeued { rq_guestSessionId : string; rq_since : Z }.

(** ** Numbers as strings *)

Definition string_of_number (z : Z) : string := NilZero.string_of_int (Z.to_int z).

(** [Number(s)] on the strings the scripts store: decimal integers. Any other
    string counts as [NaN]. *)
Definition Number (s : option string) : option Z :=
  s ← s; Z.of_int <$> NilZero.int_of_string s.

Lemma Number_string z : Number (Some (string_of_number z)) = Some z.
Proof.
  unfold Number, string_of_number. simpl. rewrite NilZero.isi; [simpl; by rewrite DecimalZ.of_to|..];
    destruct z as [|p|p]; simpl; try done; intros [= E];
    by apply (DecimalPos.Unsigned.to_uint_nonnil p).
Qed.

Definition json_number (n : option Z) : json := match n with Some n => JNum n | None => JNull end.

(** ** The scripts *)

Section Lua.
Context `{Redis}.

Definition json_removed (l : list (string * string)) : json :=
  JArr (map (fun g => JObj [("guestSessionId", JStr g.1); ("reason", JStr g.2)]) l).

(** A field that is left out when its list is empty. *)
Definition when_any {A} (l : list A) (key : string) (v : json) : list (string * json) :=
  match l with [] => [] | _ => [(key, v)] end.

Definition reply_mismatch : json :=
  JObj [("status", JStr "ERROR"); ("code", JStr "RESERVATION_MISMATCH")].

(** [is_present] of [try-match.lua], [rollback.lua] and [sweep.lua] *)
Definition is_present (now : Z) (key : string) : lua bool :=
  _ ← call (ZREMRANGEBYSCORE key now);
  count ← ask (fun r => ZCARD r key);
  _ ← (if count =? 0 then call (DEL key) else mret ());
  mret (0 <? count).

(** *** enqueue.lua *)
Definition enqueue_lua (queue guard state active guest mode : string) (now : Z)
    (guardTtl stateTtl : positive) : lua json :=
  active_game ← ask (fun r => GET r active);
  st ← ask (fun r => GET r state);
  if negb (isNull active_game) || bool_decide (st = Some "RESERVED")
     || bool_decide (st = Some "IN_GAME")
  then mret (JObj [("status", JStr "ERROR"); ("code", JStr "ALREADY_IN_GAME")]) else
  score ← ask (fun r => ZSCORE r queue guest);
  match score with
  | Some score =>
      _ ← call (SET guard mode (Some guardTtl));
      _ ← call (SET state "QUEUED" (Some stateTtl));
      rank ← ask (fun r => ZRANK r queue guest);
      mret (JObj [("status", JStr "QUEUED"); ("duplicate", JBool true); ("since", JNum score);
                  ("position", json_number (Z.succ <$> rank))])
  | None =>
      _ ← call (ZADD queue now guest);
      _ ← call (SET guard mode (Some guardTtl));
      _ ← call (SET state "QUEUED" (Some stateTtl));
      rank ← ask (fun r => ZRANK r queue guest);
      mret (JObj [("status", JStr "QUEUED"); ("duplicate", JBool false); ("since", JNum now);
                  ("position", json_number (Z.succ <$> rank))])
  end.

(** *** leave.lua *)
Definition leave_lua (queue guard state guest : string) (stateTtl : positive) : lua json :=
  removed ← ask (fun r => negb (isNull (ZSCORE r queue guest)));
  _ ← call (ZREM queue guest);
  _ ← call (DEL guard);
  st ← ask (fun r => GET r state);
  _ ← (if bool_decide (st = Some "QUEUED") then call (SET state "IDLE" (Some stateTtl))
       else mret ());
  mret (JObj [("status", JStr "LEFT"); ("left", JBool removed)]).

(** *** try-match.lua *)

(** Why a guest taken from the queue cannot be matched. *)
Definition match_reason (mode : string) (now : Z) (maxWait : positive) (guest : string)
    (score : Z) : lua (option string) :=
  if score <=? now - Zpos maxWait then mret (Some "timeout") else
  present ← is_present now (presenceKey guest);
  if negb present then mret (Some "disconnected") else
  st ← ask (fun r => GET r (stateKey guest));
  guard ← ask (fun r => GET r (guardKey guest));
  active ← ask (fun r => EXISTS r (activeGameKey guest));
  mret (if negb (bool_decide (st = Some "QUEUED")) || negb (bool_decide (guard = Some mode))
           || active
        then Some "stale" else None).

Definition discard (guest : string) : lua () :=
  _ ← call (DEL (guardKey guest));
  st ← ask (fun r => GET r (stateKey guest));
  if bool_decide (st = Some "QUEUED") then call (DEL (stateKey guest)) else mret ().

(** The loop, with [scan] turns left. *)
Fixpoint scan_queue (mode queue : string) (now : Z) (maxWait : positive) (scan : nat)
    (candidates : list (string * Z)) (discarded : list (string * string))
    : lua (list (string * Z) * list (string * string)) :=
  match scan with
  | O => mret (candidates, discarded)
  | S scan =>
      if decide (length candidates = 2%nat) then mret (candidates, discarded) else
      popped ← ZPOPMIN queue;
      match popped with
      | None => mret (candidates, discarded)
      | Some (guest, score) =>
          reason ← match_reason mode now maxWait guest score;
          match reason with
          | Some reason =>
              _ ← discard guest;
              scan_queue mode queue now maxWait scan candidates (discarded ++ [(guest, reason)])
          | None =>
              scan_queue mode queue now maxWait scan (candidates ++ [(guest, score)]) discarded
          end
      end
  end.

Fixpoint put_back (queue : string) (guardTtl : positive) (candidates : list (string * Z))
    : lua () :=
  match candidates with
  | [] => mret ()
  | (guest, score) :: candidates =>
      _ ← call (ZADD queue score guest);
      _ ← call (PEXPIRE (guardKey guest) guardTtl);
      put_back queue guardTtl candidates
  end.

Definition tryMatch_lua (queue reservation mode : string) (now : Z) (maxWait : positive)
    (matchId gameId : string) (reservationTtl guardTtl : positive) (maxScan : Z) : lua json :=
  exists_ ← ask (fun r => EXISTS r reservation);
  if (exists_ : bool) then mret reply_mismatch else
  scanned ← scan_queue mode queue now maxWait (Z.to_nat maxScan) [] [];
  let (candidates, discarded) := (scanned : _ * _) in
  match candidates with
  | (g_a, aScore) :: (g_b, bScore) :: _ =>
      if decide (g_a = g_b) then
        _ ← call (ZADD queue aScore g_a); mret (JObj [("status", JStr "NO_MATCH")])
      else
      _ ← call (SET (stateKey g_a) "RESERVED" (Some reservationTtl));
      _ ← call (SET (stateKey g_b) "RESERVED" (Some reservationTtl));
      _ ← call (DEL (guardKey g_a));
      _ ← call (DEL (guardKey g_b));
      _ ← call (HSET reservation
                  [("matchId", matchId); ("gameId", gameId); ("mode", mode); ("a", g_a); ("b", g_b);
                   ("aScore", string_of_number aScore); ("bScore", string_of_number bScore);
                   ("createdAt", string_of_number now)]);
      _ ← call (PEXPIRE reservation reservationTtl);
      mret (JObj ([("status", JStr "MATCHED");
                   ("reservation",
                     JObj [("matchId", JStr matchId); ("gameId", JStr gameId);
                           ("mode", JStr mode); ("a", JStr g_a); ("b", JStr g_b);
                           ("aScore", JNum aScore); ("bScore", JNum bScore);
                           ("createdAt", JNum now)])] ++
                  when_any discarded "discarded" (json_removed discarded)))
  | _ =>
      _ ← put_back queue guardTtl candidates;
      mret (JObj ([("status", JStr "NO_MATCH")] ++
                  when_any discarded "discarded" (json_removed discarded)))
  end.

(** *** finalize.lua *)

(** The guards on the stored hash of [finalize.lua] and [rollback.lua]. *)
Definition holds_reservation (h : gmap string string) (matchId a b gameId : string) : bool :=
  bool_decide (h !! "matchId" = Some matchId) && bool_decide (h !! "a" = Some a) &&
  bool_decide (h !! "b" = Some b) && bool_decide (h !! "gameId" = Some gameId).

Definition finalize_lua (reservation guardA stateA activeA stateB activeB guardB : string)
    (matchId a b gameId : string) (stateTtl : positive) : lua json :=
  h ← ask (fun r => HGETALL r reservation);
  active_a ← ask (fun r => GET r activeA);
  active_b ← ask (fun r => GET r activeB);
  if decide (h = ∅) then
    if bool_decide (active_a = Some gameId) && bool_decide (active_b = Some gameId)
    then mret (JObj [("status", JStr "FINALIZED"); ("duplicate", JBool true)])
    else mret reply_mismatch
  else if negb (holds_reservation h matchId a b gameId) then mret reply_mismatch else
  _ ← call (SET stateA "IN_GAME" (Some stateTtl));
  _ ← call (SET activeA gameId None);
  _ ← call (SET stateB "IN_GAME" (Some stateTtl));
  _ ← call (SET activeB gameId None);
  _ ← call (DEL reservation);
  _ ← call (DEL guardA);
  _ ← call (DEL guardB);
  mret (JObj [("status", JStr "FINALIZED"); ("duplicate", JBool false)]).

(** *** repair-committed.lua *)
Definition repairCommitted_lua (stateA activeA stateB activeB queue guardA guardB : string)
    (gameId : string) (stateTtl : positive) (a b : string) : lua json :=
  current_a ← ask (fun r => GET r activeA);
  current_b ← ask (fun r => GET r activeB);
  if (negb (isNull current_a) && negb (bool_decide (current_a = Some gameId)))
     || (negb (isNull current_b) && negb (bool_decide (current_b = Some gameId)))
  then mret reply_mismatch else
  st_a ← ask (fun r => GET r stateA);
  st_b ← ask (fun r => GET r stateB);
  let changed := negb (bool_decide (current_a = Some gameId))
    || negb (bool_decide (current_b = Some gameId))
    || negb (bool_decide (st_a = Some "IN_GAME")) || negb (bool_decide (st_b = Some "IN_GAME")) in
  _ ← call (SET stateA "IN_GAME" (Some stateTtl));
  _ ← call (SET activeA gameId None);
  _ ← call (SET stateB "IN_GAME" (Some stateTtl));
  _ ← call (SET activeB gameId None);
  _ ← call (ZREM queue a);
  _ ← call (ZREM queue b);
  _ ← call (DEL guardA);
  _ ← call (DEL guardB);
  mret (JObj [("status", JStr "REPAIRED"); ("changed", JBool changed)]).

(** *** rollback.lua *)

(** What one side of a reservation is: its keys, its score, and what the database
    says of the guest. *)
Record Side : Type := mkSide {
  sd_guest : string;
  sd_score : Z;
  sd_assignment : string;
  sd_eligible : bool;
  sd_state : string;
  sd_active : string;
  sd_guard : string;
  sd_presence : string
}.

Definition is_settled (queue mode : string) (side : Side) : lua bool :=
  active ← ask (fun r => GET r (sd_active side));
  state ← ask (fun r => GET r (sd_state side));
  if negb (bool_decide (sd_assignment side = "")) then
    mret (bool_decide (active = Some (sd_assignment side)) && bool_decide (state = Some "IN_GAME"))
  else
  score ← ask (fun r => ZSCORE r queue (sd_guest side));
  guard ← ask (fun r => GET r (sd_guard side));
  let queued := negb (isNull score) && bool_decide (state = Some "QUEUED")
                && bool_decide (guard = Some mode) in
  let idle := isNull score && isNull active && negb (bool_decide (state = Some "RESERVED")) in
  mret (queued || idle).

(** [restore]; the result is what it adds to [requeued]. *)
Definition restore (queue mode : string) (now : Z) (guardTtl stateTtl : positive) (side : Side)
    : lua (list (string * Z)) :=
  if negb (bool_decide (sd_assignment side = "")) then
    _ ← call (ZREM queue (sd_guest side));
    _ ← call (DEL (sd_guard side));
    _ ← call (SET (sd_state side) "IN_GAME" (Some stateTtl));
    _ ← call (SET (sd_active side) (sd_assignment side) None);
    mret []
  else
  _ ← call (DEL (sd_active side));
  present ← (if sd_eligible side then is_present now (sd_presence side) else mret false);
  if (present : bool) then
    current_score ← ask (fun r => ZSCORE r queue (sd_guest side));
    _ ← (if match current_score with None => true | Some c => sd_score side <? c end
         then call (ZADD queue (sd_score side) (sd_guest side)) else mret ());
    _ ← call (SET (sd_guard side) mode (Some guardTtl));
    _ ← call (SET (sd_state side) "QUEUED" (Some stateTtl));
    mret [(sd_guest side, sd_score side)]
  else
    _ ← call (ZREM queue (sd_guest side));
    _ ← call (DEL (sd_guard side));
    _ ← call (SET (sd_state side) "IDLE" (Some stateTtl));
    mret [].

Definition rollback_lua (queue reservation : string) (a b : Side)
    (matchId gameId mode : string) (now : Z) (guardTtl stateTtl : positive) : lua json :=
  h ← ask (fun r => HGETALL r reservation);
  if decide (h = ∅) then
    settled_a ← is_settled queue mode a;
    settled_b ← (if (settled_a : bool) then is_settled queue mode b else mret false);
    if (settled_b : bool) then mret (JObj [("status", JStr "ROLLED_BACK")])
    else mret reply_mismatch
  else if negb (holds_reservation h matchId (sd_guest a) (sd_guest b) gameId)
  then mret reply_mismatch else
  requeued_a ← restore queue mode now guardTtl stateTtl a;
  requeued_b ← restore queue mode now guardTtl stateTtl b;
  _ ← call (DEL reservation);
  let requeued := requeued_a ++ requeued_b in
  mret (JObj ([("status", JStr "ROLLED_BACK")] ++
              when_any requeued "requeued"
                (JArr (map (fun g => JObj [("guestSessionId", JStr g.1); ("since", JNum g.2)])
                         requeued)))).

(** *** sweep.lua *)
Definition sweep_reason (mode : string) (now : Z) (maxWait : positive) (guest : string)
    (score : Z) : lua (option string) :=
  if score <=? now - Zpos maxWait then mret (Some "timeout") else
  present ← is_present now (presenceKey guest);
  if negb present then mret (Some "disconnected") else
  guard ← ask (fun r => GET r (guardKey guest));
  st ← ask (fun r => GET r (stateKey guest));
  active ← ask (fun r => EXISTS r (activeGameKey guest));
  mret (if negb (bool_decide (guard = Some mode)) || negb (bool_decide (st = Some "QUEUED"))
           || active
        then Some "stale" else None).

Fixpoint sweep_entries (mode queue : string) (now : Z) (maxWait stateTtl : positive)
    (entries : list (string * Z)) : lua (list (string * string)) :=
  match entries with
  | [] => mret []
  | (guest, score) :: entries =>
      reason ← sweep_reason mode now maxWait guest score;
      in_queue ← ask (fun r => negb (isNull (ZSCORE r queue guest)));
      match reason, in_queue with
      | Some reason, true =>
          _ ← call (ZREM queue guest);
          _ ← call (DEL (guardKey guest));
          st ← ask (fun r => GET r (stateKey guest));
          _ ← (if bool_decide (st = Some "QUEUED")
               then call (SET (stateKey guest) "IDLE" (Some stateTtl)) else mret ());
          rest ← sweep_entries mode queue now maxWait stateTtl entries;
          mret ((guest, reason) :: rest)
      | _, _ => sweep_entries mode queue now maxWait stateTtl entries
      end
  end.

Definition sweep_lua (queue : string) (now : Z) (maxWait : positive) (batch : positive)
    (mode : string) (stateTtl : positive) : lua json :=
  entries ← ask (fun r => take (Pos.to_nat batch) (ZRANGE r queue));
  removed ← sweep_entries mode queue now maxWait stateTtl entries;
  mret (JObj ([("status", JStr "SWEPT")] ++ when_any removed "removed" (json_removed removed))).
End Lua.

(** ** The schemas of the replies *)
Section Schemas.
Context `{Zod} `{ZodUuid}.

Definition allReasons : list RemovalReason := [reason_disconnected; reason_stale; reason_timeout].

Definition removedGuestSchema : parser RemovedQueueGuest :=
  z_object ["guestSessionId"; "reason"] (fun f =>
    guest ← z_field f "guestSessionId" z_uuid;
    reason ← z_field f "reason" (z_enum allReasons);
    Some (mkRemoved guest reason)).

Definition reservationSchema : parser MatchReservation :=
  z_object ["a"; "aScore"; "b"; "bScore"; "createdAt"; "gameId"; "matchId"; "mode"] (fun f =>
    a ← z_field f "a" z_uuid;
    aScore ← z_field f "aScore" z_int_nonnegative;
    b ← z_field f "b" z_uuid;
    bScore ← z_field f "bScore" z_int_nonnegative;
    createdAt ← z_field f "createdAt" z_int_nonnegative;
    gameId ← z_field f "gameId" z_uuidv4;
    matchId ← z_field f "matchId" z_uuidv4;
    mode ← z_field f "mode" (z_literal "blitz");
    Some (mkReservation a aScore b bScore createdAt gameId matchId mode)).

(** A reply of status ERROR, with its literal code. *)
Definition errorSchema {A} (code : string) : parser (option A) :=
  z_object ["code"; "status"] (fun f =>
    _ ← z_field f "code" (z_literal code);
    _ ← z_field f "status" (z_literal "ERROR");
    Some None).

Definition enqueueResponseSchema : parser (option QueueJoin) :=
  z_discriminated "status"
    [("ERROR", errorSchema "ALREADY_IN_GAME");
     ("QUEUED", z_object ["duplicate"; "position"; "since"; "status"] (fun f =>
        duplicate ← z_field f "duplicate" z_boolean;
        position ← z_field f "position" z_int_positive;
        since ← z_field f "since" z_int_nonnegative;
        _ ← z_field f "status" (z_literal "QUEUED");
        Some (Some (mkQueueJoin duplicate position since))))].

Definition leaveResponseSchema : parser bool :=
  z_object ["left"; "status"] (fun f =>
    left ← z_field f "left" z_boolean;
    _ ← z_field f "status" (z_literal "LEFT");
    Some left).

Definition matchResponseSchema : parser (option MatchAttempt) :=
  z_discriminated "status"
    [("ERROR", errorSchema "RESERVATION_MISMATCH");
     ("NO_MATCH", z_object ["discarded"; "status"] (fun f =>
        discarded ← z_optional_field f "discarded" (z_array removedGuestSchema);
        _ ← z_field f "status" (z_literal "NO_MATCH");
        Some (Some (mkMatchAttempt (default [] discarded) None))));
     ("MATCHED", z_object ["discarded"; "reservation"; "status"] (fun f =>
        discarded ← z_optional_field f "discarded" (z_array removedGuestSchema);
        reservation ← z_field f "reservation" reservationSchema;
        _ ← z_field f "status" (z_literal "MATCHED");
        Some (Some (mkMatchAttempt (default [] discarded) (Some reservation)))))].

Definition finalizeResponseSchema : parser (option bool) :=
  z_discriminated "status"
    [("ERROR", errorSchema "RESERVATION_MISMATCH");
     ("FINALIZED", z_object ["duplicate"; "status"] (fun f =>
        duplicate ← z_field f "duplicate" z_boolean;
        _ ← z_field f "status" (z_literal "FINALIZED");
        Some (Some duplicate)))].

Definition requeuedSchema : parser Requeued :=
  z_object ["guestSessionId"; "since"] (fun f =>
    guest ← z_field f "guestSessionId" z_uuid;
    since ← z_field f "since" z_int_nonnegative;
    Some (mkRequeued guest since)).

Definition rollbackResponseSchema : parser (option (list Requeued)) :=
  z_discriminated "status"
    [("ERROR", errorSchema "RESERVATION_MISMATCH");
     ("ROLLED_BACK", z_object ["requeued"; "status"] (fun f =>
        requeued ← z_optional_field f "requeued" (z_array requeuedSchema);
        _ ← z_field f "status" (z_literal "ROLLED_BACK");
        Some (Some (default [] requeued))))].

Definition sweepResponseSchema : parser (list RemovedQueueGuest) :=
  z_object ["removed"; "status"] (fun f =>
    removed ← z_optional_field f "removed" (z_array removedGuestSchema);
    _ ← z_field f "status" (z_literal "SWEPT");
    Some (default [] removed)).

Definition repairResponseSchema : parser (option bool) :=
  z_discriminated "status"
    [("ERROR", errorSchema "RESERVATION_MISMATCH");
     ("REPAIRED", z_object ["changed"; "status"] (fun f =>
        changed ← z_field f "changed" z_boolean;
        _ ← z_field f "status" (z_literal "REPAIRED");
        Some (Some changed)))].
End Schemas.

(** ** The service *)
Section Service.
Context `{Zod} `{ZodUuid} `{Redis} (config : AppConfig).

Definition unavailable : fault := EMatchmaking MM_DEPENDENCY_UNAVAILABLE true.
Definition reservationMismatch : fault := EMatchmaking MM_RESERVATION_MISMATCH false.

(** [execute]: sends a script by its hash, loading it first if its hash is not
    known and once more if Redis does not know it, and checks the reply. *)
Definition execute {A} (schema : parser A) (script : Ext -> lua json) (x : Ext) (w : World)
    : result fault A * World :=
  let link := x_link x in
  let ran := mkWorld (w_db w) (script x (w_redis w)).2 in
  let reply := match schema (script x (w_redis w)).1 with
               | Some a => Ok a
               | None => Err unavailable
               end in
  if negb (ln_connected link) then (Err unavailable, w) else
  if negb (ln_cached link) && negb (ln_loads link) then (Err unavailable, w) else
  match ln_first link with
  | Replied => (reply, ran)
  | Failed lost => (Err unavailable, if lost then ran else w)
  | NoScript =>
      if negb (ln_reloads link) then (Err unavailable, w) else
      match ln_second link with
      | Replied => (reply, ran)
      | Failed lost => (Err unavailable, if lost then ran else w)
      | NoScript => (Err unavailable, w)
      end
  end.

(** A reply of status ERROR is thrown. *)
Definition orThrow {A} (error : fault) (r : result fault (option A) * World)
    : result fault A * World :=
  (match r.1 with
   | Ok (Some a) => Ok a
   | Ok None => Err error
   | Err e => Err e
   end, r.2).

Definition enqueue (guest mode : string) (nowMs : Z) (x : Ext) (w : World)
    : result fault QueueJoin * World :=
  orThrow (EMatchmaking MM_ALREADY_IN_GAME false)
    (execute enqueueResponseSchema (fun _ =>
       enqueue_lua (queueKey mode) (guardKey guest) (stateKey guest) (activeGameKey guest)
         guest mode nowMs (QUEUE_GUARD_TTL_MS config) (MATCH_STATE_TTL_MS config)) x w).

Definition leave (guest mode : string) (x : Ext) (w : World) : result fault bool * World :=
  execute leaveResponseSchema (fun _ =>
    leave_lua (queueKey mode) (guardKey guest) (stateKey guest) guest
      (MATCH_STATE_TTL_MS config)) x w.

Definition tryMatch (mode matchId gameId : string) (nowMs maxScan : Z) (x : Ext) (w : World)
    : result fault MatchAttempt * World :=
  orThrow reservationMismatch
    (execute matchResponseSchema (fun _ =>
       tryMatch_lua (queueKey mode) (reservationKey matchId) mode nowMs
         (QUEUE_MAX_WAIT_MS config) matchId gameId (RESERVATION_TTL_MS config)
         (QUEUE_GUARD_TTL_MS config) maxScan) x w).

(** The result is [!response.duplicate]. *)
Definition finalize (rv : MatchReservation) (x : Ext) (w : World) : result fault bool * World :=
  let '(r, w') := orThrow reservationMismatch
    (execute finalizeResponseSchema (fun _ =>
       finalize_lua (reservationKey (rv_matchId rv)) (guardKey (rv_a rv)) (stateKey (rv_a rv))
         (activeGameKey (rv_a rv)) (stateKey (rv_b rv)) (activeGameKey (rv_b rv))
         (guardKey (rv_b rv)) (rv_matchId rv) (rv_a rv) (rv_b rv) (rv_gameId rv)
         (MATCH_STATE_TTL_MS config)) x w) in
  (negb <$> r, w').

(** What the database says of a guest. *)
Record Durable : Type := mkDurable {
  du_activeGameId : option string;
  du_eligible : bool
}.

Definition sideOf (guest : string) (score : Z) (durable : Durable) : Side :=
  mkSide guest score (default "" (du_activeGameId durable)) (du_eligible durable)
    (stateKey guest) (activeGameKey guest) (guardKey guest) (presenceKey guest).

Definition rollback (rv : MatchReservation) (durable_a durable_b : Durable) (nowMs : Z)
    (x : Ext) (w : World) : result fault (list Requeued) * World :=
  orThrow reservationMismatch
    (execute rollbackResponseSchema (fun _ =>
       rollback_lua (queueKey (rv_mode rv)) (reservationKey (rv_matchId rv))
         (sideOf (rv_a rv) (rv_aScore rv) durable_a) (sideOf (rv_b rv) (rv_bScore rv) durable_b)
         (rv_matchId rv) (rv_gameId rv) (rv_mode rv) nowMs
         (QUEUE_GUARD_TTL_MS config) (MATCH_STATE_TTL_MS config)) x w).

Definition sweep (mode : string) (nowMs : Z) (batchSize : positive) (x : Ext) (w : World)
    : result fault (list RemovedQueueGuest) * World :=
  execute sweepResponseSchema (fun _ =>
    sweep_lua (queueKey mode) nowMs (QUEUE_MAX_WAIT_MS config) batchSize mode
      (MATCH_STATE_TTL_MS config)) x w.

Definition repairCommitted (mode gameId a b : string) (x : Ext) (w : World)
    : result fault bool * World :=
  orThrow reservationMismatch
    (execute repairResponseSchema (fun _ =>
       repairCommitted_lua (stateKey a) (activeGameKey a) (stateKey b) (activeGameKey b)
         (queueKey mode) (guardKey a) (guardKey b) gameId (MATCH_STATE_TTL_MS config) a b) x w).

(** A command whose failure is reported as unavailability. *)
Definition orUnavailable {A} (p : Prog A) : Prog A :=
  catch p (fun error => match error with
                        | EMatchmaking _ _ => Throw error
                        | _ => Throw unavailable
                        end).

Definition queueSize (mode : string) : Prog Z :=
  orUnavailable (command (fun _ => ask (fun r => ZCARD r (queueKey mode)))).

(** [reservationSchema.safeParse({...values, aScore: Number(..), ..})] *)
Definition parseReservation (h : gmap string string) : option MatchReservation :=
  reservationSchema (JObj
    (map (fun f => (f.1, JStr f.2))
       (filter (fun f => f.1 <> "aScore" /\ f.1 <> "bScore" /\ f.1 <> "createdAt")
          (map_to_list h)) ++
     [("aScore", json_number (Number (h !! "aScore")));
      ("bScore", json_number (Number (h !! "bScore")));
      ("createdAt", json_number (Number (h !! "createdAt")))])).

(** One key of a page of the scan: [Some] of all reservations when the limit is
    reached. *)
Fixpoint readPage (limit : nat) (keys : list string) (found : list MatchReservation)
    : Prog (list MatchReservation * bool) :=
  match keys with
  | [] => mret (found, false)
  | key :: keys =>
      values ← command (fun _ => ask (fun r => HGETALL r key));
      if decide (values = ∅) then readPage limit keys found else
      match parseReservation values with
      | None => Throw (EMatchmaking MM_RESERVATION_MISMATCH false)
      | Some reservation =>
          let found := found ++ [reservation] in
          if decide (limit <= length found)%nat then mret (found, true)
          else readPage limit keys found
      end
  end.

(** The loop over the cursors. [pages] is what SCAN answers, up to the cursor that
    ends the iteration: Redis guarantees that a full iteration ends. *)
Fixpoint scanReservations (limit : nat) (pages : list (list string))
    (found : list MatchReservation) : Prog (list MatchReservation) :=
  match pages with
  | [] => mret found
  | keys :: pages =>
      _ ← command (fun _ => ask (fun _ => ()));
      result ← readPage limit keys found;
      let (found, full) := (result : _ * _) in
      if (full : bool) then mret found else scanReservations limit pages found
  end.

Definition listReservations (limit : nat) (pages : list (list string))
    : Prog (list MatchReservation) :=
  orUnavailable (scanReservations limit pages []).
End Service.

(** * Theory *)

(** ** First come, first served

    What the scan of [try-match.lua] should do, on the queue as a list: walk it in
    order, drop whoever has a reason, stop at two candidates. *)
Section Select.
Context (reason : string * Z -> option RemovalReason).

Fixpoint select (scan : nat) (candidates : list (string * Z))
    (discarded : list RemovedQueueGuest) (l : list (string * Z))
    : list (string * Z) * list RemovedQueueGuest * list (string * Z) :=
  match scan, l with
  | O, _ | _, [] => (candidates, discarded, l)
  | S scan, x :: rest =>
      if decide (length candidates = 2%nat) then (candidates, discarded, l) else
      match reason x with
      | Some q => select scan candidates (discarded ++ [mkRemoved x.1 q]) rest
      | None => select scan (candidates ++ [x]) discarded rest
      end
  end.

(** The candidates are the first in the queue without a reason, and whoever is
    discarded has one. *)
Lemma select_spec scan candidates discarded l cs ds rest :
  select scan candidates discarded l = (cs, ds, rest) ->
  exists walked, l = walked ++ rest /\
    cs = candidates ++ filter (fun x => reason x = None) walked /\
    ds = discarded ++ omap (fun x => mkRemoved x.1 <$> reason x) walked /\
    (length walked <= scan)%nat.
Proof.
  revert candidates discarded l. induction scan as [|scan IH]; intros cs0 ds0 l Hs.
  { exists []. simpl in *. simplify_eq. by rewrite !app_nil_r. }
  destruct l as [|x l]; simpl in Hs.
  { exists []. simplify_eq. rewrite !app_nil_r. split_and!; simpl; try done; lia. }
  case_decide.
  { exists []. simplify_eq. rewrite !app_nil_r. split_and!; simpl; try done; lia. }
  destruct (reason x) as [q|] eqn:Eq; apply IH in Hs as (walked & -> & -> & -> & Hn);
    exists (x :: walked); rewrite filter_cons; simpl; rewrite Eq; simpl;
    rewrite <- ?app_assoc; split_and!; try done; lia.
Qed.

Lemma select_stops scan candidates discarded l cs ds rest :
  select scan candidates discarded l = (cs, ds, rest) ->
  length cs = 2%nat \/ rest = [] \/ (length l = scan + length rest)%nat.
Proof.
  revert candidates discarded l. induction scan as [|scan IH]; intros cs0 ds0 l Hs.
  { simpl in Hs. simplify_eq. auto. }
  destruct l as [|x l]; simpl in Hs; [simplify_eq; auto|].
  case_decide; [simplify_eq; auto|].
  destruct (reason x); apply IH in Hs as [?|[?|?]]; simpl; auto.
Qed.

Lemma select_length scan candidates discarded l cs ds rest :
  (length candidates <= 2)%nat ->
  select scan candidates discarded l = (cs, ds, rest) -> (length cs <= 2)%nat.
Proof.
  revert candidates discarded l. induction scan as [|scan IH]; intros cs0 ds0 l Hn Hs.
  { simpl in Hs. by simplify_eq. }
  destruct l as [|x l]; simpl in Hs; [by simplify_eq|].
  case_decide; [by simplify_eq|].
  destruct (reason x); apply IH in Hs; try done. rewrite length_app. simpl. lia.
Qed.
End Select.

Lemma StronglySorted_sublist {A} (R : A -> A -> Prop) l1 l2 :
  sublist l1 l2 -> StronglySorted R l2 -> StronglySorted R l1.
Proof.
  induction 1 as [|x l1 l2 Hsub IH|x l1 l2 Hsub IH]; intros Hs; [done|..];
    apply StronglySorted_inv in Hs as [Hs Hx]; [|auto].
  constructor; [auto|]. apply Forall_forall. intros y Hy.
  apply (proj1 (Forall_forall _ _) Hx). by eapply sublist_subseteq.
Qed.

Lemma above_idemp max z : above max (above max z) = above max z.
Proof. unfold above. rewrite map_filter_filter. apply map_filter_ext. naive_solver. Qed.

Section Theory.
Context `{RedisLaws}.

(** ** Presence *)

Definition presentAt (r : Keyspace) (now : Z) (guest : string) : bool :=
  negb (bool_decide (above now (ZSCORES r (presenceKey guest)) = ∅)).

Lemma is_present_eval now k r :
  (is_present now k r).1 = negb (bool_decide (above now (ZSCORES r k) = ∅)) /\
  (forall k', k' <> k -> entry (is_present now k r).2 k' = entry r k') /\
  ZSCORES (is_present now k r).2 k = above now (ZSCORES r k).
Proof.
  unfold is_present, mbind, lua_bind, call, ask, mret, lua_ret, ZCARD, ZSCORES.
  rewrite entry_ZREMRANGEBYSCORE, decide_True by done. autorewrite with redis.
  assert (0 < Z.of_nat (size (above now (en_zset (entry r k)))) <->
          above now (en_zset (entry r k)) <> ∅) as Hn.
  { rewrite <- map_size_non_empty_iff. lia. }
  destruct (_ =? 0) eqn:E; js_bool; simpl.
  - assert (above now (en_zset (entry r k)) = ∅) as Ez
      by (destruct (decide (above now (en_zset (entry r k)) = ∅)) as [|Hne]; [done|];
          apply Hn in Hne; lia).
    split_and!.
    + rewrite E, bool_decide_eq_true_2 by done. done.
    + intros k' Hk. rewrite entry_DEL, decide_False by done.
      by rewrite entry_ZREMRANGEBYSCORE, decide_False.
    + rewrite entry_DEL, decide_True by done. by rewrite Ez.
  - split_and!.
    + rewrite bool_decide_eq_false_2 by (apply Hn; lia). apply Z.ltb_lt. lia.
    + intros k' Hk. by rewrite entry_ZREMRANGEBYSCORE, decide_False.
    + rewrite entry_ZREMRANGEBYSCORE, decide_True by done. by autorewrite with redis.
Qed.

(** ** The scan *)

Definition guest_reason (r : Keyspace) (mode : string) (now : Z) (maxWait : positive)
    (x : string * Z) : option RemovalReason :=
  if x.2 <=? now - Zpos maxWait then Some reason_timeout else
  if negb (presentAt r now x.1) then Some reason_disconnected else
  if negb (bool_decide (GET r (stateKey x.1) = Some "QUEUED"))
     || negb (bool_decide (GET r (guardKey x.1) = Some mode))
     || EXISTS r (activeGameKey x.1)
  then Some reason_stale else None.

(** What a scan that discarded the guests [gs] leaves alone. *)
Record scanned (now : Z) (mode : string) (gs : list string) (r r' : Keyspace) : Prop := {
  sc_presence : forall g, above now (ZSCORES r' (presenceKey g)) =
                          above now (ZSCORES r (presenceKey g));
  sc_active : forall g, entry r' (activeGameKey g) = entry r (activeGameKey g);
  sc_reservation : forall m, entry r' (reservationKey m) = entry r (reservationKey m);
  sc_guard : forall g, g ∉ gs -> entry r' (guardKey g) = entry r (guardKey g);
  sc_state : forall g, g ∉ gs -> entry r' (stateKey g) = entry r (stateKey g);
  sc_discarded : forall g, g ∈ gs ->
    entry r' (guardKey g) = no_entry /\
    entry r' (stateKey g) =
      (if decide (GET r (stateKey g) = Some "QUEUED") then no_entry else entry r (stateKey g))
}.

Lemma scanned_refl now mode r : scanned now mode [] r r.
Proof. split; try done. by intros g ?%not_elem_of_nil. Qed.

Lemma scanned_reason now mode gs r r' maxWait x :
  scanned now mode gs r r' -> x.1 ∉ gs ->
  guest_reason r' mode now maxWait x = guest_reason r mode now maxWait x.
Proof.
  intros Hs Hx. unfold guest_reason, presentAt, GET, EXISTS.
  by rewrite (sc_presence _ _ _ _ _ Hs), (sc_state _ _ _ _ _ Hs), (sc_guard _ _ _ _ _ Hs),
    (sc_active _ _ _ _ _ Hs).
Qed.

Lemma match_reason_eval mode now maxWait g s r :
  let r' := (match_reason mode now maxWait g s r).2 in
  (match_reason mode now maxWait g s r).1 = toString <$> guest_reason r mode now maxWait (g, s) /\
  ZSCORES r' (queueKey mode) = ZSCORES r (queueKey mode) /\ scanned now mode [] r r'.
Proof.
  unfold match_reason, guest_reason, presentAt. cbn [fst snd].
  destruct (s <=? _); [split_and!; try done; apply scanned_refl|].
  unfold mbind, lua_bind. destruct (is_present_eval now (presenceKey g) r) as (E1 & E2 & E3).
  destruct (is_present now (presenceKey g) r) as [live r'] eqn:Er. cbn [fst snd] in *. subst live.
  assert (scanned now mode [] r r') as Hs.
  { split; try (intros; by rewrite E2 by key_ne); [|by intros ? ?%not_elem_of_nil].
    intros g'. destruct (decide (g' = g)) as [->|Hne]; [by rewrite E3, above_idemp|].
    unfold ZSCORES. by rewrite E2 by key_ne. }
  assert (ZSCORES r' (queueKey mode) = ZSCORES r (queueKey mode)) as Hq
    by (unfold ZSCORES; by rewrite E2 by key_ne).
  destruct (bool_decide _); simpl; [by split_and!|]. split_and!; [|done|done].
  unfold ask, mret, lua_ret. simpl. unfold GET, EXISTS. rewrite !E2 by key_ne.
  by destruct (_ || _ || _).
Qed.

Lemma scanned_trans now mode gs r0 r r' :
  scanned now mode gs r0 r -> scanned now mode [] r r' -> scanned now mode gs r0 r'.
Proof.
  intros H1 H2. assert (forall g, g ∉ @nil string) as Hnil by set_solver.
  split; intros.
  - by rewrite (sc_presence _ _ _ _ _ H2), (sc_presence _ _ _ _ _ H1).
  - by rewrite (sc_active _ _ _ _ _ H2), (sc_active _ _ _ _ _ H1).
  - by rewrite (sc_reservation _ _ _ _ _ H2), (sc_reservation _ _ _ _ _ H1).
  - rewrite (sc_guard _ _ _ _ _ H2) by done. by apply (sc_guard _ _ _ _ _ H1).
  - rewrite (sc_state _ _ _ _ _ H2) by done. by apply (sc_state _ _ _ _ _ H1).
  - rewrite (sc_guard _ _ _ _ _ H2), (sc_state _ _ _ _ _ H2) by done.
    by apply (sc_discarded _ _ _ _ _ H1).
Qed.

Lemma discard_scanned now mode gs r0 r g :
  scanned now mode gs r0 r -> g ∉ gs -> scanned now mode (gs ++ [g]) r0 (discard g r).2.
Proof.
  intros [S1 S2 S3 S4 S5 S6] Hg. unfold discard, mbind, lua_bind, call, ask. simpl.
  set (r1 := DEL (guardKey g) r).
  assert (GET r1 (stateKey g) = GET r0 (stateKey g)) as Est
    by (unfold GET, r1; redis; by rewrite S5).
  rewrite Est.
  assert (forall k, k <> guardKey g -> entry r1 k = entry r k) as E1
    by (intros k Hk; unfold r1; by rewrite entry_DEL, decide_False).
  set (r2 := (if bool_decide (GET r0 (stateKey g) = Some "QUEUED")
              then call (DEL (stateKey g)) else mret ()) r1).
  assert (forall k, k <> guardKey g -> k <> stateKey g -> entry r2.2 k = entry r k) as E2.
  { intros k H1 H2. unfold r2. case_bool_decide; simpl; [|by apply E1].
    rewrite entry_DEL, decide_False by done. by apply E1. }
  assert (entry r2.2 (guardKey g) = no_entry) as E3
    by (unfold r2; case_bool_decide; simpl; unfold r1; redis; done).
  split.
  - intros g'. unfold ZSCORES. rewrite E2 by key_ne. apply S1.
  - intros g'. rewrite E2 by key_ne. apply S2.
  - intros m. rewrite E2 by key_ne. apply S3.
  - intros g' [Hg' Hne]%not_elem_of_app. apply not_elem_of_cons in Hne as [Hne _].
    rewrite E2 by key_ne. by apply S4.
  - intros g' [Hg' Hne]%not_elem_of_app. apply not_elem_of_cons in Hne as [Hne _].
    rewrite E2 by key_ne. by apply S5.
  - intros g' [Hg'|Hg'%list_elem_of_singleton]%elem_of_app; [|subst g'].
    + assert (g' <> g) by (by intros ->). rewrite !E2 by key_ne. by apply S6.
    + split; [done|]. unfold r2. case_bool_decide as Hq; simpl.
      * by redis.
      * rewrite decide_False by done. unfold r1. redis. by apply S5.
Qed.

Lemma scan_queue_spec mode now maxWait scan r0 r candidates discarded :
  scanned now mode (map rm_guestSessionId discarded) r0 r ->
  (forall x, x ∈ ZRANGE r (queueKey mode) -> x.1 ∉ map rm_guestSessionId discarded) ->
  let '(cs, ds, rest) := select (guest_reason r0 mode now maxWait) scan candidates discarded
                           (ZRANGE r (queueKey mode)) in
  let pairs := map (fun d => (rm_guestSessionId d, toString (rm_reason d))) in
  exists r',
    scan_queue mode (queueKey mode) now maxWait scan candidates (pairs discarded) r =
      ((cs, pairs ds), r') /\
    scanned now mode (map rm_guestSessionId ds) r0 r' /\ ZRANGE r' (queueKey mode) = rest.
Proof.
  intros Hs Hnew. revert r candidates discarded Hs Hnew.
  induction scan as [|scan IH]; intros r cs0 ds0 Hs Hnew.
  { simpl. by exists r. }
  destruct (ZRANGE r (queueKey mode)) as [|[g s] l] eqn:El; cbn [select scan_queue].
  { exists r. split_and!; [|done|done]. destruct (decide _); [done|].
    unfold mbind, lua_bind, ZPOPMIN. by rewrite El. }
  destruct (decide _); [by exists r|].
  unfold mbind, lua_bind, ZPOPMIN at 1. rewrite El. cbn [fst].
  set (r1 := ZREM (queueKey mode) g r).
  assert (scanned now mode [] r r1) as Hs1.
  { split; try (intros; unfold r1; redis; done); [|by intros ? ?%not_elem_of_nil].
    intros g'. unfold ZSCORES, r1. by redis. }
  assert (ZRANGE r1 (queueKey mode) = l) as El1.
  { unfold ZRANGE, ZSCORES, r1. redis. autorewrite with redis. by apply (ranked_pop _ (g, s)). }
  assert (g ∉ map fst l) as Hgl.
  { pose proof (ranked_NoDup (ZSCORES r (queueKey mode))) as Hnd.
    unfold ZRANGE in El. rewrite El in Hnd. by apply NoDup_cons in Hnd as [? _]. }
  pose proof (match_reason_eval mode now maxWait g s r1) as (Em & Eq & Hs2).
  destruct (match_reason mode now maxWait g s r1) as [reason r2]. cbn [fst snd] in *.
  pose proof (scanned_trans _ _ _ _ _ _ (scanned_trans _ _ _ _ _ _ Hs Hs1) Hs2) as Hs02.
  assert (g ∉ map rm_guestSessionId ds0) as Hg by (apply (Hnew (g, s)); left).
  rewrite (scanned_reason now mode [] r r1) in Em by (done || set_solver).
  rewrite (scanned_reason _ _ _ _ _ _ _ Hs) in Em by done. subst reason.
  assert (ZRANGE r2 (queueKey mode) = l) as El2 by (unfold ZRANGE; rewrite Eq; exact El1).
  destruct (guest_reason r0 mode now maxWait (g, s)) as [q|] eqn:Er; cbn [fmap option_fmap].
  - simpl. pose proof (discard_scanned _ _ _ _ _ _ Hs02 Hg) as Hs3.
    assert (ZRANGE (discard g r2).2 (queueKey mode) = l) as El3.
    { rewrite <- El2. unfold ZRANGE, ZSCORES, discard, mbind, lua_bind, call, ask. simpl.
      case_bool_decide; simpl; by redis. }
    destruct (discard g r2) as [[] r3]. cbn [snd] in *.
    specialize (IH r3 cs0 (ds0 ++ [mkRemoved g q])). rewrite El3, !map_app in IH. apply IH.
    + exact Hs3.
    + intros x Hx. simpl. rewrite not_elem_of_app, list_elem_of_singleton. split.
      * apply Hnew. by right.
      * intros <-. apply Hgl. apply list_elem_of_fmap. eauto.
  - specialize (IH r2 (cs0 ++ [(g, s)]) ds0 Hs02). rewrite El2 in IH. apply IH.
    intros x Hx. apply Hnew. by right.
Qed.
End Theory.

(** ** Replies are accepted by their schemas *)
Section Replies.
Context `{Zod} `{ZodUuid}.

Lemma z_items_map {A B} (p : parser A) (f : B -> json) (g : B -> A) l :
  (forall x, x ∈ l -> p (f x) = Some (g x)) -> z_items p (map f l) = Some (map g l).
Proof.
  induction l as [|x l IH]; intros Hp; simpl; [done|].
  rewrite Hp by left. simpl. rewrite IH; [done|]. intros y Hy. apply Hp. by right.
Qed.

Definition removed_pairs (ds : list RemovedQueueGuest) : list (string * string) :=
  map (fun d => (rm_guestSessionId d, toString (rm_reason d))) ds.

Lemma removedGuestSchema_eval d :
  zod_uuid (rm_guestSessionId d) = true ->
  removedGuestSchema (JObj [("guestSessionId", JStr (rm_guestSessionId d));
                            ("reason", JStr (toString (rm_reason d)))]) = Some d.
Proof.
  intros Hz. unfold removedGuestSchema, z_field. simpl. rewrite Hz. simpl.
  by destruct d as [g []].
Qed.

(** An optional list that is left out when empty. *)
Lemma optional_removed ds :
  Forall (fun d => zod_uuid (rm_guestSessionId d) = true) ds ->
  z_array removedGuestSchema (json_removed (removed_pairs ds)) = Some ds.
Proof.
  intros Hds. simpl. unfold removed_pairs. rewrite map_map.
  rewrite (z_items_map _ _ (fun d => d)); [by rewrite map_id|].
  intros d Hd. apply removedGuestSchema_eval. by apply (proj1 (Forall_forall _ _) Hds).
Qed.

Definition reservation_ok (rv : MatchReservation) : Prop :=
  zod_uuid (rv_a rv) = true /\ zod_uuid (rv_b rv) = true /\
  zod_uuidv4 (rv_gameId rv) = true /\ zod_uuidv4 (rv_matchId rv) = true /\
  rv_mode rv = "blitz" /\
  0 <= rv_aScore rv <= MAX_SAFE_INTEGER /\ 0 <= rv_bScore rv <= MAX_SAFE_INTEGER /\
  0 <= rv_createdAt rv <= MAX_SAFE_INTEGER.

Lemma z_nonnegative_eval n : 0 <= n <= MAX_SAFE_INTEGER -> z_int_nonnegative (JNum n) = Some n.
Proof.
  intros Hn. apply z_int_from_eval; [lia|]. apply isSafeInteger_true.
  unfold MAX_SAFE_INTEGER in *. lia.
Qed.

(** Whatever the order of its fields. *)
Lemma reservationSchema_eval rv fields :
  reservation_ok rv ->
  forallb (fun f => includes ["a"; "aScore"; "b"; "bScore"; "createdAt"; "gameId"; "matchId";
                              "mode"] f.1) fields = true ->
  property fields "a" = Some (JStr (rv_a rv)) ->
  property fields "aScore" = Some (JNum (rv_aScore rv)) ->
  property fields "b" = Some (JStr (rv_b rv)) ->
  property fields "bScore" = Some (JNum (rv_bScore rv)) ->
  property fields "createdAt" = Some (JNum (rv_createdAt rv)) ->
  property fields "gameId" = Some (JStr (rv_gameId rv)) ->
  property fields "matchId" = Some (JStr (rv_matchId rv)) ->
  property fields "mode" = Some (JStr (rv_mode rv)) ->
  reservationSchema (JObj fields) = Some rv.
Proof.
  intros (Ha & Hb & Hg & Hm & Hmode & Hsa & Hsb & Hc) Hkeys P1 P2 P3 P4 P5 P6 P7 P8.
  unfold reservationSchema. rewrite z_object_eval by done.
  rewrite (z_field_bind _ _ _ _ _ _ P1 (z_string_where_eval _ _ Ha)).
  rewrite (z_field_bind _ _ _ _ _ _ P2 (z_nonnegative_eval _ Hsa)).
  rewrite (z_field_bind _ _ _ _ _ _ P3 (z_string_where_eval _ _ Hb)).
  rewrite (z_field_bind _ _ _ _ _ _ P4 (z_nonnegative_eval _ Hsb)).
  rewrite (z_field_bind _ _ _ _ _ _ P5 (z_nonnegative_eval _ Hc)).
  rewrite (z_field_bind _ _ _ _ _ _ P6 (z_string_where_eval _ _ Hg)).
  rewrite (z_field_bind _ _ _ _ _ _ P7 (z_string_where_eval _ _ Hm)).
  unfold z_field. rewrite P8. rewrite Hmode. simpl. by destruct rv; simpl in *; subst.
Qed.

(** ** Stored reservations are read back *)

Definition stored_fields (rv : MatchReservation) : list (string * string) :=
  [("matchId", rv_matchId rv); ("gameId", rv_gameId rv); ("mode", rv_mode rv);
   ("a", rv_a rv); ("b", rv_b rv); ("aScore", string_of_number (rv_aScore rv));
   ("bScore", string_of_number (rv_bScore rv));
   ("createdAt", string_of_number (rv_createdAt rv))].

Definition stored (rv : MatchReservation) : gmap string string :=
  list_to_map (reverse (stored_fields rv)).

Lemma stored_list matchId gameId mode a b sa sb c :
  map_to_list (list_to_map (reverse
    [("matchId", matchId); ("gameId", gameId); ("mode", mode); ("a", a); ("b", b);
     ("aScore", sa); ("bScore", sb); ("createdAt", c)]) : gmap string string) =
  [("gameId", gameId); ("createdAt", c); ("mode", mode); ("matchId", matchId);
   ("aScore", sa); ("a", a); ("bScore", sb); ("b", b)].
Proof. vm_compute. reflexivity. Qed.

Lemma parse_stored rv : reservation_ok rv -> parseReservation (stored rv) = Some rv.
Proof.
  intros Hok. unfold parseReservation.
  assert (stored rv !! "aScore" = Some (string_of_number (rv_aScore rv))) as -> by done.
  assert (stored rv !! "bScore" = Some (string_of_number (rv_bScore rv))) as -> by done.
  assert (stored rv !! "createdAt" = Some (string_of_number (rv_createdAt rv))) as -> by done.
  rewrite !Number_string. unfold stored, stored_fields. rewrite stored_list.
  by apply reservationSchema_eval.
Qed.

Lemma stored_holds rv :
  holds_reservation (stored rv) (rv_matchId rv) (rv_a rv) (rv_b rv) (rv_gameId rv) = true.
Proof.
  unfold holds_reservation.
  assert (stored rv !! "matchId" = Some (rv_matchId rv)) as -> by done.
  assert (stored rv !! "a" = Some (rv_a rv)) as -> by done.
  assert (stored rv !! "b" = Some (rv_b rv)) as -> by done.
  assert (stored rv !! "gameId" = Some (rv_gameId rv)) as -> by done.
  by rewrite !bool_decide_eq_true_2.
Qed.

Lemma stored_nonempty rv : stored rv <> ∅.
Proof. intros E. assert (stored rv !! "a" = Some (rv_a rv)) as Ha by done. by rewrite E in Ha. Qed.
End Replies.

(** ** Sending a script *)
Section Delivery.
Context `{Redis}.

(** The script runs and its reply arrives. *)
Definition delivers (link : Link) : bool :=
  ln_connected link && (ln_cached link || ln_loads link) &&
  match ln_first link with
  | Replied => true
  | NoScript => ln_reloads link && match ln_second link with Replied => true | _ => false end
  | Failed _ => false
  end.

Lemma execute_delivers {A} (schema : parser A) script x w a :
  delivers (x_link x) = true -> schema (script x (w_redis w)).1 = Some a ->
  execute schema script x w = (Ok a, mkWorld (w_db w) (script x (w_redis w)).2).
Proof.
  unfold delivers, execute. intros Hd Hs. rewrite Hs.
  destruct (x_link x) as [[] [] [] [| |] [] [| |]]; simpl in *; done.
Qed.

(** When it does not, the caller is told so, and the script has run or not. *)
Lemma execute_fails {A} (schema : parser A) script x w :
  delivers (x_link x) = false ->
  execute schema script x w = (Err unavailable, w) \/
  execute schema script x w =
    (Err unavailable, mkWorld (w_db w) (script x (w_redis w)).2).
Proof.
  unfold delivers, execute. intros Hd.
  destruct (x_link x) as [[] [] [] [| |[]] [] [| |[]]]; simpl in *; auto; done.
Qed.

(** In every case the script has run once or not at all. *)
Lemma execute_ran {A} (schema : parser A) script x w :
  (execute schema script x w).2 = w \/
  (execute schema script x w).2 = mkWorld (w_db w) (script x (w_redis w)).2.
Proof.
  unfold execute. destruct (x_link x) as [[] [] [] [| |[]] [] [| |[]]]; simpl; auto.
Qed.
End Delivery.

(** ** Matching *)
Section Matching.
Context `{Zod} `{ZodUuid} `{RedisLaws} (config : AppConfig).

(** The members of the queue are guest ids, their scores times. *)
Definition valid_queue (r : Keyspace) (mode : string) : Prop :=
  forall g s, ZSCORE r (queueKey mode) g = Some s ->
    zod_uuid g = true /\ 0 <= s <= MAX_SAFE_INTEGER.

Lemma ranked_cons z x l :
  StronglySorted before (x :: l) -> ranked (delete x.1 z) = l -> z !! x.1 = Some x.2 ->
  ranked z = x :: l.
Proof.
  intros Hs El Hz. symmetry. apply ranked_unique; [done|].
  rewrite <- El, ranked_perm. destruct x as [g s]. simpl in *.
  by rewrite <- (map_to_list_delete _ _ _ Hz).
Qed.

(** The reservation of the first two candidates is stored. *)
Definition reserved (rv : MatchReservation) (r : Keyspace) : Keyspace :=
  PEXPIRE (reservationKey (rv_matchId rv)) (RESERVATION_TTL_MS config)
    (HSET (reservationKey (rv_matchId rv)) (stored_fields rv)
       (DEL (guardKey (rv_b rv)) (DEL (guardKey (rv_a rv))
          (SET (stateKey (rv_b rv)) "RESERVED" (Some (RESERVATION_TTL_MS config))
             (SET (stateKey (rv_a rv)) "RESERVED" (Some (RESERVATION_TTL_MS config)) r))))).

Lemma reserved_hash rv r :
  HGETALL r (reservationKey (rv_matchId rv)) = ∅ ->
  HGETALL (reserved rv r) (reservationKey (rv_matchId rv)) = stored rv.
Proof.
  intros Hr. unfold HGETALL, reserved in *.
  rewrite entry_PEXPIRE, decide_True, with_px_hash by done. rewrite entry_HSET, decide_True by done.
  autorewrite with redis. simpl. redis. rewrite Hr. by rewrite (right_id_L ∅ (∪)).
Qed.

Definition reservationOf (mode matchId gameId : string) (now : Z) (x y : string * Z)
    : MatchReservation :=
  mkReservation x.1 x.2 y.1 y.2 now gameId matchId mode.

Lemma select_distinct reason scan l x y cs ds rest :
  NoDup (map fst l) -> select reason scan [] [] l = (x :: y :: cs, ds, rest) -> x.1 <> y.1.
Proof.
  intros Hnd Hs. apply select_spec in Hs as (walked & -> & E & _ & _). simpl in E.
  rewrite map_app in Hnd. apply NoDup_app in Hnd as [Hnd _].
  assert (NoDup (map fst (x :: y :: cs))) as Hnd'.
  { rewrite E. apply (sublist_NoDup _ (map fst walked)); [done|].
    apply (fmap_sublist fst), sublist_filter. }
  apply NoDup_cons in Hnd' as [Hx _]. intros Exy. apply Hx. rewrite Exy. left.
Qed.

Lemma tryMatch_lua_eval mode now maxWait matchId gameId guardTtl maxScan r cs ds rest :
  EXISTS r (reservationKey matchId) = false ->
  select (guest_reason r mode now maxWait) (Z.to_nat maxScan) [] []
    (ZRANGE r (queueKey mode)) = (cs, ds, rest) ->
  exists r1, scanned now mode (map rm_guestSessionId ds) r r1 /\
    ZRANGE r1 (queueKey mode) = rest /\
    let '(reply, r') := tryMatch_lua (queueKey mode) (reservationKey matchId) mode now maxWait
                          matchId gameId (RESERVATION_TTL_MS config) guardTtl maxScan r in
    match cs with
    | x :: y :: _ =>
        let rv := reservationOf mode matchId gameId now x y in
        r' = reserved rv r1 /\
        reply = JObj ([("status", JStr "MATCHED");
                       ("reservation",
                         JObj [("matchId", JStr matchId); ("gameId", JStr gameId);
                               ("mode", JStr mode); ("a", JStr x.1); ("b", JStr y.1);
                               ("aScore", JNum x.2); ("bScore", JNum y.2);
                               ("createdAt", JNum now)])] ++
                      when_any (removed_pairs ds) "discarded" (json_removed (removed_pairs ds)))
    | _ =>
        r' = (put_back (queueKey mode) guardTtl cs r1).2 /\
        reply = JObj ([("status", JStr "NO_MATCH")] ++
                      when_any (removed_pairs ds) "discarded" (json_removed (removed_pairs ds)))
    end.
Proof.
  intros Hex Hsel.
  pose proof (scan_queue_spec mode now maxWait (Z.to_nat maxScan) r r [] []) as Hscan.
  rewrite Hsel in Hscan. destruct Hscan as (r1 & Hrun & Hs & Hrest);
    [apply scanned_refl|by intros x _ ?%not_elem_of_nil|].
  exists r1. split_and!; [done..|]. simpl in Hrun.
  unfold tryMatch_lua, mbind, lua_bind, ask. rewrite Hex, Hrun. fold (removed_pairs ds).
  destruct cs as [|x [|y cs]].
  - split; done.
  - destruct x as [g s]. destruct (put_back (queueKey mode) guardTtl [(g, s)] r1) as [[] r2].
    by split.
  - destruct x as [g_a sa], y as [g_b sb].
    pose proof (select_distinct _ _ _ _ _ _ _ _ (ranked_NoDup _) Hsel) as Hne. simpl in Hne.
    rewrite decide_False by done. by split.
Qed.

(** Only one candidate can be put back: it returns to the place it had. *)
Lemma put_back_spec mode guardTtl r1 cs rest walked P `{forall x, Decision (P x)} :
  (length cs < 2)%nat -> cs = filter P walked -> ZRANGE r1 (queueKey mode) = rest ->
  StronglySorted before (walked ++ rest) -> NoDup (map fst (walked ++ rest)) ->
  let r' := (put_back (queueKey mode) guardTtl cs r1).2 in
  ZRANGE r' (queueKey mode) = cs ++ rest /\
  (forall g, GET r' (guardKey g) = GET r1 (guardKey g)) /\
  (forall k, k <> queueKey mode -> (forall x, x ∈ cs -> k <> guardKey x.1) ->
             entry r' k = entry r1 k).
Proof.
  intros Hlen E Hrest Hsorted Hnd. destruct cs as [|[g s] [|]]; simpl in Hlen; [done| |lia].
  unfold put_back, mbind, lua_bind, call, mret, lua_ret. simpl.
  assert (sublist ((g, s) :: rest) (walked ++ rest)) as Hsub.
  { change ((g, s) :: rest) with ([(g, s)] ++ rest). rewrite E.
    apply sublist_app; [apply sublist_filter|done]. }
  assert (g ∉ map fst rest) as Hg.
  { eapply sublist_NoDup in Hnd; [|apply (fmap_sublist fst), Hsub].
    by apply NoDup_cons in Hnd as [? _]. }
  assert (ZSCORES r1 (queueKey mode) !! g = None) as Hnone.
  { apply eq_None_not_Some. intros [s' Hs']. apply elem_of_ranked in Hs'.
    unfold ZRANGE in Hrest. rewrite Hrest in Hs'. apply Hg, list_elem_of_fmap. by exists (g, s'). }
  split_and!.
  - apply (ranked_cons _ (g, s)).
    + eapply StronglySorted_sublist; [exact Hsub|done].
    + unfold ZSCORES in *. redis. autorewrite with redis. simpl.
      by rewrite delete_insert_id.
    + unfold ZSCORES in *. redis. autorewrite with redis. by rewrite lookup_insert_eq.
  - intros g'. unfold GET. rewrite entry_PEXPIRE. case_decide as Eg; [|by redis].
    rewrite Eg. redis. by autorewrite with redis.
  - intros k Hk Hkg. rewrite entry_PEXPIRE, decide_False, entry_ZADD, decide_False; [done..|].
    apply (Hkg (g, s)). left.
Qed.

Lemma reply_discarded ds tail :
  Forall (fun d => zod_uuid (rm_guestSessionId d) = true) ds ->
  property tail "discarded" = None ->
  z_optional_field (tail ++ when_any (removed_pairs ds) "discarded"
                              (json_removed (removed_pairs ds)))
    "discarded" (z_array removedGuestSchema) =
  Some (match ds with [] => None | _ => Some ds end).
Proof.
  intros Hds Ht. unfold z_optional_field.
  assert (forall fields more, property fields "discarded" = None ->
            property (fields ++ more) "discarded" = property more "discarded") as Happ.
  { intros fields more. induction fields as [|[k v] fields IH]; simpl; [done|].
    by case_decide. }
  rewrite (Happ _ _ Ht). destruct ds as [|d ds]; [done|].
  unfold when_any. cbn [removed_pairs map]. fold (removed_pairs ds).
  change (_ :: removed_pairs ds) with (removed_pairs (d :: ds)).
  cbn [property]. rewrite decide_True by done. by rewrite optional_removed.
Qed.

Lemma matchResponse_no_match ds :
  Forall (fun d => zod_uuid (rm_guestSessionId d) = true) ds ->
  matchResponseSchema (JObj ([("status", JStr "NO_MATCH")] ++
    when_any (removed_pairs ds) "discarded" (json_removed (removed_pairs ds)))) =
  Some (Some (mkMatchAttempt ds None)).
Proof.
  intros Hds. unfold matchResponseSchema.
  erewrite z_discriminated_eval by reflexivity. cbn [snd].
  rewrite z_object_eval by (by destruct ds).
  pose proof (reply_discarded ds [("status", JStr "NO_MATCH")] Hds eq_refl) as E.
  rewrite E. unfold z_field. simpl. by destruct ds.
Qed.

Lemma matchResponse_matched ds rv :
  Forall (fun d => zod_uuid (rm_guestSessionId d) = true) ds -> reservation_ok rv ->
  matchResponseSchema (JObj ([("status", JStr "MATCHED");
    ("reservation",
      JObj [("matchId", JStr (rv_matchId rv)); ("gameId", JStr (rv_gameId rv));
            ("mode", JStr (rv_mode rv)); ("a", JStr (rv_a rv)); ("b", JStr (rv_b rv));
            ("aScore", JNum (rv_aScore rv)); ("bScore", JNum (rv_bScore rv));
            ("createdAt", JNum (rv_createdAt rv))])] ++
    when_any (removed_pairs ds) "discarded" (json_removed (removed_pairs ds)))) =
  Some (Some (mkMatchAttempt ds (Some rv))).
Proof.
  intros Hds Hrv. unfold matchResponseSchema.
  erewrite z_discriminated_eval by reflexivity. cbn [snd].
  rewrite z_object_eval by (by destruct ds).
  match goal with |- context [z_optional_field ([?a; ?b] ++ _)] =>
    pose proof (reply_discarded ds [a; b] Hds eq_refl) as E end.
  rewrite E. simpl.
  assert (forall tail, z_field (("status", JStr "MATCHED") :: ("reservation", JObj
      [("matchId", JStr (rv_matchId rv)); ("gameId", JStr (rv_gameId rv));
       ("mode", JStr (rv_mode rv)); ("a", JStr (rv_a rv)); ("b", JStr (rv_b rv));
       ("aScore", JNum (rv_aScore rv)); ("bScore", JNum (rv_bScore rv));
       ("createdAt", JNum (rv_createdAt rv))]) :: tail) "reservation" reservationSchema =
      Some rv) as Er.
  { intros tail. unfold z_field. cbn [property]. rewrite decide_False, decide_True by done.
    cbn [mbind option_bind]. by apply reservationSchema_eval. }
  rewrite Er. unfold z_field. simpl. by destruct ds.
Qed.

(** What matching leaves as it was: the active-game pointers, and the queue state
    of every guest it did not take from the queue. *)
Definition others_untouched (taken : list (string * Z)) (r r' : Keyspace) : Prop :=
  (forall g, entry r' (activeGameKey g) = entry r (activeGameKey g)) /\
  forall g, g ∉ map fst taken ->
    entry r' (guardKey g) = entry r (guardKey g) /\ entry r' (stateKey g) = entry r (stateKey g).

Definition out_of_queue (r : Keyspace) (g : string) : Prop :=
  GET r (guardKey g) = None /\ GET r (stateKey g) <> Some "QUEUED".

Lemma scanned_discarded now mode ds r r1 d :
  scanned now mode (map rm_guestSessionId ds) r r1 -> d ∈ ds ->
  out_of_queue r1 (rm_guestSessionId d).
Proof.
  intros Hs Hd. destruct (sc_discarded _ _ _ _ _ Hs (rm_guestSessionId d)) as [E1 E2].
  { apply list_elem_of_fmap. eauto. }
  unfold out_of_queue, GET. rewrite E1, E2. split; [done|]. by case_decide.
Qed.

Lemma walked_discarded (reason : string * Z -> option RemovalReason)
    (walked : list (string * Z)) (d : RemovedQueueGuest) :
  d ∈ omap (fun x => mkRemoved x.1 <$> reason x) walked ->
  exists x, x ∈ walked /\ rm_guestSessionId d = x.1 /\ reason x = Some (rm_reason d).
Proof.
  intros (x & Hx & Hd)%list_elem_of_omap. exists x.
  destruct (reason x) as [q|]; [|done]. simpl in Hd. simplify_eq. done.
Qed.

Lemma reserved_frame rv r k :
  k <> reservationKey (rv_matchId rv) -> k <> guardKey (rv_a rv) -> k <> guardKey (rv_b rv) ->
  k <> stateKey (rv_a rv) -> k <> stateKey (rv_b rv) -> entry (reserved rv r) k = entry r k.
Proof.
  intros. unfold reserved.
  rewrite entry_PEXPIRE, decide_False, entry_HSET, decide_False, entry_DEL, decide_False,
    entry_DEL, decide_False, entry_SET, decide_False, entry_SET, decide_False by done. done.
Qed.

Lemma reserved_guest rv r g :
  rv_a rv <> rv_b rv -> g = rv_a rv \/ g = rv_b rv ->
  GET (reserved rv r) (stateKey g) = Some "RESERVED" /\ GET (reserved rv r) (guardKey g) = None.
Proof.
  intros Hne Hg. unfold GET, reserved.
  destruct Hg as [-> | ->]; split; redis; done.
Qed.

Lemma walked_valid mode r walked rest (ds : list RemovedQueueGuest) now maxWait :
  valid_queue r mode -> ZRANGE r (queueKey mode) = walked ++ rest ->
  ds = omap (fun x => mkRemoved x.1 <$> guest_reason r mode now maxWait x) walked ->
  Forall (fun d => zod_uuid (rm_guestSessionId d) = true) ds.
Proof.
  intros Hv Hl ->. apply Forall_forall. intros d Hd.
  apply walked_discarded in Hd as ([g s] & Hx & -> & _). eapply Hv.
  apply elem_of_ranked. unfold ZRANGE in Hl. rewrite Hl. apply elem_of_app. eauto.
Qed.

Lemma eligible_spec r mode now maxWait g :
  guest_reason r mode now maxWait g = None ->
  GET r (stateKey g.1) = Some "QUEUED" /\ GET r (guardKey g.1) = Some mode /\
  EXISTS r (activeGameKey g.1) = false.
Proof.
  unfold guest_reason. destruct (_ <=? _); [done|]. destruct (negb (presentAt _ _ _)); [done|].
  destruct (_ || _) eqn:E; [done|]. intros _. by js_bool.
Qed.

Lemma walked_apart (walked : list (string * Z)) x y :
  NoDup (map fst walked) -> x ∈ walked -> y ∈ walked -> x.1 = y.1 -> x = y.
Proof.
  induction walked as [|z walked IH]; [by intros _ ?%not_elem_of_nil|].
  simpl. intros [Hz Hnd]%NoDup_cons Hx Hy E.
  apply elem_of_cons in Hx as [->|Hx], Hy as [->|Hy]; [done|..|auto].
  - exfalso. apply Hz. rewrite E. apply list_elem_of_fmap. eauto.
  - exfalso. apply Hz. rewrite <- E. apply list_elem_of_fmap. eauto.
Qed.

(** Nobody is both eligible and removed. *)
Lemma eligible_not_removed (reason : string * Z -> option RemovalReason)
    (walked : list (string * Z)) x d :
  NoDup (map fst walked) -> x ∈ filter (fun g => reason g = None) walked ->
  d ∈ omap (fun g => mkRemoved g.1 <$> reason g) walked -> x.1 <> rm_guestSessionId d.
Proof.
  intros Hnd [Hr Hx]%list_elem_of_filter (y & Hy & Ed & Hq)%walked_discarded E.
  rewrite Ed in E. rewrite (walked_apart _ _ _ Hnd Hx Hy E) in Hr. congruence.
Qed.

Lemma removed_walked (reason : string * Z -> option RemovalReason)
    (walked : list (string * Z)) g :
  g ∉ map fst walked ->
  g ∉ map rm_guestSessionId (omap (fun g => mkRemoved g.1 <$> reason g) walked).
Proof.
  intros Hg (d & -> & (y & Hy & Ed & _)%walked_discarded)%list_elem_of_fmap.
  apply Hg. rewrite Ed. apply list_elem_of_fmap. eauto.
Qed.

(** What holds of the two keyspaces a scan can end in. *)
Section Outcome.
Context (mode : string) (now : Z) (maxWait : positive) (r r1 : Keyspace).
Context (walked rest : list (string * Z)).
Let reason := guest_reason r mode now maxWait.
Let eligible := filter (fun g => reason g = None) walked.
Let removed := omap (fun g => mkRemoved g.1 <$> reason g) walked.
Hypothesis queue_split : ZRANGE r (queueKey mode) = walked ++ rest.
Hypothesis scan_ended : scanned now mode (map rm_guestSessionId removed) r r1.
Hypothesis queue_rest : ZRANGE r1 (queueKey mode) = rest.

Lemma outcome_NoDup : NoDup (map fst (walked ++ rest)).
Proof. rewrite <- queue_split. apply ranked_NoDup. Qed.

Lemma outcome_walked : NoDup (map fst walked).
Proof. pose proof outcome_NoDup as Hnd. rewrite map_app in Hnd. by apply NoDup_app in Hnd as [? _]. Qed.

Lemma outcome_valid : valid_queue r mode ->
  Forall (fun d => zod_uuid (rm_guestSessionId d) = true) removed.
Proof. intros Hv. by eapply walked_valid. Qed.

(** Guests the scan did not remove, and keys it never touches. *)
Lemma outcome_kept g : g ∉ map rm_guestSessionId removed ->
  entry r1 (guardKey g) = entry r (guardKey g) /\ entry r1 (stateKey g) = entry r (stateKey g).
Proof.
  intros Hg. by rewrite (sc_guard _ _ _ _ _ scan_ended), (sc_state _ _ _ _ _ scan_ended).
Qed.

Lemma outcome_eligible x : x ∈ eligible -> x.1 ∉ map rm_guestSessionId removed /\ x ∈ walked.
Proof.
  intros Hx. split; [|by apply list_elem_of_filter in Hx as [_ ?]].
  intros (d & Ed & Hd)%list_elem_of_fmap.
  by apply (eligible_not_removed _ _ _ _ outcome_walked Hx Hd).
Qed.

Lemma outcome_scanned :
  Forall (fun d => out_of_queue r1 (rm_guestSessionId d)) removed /\
  others_untouched walked r r1.
Proof.
  split; [apply Forall_forall; intros d; by apply (scanned_discarded _ _ _ _ _ _ scan_ended)|].
  split; [apply (sc_active _ _ _ _ _ scan_ended)|]. intros g Hg.
  apply outcome_kept. by apply removed_walked.
Qed.

(** A keyspace that differs from the scan's only for the eligible guests. *)
Lemma outcome_frame r' :
  (forall k, (forall m, k <> queueKey m) -> (forall m, k <> reservationKey m) ->
     (forall x, x ∈ eligible -> k <> guardKey x.1 /\ k <> stateKey x.1) ->
     entry r' k = entry r1 k) ->
  Forall (fun d => out_of_queue r' (rm_guestSessionId d)) removed /\
  others_untouched walked r r'.
Proof.
  intros Hf. destruct outcome_scanned as [O1 [O2 O3]]. split.
  - apply Forall_forall. intros d Hd. apply (proj1 (Forall_forall _ _) O1) in Hd as Hout.
    assert (forall x, x ∈ eligible -> rm_guestSessionId d <> x.1) as Hne.
    { intros x Hx E. symmetry in E.
      by apply (eligible_not_removed _ _ _ _ outcome_walked Hx Hd). }
    unfold out_of_queue, GET.
    rewrite !Hf by (try (intros; key_ne); intros x Hx; specialize (Hne x Hx); split; key_ne). done.
  - split; [intros g; rewrite Hf; [done|intros; key_ne..|]; intros x _; split; key_ne|].
    intros g Hg. destruct (O3 g Hg) as [<- <-].
    assert (forall x, x ∈ eligible -> g <> x.1) as Hne.
    { intros x Hx ->. apply Hg. apply list_elem_of_fmap.
      exists x. split; [done|]. by apply outcome_eligible. }
    rewrite !Hf by (try (intros; key_ne); intros x Hx; specialize (Hne x Hx); split; key_ne). done.
Qed.

Lemma outcome_unmatched guardTtl :
  (length eligible < 2)%nat ->
  let r' := (put_back (queueKey mode) guardTtl eligible r1).2 in
  ZRANGE r' (queueKey mode) = eligible ++ rest /\
  (forall g, g ∈ eligible -> GET r' (stateKey g.1) = Some "QUEUED" /\
                             GET r' (guardKey g.1) = Some mode) /\
  Forall (fun d => out_of_queue r' (rm_guestSessionId d)) removed /\ others_untouched walked r r'.
Proof.
  intros Hlt r'.
  destruct (put_back_spec mode guardTtl r1 eligible rest walked (fun g => reason g = None)
    Hlt eq_refl queue_rest) as (P1 & P2 & P3);
    [rewrite <- queue_split; apply ranked_sorted|apply outcome_NoDup|].
  fold r' in P1, P2, P3. split; [done|]. split.
  - intros g Hg. destruct (outcome_eligible g Hg) as [Hout _].
    destruct (outcome_kept _ Hout) as [Eg Es].
    apply list_elem_of_filter in Hg as [Hr _]. apply eligible_spec in Hr as (Q1 & Q2 & _).
    rewrite P2. unfold GET in *. rewrite P3 by (try intros; key_ne). by rewrite Es, Eg.
  - apply outcome_frame. intros k Hq _ Hk. apply P3; [apply Hq|]. intros x Hx. by apply Hk.
Qed.

Lemma outcome_matched matchId gameId g_a g_b :
  eligible = [g_a; g_b] -> g_a.1 <> g_b.1 -> entry r (reservationKey matchId) = no_entry ->
  let rv := reservationOf mode matchId gameId now g_a g_b in
  let r' := reserved rv r1 in
  ZRANGE r' (queueKey mode) = rest /\ HGETALL r' (reservationKey matchId) = stored rv /\
  Forall (fun g => GET r' (stateKey g) = Some "RESERVED" /\ GET r' (guardKey g) = None)
    [g_a.1; g_b.1] /\
  Forall (fun d => out_of_queue r' (rm_guestSessionId d)) removed /\ others_untouched walked r r'.
Proof.
  intros E Hne Hres rv r'. split_and!.
  - rewrite <- queue_rest. unfold ZRANGE, ZSCORES, r'. by rewrite reserved_frame by key_ne.
  - apply (reserved_hash rv). unfold HGETALL. simpl.
    by rewrite (sc_reservation _ _ _ _ _ scan_ended), Hres.
  - repeat constructor; apply (reserved_guest rv); auto.
  - apply outcome_frame. intros k _ Hm Hk. rewrite E in Hk.
    apply reserved_frame; [apply Hm|apply (Hk g_a); set_solver|apply (Hk g_b); set_solver
                          |apply (Hk g_a); set_solver|apply (Hk g_b); set_solver].
  - apply outcome_frame. intros k _ Hm Hk. rewrite E in Hk.
    apply reserved_frame; [apply Hm|apply (Hk g_a); set_solver|apply (Hk g_b); set_solver
                          |apply (Hk g_a); set_solver|apply (Hk g_b); set_solver].
Qed.
End Outcome.

(** C31: matching is first come, first served. tryMatch walks the queue from its head,
    at most maxScan guests, and takes the first two who are connected, still
    queued, without a game and not waiting too long; whoever it passes is removed
    with the reason that applies. A pair leaves the queue as RESERVED under a
    reservation that reads back as the one returned; a single candidate keeps
    his place and his score. Every other guest's state and every active-game
    pointer stays as it was, and the reply always has the form its schema asks for. *)
Theorem tryMatch_first_come_first_served mode matchId gameId now maxScan x w :
  let r := w_redis w in
  let reason := guest_reason r mode now (QUEUE_MAX_WAIT_MS config) in
  mode = "blitz" -> valid_queue r mode -> 0 <= now <= MAX_SAFE_INTEGER ->
  zod_uuidv4 matchId = true -> zod_uuidv4 gameId = true ->
  entry r (reservationKey matchId) = no_entry -> delivers (x_link x) = true ->
  exists walked rest r',
    ZRANGE r (queueKey mode) = walked ++ rest /\ (length walked <= Z.to_nat maxScan)%nat /\
    let eligible := filter (fun g => reason g = None) walked in
    let removed := omap (fun g => mkRemoved g.1 <$> reason g) walked in
    match eligible with
    | [g_a; g_b] =>
        let rv := reservationOf mode matchId gameId now g_a g_b in
        tryMatch config mode matchId gameId now maxScan x w =
          (Ok (mkMatchAttempt removed (Some rv)), mkWorld (w_db w) r') /\
        g_a.1 <> g_b.1 /\ ZRANGE r' (queueKey mode) = rest /\
        parseReservation (HGETALL r' (reservationKey matchId)) = Some rv /\
        Forall (fun g => GET r' (stateKey g) = Some "RESERVED" /\ GET r' (guardKey g) = None)
          [g_a.1; g_b.1]
    | _ =>
        (length eligible < 2)%nat /\ (rest = [] \/ length walked = Z.to_nat maxScan) /\
        tryMatch config mode matchId gameId now maxScan x w =
          (Ok (mkMatchAttempt removed None), mkWorld (w_db w) r') /\
        ZRANGE r' (queueKey mode) = eligible ++ rest /\
        (forall g, g ∈ eligible -> GET r' (stateKey g.1) = Some "QUEUED" /\
                                  GET r' (guardKey g.1) = Some mode)
    end /\
    Forall (fun d => out_of_queue r' (rm_guestSessionId d)) removed /\
    others_untouched walked r r'.
Proof.
  intros r reason Hmode Hv Hnow Hm Hg Hres Hlink.
  destruct (select reason (Z.to_nat maxScan) [] [] (ZRANGE r (queueKey mode)))
    as [[cs ds] rest] eqn:Hsel.
  assert (EXISTS r (reservationKey matchId) = false) as Hex by (unfold EXISTS; by rewrite Hres).
  pose proof (select_spec _ _ _ _ _ _ _ _ Hsel) as (walked & Hl & -> & -> & Hlen).
  assert (length ([] ++ filter (fun g => reason g = None) walked) <= 2)%nat as Hcs
    by (eapply select_length; [|exact Hsel]; simpl; lia).
  pose proof (select_stops _ _ _ _ _ _ _ _ Hsel) as Hstop. rewrite Hl, (length_app walked) in Hstop.
  destruct (tryMatch_lua_eval mode now (QUEUE_MAX_WAIT_MS config) matchId gameId
    (QUEUE_GUARD_TTL_MS config) maxScan r _ _ rest Hex Hsel) as (r1 & Hs & Hrest & Hlua).
  cbn [app] in *. pose proof (outcome_valid mode now (QUEUE_MAX_WAIT_MS config) r _ _ Hl Hv) as Hds.
  pose proof (outcome_unmatched _ _ _ _ _ _ _ Hl Hs Hrest (QUEUE_GUARD_TTL_MS config)) as Hun.
  pose proof (outcome_matched _ _ _ _ _ _ _ Hl Hs Hrest matchId gameId) as Hma.
  destruct (tryMatch_lua _ _ _ _ _ _ _ _ _ _ r) as [reply r'] eqn:Erun.
  exists walked, rest, r'. split; [done|]. split; [done|]. cbv zeta. fold reason in Hun, Hma, Hds |- *.
  assert (forall a, matchResponseSchema reply = Some (Some a) ->
    tryMatch config mode matchId gameId now maxScan x w = (Ok a, mkWorld (w_db w) r')) as Hreply.
  { intros a Ha. unfold tryMatch, orThrow.
    rewrite (execute_delivers _ _ _ _ (Some a) Hlink); cbn [fst snd];
      change (w_redis w) with r; rewrite Erun; done. }
  destruct (filter _ walked) as [|g_a [|g_b [|]]] eqn:Ecs; [..|simpl in Hcs; lia].
  1-2: destruct Hlua as [-> Ereply], Hun as (U1 & U2 & U3 & U4); [simpl; lia|];
    split_and!; try done; [simpl; lia|naive_solver lia|];
    apply Hreply; rewrite Ereply; by apply matchResponse_no_match.
  destruct Hlua as [-> Ereply].
  assert (g_a.1 <> g_b.1) as Hne by (eapply select_distinct; [apply ranked_NoDup|exact Hsel]).
  assert (reservation_ok (reservationOf mode matchId gameId now g_a g_b)) as Hok.
  { assert (forall g, g ∈ [g_a; g_b] -> zod_uuid g.1 = true /\ 0 <= g.2 <= MAX_SAFE_INTEGER) as Hgs.
    { intros [g s] Hin. apply (Hv g s), elem_of_ranked. fold (ZRANGE r (queueKey mode)).
      rewrite Hl, elem_of_app. left. rewrite <- Ecs in Hin.
      by apply list_elem_of_filter in Hin as [_ ?]. }
    destruct (Hgs g_a), (Hgs g_b); [set_solver..|]. split_and!; simpl; done || lia. }
  destruct (Hma g_a g_b eq_refl Hne Hres) as (M1 & M2 & M3 & M4 & M5).
  split_and!; try done.
  - apply Hreply. rewrite Ereply. by apply (matchResponse_matched _ (reservationOf _ _ _ _ _ _)).
  - rewrite M2. by apply parse_stored.
Qed.
End Matching.

(** ** Witnesses *)

#[local] Existing Instance MapRedis.map_redis.
#[local] Existing Instance MapRedis.map_redis_laws.
Definition any_zod : Zod := {| zod_uuidv4 := fun _ => true |}.
Definition any_zod_uuid : ZodUuid := {| zod_uuid := fun _ => true |}.
#[local] Existing Instance any_zod.
#[local] Existing Instance any_zod_uuid.

(** Three guests queue at 1000, 2000 and 3000; the first has no live connection. *)
Definition sample_keyspace : Keyspace :=
  let join (g : string) (t : Z) (r : Keyspace) : Keyspace :=
    (enqueue_lua (queueKey "blitz") (guardKey g) (stateKey g) (activeGameKey g) g "blitz" t
       120000 3600000 r).2 in
  ZADD (presenceKey "carol") 90000 "socket-3"
    (ZADD (presenceKey "bob") 90000 "socket-2"
       (join "carol" 3000 (join "bob" 2000 (join "alice" 1000 (∅ : gmap string Entry))))).

Definition sample_queue : list (string * Z) := [("alice", 1000); ("bob", 2000); ("carol", 3000)].

Lemma sample_queue_eval : ZRANGE sample_keyspace "mm:queue:blitz" = sample_queue.
Proof. vm_compute. reflexivity. Qed.

Lemma sample_valid_queue : valid_queue sample_keyspace "blitz".
Proof.
  intros g s Hs. apply elem_of_ranked in Hs. change (ranked _) with
    (ZRANGE sample_keyspace "mm:queue:blitz") in Hs. rewrite sample_queue_eval in Hs.
  unfold sample_queue in Hs. repeat (apply elem_of_cons in Hs as [Hs|Hs]; [by simplify_eq|]).
  by apply not_elem_of_nil in Hs.
Qed.

Definition sample_ext : Ext :=
  mkExt (mkEnv 4000000 4000 ("p1", "p2")) DbUp good_link 4000 ("m1", "g1") true [].

Definition sample_world : World := mkWorld (mkDB ∅ [] [] ∅ ∅ ∅ ∅) sample_keyspace.

Lemma sample_reservation_free : entry sample_keyspace (reservationKey "m1") = no_entry.
Proof. vm_compute. reflexivity. Qed.

Lemma tryMatch_first_come_first_served_witness :
  (tryMatch default_config "blitz" "m1" "g1" 4000 100 sample_ext sample_world).1 =
    Ok (mkMatchAttempt [mkRemoved "alice" reason_disconnected]
          (Some (mkReservation "bob" 2000 "carol" 3000 4000 "g1" "m1" "blitz"))) /\
  exists walked rest, sample_queue = walked ++ rest.
Proof.
  split; [vm_compute; reflexivity|].
  destruct (@tryMatch_first_come_first_served any_zod any_zod_uuid MapRedis.map_redis
    MapRedis.map_redis_laws default_config "blitz" "m1" "g1" 4000 100
    sample_ext sample_world eq_refl sample_valid_queue ltac:(unfold MAX_SAFE_INTEGER; lia)
    eq_refl eq_refl sample_reservation_free eq_refl) as (walked & rest & r' & Hl & _).
  exists walked, rest. rewrite <- Hl. symmetry. exact sample_queue_eval.
Defined.
End Scripts.
