(* ===== verification/Presence.v ===== *)
(** * Presence

    [src/src/modules/presence/presence.service.ts]: which guests have a live
    connection, as a sorted set per guest whose members are sockets and whose
    scores are the times their presence lapses. *)

From S2P Require Export MatchmakingScripts.
From stdpp Require Import sorting.
Local Open Scope string_scope.
Local Open Scope list_scope.
Local Open Scope Z_scope.

Module Presence.
Import Scripts.
Section Service.
Context `{Redis} (config : AppConfig).

Definition keyTtlMs : positive := PRESENCE_TTL_MS config + SOCKET_PING_TIMEOUT_MS config.

Definition refresh_lua (guest socket : string) (nowMs : Z) : lua Z :=
  let key := presenceKey guest in
  _ ← call (ZREMRANGEBYSCORE key nowMs);
  _ ← call (ZADD key (nowMs + Zpos (PRESENCE_TTL_MS config)) socket);
  _ ← call (PEXPIRE key keyTtlMs);
  guarded ← ask (fun r => EXISTS r (guardKey guest));
  _ ← (if (guarded : bool) then call (PEXPIRE (guardKey guest) (QUEUE_GUARD_TTL_MS config))
       else mret ());
  ask (fun r => ZCARD r key).

Definition remove_lua (guest socket : string) (nowMs : Z) : lua Z :=
  let key := presenceKey guest in
  _ ← call (ZREMRANGEBYSCORE key nowMs);
  _ ← call (ZREM key socket);
  count ← ask (fun r => ZCARD r key);
  _ ← (if count =? 0 then call (DEL key) else mret ());
  mret count.

Definition count_lua (guest : string) (nowMs : Z) : lua Z :=
  let key := presenceKey guest in
  _ ← call (ZREMRANGEBYSCORE key nowMs);
  count ← ask (fun r => ZCARD r key);
  _ ← (if count =? 0 then call (DEL key) else mret ());
  mret count.

(** Any failure is a [RealtimeRedisUnavailableError]. *)
Definition orRealtimeUnavailable {A} (p : Prog A) : Prog A :=
  catch p (fun _ => Throw ERealtimeRedisUnavailable).

Definition refresh (guest socket : string) (now : Z) : Prog Z :=
  orRealtimeUnavailable (command (fun _ => refresh_lua guest socket now)).

Definition markConnected (guest socket : string) (now : Z) : Prog Z := refresh guest socket now.

Definition remove (guest socket : string) (now : Z) : Prog Z :=
  orRealtimeUnavailable (command (fun _ => remove_lua guest socket now)).

Definition count (guest : string) (now : Z) : Prog Z :=
  orRealtimeUnavailable (command (fun _ => count_lua guest now)).

Definition isPresent (guest : string) (now : Z) : Prog bool :=
  count ← count guest now; mret (0 <? count).
End Service.

(** * Theory *)

(** ** What the set should contain

    The connections of a guest after a sequence of events, without regard to time:
    each socket with the time its presence lapses. *)
Inductive Event : Type :=
| Refreshed (socket : string) (now : Z)
| Removed (socket : string) (now : Z)
| Counted (now : Z).

Definition event_time (e : Event) : Z :=
  match e with Refreshed _ now | Removed _ now | Counted now => now end.

Definition in_order (e e' : Event) : Prop := event_time e <= event_time e'.

Definition connections (ttl : positive) (events : list Event) : gmap string Z :=
  fold_left (fun m e => match e with
                        | Refreshed socket now => <[socket := now + Zpos ttl]> m
                        | Removed socket _ => delete socket m
                        | Counted _ => m
                        end) events ∅.

Section Theory.
Context `{RedisLaws} (config : AppConfig).

Definition run_event (guest : string) (e : Event) : lua Z :=
  match e with
  | Refreshed socket now => refresh_lua config guest socket now
  | Removed socket now => remove_lua guest socket now
  | Counted now => count_lua guest now
  end.

Definition run_events (guest : string) (events : list Event) (r : Keyspace) : Keyspace :=
  fold_left (fun r e => (run_event guest e r).2) events r.

Lemma above_above now t z : now <= t -> above t (above now z) = above t z.
Proof.
  intros Hle. apply map_eq. intros m. apply option_eq. intros s. unfold above.
  rewrite !map_lookup_filter_Some. simpl. intuition lia.
Qed.

Lemma above_lookup t z m : above t z !! m = (s ← z !! m; if decide (t < s) then Some s else None).
Proof.
  unfold above. apply option_eq. intros s. rewrite map_lookup_filter_Some. simpl.
  destruct (z !! m) as [s'|]; simpl; [case_decide|]; naive_solver.
Qed.

Lemma above_insert_ext t m s z z' :
  above t z = above t z' -> above t (<[m := s]> z) = above t (<[m := s]> z').
Proof.
  intros E. apply map_eq. intros i. rewrite !above_lookup, !lookup_insert.
  case_decide; [done|]. by rewrite <- !above_lookup, E.
Qed.

Lemma above_delete t m z : above t (delete m z) = delete m (above t z).
Proof. unfold above. apply map_filter_delete. Qed.

(** What each script leaves in the set, and what it answers. *)
Definition applied (e : Event) (z : gmap string Z) : gmap string Z :=
  match e with
  | Refreshed socket now => <[socket := now + Zpos (PRESENCE_TTL_MS config)]> (above now z)
  | Removed socket now => delete socket (above now z)
  | Counted now => above now z
  end.

Lemma size_zero (z : gmap string Z) : (Z.of_nat (size z) =? 0) = true -> z = ∅.
Proof. intros E%Z.eqb_eq. apply map_size_empty_inv. lia. Qed.

Lemma run_event_eval guest e r :
  let z := applied e (ZSCORES r (presenceKey guest)) in
  (run_event guest e r).1 = Z.of_nat (size z) /\
  ZSCORES (run_event guest e r).2 (presenceKey guest) = z.
Proof.
  destruct e as [socket now|socket now|now]; simpl; unfold refresh_lua, remove_lua, count_lua,
    mbind, lua_bind, call, ask, mret, lua_ret, ZCARD, ZSCORES, EXISTS; simpl.
  - redis. autorewrite with redis.
    destruct (negb _); simpl; redis; by autorewrite with redis.
  - redis. autorewrite with redis. destruct (_ =? 0) eqn:E; simpl; redis; autorewrite with redis;
      [|done]. apply size_zero in E. by rewrite E.
  - redis. autorewrite with redis. destruct (_ =? 0) eqn:E; simpl; redis; autorewrite with redis;
      [|done]. apply size_zero in E. by rewrite E.
Qed.

Lemma applied_connections e z z0 t :
  event_time e <= t -> above (event_time e) z = above (event_time e) z0 ->
  above t (applied e z) =
  above t (match e with
           | Refreshed socket now => <[socket := now + Zpos (PRESENCE_TTL_MS config)]> z0
           | Removed socket _ => delete socket z0
           | Counted _ => z0
           end).
Proof.
  intros Ht E.
  assert (above t z = above t z0) as E'
    by (rewrite <- (above_above _ _ z Ht), E; by apply above_above).
  destruct e as [socket now|socket now|now]; simpl in *.
  - apply above_insert_ext. by rewrite above_above.
  - by rewrite !above_delete, above_above, E'.
  - by rewrite above_above.
Qed.

Lemma connections_snoc ttl events e :
  connections ttl (events ++ [e]) =
  match e with
  | Refreshed socket now => <[socket := now + Zpos ttl]> (connections ttl events)
  | Removed socket _ => delete socket (connections ttl events)
  | Counted _ => connections ttl events
  end.
Proof. unfold connections. rewrite fold_left_app. simpl. by destruct e. Qed.

Lemma run_events_connections guest events t r :
  ZSCORES r (presenceKey guest) = ∅ ->
  StronglySorted in_order events ->
  Forall (fun e => event_time e <= t) events ->
  above t (ZSCORES (run_events guest events r) (presenceKey guest)) =
  above t (connections (PRESENCE_TTL_MS config) events).
Proof.
  intros Hr. revert t. induction events as [|e events IH] using rev_ind; intros t Hs Ht.
  { unfold run_events. simpl. by rewrite Hr. }
  unfold run_events. rewrite fold_left_app. simpl. fold (run_events guest events r).
  rewrite (proj2 (run_event_eval guest e _)), connections_snoc.
  apply Forall_app in Ht as [Ht He]. apply Forall_inv in He.
  apply applied_connections; [done|]. apply IH; [by eapply StronglySorted_app_1_l|].
  apply Forall_forall. intros e' He'.
  apply (StronglySorted_app_1_elem_of in_order events [e]); [exact Hs|done|left].
Qed.

(** C32: presence is the set of live connections. After any sequence of refreshes,
    removals and counts of a guest's sockets, in the order of their times, the
    count at a later moment is the number of sockets that were refreshed within
    the time to live, and not removed since; the guest is present exactly when
    there is one. Pruning at every step never loses a live connection, and a
    socket that refreshes again is not counted twice. *)
Theorem count_is_live_connections guest events t x w :
  ZSCORES (w_redis w) (presenceKey guest) = ∅ ->
  StronglySorted in_order events ->
  Forall (fun e => event_time e <= t) events -> delivers (x_link x) = true ->
  ln_first (x_link x) = Replied ->
  let live := above t (connections (PRESENCE_TTL_MS config) events) in
  let w' := mkWorld (w_db w) (run_events guest events (w_redis w)) in
  (exists w'', alone (count guest t) [x] w' = Some (Ok (Z.of_nat (size live)), w'', []) /\
     ZSCORES (w_redis w'') (presenceKey guest) = live) /\
  (exists w'', alone (isPresent guest t) [x] w' = Some (Ok (negb (bool_decide (live = ∅))), w'', [])).
Proof.
  intros Hr Hs Ht Hd Hl live w'.
  pose proof (run_events_connections guest events t _ Hr Hs Ht) as E. fold live in E.
  pose proof (run_event_eval guest (Counted t) (w_redis w')) as [E1 E2]. simpl in E1, E2.
  rewrite E in E1, E2.
  assert (ln_connected (x_link x) = true) as Hc by (unfold delivers in Hd; by js_bool).
  unfold isPresent, count, orRealtimeUnavailable, command, perform, catch, alone. simpl.
  unfold redisOp, sendOp. rewrite Hc, Hl. simpl in *.
  destruct (count_lua guest t (run_events guest events (w_redis w))) as [n r'].
  simpl in *. subst n. split; [by eauto|]. eexists. do 3 f_equal. f_equal.
  destruct (decide (live = ∅)) as [->|Hne]; [done|].
  rewrite bool_decide_eq_false_2 by done. apply Z.ltb_lt.
  apply map_size_non_empty_iff in Hne. lia.
Qed.
End Theory.

(** ** Witness *)

#[local] Existing Instance MapRedis.map_redis.
#[local] Existing Instance MapRedis.map_redis_laws.

(** Two sockets connect, one stays, one does not; a third comes and goes. *)
Definition sample_events : list Event :=
  [Refreshed "s1" 1000; Refreshed "s2" 2000; Refreshed "s1" 30000; Refreshed "s3" 31000;
   Removed "s3" 32000; Counted 40000].

Definition empty_world : World := mkWorld (mkDB ∅ [] [] ∅ ∅ ∅ ∅) (∅ : gmap string Entry).
Definition sample_world : World :=
  mkWorld (w_db empty_world)
    (run_events default_config "alice" sample_events (w_redis empty_world)).

Lemma count_is_live_connections_witness :
  exists w'', alone (count "alice" 50000) [sample_ext] sample_world = Some (Ok 1, w'', []).
Proof.
  destruct (count_is_live_connections default_config "alice" sample_events 50000 sample_ext
    empty_world) as [(w'' & Hw & _) _].
  - reflexivity.
  - repeat constructor; vm_compute; discriminate.
  - repeat constructor; vm_compute; discriminate.
  - reflexivity.
  - reflexivity.
  - exists w''. exact Hw.
Defined.
End Presence.
