(* ===== verification/Matchmaking.v ===== *)
(** * Matchmaking

    [game-allocation.service.ts] and [matchmaking.service.ts]: guests join and
    leave the queue, pairs of guests are reserved and given a game, and what a
    failure or a crash left half done is completed or undone. *)

From S2P Require Export MatchmakingScripts Presence GameRepository ChessEngine.
From S2P Require Import GameLifecycleRepository.
Local Open Scope string_scope.
Local Open Scope list_scope.
Local Open Scope Z_scope.

(** ** The allocation service *)
Module Allocation.
Import Scripts.
Section Service.
Context `{Prisma} `{ChessJs} `{Redis} (config : AppConfig).

(** What [allocate] asks of the repository. *)
Definition allocateInput (rv : MatchReservation) (observedAt : Z) (firstGuestIsWhite : bool)
    (initial : ReplayedPosition) : Games.AllocateGame :=
  Games.mkAllocateGame (if firstGuestIsWhite then rv_b rv else rv_a rv) (rv_gameId rv)
    (rp_fen initial) (observedAt + Zpos (JOIN_DEADLINE_MS config)) (rv_matchId rv) "BLITZ"
    observedAt (rp_pgn initial) (Z.of_N (TIME_INCREMENT_MS config))
    (Zpos (TIME_INITIAL_MS config)) (if firstGuestIsWhite then rv_a rv else rv_b rv).

Definition allocate (rv : MatchReservation) (observedAt : Z) : Prog Games.GameAllocation :=
  match newGame with
  | Err e => Throw (EApp e)
  | Ok initial =>
      database (fun x db =>
        Games.allocate (x_env x) (allocateInput rv observedAt (x_coin x) initial) db)
  end.

Definition findByMatchId (matchId : string) : Prog (option Games.GameAllocation) :=
  query (fun _ db => Games.findByMatchId db matchId).

Definition listActive (limit : nat) (cursor : option Games.GameAllocationCursor)
    : Prog (list Games.GameAllocation) :=
  query (fun _ db => Games.findActiveAllocations db limit cursor).

Definition eligibility (guest : string) (observedAt : Z) : Prog Games.GuestMatchEligibility :=
  query (fun _ db => Ok (Games.getGuestMatchEligibility db guest observedAt)).
End Service.
End Allocation.

(** ** The matchmaking service *)
Module Matchmaking.
Import Scripts.

Record MatchmakingEffects : Type := mkEffects {
  me_allocations : list Games.GameAllocation;
  me_requeued : list Requeued;
  me_removed : list RemovedQueueGuest
}.

Definition EMPTY_EFFECTS : MatchmakingEffects := mkEffects [] [] [].

Definition mergeEffects (target source : MatchmakingEffects) : MatchmakingEffects :=
  mkEffects (me_allocations target ++ me_allocations source)
    (me_requeued target ++ me_requeued source) (me_removed target ++ me_removed source).

Definition matchesReservation (allocation : Games.GameAllocation) (rv : MatchReservation) : bool :=
  let expected := orderBy String.leb [rv_a rv; rv_b rv] in
  let actual := orderBy String.leb
    [Games.gp_guestSessionId (Games.ga_players allocation).1;
     Games.gp_guestSessionId (Games.ga_players allocation).2] in
  bool_decide (Games.gr_id (Games.ga_game allocation) = rv_gameId rv) &&
  bool_decide (Games.gr_matchId (Games.ga_game allocation) = rv_matchId rv) &&
  bool_decide (length actual = 2%nat) && bool_decide (actual = expected).

Section Service.
Context `{Zod} `{ZodUuid} `{Prisma} `{ChessJs} `{Redis} (config : AppConfig).

(** [refreshQueueDepth]; the gauge it sets is a metric. *)
Definition refreshQueueDepth (mode : string) : Prog () :=
  catch (_ ← queueSize mode; mret ()) (fun _ => mret ()).

Definition finalizeCommitted (rv : MatchReservation) (allocation : Games.GameAllocation)
    : Prog () :=
  catch (_ ← perform (finalize config rv); mret ()) (fun error =>
    match error with
    | EMatchmaking MM_RESERVATION_MISMATCH _ =>
        let (p_a, p_b) := Games.ga_players allocation in
        _ ← perform (repairCommitted config (rv_mode rv)
                       (Games.gr_id (Games.ga_game allocation))
                       (Games.gp_guestSessionId p_a) (Games.gp_guestSessionId p_b));
        mret ()
    | EMatchmaking MM_DEPENDENCY_UNAVAILABLE _ => mret ()
    | _ => Throw error
    end).

Definition durableOf (eligibility : Games.GuestMatchEligibility) : Durable :=
  mkDurable (Games.ge_activeGameId eligibility) (Games.ge_eligible eligibility).

Definition recoverAfterAllocationFailure (rv : MatchReservation) (observedAt : Z)
    : Prog (option MatchmakingEffects) :=
  found ← catch
    (found ← both (Allocation.findByMatchId (rv_matchId rv))
               (both (Allocation.eligibility (rv_a rv) observedAt)
                     (Allocation.eligibility (rv_b rv) observedAt));
     mret (Some found))
    (fun _ => mret None);
  match found with
  | None => mret None
  | Some (existing, (e_a, e_b)) =>
      match existing with
      | Some existing =>
          if matchesReservation existing rv then
            _ ← finalizeCommitted rv existing;
            mret (Some (mkEffects [existing] [] []))
          else
            requeued ← perform (rollback config rv (durableOf e_a) (durableOf e_b) observedAt);
            mret (Some (mkEffects [] requeued []))
      | None =>
          requeued ← perform (rollback config rv (durableOf e_a) (durableOf e_b) observedAt);
          mret (Some (mkEffects [] requeued []))
      end
  end.

Definition processReservation (rv : MatchReservation) (observedAt : Z)
    : Prog MatchmakingEffects :=
  catch
    (allocation ← Allocation.allocate config rv observedAt;
     _ ← finalizeCommitted rv allocation;
     mret (mkEffects [allocation] [] []))
    (fun error =>
       recovered ← recoverAfterAllocationFailure rv observedAt;
       match recovered with
       | Some recovered => mret recovered
       | None => Throw error
       end).

Definition effectsFromAttempt (attempt : MatchAttempt) (observedAt : Z)
    : Prog MatchmakingEffects :=
  match mt_reservation attempt with
  | None => mret (mkEffects [] [] (mt_discarded attempt))
  | Some rv =>
      result ← processReservation rv observedAt;
      mret (mkEffects (me_allocations result) (me_requeued result)
              (mt_discarded attempt ++ me_removed result))
  end.

Definition batchSize : positive := JOB_BATCH_SIZE config.

Definition attemptMatch (mode : string) (observedAt : Z) : Prog MatchmakingEffects :=
  attempt ← perform (fun x =>
    tryMatch config mode (x_uuids x).1 (x_uuids x).2 observedAt (Zpos batchSize) x);
  effectsFromAttempt attempt observedAt.

Definition join (guest mode : string) (observedAt : Z)
    : Prog (MatchmakingEffects * QueueJoin) :=
  answers ← both (Allocation.eligibility guest observedAt)
                 (Presence.isPresent guest observedAt);
  let (eligibility, present) := (answers : _ * _) in
  if negb (isNull (Games.ge_activeGameId eligibility))
  then Throw (EMatchmaking MM_ALREADY_IN_GAME false) else
  if negb (Games.ge_eligible eligibility) then Throw (EMatchmaking MM_ALREADY_IN_GAME false) else
  if negb present then Throw (EMatchmaking MM_NOT_PRESENT true) else
  queue ← perform (enqueue config guest mode observedAt);
  effects ← attemptMatch mode observedAt;
  _ ← refreshQueueDepth mode;
  mret (effects, queue).

Definition leave (guest mode : string) : Prog bool :=
  queue ← perform (Scripts.leave config guest mode);
  _ ← refreshQueueDepth mode;
  mret queue.

Definition finallyDisconnected (guest mode : string) : Prog bool :=
  left ← perform (Scripts.leave config guest mode);
  _ ← refreshQueueDepth mode;
  mret left.

(** The loop of [drain], with [pairs] turns left. *)
Fixpoint drainPairs (mode : string) (observedAt : Z) (pairs : nat) (effects : MatchmakingEffects)
    : Prog MatchmakingEffects :=
  match pairs with
  | O => mret effects
  | S pairs =>
      cycle ← attemptMatch mode observedAt;
      let effects := mergeEffects effects cycle in
      match me_allocations cycle with
      | [] => mret effects
      | _ => drainPairs mode observedAt pairs effects
      end
  end.

Definition pairBudget : Z := Z.max 1 (Zpos batchSize / 2).

Definition drain (mode : string) (observedAt : Z) : Prog MatchmakingEffects :=
  size ← queueSize mode;
  if size <? 2 then
    _ ← refreshQueueDepth mode; mret EMPTY_EFFECTS
  else
  effects ← drainPairs mode observedAt (Z.to_nat pairBudget) EMPTY_EFFECTS;
  _ ← refreshQueueDepth mode;
  mret effects.

Definition sweep (mode : string) (observedAt : Z) : Prog MatchmakingEffects :=
  removed ← perform (Scripts.sweep config mode observedAt batchSize);
  _ ← refreshQueueDepth mode;
  mret (mkEffects [] [] removed).

(** The two loops of [reconcile]. *)
Fixpoint processAll (reservations : list MatchReservation) (observedAt : Z)
    (effects : MatchmakingEffects) (handledGameIds : gset string)
    : Prog (MatchmakingEffects * gset string) :=
  match reservations with
  | [] => mret (effects, handledGameIds)
  | rv :: reservations =>
      cycle ← processReservation rv observedAt;
      processAll reservations observedAt (mergeEffects effects cycle)
        (handledGameIds ∪
           list_to_set (map (fun al => Games.gr_id (Games.ga_game al)) (me_allocations cycle)))
  end.

Fixpoint repairAll (active : list Games.GameAllocation) (effects : MatchmakingEffects)
    (handledGameIds : gset string) : Prog MatchmakingEffects :=
  match active with
  | [] => mret effects
  | allocation :: active =>
      let id := Games.gr_id (Games.ga_game allocation) in
      if bool_decide (id ∈ handledGameIds) then repairAll active effects handledGameIds else
      let (p_a, p_b) := Games.ga_players allocation in
      changed ← perform (repairCommitted config "blitz" id (Games.gp_guestSessionId p_a)
                           (Games.gp_guestSessionId p_b));
      repairAll active
        (if (changed : bool) then mergeEffects effects (mkEffects [allocation] [] []) else effects)
        handledGameIds
  end.

(** [pages]: what the scan for reservations answers. *)
Definition reconcile (pages : list (list string)) (observedAt : Z) : Prog MatchmakingEffects :=
  reservations ← listReservations (Pos.to_nat batchSize) pages;
  processed ← processAll reservations observedAt EMPTY_EFFECTS ∅;
  let (effects, handledGameIds) := (processed : _ * _) in
  active ← Allocation.listActive (Pos.to_nat batchSize) None;
  repairAll active effects handledGameIds.
End Service.
End Matchmaking.

(** * Settling a reservation *)
Module Settlement.
Import Scripts Matchmaking.

(** The keys a reservation is about. *)
Definition guest_keys (g : string) : list Key := [KState g; KActive g; KGuard g; KPresence g].
Definition keys_of (rv : MatchReservation) : list Key :=
  KReservation (rv_matchId rv) :: KQueue (rv_mode rv) :: guest_keys (rv_a rv) ++ guest_keys (rv_b rv).

Section Theory.
Context `{Zod} `{ZodUuid} `{RedisLaws} (config : AppConfig).

Definition in_game (r : Keyspace) (g gameId : string) : Prop :=
  GET r (stateKey g) = Some "IN_GAME" /\ GET r (activeGameKey g) = Some gameId.

(** The reservation is stored. *)
Definition live (rv : MatchReservation) (r : Keyspace) : Prop :=
  HGETALL r (reservationKey (rv_matchId rv)) = stored rv.

(** Nothing but the keys of the reservation changed, and of the queue only the places
    of its two guests. *)
Record elsewhere (rv : MatchReservation) (r r' : Keyspace) : Prop := {
  el_keys : forall k, key_ok k -> k ∉ keys_of rv -> entry r' (name k) = entry r (name k);
  el_queue : forall g, g <> rv_a rv -> g <> rv_b rv ->
    ZSCORE r' (queueKey (rv_mode rv)) g = ZSCORE r (queueKey (rv_mode rv)) g
}.

(** What [rollback] makes of a guest with the score [score], of whom the database says
    [durable]. *)
Definition restored (mode : string) (now : Z) (r r' : Keyspace) (g : string) (score : Z)
    (durable : Durable) : Prop :=
  match du_activeGameId durable with
  | Some gameId => in_game r' g gameId /\ ZSCORE r' (queueKey mode) g = None
  | None =>
      GET r' (activeGameKey g) = None /\
      if du_eligible durable && presentAt r now g then
        GET r' (stateKey g) = Some "QUEUED" /\ GET r' (guardKey g) = Some mode /\
        ZSCORE r' (queueKey mode) g =
          Some (match ZSCORE r (queueKey mode) g with Some s => Z.min score s | None => score end)
      else
        GET r' (stateKey g) = Some "IDLE" /\ GET r' (guardKey g) = None /\
        ZSCORE r' (queueKey mode) g = None
  end.

Definition requeued_side (now : Z) (r : Keyspace) (g : string) (score : Z) (durable : Durable)
    : list Requeued :=
  if isNull (du_activeGameId durable) && du_eligible durable && presentAt r now g
  then [mkRequeued g score] else [].

(** Takes a key that is not of the reservation apart into inequalities. *)
Ltac other_key Hk :=
  unfold keys_of, guest_keys in Hk; simpl in Hk;
  repeat (let Hne := fresh "Hne" in apply not_elem_of_cons in Hk as [Hne Hk]).

Lemma finalize_live rv x w :
  rv_a rv <> rv_b rv -> live rv (w_redis w) -> delivers (x_link x) = true ->
  exists r', finalize config rv x w = (Ok true, mkWorld (w_db w) r') /\
    in_game r' (rv_a rv) (rv_gameId rv) /\ in_game r' (rv_b rv) (rv_gameId rv) /\
    HGETALL r' (reservationKey (rv_matchId rv)) = ∅ /\ elsewhere rv (w_redis w) r'.
Proof.
  intros Hab Hl Hd. unfold finalize, live in *.
  set (script := fun _ : Ext => _).
  destruct (script x (w_redis w)) as [reply r'] eqn:Hrun.
  pose proof Hrun as Hscript. unfold script, finalize_lua, mbind, lua_bind, ask, call in Hrun.
  rewrite Hl, decide_False in Hrun by apply stored_nonempty.
  rewrite stored_holds in Hrun. cbn [negb] in Hrun. injection Hrun as <- <-.
  rewrite (execute_delivers _ _ _ _ (Some false)) by (done || by rewrite Hscript).
  rewrite Hscript. unfold orThrow. simpl. eexists. split; [reflexivity|].
  unfold in_game, GET, HGETALL. split_and!; [redis; done..|].
  split.
  - intros k Hok Hk. other_key Hk. by redis.
  - intros g _ _. unfold ZSCORE, ZSCORES. by redis.
Qed.

(** The score of a guest in the queue is only ever lowered. *)
Lemma zadd_lower k score g r :
  exists r', (if match ZSCORE r k g with None => true | Some c => score <? c end
              then call (ZADD k score g) else mret ()) r = ((), r') /\
    ZSCORES r' k =
      <[g := match ZSCORE r k g with Some s => Z.min score s | None => score end]> (ZSCORES r k) /\
    forall k', k' <> k -> entry r' k' = entry r k'.
Proof.
  unfold ZSCORE, ZSCORES. destruct (en_zset (entry r k) !! g) as [c|] eqn:Ec.
  - destruct (score <? c) eqn:Hlt; eexists; (split; [reflexivity|]).
    + rewrite Z.min_l by lia. split; [by redis; autorewrite with redis|].
      intros k' Hk. by rewrite entry_ZADD, decide_False.
    + rewrite Z.min_r by lia. by rewrite insert_id.
  - eexists. split; [reflexivity|]. split; [by redis; autorewrite with redis|].
    intros k' Hk. by rewrite entry_ZADD, decide_False.
Qed.

(** The script [restore] of one side. *)
Lemma restore_spec mode now guardTtl stateTtl g score durable r :
  du_activeGameId durable <> Some "" ->
  let '(requeued, r') := restore (queueKey mode) mode now guardTtl stateTtl
                           (sideOf g score durable) r in
  requeued = map (fun q => (rq_guestSessionId q, rq_since q)) (requeued_side now r g score durable) /\
  restored mode now r r' g score durable /\
  (forall k, key_ok k -> k ∉ KQueue mode :: guest_keys g -> entry r' (name k) = entry r (name k)) /\
  (forall g', g' <> g -> ZSCORE r' (queueKey mode) g' = ZSCORE r (queueKey mode) g').
Proof.
  intros Hact. unfold restore, restored, requeued_side. cbn [sideOf sd_assignment sd_guest sd_state sd_active sd_guard
    sd_presence sd_score sd_eligible].
  destruct (du_activeGameId durable) as [gid|] eqn:Ea; cbn [default from_option isNull id].
  { rewrite bool_decide_eq_false_2 by congruence. simpl. unfold in_game, GET, ZSCORE, ZSCORES.
    split_and!; [done|redis; autorewrite with redis; by simplify_map_eq..| |].
    - intros k Hok Hk. other_key Hk. by redis.
    - intros g' Hg. redis. autorewrite with redis. by simplify_map_eq. }
  rewrite bool_decide_eq_true_2 by done. cbn [negb]. unfold mbind, lua_bind, call.
  set (r1 := DEL (activeGameKey g) r).
  assert (forall k, k <> activeGameKey g -> entry r1 k = entry r k) as E1
    by (intros k Hk; unfold r1; by rewrite entry_DEL, decide_False).
  assert (exists r2, (if du_eligible durable then is_present now (presenceKey g) else mret false) r1 =
            (du_eligible durable && presentAt r now g, r2) /\
            forall k, k <> presenceKey g -> entry r2 k = entry r1 k) as (r2 & -> & E2).
  { destruct (du_eligible durable); [|by exists r1].
    destruct (is_present_eval now (presenceKey g) r1) as (P1 & P2 & _).
    destruct (is_present now (presenceKey g) r1) as [live' r2]. simpl in *. exists r2.
    split; [|done]. rewrite P1. unfold presentAt, ZSCORES. by rewrite E1 by key_ne. }
  assert (entry r2 (activeGameKey g) = no_entry) as Eactive
    by (rewrite E2 by key_ne; unfold r1; by redis).
  assert (forall k, k <> activeGameKey g -> k <> presenceKey g -> entry r2 k = entry r k) as E3
    by (intros k ? ?; rewrite E2, E1; done).
  cbn [andb]. destruct (du_eligible durable && presentAt r now g); unfold ask, mret, lua_ret.
  - destruct (zadd_lower (queueKey mode) score g r2) as (r3 & Hz & E4 & E5).
    unfold call, mret, lua_ret in Hz. unfold mbind, lua_bind. rewrite Hz.
    assert (ZSCORES r2 (queueKey mode) = ZSCORES r (queueKey mode)) as Eq
      by (unfold ZSCORES; by rewrite E3 by key_ne).
    unfold ZSCORE, GET in *. rewrite Eq in E4.
    split_and!; [done|redis; rewrite E5 by key_ne; by rewrite Eactive|by redis..| | |].
    + unfold ZSCORES in *. redis. rewrite E4. by simplify_map_eq.
    + intros k Hok Hk. other_key Hk. redis. by rewrite E5, E3 by key_ne.
    + intros g' Hg. unfold ZSCORES in *. redis. rewrite E4. by simplify_map_eq.
  - unfold GET, ZSCORE, ZSCORES in *.
    split_and!; [done|redis; by rewrite Eactive|by redis..| | |].
    + redis. autorewrite with redis. by simplify_map_eq.
    + intros k Hok Hk. other_key Hk. redis. by rewrite E3 by key_ne.
    + intros g' Hg. redis. autorewrite with redis. rewrite E3 by key_ne. by simplify_map_eq.
Qed.

Lemma restored_ext mode now r1 r2 r1' r2' g score durable :
  (forall k, k ∈ [KState g; KActive g; KGuard g] -> entry r2' (name k) = entry r2 (name k)) ->
  ZSCORE r2' (queueKey mode) g = ZSCORE r2 (queueKey mode) g ->
  ZSCORE r1' (queueKey mode) g = ZSCORE r1 (queueKey mode) g ->
  entry r1' (presenceKey g) = entry r1 (presenceKey g) ->
  restored mode now r1 r2 g score durable -> restored mode now r1' r2' g score durable.
Proof.
  intros Hk Hq2 Hq1 Hp. unfold restored, in_game, GET, presentAt, ZSCORES.
  pose proof (Hk (KState g) ltac:(set_solver)) as Ks. pose proof (Hk (KActive g) ltac:(set_solver)) as Ka.
  pose proof (Hk (KGuard g) ltac:(set_solver)) as Kg. simpl in Ks, Ka, Kg.
  by rewrite Hq1, Hq2, Hp, Ks, Ka, Kg.
Qed.

Lemma requeued_side_ext now r r' g score durable :
  entry r' (presenceKey g) = entry r (presenceKey g) ->
  requeued_side now r' g score durable = requeued_side now r g score durable.
Proof. intros E. unfold requeued_side, presentAt, ZSCORES. by rewrite E. Qed.

Lemma rollbackResponse_eval (requeued : list Requeued) :
  Forall (fun q => zod_uuid (rq_guestSessionId q) = true /\ 0 <= rq_since q <= MAX_SAFE_INTEGER)
    requeued ->
  rollbackResponseSchema (JObj ([("status", JStr "ROLLED_BACK")] ++
    when_any (map (fun q => (rq_guestSessionId q, rq_since q)) requeued) "requeued"
      (JArr (map (fun g => JObj [("guestSessionId", JStr g.1); ("since", JNum g.2)])
               (map (fun q => (rq_guestSessionId q, rq_since q)) requeued))))) =
  Some (Some requeued).
Proof.
  intros Hall.
  assert (forall q, q ∈ requeued ->
    requeuedSchema (JObj [("guestSessionId", JStr (rq_guestSessionId q));
                          ("since", JNum (rq_since q))]) = Some q) as Hq.
  { intros q Hin. apply (proj1 (Forall_forall _ _) Hall) in Hin as [Hz Hn].
    pose proof (z_nonnegative_eval _ Hn) as Ez. unfold requeuedSchema, z_field.
    rewrite z_object_eval by done. cbn [property]. simpl. rewrite Hz. simpl in *.
    rewrite Ez. by destruct q. }
  assert (z_array requeuedSchema (JArr (map (fun g => JObj [("guestSessionId", JStr g.1);
      ("since", JNum g.2)]) (map (fun q => (rq_guestSessionId q, rq_since q)) requeued))) =
    Some requeued) as Harr.
  { unfold z_array. rewrite map_map. rewrite (z_items_map _ _ (fun q => q)); [by rewrite map_id|done]. }
  unfold rollbackResponseSchema. erewrite z_discriminated_eval by (by destruct requeued).
  cbn [snd]. rewrite z_object_eval by (by destruct requeued).
  destruct requeued as [|q l]; [done|]. unfold z_optional_field.
  cbn [app when_any map property]. rewrite decide_False, decide_True by done.
  cbn [map] in Harr. by rewrite Harr.
Qed.

Definition pairs_of (requeued : list Requeued) : list (string * Z) :=
  map (fun q => (rq_guestSessionId q, rq_since q)) requeued.

Lemma rollback_lua_live rv d_a d_b now guardTtl stateTtl r qa r1 qb r2 :
  live rv r ->
  restore (queueKey (rv_mode rv)) (rv_mode rv) now guardTtl stateTtl
    (sideOf (rv_a rv) (rv_aScore rv) d_a) r = (pairs_of qa, r1) ->
  restore (queueKey (rv_mode rv)) (rv_mode rv) now guardTtl stateTtl
    (sideOf (rv_b rv) (rv_bScore rv) d_b) r1 = (pairs_of qb, r2) ->
  rollback_lua (queueKey (rv_mode rv)) (reservationKey (rv_matchId rv))
    (sideOf (rv_a rv) (rv_aScore rv) d_a) (sideOf (rv_b rv) (rv_bScore rv) d_b)
    (rv_matchId rv) (rv_gameId rv) (rv_mode rv) now guardTtl stateTtl r =
  (JObj ([("status", JStr "ROLLED_BACK")] ++
     when_any (pairs_of (qa ++ qb)) "requeued"
       (JArr (map (fun g => JObj [("guestSessionId", JStr g.1); ("since", JNum g.2)])
                (pairs_of (qa ++ qb))))), DEL (reservationKey (rv_matchId rv)) r2).
Proof.
  intros Hl Ha Hb. unfold rollback_lua, mbind, lua_bind, ask, call, live in *.
  rewrite Hl, decide_False by apply stored_nonempty.
  cbn [sideOf sd_guest]. rewrite stored_holds. cbn [negb]. rewrite Ha, Hb.
  assert (pairs_of (qa ++ qb) = pairs_of qa ++ pairs_of qb) as -> by apply map_app. done.
Qed.

Lemma requeued_side_ok now r g score durable :
  zod_uuid g = true -> 0 <= score <= MAX_SAFE_INTEGER ->
  Forall (fun q => zod_uuid (rq_guestSessionId q) = true /\ 0 <= rq_since q <= MAX_SAFE_INTEGER)
    (requeued_side now r g score durable).
Proof. intros Hg Hs. unfold requeued_side. case_match; repeat constructor; simpl; done || lia. Qed.

Lemma entry_DEL_key k m r :
  key_ok k -> k <> KReservation m -> entry (DEL (reservationKey m) r) (name k) = entry r (name k).
Proof. intros Hok Hk. by redis. Qed.

Lemma rollback_live rv d_a d_b now x w :
  reservation_ok rv -> rv_a rv <> rv_b rv ->
  du_activeGameId d_a <> Some "" -> du_activeGameId d_b <> Some "" ->
  live rv (w_redis w) -> delivers (x_link x) = true ->
  exists r',
    rollback config rv d_a d_b now x w =
      (Ok (requeued_side now (w_redis w) (rv_a rv) (rv_aScore rv) d_a ++
           requeued_side now (w_redis w) (rv_b rv) (rv_bScore rv) d_b), mkWorld (w_db w) r') /\
    restored (rv_mode rv) now (w_redis w) r' (rv_a rv) (rv_aScore rv) d_a /\
    restored (rv_mode rv) now (w_redis w) r' (rv_b rv) (rv_bScore rv) d_b /\
    HGETALL r' (reservationKey (rv_matchId rv)) = ∅ /\ elsewhere rv (w_redis w) r'.
Proof.
  intros Hrv Hab Ha Hb Hl Hd. set (r := w_redis w) in *. set (mode := rv_mode rv).
  pose proof (restore_spec mode now (QUEUE_GUARD_TTL_MS config) (MATCH_STATE_TTL_MS config)
    (rv_a rv) (rv_aScore rv) d_a r Ha) as Sa.
  destruct (restore (queueKey mode) mode now _ _ (sideOf (rv_a rv) _ _) r) as [qa r1] eqn:Ra.
  destruct Sa as (-> & Sa & Fa & Qa).
  pose proof (restore_spec mode now (QUEUE_GUARD_TTL_MS config) (MATCH_STATE_TTL_MS config)
    (rv_b rv) (rv_bScore rv) d_b r1 Hb) as Sb.
  destruct (restore (queueKey mode) mode now _ _ (sideOf (rv_b rv) _ _) r1) as [qb r2] eqn:Rb.
  destruct Sb as (-> & Sb & Fb & Qb).
  assert (forall k g, k ∈ guest_keys g -> g <> rv_a rv -> k ∉ KQueue mode :: guest_keys (rv_a rv)) as Hna
    by (unfold guest_keys; set_solver).
  assert (forall k g, k ∈ guest_keys g -> g <> rv_b rv -> k ∉ KQueue mode :: guest_keys (rv_b rv)) as Hnb
    by (unfold guest_keys; set_solver).
  assert (entry r1 (presenceKey (rv_b rv)) = entry r (presenceKey (rv_b rv))) as Epb
    by (apply (Fa (KPresence (rv_b rv))), (Hna _ (rv_b rv)); [done|unfold guest_keys; set_solver|congruence]).
  exists (DEL (reservationKey (rv_matchId rv)) r2).
  pose proof Hrv as (Ua & Ub & _ & _ & _ & Na & Nb & _). split_and!.
  - unfold rollback. set (script := fun _ : Ext => _).
    pose proof (rollback_lua_live rv d_a d_b now _ _ r _ r1 _ r2 Hl Ra Rb) as Es.
    rewrite <- (requeued_side_ext now r r1 (rv_b rv) (rv_bScore rv) d_b Epb).
    erewrite (execute_delivers _ script x w (Some _)); [|done|].
    + change (script x (w_redis w)) with (script x r). unfold script. rewrite Es. reflexivity.
    + change (script x (w_redis w)) with (script x r). unfold script. rewrite Es. cbn [fst].
      apply rollbackResponse_eval, Forall_app. split; by apply requeued_side_ok.
  - eapply restored_ext; [| |done..|exact Sa].
    + intros k Hk. rewrite entry_DEL_key by set_solver. apply Fb; set_solver.
    + unfold ZSCORE, ZSCORES in *. redis. by rewrite Qb.
  - eapply restored_ext; [| |by rewrite Qa|done|exact Sb].
    + intros k Hk. by rewrite entry_DEL_key by set_solver.
    + unfold ZSCORE, ZSCORES in *. by redis.
  - unfold HGETALL. by redis.
  - split.
    + intros k Hok Hk. unfold keys_of in Hk.
      rewrite entry_DEL_key, Fb, Fa by (done || set_solver). done.
    + intros g Hga Hgb. unfold ZSCORE, ZSCORES in *. redis. by rewrite Qb, Qa.
Qed.
End Theory.

(** ** What allocation leaves in the database *)
Section Database.
Context `{Prisma} `{ChessJs} (config : AppConfig).

Lemma orderBy_two x y : orderBy String.leb [x; y] = orderBy String.leb [y; x].
Proof.
  simpl. destruct (String.leb x y) eqn:E1, (String.leb y x) eqn:E2; try done.
  - by rewrite (String.leb_antisym _ _ E1 E2).
  - destruct (String.leb_total x y); congruence.
Qed.

Lemma mapAllocation_inv p al :
  Games.mapAllocation p = Ok al ->
  Games.gr_id (Games.ga_game al) = g_id p.1 /\
  Games.gr_matchId (Games.ga_game al) = g_matchId p.1 /\
  map (fun q => p_guestSessionId q.1) p.2 =
    [Games.gp_guestSessionId (Games.ga_players al).1;
     Games.gp_guestSessionId (Games.ga_players al).2].
Proof.
  assert (forall q r, Games.mapPlayer q = Ok r ->
            Games.gp_guestSessionId r = p_guestSessionId q.1) as Hq.
  { intros [row guest] r. unfold Games.mapPlayer. case_match; [done|].
    case_match; [|done]. by intros [= <-]. }
  destruct p as [game [|p1 [|p2 [|p3 ps]]]]; unfold Games.mapAllocation; simpl; [done|..].
  - destruct (Games.mapPlayer p1); done.
  - destruct (Games.mapPlayer p1) as [r1|] eqn:E1; [|done]. simpl.
    destruct (Games.mapPlayer p2) as [r2|] eqn:E2; [|done]. simpl.
    apply Hq in E1 as <-, E2 as <-. unfold Games.mapGame, Games.color.
    destruct (negb _); [done|]. destruct (Games.isStatus _); [|done].
    destruct (isColor _); [|done]. simpl. by intros [= <-].
  - destruct (Games.mapPlayer p1) as [r1|]; [|done]. simpl.
    destruct (Games.mapPlayer p2) as [r2|]; [|done]. simpl.
    destruct (Games.mapPlayer p3) as [r3|]; [|done]. simpl.
    by destruct (Games.mapM _ ps).
Qed.

Lemma allocate_input_matches p al rv t coin initial :
  Games.mapAllocation p = Ok al -> g_matchId p.1 = rv_matchId rv ->
  Games.matchesReservation p (Allocation.allocateInput config rv t coin initial) = true ->
  matchesReservation al rv = true.
Proof.
  intros (Ei & Em & Ep)%mapAllocation_inv Hm. unfold Games.matchesReservation, matchesReservation.
  rewrite Ei, Em, Ep. intros Hr. js_bool.
  cbn [Allocation.allocateInput Games.al_whiteGuestSessionId Games.al_blackGuestSessionId
       Games.al_gameId] in *.
  match goal with E : orderBy _ _ = orderBy _ _ |- _ => rename E into Es end.
  assert (orderBy String.leb [Games.gp_guestSessionId (Games.ga_players al).1;
            Games.gp_guestSessionId (Games.ga_players al).2] =
          orderBy String.leb [rv_a rv; rv_b rv]) as ->
    by (destruct coin; [done|]; by rewrite (orderBy_two (rv_a rv))).
  rewrite !bool_decide_eq_true_2; try done. by rewrite orderBy_perm.
Qed.

(** An allocation that succeeded is found under its match. *)
Lemma allocate_found env db al db' rv t coin initial :
  Games.owned db -> rv_a rv <> rv_b rv ->
  Games.allocate env (Allocation.allocateInput config rv t coin initial) db = (Ok al, db') ->
  Games.findByMatchId db' (rv_matchId rv) = Ok (Some al) /\ matchesReservation al rv = true.
Proof.
  intros Ho Hab Ha. set (input := Allocation.allocateInput config rv t coin initial) in *.
  assert (Games.al_whiteGuestSessionId input <> Games.al_blackGuestSessionId input) as Hne
    by (unfold input; simpl; destruct coin; congruence).
  rewrite Games.allocate_eval in Ha by done.
  destruct (run (Games.allocateInTransaction env input) db) as [[r|e] db1] eqn:Hrun; [|done].
  apply Lifecycle.run_inv, Games.allocateInTransaction_inv in Hrun; [|done].
  destruct Hrun as [[-> Hr] | (Hm & Hg & (gw & gb & Hw & Hb & _) & _ & _ & -> & ->)].
  - destruct r; try done. destruct Hr as (row & Hm & -> & Hres). injection Ha as Ha <-.
    unfold Games.findByMatchId. change (rv_matchId rv) with (Games.al_matchId input).
    rewrite Hm, Ha. split; [done|].
    apply Games.findByMatch_Some in Hm as [Hm _].
    by eapply (allocate_input_matches _ _ _ t coin initial).
  - destruct (Games.loadAllocation_new env input db gw gb Ho Hg Hw Hb) as (pw & pb & Hp & Hl & Hres).
    injection Ha as Ha <-. unfold Games.findByMatchId.
    change (rv_matchId rv) with (g_matchId (Games.newGameRow env input)) at 1.
    rewrite (Games.findByMatch_insert db (Games.allocatedDB env input db)
               (Games.newGameRow env input) Hm eq_refl), Ha.
    split; [done|]. rewrite Hl in Ha.
    by eapply (allocate_input_matches _ _ _ t coin initial).
Qed.

Lemma allocate_failed env db e db' rv t coin initial :
  Games.owned db -> rv_a rv <> rv_b rv ->
  Games.allocate env (Allocation.allocateInput config rv t coin initial) db = (Err e, db') ->
  db' = db.
Proof.
  intros Ho Hab Ha. set (input := Allocation.allocateInput config rv t coin initial) in *.
  assert (Games.al_whiteGuestSessionId input <> Games.al_blackGuestSessionId input) as Hne
    by (unfold input; simpl; destruct coin; congruence).
  rewrite Games.allocate_eval in Ha by done.
  destruct (run (Games.allocateInTransaction env input) db) as [[r|e0] db1] eqn:Hrun; cycle 1.
  { apply Lifecycle.run_Err in Hrun as ->. by injection Ha as _ <-. }
  apply Lifecycle.run_inv, Games.allocateInTransaction_inv in Hrun; [|done].
  destruct Hrun as [[-> Hr] | (Hm & Hg & (gw & gb & Hw & Hb & _) & _ & _ & -> & ->)].
  - destruct r; by injection Ha as _ <-.
  - destruct (Games.loadAllocation_new env input db gw gb Ho Hg Hw Hb) as (pw & pb & Hp & Hl & _).
    destruct (Games.mapAllocation_new env input gw gb pw pb eq_refl Hp) as (al & Hmap & _).
    rewrite Hl, Hmap in Ha. done.
Qed.
End Database.

(** ** Processing a reservation *)
Section Processing.
Context `{Zod} `{ZodUuid} `{Prisma} `{ChessJs} `{RedisLaws} (config : AppConfig).

(** The database and Redis answer. *)
Definition up (x : Ext) : Prop := x_db x = DbUp /\ delivers (x_link x) = true.

Definition durable_in (db : DB) (g : string) (t : Z) : Durable :=
  durableOf (Games.getGuestMatchEligibility db g t).

(** The match has its game, and both guests are in it. *)
Definition committed (rv : MatchReservation) (al : Games.GameAllocation) (w' : World) : Prop :=
  Games.findByMatchId (w_db w') (rv_matchId rv) = Ok (Some al) /\
  matchesReservation al rv = true /\
  in_game (w_redis w') (rv_a rv) (rv_gameId rv) /\ in_game (w_redis w') (rv_b rv) (rv_gameId rv).

(** The match has no game, and both guests are where the database says. *)
Definition rolled_back (rv : MatchReservation) (t : Z) (w : World) (requeued : list Requeued)
    (w' : World) : Prop :=
  let d_a := durable_in (w_db w) (rv_a rv) t in
  let d_b := durable_in (w_db w) (rv_b rv) t in
  (forall al, Games.findByMatchId (w_db w) (rv_matchId rv) = Ok (Some al) ->
     matchesReservation al rv = false) /\
  requeued = requeued_side t (w_redis w) (rv_a rv) (rv_aScore rv) d_a ++
             requeued_side t (w_redis w) (rv_b rv) (rv_bScore rv) d_b /\
  restored (rv_mode rv) t (w_redis w) (w_redis w') (rv_a rv) (rv_aScore rv) d_a /\
  restored (rv_mode rv) t (w_redis w) (w_redis w') (rv_b rv) (rv_bScore rv) d_b.

Lemma alone_query {A} (f : Ext -> DB -> result exn A) x exts w :
  x_db x = DbUp ->
  alone (query f) (x :: exts) w =
    Some (match f x (w_db w) with Ok a => Ok a | Err e => Err (EApp e) end, w, exts).
Proof.
  intros Hx. unfold query, database. rewrite alone_perform. unfold dbOp. rewrite Hx.
  by destruct w, (f x _).
Qed.

Lemma finalizeCommitted_up rv al x exts w :
  rv_a rv <> rv_b rv -> live rv (w_redis w) -> up x ->
  exists r', alone (finalizeCommitted config rv al) (x :: exts) w =
      Some (Ok (), mkWorld (w_db w) r', exts) /\
    in_game r' (rv_a rv) (rv_gameId rv) /\ in_game r' (rv_b rv) (rv_gameId rv) /\
    HGETALL r' (reservationKey (rv_matchId rv)) = ∅ /\ elsewhere rv (w_redis w) r'.
Proof.
  intros Hab Hl [_ Hd]. destruct (finalize_live config rv x w Hab Hl Hd) as (r' & Hf & Hrest).
  exists r'. split; [|exact Hrest]. unfold finalizeCommitted.
  rewrite alone_catch, alone_bind, alone_perform, Hf. done.
Qed.

Lemma eligibility_not_empty db g t :
  (forall g gid, assignments db !! g = Some gid -> gid <> "") ->
  du_activeGameId (durable_in db g t) <> Some "".
Proof.
  intros Hne. unfold durable_in, durableOf, Games.getGuestMatchEligibility.
  destruct (guests db !! g); [|done]. simpl. intros E. by apply Hne in E.
Qed.

(** What [recoverAfterAllocationFailure] decides, when it can read the database. *)
Lemma recover_reads rv t x2 x3 x4 exts w existing :
  Games.findByMatchId (w_db w) (rv_matchId rv) = Ok existing -> up x2 -> up x3 -> up x4 ->
  let back :=
    requeued ← perform (rollback config rv (durable_in (w_db w) (rv_a rv) t)
                          (durable_in (w_db w) (rv_b rv) t) t);
    mret (Some (mkEffects [] requeued [])) in
  alone (recoverAfterAllocationFailure config rv t) (x2 :: x3 :: x4 :: exts) w =
    alone (match existing with
           | Some al =>
               if matchesReservation al rv then
                 _ ← finalizeCommitted config rv al; mret (Some (mkEffects [al] [] []))
               else back
           | None => back
           end) exts w.
Proof.
  intros Hf [U2 _] [U3 _] [U4 _] back.
  unfold recoverAfterAllocationFailure. rewrite alone_bind, alone_catch, alone_bind, alone_both.
  unfold Allocation.findByMatchId, Allocation.eligibility.
  rewrite alone_query by done. rewrite alone_both, !alone_query by done. by rewrite Hf.
Qed.

Lemma recover_commits rv t x2 x3 x4 x5 w al :
  rv_a rv <> rv_b rv -> live rv (w_redis w) ->
  Games.findByMatchId (w_db w) (rv_matchId rv) = Ok (Some al) -> matchesReservation al rv = true ->
  up x2 -> up x3 -> up x4 -> up x5 ->
  exists r',
    alone (recoverAfterAllocationFailure config rv t) [x2; x3; x4; x5] w =
      Some (Ok (Some (mkEffects [al] [] [])), mkWorld (w_db w) r', []) /\
    HGETALL r' (reservationKey (rv_matchId rv)) = ∅ /\ elsewhere rv (w_redis w) r' /\
    committed rv al (mkWorld (w_db w) r').
Proof.
  intros Hab Hl Hf Hm U2 U3 U4 U5.
  destruct (finalizeCommitted_up rv al x5 [] w Hab Hl U5) as (r' & Hrun & Ga & Gb & Hh & He).
  exists r'. rewrite (recover_reads _ _ _ _ _ _ _ _ Hf) by done. rewrite Hm, alone_bind, Hrun.
  by split_and!.
Qed.

Lemma recover_settles rv t x2 x3 x4 x5 w :
  reservation_ok rv -> rv_a rv <> rv_b rv ->
  is_ok (Games.findByMatchId (w_db w) (rv_matchId rv)) = true ->
  (forall g gid, assignments (w_db w) !! g = Some gid -> gid <> "") ->
  live rv (w_redis w) -> up x2 -> up x3 -> up x4 -> up x5 ->
  exists effects r',
    alone (recoverAfterAllocationFailure config rv t) [x2; x3; x4; x5] w =
      Some (Ok (Some effects), mkWorld (w_db w) r', []) /\
    HGETALL r' (reservationKey (rv_matchId rv)) = ∅ /\ elsewhere rv (w_redis w) r' /\
    ((exists al, effects = mkEffects [al] [] [] /\ committed rv al (mkWorld (w_db w) r')) \/
     (exists requeued, effects = mkEffects [] requeued [] /\
        rolled_back rv t w requeued (mkWorld (w_db w) r'))).
Proof.
  intros Hrv Hab Hread Hne Hl U2 U3 U4 U5.
  destruct (Games.findByMatchId (w_db w) (rv_matchId rv)) as [existing|] eqn:Ef; [|done].
  destruct (rollback_live config rv (durable_in (w_db w) (rv_a rv) t)
    (durable_in (w_db w) (rv_b rv) t) t x5 w Hrv Hab) as (r' & Hr & Sa & Sb & Hh & He);
    [by apply eligibility_not_empty..|done|by apply U5|].
  rewrite (recover_reads _ _ _ _ _ _ _ _ Ef) by done.
  destruct (match existing with Some al => matchesReservation al rv | None => false end) eqn:Hm.
  - destruct existing as [al|]; [|done].
    destruct (recover_commits rv t x2 x3 x4 x5 w al Hab Hl Ef Hm U2 U3 U4 U5)
      as (r1 & Hrun & Hh1 & He1 & Hc).
    rewrite (recover_reads _ _ _ _ _ _ _ _ Ef) in Hrun by done.
    eexists _, r1. split; [exact Hrun|]. split_and!; [done..|]. left. by exists al.
  - exists (mkEffects [] (requeued_side t (w_redis w) (rv_a rv) (rv_aScore rv)
                            (durable_in (w_db w) (rv_a rv) t) ++
                          requeued_side t (w_redis w) (rv_b rv) (rv_bScore rv)
                            (durable_in (w_db w) (rv_b rv) t)) []), r'.
    split; [|split_and!; [done..|]].
    + destruct existing as [al|]; [rewrite Hm|]; rewrite alone_bind, alone_perform, Hr; done.
    + right. eexists. split; [done|]. split_and!; [|done..].
      intros al E. rewrite Ef in E. by injection E as ->.
Qed.

(** C15: processing a reservation settles it. Whatever state its two guests are in by
    now, and whether or not the first attempt to allocate the game reached the
    database, or its answer was lost, a run in which the other actions are answered
    ends after at most five actions, the reservation is gone, and one of two things
    happened, entirely. Either the match has its game in the database and both guests
    are in that game in Redis too. Or the database was not reached or refused the
    game, no game for the match exists, the database is as it was, and each guest
    follows what the database says of it: it is in the game it is assigned to, or it
    is back in the queue with the score it had (or the lower one it has there) if it
    is eligible and present, or it is idle and in no queue. Nobody else's keys, and
    nobody else's place in the queue, changed. *)
Theorem processReservation_settles rv t x1 x2 x3 x4 x5 w :
  is_ok newGame = true -> reservation_ok rv -> rv_a rv <> rv_b rv ->
  Games.owned (w_db w) ->
  is_ok (Games.findByMatchId (w_db w) (rv_matchId rv)) = true ->
  (forall g gid, assignments (w_db w) !! g = Some gid -> gid <> "") ->
  live rv (w_redis w) -> up x2 -> up x3 -> up x4 -> up x5 ->
  exists effects w' left,
    alone (processReservation config rv t) [x1; x2; x3; x4; x5] w = Some (Ok effects, w', left) /\
    HGETALL (w_redis w') (reservationKey (rv_matchId rv)) = ∅ /\
    elsewhere rv (w_redis w) (w_redis w') /\
    ((exists al, effects = mkEffects [al] [] [] /\ committed rv al w') \/
     (exists requeued, effects = mkEffects [] requeued [] /\ w_db w' = w_db w /\
        rolled_back rv t w requeued w' /\
        (x_db x1 = DbDown \/
         exists initial e, newGame = Ok initial /\
           Games.allocate (x_env x1)
             (Allocation.allocateInput config rv t (x_coin x1) initial) (w_db w) = (Err e, w_db w)))).
Proof.
  intros Hnew Hrv Hab Ho Hread Hne Hl U2 U3 U4 U5.
  destruct newGame as [initial|] eqn:En; [|done].
  unfold processReservation. rewrite alone_catch, alone_bind. unfold Allocation.allocate.
  rewrite En. unfold database. rewrite alone_perform. unfold dbOp.
  destruct (recover_settles rv t x2 x3 x4 x5 w Hrv Hab Hread Hne Hl U2 U3 U4 U5)
    as (eff & r' & Hrun & Hh & He & Hout).
  destruct (Games.allocate (x_env x1) _ (w_db w)) as [[al|e] db'] eqn:Ea.
  - destruct (allocate_found config _ _ _ _ _ _ _ _ Ho Hab Ea) as [Hf Hm].
    destruct (x_db x1) eqn:Ex.
    + rewrite alone_bind.
      destruct (finalizeCommitted_up rv al x2 [x3; x4; x5] (mkWorld db' (w_redis w)) Hab Hl U2)
        as (r1 & Hfin & Ga & Gb & Hh1 & He1).
      rewrite Hfin. eexists _, _, _. split; [reflexivity|]. split_and!; [done..|].
      left. exists al. by split_and!.
    + rewrite alone_bind, Hrun. eexists _, _, _. split; [reflexivity|]. split_and!; [done..|].
      destruct Hout as [?|(requeued & -> & Hback)]; [by left|right]. exists requeued.
      split_and!; [done..|by left].
    + destruct (recover_commits rv t x2 x3 x4 x5 (mkWorld db' (w_redis w)) al)
        as (r1 & Hrun1 & Hh1 & He1 & Hc); [done..|]. cbn [w_db w_redis snd] in *.
      rewrite alone_bind, Hrun1. eexists _, _, _. split; [reflexivity|]. split_and!; [done..|].
      left. by exists al.
  - pose proof (allocate_failed config _ _ _ _ _ _ _ _ Ho Hab Ea) as ->.
    assert (mkWorld (w_db w) (w_redis w) = w) as Ew by (by destruct w).
    destruct (x_db x1) eqn:Ex; cbn [snd]; rewrite ?Ew, alone_bind, Hrun;
      (eexists _, _, _; split; [reflexivity|]; split_and!; [done..|]);
      (destruct Hout as [?|(requeued & -> & Hback)]; [by left|right]; exists requeued;
       split_and!; [done..|]; auto; right; by eexists _, _).
Qed.
End Processing.

(** ** Witness: Alice and Bob are reserved; the answer of the allocation is lost. *)
#[local] Existing Instance MapRedis.map_redis.
#[local] Existing Instance MapRedis.map_redis_laws.
#[local] Existing Instance any_zod.
#[local] Existing Instance any_zod_uuid.
#[local] Existing Instance sample_prisma.
#[local] Existing Instance SampleChess.sample.

Definition reserved_keyspace : Keyspace :=
  let join (g : string) (t : Z) (r : Keyspace) : Keyspace :=
    (enqueue_lua (queueKey "blitz") (guardKey g) (stateKey g) (activeGameKey g) g "blitz" t
       120000 3600000 r).2 in
  (tryMatch_lua (queueKey "blitz") (reservationKey "match-1") "blitz" 900000 120000 "match-1"
     "game-1" 30000 120000 100
     (ZADD (presenceKey "alice") 990000 "socket-1"
        (ZADD (presenceKey "bob") 990000 "socket-2"
           (join "bob" 860000 (join "alice" 850000 (∅ : gmap string Entry)))))).2.

Definition reserved_world : World := mkWorld Games.empty_db reserved_keyspace.

Definition sample_reservation : MatchReservation :=
  mkReservation "alice" 850000 "bob" 860000 900000 "game-1" "match-1" "blitz".

Definition answer_lost : Ext :=
  mkExt (mkEnv 900000000 900000 ("p1", "p2")) DbLost good_link 900000 ("", "") true [].
Definition all_well : Ext :=
  mkExt (mkEnv 900001000 900001 ("p3", "p4")) DbUp good_link 900001 ("", "") true [].

Lemma reserved_live : live sample_reservation reserved_keyspace.
Proof. vm_compute. reflexivity. Qed.

Lemma processReservation_settles_witness :
  exists effects w' left,
    alone (processReservation default_config sample_reservation 900000)
      [answer_lost; all_well; all_well; all_well; all_well] reserved_world =
        Some (Ok effects, w', left) /\
    HGETALL (w_redis w') (reservationKey "match-1") = ∅.
Proof.
  destruct (processReservation_settles default_config sample_reservation 900000 answer_lost
    all_well all_well all_well all_well reserved_world) as (effects & w' & rest & Hrun & Hh & _).
  - reflexivity.
  - split_and!; done.
  - done.
  - exact Games.empty_owned.
  - reflexivity.
  - intros g gid Hg. discriminate Hg.
  - exact reserved_live.
  - done.
  - done.
  - done.
  - done.
  - exists effects, w', rest. split; [exact Hrun|exact Hh].
Defined.
End Settlement.
