(* ===== verification/Snapshots.v ===== *)
(** * Game snapshots

    What a player is shown of a game: [GameSnapshotView] of [game-room.service.ts],
    [game-snapshot.presenter.ts], and [gameSnapshotPayloadSchema] of
    [protocol.schemas.ts], with which a cached snapshot is read back. *)

From S2P Require Export World GameRepository Json.
Local Open Scope string_scope.
Local Open Scope list_scope.
Local Open Scope Z_scope.

(** ** Data *)

(** [GameSnapshotRecord & Readonly<{ clocks: ClockView }>] *)
Record GameSnapshotView : Type := mkGameSnapshotView {
  sv_snapshot : Games.GameSnapshotRecord;
  sv_clocks : ClockView
}.

Definition sv_game (view : GameSnapshotView) : Games.GameRecord :=
  Games.ga_game (Games.gsn_allocation (sv_snapshot view)).
Definition sv_players (view : GameSnapshotView) : list Games.GamePlayerRecord :=
  let ps := Games.ga_players (Games.gsn_allocation (sv_snapshot view)) in [ps.1; ps.2].

Inductive WireColor : Type := black | white.

#[export] Instance WireColor_toString : ToString WireColor := fun c =>
  match c with black => "black" | white => "white" end.

Record SnapshotClocks : Type := mkSnapshotClocks {
  sc_blackMs : Z;
  sc_running : option WireColor;
  sc_serverTime : Date;
  sc_whiteMs : Z
}.

Record SnapshotMove : Type := mkSnapshotMove {
  sm_color : WireColor;
  sm_ply : Z;
  sm_san : string;
  sm_uci : string
}.

Record PublicPlayer : Type := mkPublicPlayer {
  pp_avatar : string;
  pp_color : WireColor;
  pp_connected : bool;
  pp_name : string
}.

Record GameSnapshotPayload : Type := mkGameSnapshotPayload {
  gsp_clocks : SnapshotClocks;
  gsp_currentFen : string;
  gsp_initialFen : string;
  gsp_moves : list SnapshotMove;
  gsp_opponent : PublicPlayer;
  gsp_result : option GameResult;
  gsp_status : GameStatus;
  gsp_termination : option GameTermination;
  gsp_turn : WireColor;
  gsp_you : PublicPlayer
}.

(** ** The presenter *)

Definition wireColor (c : PlayerColor) : WireColor :=
  match c with w => white | b => black end.

Definition publicPlayer (player : Games.GamePlayerRecord) : PublicPlayer :=
  mkPublicPlayer (Games.gp_avatarKey player) (wireColor (Games.gp_color player))
    (negb (isNull (Games.gp_connectedAt player))) (Games.gp_displayName player).

(** Throws a plain [Error] when the guest is not one of the two players. *)
Definition present (snapshot : GameSnapshotView) (guest : string)
    : result fault GameSnapshotPayload :=
  let mine player := bool_decide (Games.gp_guestSessionId player = guest) in
  match List.find mine (sv_players snapshot),
        List.find (fun player => negb (mine player)) (sv_players snapshot) with
  | Some you, Some opponent =>
      let game := sv_game snapshot in
      let clocks := sv_clocks snapshot in
      Ok (mkGameSnapshotPayload
            (mkSnapshotClocks (cv_blackMs clocks) (wireColor <$> cv_running clocks)
               (cv_observedAt clocks) (cv_whiteMs clocks))
            (Games.gr_currentFen game) (Games.gr_initialFen game)
            (map (fun move => mkSnapshotMove (wireColor (Games.gm_color move))
                                (Games.gm_ply move) (Games.gm_san move) (Games.gm_uci move))
               (Games.gsn_moves (sv_snapshot snapshot)))
            (publicPlayer opponent) (Games.gr_result game) (Games.gr_status game)
            (Games.gr_termination game) (wireColor (Games.gr_turnColor game)) (publicPlayer you))
  | _, _ => Err (EApp EOther)
  end.

(** ** The JSON of a payload and its schema *)

Definition json_of_enum {A} `{ToString A} (value : option A) : json :=
  match value with None => JNull | Some v => JStr (toString v) end.

Definition json_of_date (d : Date) : json :=
  match d with None => JNull | Some ms => JNum ms end.

Definition json_of_player (p : PublicPlayer) : json :=
  JObj [("avatar", JStr (pp_avatar p)); ("color", JStr (toString (pp_color p)));
        ("connected", JBool (pp_connected p)); ("name", JStr (pp_name p))].

Definition json_of_move (m : SnapshotMove) : json :=
  JObj [("color", JStr (toString (sm_color m))); ("ply", JNum (sm_ply m));
        ("san", JStr (sm_san m)); ("uci", JStr (sm_uci m))].

Definition json_of_clocks (c : SnapshotClocks) : json :=
  JObj [("blackMs", JNum (sc_blackMs c)); ("running", json_of_enum (sc_running c));
        ("serverTime", json_of_date (sc_serverTime c)); ("whiteMs", JNum (sc_whiteMs c))].

Definition json_of_payload (p : GameSnapshotPayload) : json :=
  JObj [("clocks", json_of_clocks (gsp_clocks p)); ("currentFen", JStr (gsp_currentFen p));
        ("initialFen", JStr (gsp_initialFen p));
        ("moves", JArr (map json_of_move (gsp_moves p)));
        ("opponent", json_of_player (gsp_opponent p)); ("result", json_of_enum (gsp_result p));
        ("status", JStr (toString (gsp_status p)));
        ("termination", json_of_enum (gsp_termination p));
        ("turn", JStr (toString (gsp_turn p))); ("you", json_of_player (gsp_you p))].

Definition allWireColors : list WireColor := [white; black].
Definition allStatuses : list GameStatus :=
  [CREATED; WAITING_FOR_PLAYERS; READY; IN_PROGRESS; RECONNECTING; COMPLETED; ABANDONED;
   EXPIRED].

Definition colorSchema : parser WireColor := z_enum allWireColors.
Definition gameStatusSchema : parser GameStatus := z_enum allStatuses.
Definition resultSchema : parser GameResult := z_enum allResults.
Definition terminationSchema : parser GameTermination := z_enum allTerminations.

Definition clocksSchema : parser SnapshotClocks :=
  z_object ["blackMs"; "running"; "serverTime"; "whiteMs"] (fun f =>
    blackMs ← z_field f "blackMs" z_int_nonnegative;
    running ← z_field f "running" (z_nullable colorSchema);
    serverTime ← z_field f "serverTime" z_int_nonnegative;
    whiteMs ← z_field f "whiteMs" z_int_nonnegative;
    Some (mkSnapshotClocks blackMs running (Some serverTime) whiteMs)).

Definition publicPlayerSchema : parser PublicPlayer :=
  z_object ["avatar"; "color"; "connected"; "name"] (fun f =>
    avatar ← z_field f "avatar" (z_string_length 1 128);
    color ← z_field f "color" colorSchema;
    connected ← z_field f "connected" z_boolean;
    name ← z_field f "name" (z_string_length 1 128);
    Some (mkPublicPlayer avatar color connected name)).

Definition snapshotMoveSchema : parser SnapshotMove :=
  z_object ["color"; "ply"; "san"; "uci"] (fun f =>
    color ← z_field f "color" colorSchema;
    ply ← z_field f "ply" z_int_positive;
    san ← z_field f "san" (z_string_length 1 32);
    uci ← z_field f "uci" (z_string_length 4 5);
    Some (mkSnapshotMove color ply san uci)).

Definition gameSnapshotPayloadSchema : parser GameSnapshotPayload :=
  z_object ["clocks"; "currentFen"; "initialFen"; "moves"; "opponent"; "result"; "status";
            "termination"; "turn"; "you"] (fun f =>
    clocks ← z_field f "clocks" clocksSchema;
    currentFen ← z_field f "currentFen" (z_string_length 1 256);
    initialFen ← z_field f "initialFen" (z_string_length 1 256);
    moves ← z_field f "moves" (z_array snapshotMoveSchema);
    opponent ← z_field f "opponent" publicPlayerSchema;
    result ← z_field f "result" (z_nullable resultSchema);
    status ← z_field f "status" gameStatusSchema;
    termination ← z_field f "termination" (z_nullable terminationSchema);
    turn ← z_field f "turn" colorSchema;
    you ← z_field f "you" publicPlayerSchema;
    Some (mkGameSnapshotPayload clocks currentFen initialFen moves opponent result status
            termination turn you)).

(** ** Reading a payload back *)

Definition counts (n : Z) : Prop := 0 <= n /\ isSafeInteger n = true.

Definition player_ok (p : PublicPlayer) : Prop := fits 1 128 (pp_avatar p) /\ fits 1 128 (pp_name p).
Definition move_ok (m : SnapshotMove) : Prop :=
  1 <= sm_ply m /\ isSafeInteger (sm_ply m) = true /\ fits 1 32 (sm_san m) /\ fits 4 5 (sm_uci m).

(** What the schema asks of a payload. *)
Record payload_ok (p : GameSnapshotPayload) : Prop := {
  po_clocks : counts (sc_blackMs (gsp_clocks p)) /\ counts (sc_whiteMs (gsp_clocks p)) /\
    exists t, sc_serverTime (gsp_clocks p) = Some t /\ counts t;
  po_fens : fits 1 256 (gsp_currentFen p) /\ fits 1 256 (gsp_initialFen p);
  po_moves : Forall move_ok (gsp_moves p);
  po_players : player_ok (gsp_you p) /\ player_ok (gsp_opponent p)
}.

Lemma colorSchema_eval c : colorSchema (JStr (toString c)) = Some c.
Proof. by destruct c. Qed.
Lemma gameStatusSchema_eval s : gameStatusSchema (JStr (toString s)) = Some s.
Proof. by destruct s. Qed.

Lemma z_nullable_enum {A} `{ToString A} (p : parser A) (v : option A) :
  (forall a, p (JStr (toString a)) = Some a) -> z_nullable p (json_of_enum v) = Some v.
Proof. intros Hp. destruct v as [a|]; [|done]. simpl. by rewrite Hp. Qed.

Lemma resultSchema_eval r : resultSchema (JStr (toString r)) = Some r.
Proof. by destruct r. Qed.
Lemma terminationSchema_eval t : terminationSchema (JStr (toString t)) = Some t.
Proof. by destruct t as [|[]| | | |]. Qed.

Lemma counts_eval n : counts n -> z_int_nonnegative (JNum n) = Some n.
Proof. intros [? ?]. by apply z_int_from_eval. Qed.

#[export] Hint Resolve colorSchema_eval gameStatusSchema_eval
  resultSchema_eval terminationSchema_eval z_nullable_enum counts_eval : cluchess.

Lemma clocksSchema_eval c t :
  counts (sc_blackMs c) -> counts (sc_whiteMs c) -> sc_serverTime c = Some t -> counts t ->
  clocksSchema (json_of_clocks c) = Some c.
Proof.
  intros Hb Hw Ht Hc. unfold clocksSchema, json_of_clocks. rewrite Ht. z_read.
  by destruct c; simpl in *; subst.
Qed.

Lemma publicPlayerSchema_eval p : player_ok p -> publicPlayerSchema (json_of_player p) = Some p.
Proof.
  intros [Ha Hn]. unfold publicPlayerSchema, json_of_player. z_read. by destruct p.
Qed.

Lemma snapshotMoveSchema_eval m : move_ok m -> snapshotMoveSchema (json_of_move m) = Some m.
Proof.
  intros (Hp & Hs & Hsan & Huci). unfold snapshotMoveSchema, json_of_move.
  assert (z_int_positive (JNum (sm_ply m)) = Some (sm_ply m)) by (by apply z_int_from_eval).
  z_read. by destruct m.
Qed.

Lemma snapshotMoves_eval ms :
  Forall move_ok ms -> z_array snapshotMoveSchema (JArr (map json_of_move ms)) = Some ms.
Proof.
  simpl. induction 1 as [|m ms Hm _ IH]; [done|]. cbn [map z_items].
  rewrite snapshotMoveSchema_eval by done. simpl. by rewrite IH.
Qed.

#[export] Hint Resolve publicPlayerSchema_eval snapshotMoves_eval : cluchess.

Lemma gameSnapshotPayloadSchema_eval p :
  payload_ok p -> gameSnapshotPayloadSchema (json_of_payload p) = Some p.
Proof.
  intros [(Hb & Hw & t & Ht & Hc) [Hf Hi] Hm [Hy Ho]].
  pose proof (clocksSchema_eval _ _ Hb Hw Ht Hc).
  unfold gameSnapshotPayloadSchema, json_of_payload. z_read. by destruct p.
Qed.
