(* ===== verification/Protocol.v ===== *)
(** * The messages of the realtime protocol

    [protocol.schemas.ts]: what clients may send, what the server sends, and the
    acknowledgments, as types with the schemas that read them. [realtime-protocol.service.ts]
    is in [RealtimeProtocol]. *)

From S2P Require Export Snapshots RealtimeErrors Text.
From Stdlib Require Import Ascii.
Local Open Scope string_scope.
Local Open Scope list_scope.
Local Open Scope Z_scope.

(** [z.iso.datetime()]'s test on strings is zod's own. *)
Class ZodDatetime : Type := { zod_datetime : string -> bool }.

Module Protocol.

(** ** What clients send *)

Inductive ClientEvent : Type :=
| QueueJoin
| QueueLeave
| GameReady (gameId : string) (gameVersion : Z)
| MoveSubmit (clientMoveId gameId : string) (gameVersion : Z)
    (from to : string) (promotion : option PromotionPiece)
| GameResign (gameId : string) (gameVersion : Z)
| GameSync (gameId : option string) (gameVersion : option Z)
| HeartbeatPing (lastKnownGameVersion : option Z).

Record ClientEventEnvelope : Type := mkClientEnvelope {
  ce_correlationId : option string;
  ce_event : ClientEvent;
  ce_eventId : string;
  ce_timestamp : Z
}.

Definition client_type (e : ClientEvent) : string :=
  match e with
  | QueueJoin => "queue.join"
  | QueueLeave => "queue.leave"
  | GameReady _ _ => "game.ready"
  | MoveSubmit _ _ _ _ _ _ => "move.submit"
  | GameResign _ _ => "game.resign"
  | GameSync _ _ => "game.sync"
  | HeartbeatPing _ => "heartbeat.ping"
  end.

(** ** What the server sends *)

Record ProtocolErrorPayload : Type := mkErrorPayload {
  pe_authoritativeVersion : option Z;
  pe_code : ProtocolErrorCode;
  pe_message : string;
  pe_retryAfterMs : option Z;
  pe_retryable : bool
}.

Inductive QueueLeftReason : Type :=
| LeftRequested | LeftMatched | LeftDisconnected | LeftTimeout | LeftStale.

#[export] Instance QueueLeftReason_toString : ToString QueueLeftReason := fun r =>
  match r with
  | LeftRequested => "requested"
  | LeftMatched => "matched"
  | LeftDisconnected => "disconnected"
  | LeftTimeout => "timeout"
  | LeftStale => "stale"
  end.

Definition allLeftReasons : list QueueLeftReason :=
  [LeftRequested; LeftMatched; LeftDisconnected; LeftTimeout; LeftStale].

Record MatchFoundPayload : Type := mkMatchFound {
  mf_color : WireColor;
  mf_joinDeadline : Z;
  mf_opponentAvatar : string;
  mf_opponentName : string;
  mf_incrementMs : Z;
  mf_initialMs : Z
}.

(** The clocks of a game that is not running, or whose running side is fixed by the
    type of the message. *)
Record FixedClocks : Type := mkFixedClocks { fc_blackMs : Z; fc_serverTime : Z; fc_whiteMs : Z }.

Record MoveAcceptedPayload : Type := mkMoveAccepted {
  ma_check : bool;
  ma_clocks : SnapshotClocks;
  ma_fenAfter : string;
  ma_ply : Z;
  ma_san : string;
  ma_turn : WireColor;
  ma_uci : string
}.

Record GameEndedPayload : Type := mkGameEnded {
  ge_clocks : FixedClocks;
  ge_finalFen : string;
  ge_pgn : string;
  ge_result : GameResult;
  ge_termination : GameTermination
}.

Inductive ServerPayload : Type :=
| SessionReady (activeGameId : option string) (guest : AuthenticatedSocketIdentity)
| QueueJoined (position : option Z) (since : Z)
| QueueLeft (reason : QueueLeftReason)
| MatchFound (found : MatchFoundPayload)
| GameSnapshot (snapshot : GameSnapshotPayload)
| GameStarted (clocks : FixedClocks) (initialFen : string)
| MoveAccepted (move : MoveAcceptedPayload)
| MoveRejected (error : ProtocolErrorPayload)
| Disconnected (color : WireColor) (graceDeadline : Z)
| Reconnected (color : WireColor)
| GameEnded (ended : GameEndedPayload)
| HeartbeatPong (presenceExpiresInMs serverTime : Z)
| ServerError (error : ProtocolErrorPayload).

Definition server_type (p : ServerPayload) : string :=
  match p with
  | SessionReady _ _ => "session.ready"
  | QueueJoined _ _ => "queue.joined"
  | QueueLeft _ => "queue.left"
  | MatchFound _ => "match.found"
  | GameSnapshot _ => "game.snapshot"
  | GameStarted _ _ => "game.started"
  | MoveAccepted _ => "move.accepted"
  | MoveRejected _ => "move.rejected"
  | Disconnected _ _ => "player.disconnected"
  | Reconnected _ => "player.reconnected"
  | GameEnded _ => "game.ended"
  | HeartbeatPong _ _ => "heartbeat.pong"
  | ServerError _ => "server.error"
  end.

(** Which move and game a message is about. *)
Record Subject : Type := mkSubject {
  sj_clientMoveId : option string;
  sj_gameId : option string;
  sj_gameVersion : option Z
}.
Definition no_subject : Subject := mkSubject None None None.
Definition of_game (gameId : string) (gameVersion : Z) : Subject :=
  mkSubject None (Some gameId) (Some gameVersion).

Record ServerEventEnvelope : Type := mkServerEnvelope {
  se_correlationId : option string;
  se_eventId : string;
  se_payload : ServerPayload;
  se_subject : Subject;
  se_timestamp : Z
}.

Inductive RealtimeAck : Type :=
| AckSuccess (requestEventId correlationId : string) (payload : ServerPayload)
    (gameVersion : option Z)
| AckFailure (requestEventId correlationId : string) (error : ProtocolErrorPayload)
    (type : ResponseType) (gameVersion : option Z).

(** ** Schemas *)

Section Schemas.
Context `{Zod} `{ZodDatetime}.

Notation uuidV4 := z_uuidv4.
Notation epochMs := z_int_nonnegative.
Notation gameVersionSchema := z_int_nonnegative.
Notation clockMs := z_int_nonnegative.

(** [z.literal(n)], [z.literal(true)], [z.null()] *)
Definition z_number_literal (n : Z) : parser () := fun j =>
  match j with JNum m => if m =? n then Some () else None | _ => None end.
Definition z_boolean_literal (v : bool) : parser () := fun j =>
  match j with JBool u => if Bool.eqb u v then Some () else None | _ => None end.
Definition z_only_null : parser () := fun j => match j with JNull => Some () | _ => None end.

Definition emptyPayload : parser () := z_object [] (fun _ => Some ()).
Definition blitzPayload : parser () :=
  z_object ["mode"] (fun f => _ ← z_field f "mode" (z_literal "blitz"); Some ()).

(** *** Of clients *)

(** [clientFields], with the payload and the type, around what is left. *)
Definition clientEnvelope (type : string) (keys : list string)
    (body : list (string * json) -> option ClientEvent) : string * parser ClientEventEnvelope :=
  (type,
   z_object (["correlationId"; "eventId"; "protocolVersion"; "timestamp"; "payload"; "type"] ++ keys)
     (fun f =>
        correlationId ← z_optional_field f "correlationId" uuidV4;
        eventId ← z_field f "eventId" uuidV4;
        _ ← z_field f "protocolVersion" (z_number_literal PROTOCOL_VERSION);
        timestamp ← z_field f "timestamp" epochMs;
        event ← body f;
        _ ← z_field f "type" (z_literal type);
        Some (mkClientEnvelope correlationId event eventId timestamp))).

Definition queueJoinEnvelopeSchema :=
  clientEnvelope "queue.join" [] (fun f => _ ← z_field f "payload" blitzPayload; Some QueueJoin).

Definition queueLeaveEnvelopeSchema :=
  clientEnvelope "queue.leave" [] (fun f => _ ← z_field f "payload" blitzPayload; Some QueueLeave).

Definition gameReadyEnvelopeSchema :=
  clientEnvelope "game.ready" ["gameId"; "gameVersion"] (fun f =>
    gameId ← z_field f "gameId" uuidV4;
    gameVersion ← z_field f "gameVersion" gameVersionSchema;
    _ ← z_field f "payload" emptyPayload;
    Some (GameReady gameId gameVersion)).

(** [/^[a-h][1-8]$/] *)
Definition SQUARE (s : string) : bool := matches [char_in "a" "h"; char_in "1" "8"] (chars s).

Definition movePayload : parser (string * option PromotionPiece * string) :=
  z_object ["from"; "promotion"; "to"] (fun f =>
    from ← z_field f "from" (z_string_where SQUARE);
    promotion ← z_optional_field f "promotion" (z_enum [pq; pr; pb; pn]);
    to ← z_field f "to" (z_string_where SQUARE);
    Some (from, promotion, to)).

Definition moveSubmitEnvelopeSchema :=
  clientEnvelope "move.submit" ["clientMoveId"; "gameId"; "gameVersion"] (fun f =>
    clientMoveId ← z_field f "clientMoveId" uuidV4;
    gameId ← z_field f "gameId" uuidV4;
    gameVersion ← z_field f "gameVersion" gameVersionSchema;
    move ← z_field f "payload" movePayload;
    Some (MoveSubmit clientMoveId gameId gameVersion move.1.1 move.2 move.1.2)).

Definition gameResignEnvelopeSchema :=
  clientEnvelope "game.resign" ["gameId"; "gameVersion"] (fun f =>
    gameId ← z_field f "gameId" uuidV4;
    gameVersion ← z_field f "gameVersion" gameVersionSchema;
    _ ← z_field f "payload" emptyPayload;
    Some (GameResign gameId gameVersion)).

Definition gameSyncEnvelopeSchema :=
  clientEnvelope "game.sync" ["gameId"; "gameVersion"] (fun f =>
    gameId ← z_optional_field f "gameId" uuidV4;
    gameVersion ← z_optional_field f "gameVersion" gameVersionSchema;
    _ ← z_field f "payload" emptyPayload;
    Some (GameSync gameId gameVersion)).

Definition heartbeatPayload : parser (option Z) :=
  z_object ["lastKnownGameVersion"] (fun f =>
    version ← z_optional_field f "lastKnownGameVersion" gameVersionSchema; Some version).

Definition heartbeatPingEnvelopeSchema :=
  clientEnvelope "heartbeat.ping" [] (fun f =>
    version ← z_field f "payload" heartbeatPayload; Some (HeartbeatPing version)).

Definition clientEnvelopeSchema : parser ClientEventEnvelope :=
  z_discriminated "type"
    [queueJoinEnvelopeSchema; queueLeaveEnvelopeSchema; gameReadyEnvelopeSchema;
     moveSubmitEnvelopeSchema; gameResignEnvelopeSchema; gameSyncEnvelopeSchema;
     heartbeatPingEnvelopeSchema].

(** *** Of the server *)

Definition protocolErrorSchema : parser ProtocolErrorPayload :=
  z_object ["authoritativeVersion"; "code"; "message"; "retryAfterMs"; "retryable"] (fun f =>
    authoritativeVersion ← z_optional_field f "authoritativeVersion" gameVersionSchema;
    code ← z_field f "code" (z_enum PROTOCOL_ERROR_CODES);
    message ← z_field f "message" (z_string_length 1 256);
    retryAfterMs ← z_optional_field f "retryAfterMs" z_int_positive;
    retryable ← z_field f "retryable" z_boolean;
    Some (mkErrorPayload authoritativeVersion code message retryAfterMs retryable)).

Definition guestSchema : parser AuthenticatedSocketIdentity :=
  z_object ["avatar"; "expiresAt"; "id"; "name"] (fun f =>
    avatar ← z_field f "avatar" (z_string_length 1 128);
    expiresAt ← z_field f "expiresAt" (z_string_where zod_datetime);
    id ← z_field f "id" uuidV4;
    name ← z_field f "name" (z_string_length 1 128);
    Some (mkSocketIdentity avatar expiresAt id name)).

Definition sessionReadyPayloadSchema : parser ServerPayload :=
  z_object ["activeGameId"; "guest"] (fun f =>
    activeGameId ← z_field f "activeGameId" (z_nullable uuidV4);
    guest ← z_field f "guest" guestSchema;
    Some (SessionReady activeGameId guest)).

Definition queueJoinedPayloadSchema : parser ServerPayload :=
  z_object ["mode"; "position"; "since"] (fun f =>
    _ ← z_field f "mode" (z_literal "blitz");
    position ← z_optional_field f "position" z_int_positive;
    since ← z_field f "since" epochMs;
    Some (QueueJoined position since)).

Definition queueLeftPayloadSchema : parser ServerPayload :=
  z_object ["mode"; "reason"] (fun f =>
    _ ← z_field f "mode" (z_literal "blitz");
    reason ← z_field f "reason" (z_enum allLeftReasons);
    Some (QueueLeft reason)).

Definition opponentSchema : parser (string * string) :=
  z_object ["avatar"; "name"] (fun f =>
    avatar ← z_field f "avatar" (z_string_length 1 128);
    name ← z_field f "name" (z_string_length 1 128);
    Some (avatar, name)).

Definition timeControlSchema : parser (Z * Z) :=
  z_object ["incrementMs"; "initialMs"] (fun f =>
    incrementMs ← z_field f "incrementMs" clockMs;
    initialMs ← z_field f "initialMs" clockMs;
    Some (incrementMs, initialMs)).

Definition matchFoundPayloadSchema : parser ServerPayload :=
  z_object ["color"; "joinDeadline"; "opponent"; "timeControl"] (fun f =>
    color ← z_field f "color" colorSchema;
    joinDeadline ← z_field f "joinDeadline" epochMs;
    opponent ← z_field f "opponent" opponentSchema;
    timeControl ← z_field f "timeControl" timeControlSchema;
    Some (MatchFound (mkMatchFound color joinDeadline opponent.1 opponent.2
                        timeControl.1 timeControl.2))).

(** Clocks whose [running] has one value only. *)
Definition fixedClocks (running : parser ()) : parser FixedClocks :=
  z_object ["blackMs"; "running"; "serverTime"; "whiteMs"] (fun f =>
    blackMs ← z_field f "blackMs" clockMs;
    _ ← z_field f "running" running;
    serverTime ← z_field f "serverTime" epochMs;
    whiteMs ← z_field f "whiteMs" clockMs;
    Some (mkFixedClocks blackMs serverTime whiteMs)).

Definition z_white : parser () := fun j => _ ← z_literal "white" j; Some ().

Definition gameStartedPayloadSchema : parser ServerPayload :=
  z_object ["clocks"; "initialFen"; "turn"] (fun f =>
    clocks ← z_field f "clocks" (fixedClocks z_white);
    initialFen ← z_field f "initialFen" (z_string_length 1 256);
    _ ← z_field f "turn" z_white;
    Some (GameStarted clocks initialFen)).

Definition moveAcceptedPayloadSchema : parser ServerPayload :=
  z_object ["check"; "clocks"; "fenAfter"; "ply"; "san"; "turn"; "uci"] (fun f =>
    check ← z_field f "check" z_boolean;
    clocks ← z_field f "clocks" clocksSchema;
    fenAfter ← z_field f "fenAfter" (z_string_length 1 256);
    ply ← z_field f "ply" z_int_positive;
    san ← z_field f "san" (z_string_length 1 32);
    turn ← z_field f "turn" colorSchema;
    uci ← z_field f "uci" (z_string_length 4 5);
    Some (MoveAccepted (mkMoveAccepted check clocks fenAfter ply san turn uci))).

Definition playerDisconnectedPayloadSchema : parser ServerPayload :=
  z_object ["clocksContinue"; "color"; "graceDeadline"] (fun f =>
    _ ← z_field f "clocksContinue" (z_boolean_literal true);
    color ← z_field f "color" colorSchema;
    graceDeadline ← z_field f "graceDeadline" epochMs;
    Some (Disconnected color graceDeadline)).

Definition playerReconnectedPayloadSchema : parser ServerPayload :=
  z_object ["color"] (fun f => color ← z_field f "color" colorSchema; Some (Reconnected color)).

Definition gameEndedPayloadSchema : parser ServerPayload :=
  z_object ["clocks"; "finalFen"; "pgn"; "result"; "termination"] (fun f =>
    clocks ← z_field f "clocks" (fixedClocks z_only_null);
    finalFen ← z_field f "finalFen" (z_string_length 1 256);
    pgn ← z_field f "pgn" (z_string_length 0 16384);
    result ← z_field f "result" resultSchema;
    termination ← z_field f "termination" terminationSchema;
    Some (GameEnded (mkGameEnded clocks finalFen pgn result termination))).

Definition heartbeatPongPayloadSchema : parser ServerPayload :=
  z_object ["presenceExpiresInMs"; "serverTime"] (fun f =>
    presenceExpiresInMs ← z_field f "presenceExpiresInMs" z_int_positive;
    serverTime ← z_field f "serverTime" epochMs;
    Some (HeartbeatPong presenceExpiresInMs serverTime)).

(** [serverFields], the payload and the type, around the fields [subject] reads. *)
Definition serverEnvelope (type : string) (keys : list string)
    (subject : list (string * json) -> option Subject) (payload : parser ServerPayload)
    : string * parser ServerEventEnvelope :=
  (type,
   z_object (["correlationId"; "eventId"; "protocolVersion"; "timestamp"; "payload"; "type"] ++ keys)
     (fun f =>
        correlationId ← z_optional_field f "correlationId" uuidV4;
        eventId ← z_field f "eventId" uuidV4;
        _ ← z_field f "protocolVersion" (z_number_literal PROTOCOL_VERSION);
        timestamp ← z_field f "timestamp" epochMs;
        about ← subject f;
        payload ← z_field f "payload" payload;
        _ ← z_field f "type" (z_literal type);
        Some (mkServerEnvelope correlationId eventId payload about timestamp))).

Definition plainEnvelope (type : string) (payload : parser ServerPayload) :=
  serverEnvelope type [] (fun _ => Some no_subject) payload.

Definition gameServerEnvelope (type : string) (payload : parser ServerPayload) :=
  serverEnvelope type ["gameId"; "gameVersion"] (fun f =>
    gameId ← z_field f "gameId" uuidV4;
    gameVersion ← z_field f "gameVersion" gameVersionSchema;
    Some (of_game gameId gameVersion)) payload.

Definition moveServerEnvelope (type : string) (payload : parser ServerPayload) :=
  serverEnvelope type ["clientMoveId"; "gameId"; "gameVersion"] (fun f =>
    clientMoveId ← z_field f "clientMoveId" uuidV4;
    gameId ← z_field f "gameId" uuidV4;
    gameVersion ← z_field f "gameVersion" gameVersionSchema;
    Some (mkSubject (Some clientMoveId) (Some gameId) (Some gameVersion))) payload.

Definition errorPayload (make : ProtocolErrorPayload -> ServerPayload) : parser ServerPayload :=
  fun j => error ← protocolErrorSchema j; Some (make error).

Definition serverErrorEnvelopeSchema :=
  serverEnvelope "server.error" ["clientMoveId"; "gameId"; "gameVersion"] (fun f =>
    clientMoveId ← z_optional_field f "clientMoveId" uuidV4;
    gameId ← z_optional_field f "gameId" uuidV4;
    gameVersion ← z_optional_field f "gameVersion" gameVersionSchema;
    Some (mkSubject clientMoveId gameId gameVersion)) (errorPayload ServerError).

Definition snapshotPayload : parser ServerPayload :=
  fun j => snapshot ← gameSnapshotPayloadSchema j; Some (GameSnapshot snapshot).

Definition serverEnvelopeSchema : parser ServerEventEnvelope :=
  z_discriminated "type"
    [plainEnvelope "session.ready" sessionReadyPayloadSchema;
     plainEnvelope "queue.joined" queueJoinedPayloadSchema;
     plainEnvelope "queue.left" queueLeftPayloadSchema;
     gameServerEnvelope "match.found" matchFoundPayloadSchema;
     gameServerEnvelope "game.snapshot" snapshotPayload;
     gameServerEnvelope "game.started" gameStartedPayloadSchema;
     moveServerEnvelope "move.accepted" moveAcceptedPayloadSchema;
     moveServerEnvelope "move.rejected" (errorPayload MoveRejected);
     gameServerEnvelope "player.disconnected" playerDisconnectedPayloadSchema;
     gameServerEnvelope "player.reconnected" playerReconnectedPayloadSchema;
     gameServerEnvelope "game.ended" gameEndedPayloadSchema;
     plainEnvelope "heartbeat.pong" heartbeatPongPayloadSchema;
     serverErrorEnvelopeSchema].

(** *** Acknowledgments *)

Definition ackSuccess (type : string) (payload : parser ServerPayload) (requiresGameVersion : bool)
    : string * parser RealtimeAck :=
  (type,
   z_object (["correlationId"; "ok"; "protocolVersion"; "requestEventId"; "payload"; "type"] ++
             (if requiresGameVersion then ["gameVersion"] else []))
     (fun f =>
        correlationId ← z_field f "correlationId" uuidV4;
        _ ← z_field f "ok" (z_boolean_literal true);
        _ ← z_field f "protocolVersion" (z_number_literal PROTOCOL_VERSION);
        requestEventId ← z_field f "requestEventId" uuidV4;
        gameVersion ← (if requiresGameVersion then Some <$> z_field f "gameVersion" gameVersionSchema
                       else Some None);
        payload ← z_field f "payload" payload;
        _ ← z_field f "type" (z_literal type);
        Some (AckSuccess requestEventId correlationId payload gameVersion))).

Definition ackSuccessSchema : parser RealtimeAck :=
  z_discriminated "type"
    [ackSuccess "session.ready" sessionReadyPayloadSchema false;
     ackSuccess "queue.joined" queueJoinedPayloadSchema false;
     ackSuccess "queue.left" queueLeftPayloadSchema false;
     ackSuccess "game.snapshot" snapshotPayload true;
     ackSuccess "move.accepted" moveAcceptedPayloadSchema true;
     ackSuccess "game.ended" gameEndedPayloadSchema true;
     ackSuccess "heartbeat.pong" heartbeatPongPayloadSchema false].

Definition ackFailureSchema : parser RealtimeAck :=
  z_object ["correlationId"; "error"; "gameVersion"; "ok"; "protocolVersion"; "requestEventId";
            "type"] (fun f =>
    correlationId ← z_field f "correlationId" uuidV4;
    error ← z_field f "error" protocolErrorSchema;
    gameVersion ← z_optional_field f "gameVersion" gameVersionSchema;
    _ ← z_field f "ok" (z_boolean_literal false);
    _ ← z_field f "protocolVersion" (z_number_literal PROTOCOL_VERSION);
    requestEventId ← z_field f "requestEventId" uuidV4;
    type ← z_field f "type" (z_enum allResponseTypes);
    Some (AckFailure requestEventId correlationId error type gameVersion)).

(** [z.union([..])]: the first that accepts. *)
Definition realtimeAckSchema : parser RealtimeAck := fun j =>
  match ackSuccessSchema j with Some ack => Some ack | None => ackFailureSchema j end.

(** ** The JSON of messages *)

Definition json_of_client_payload (e : ClientEvent) : json :=
  match e with
  | QueueJoin | QueueLeave => JObj [("mode", JStr "blitz")]
  | MoveSubmit _ _ _ from to promotion =>
      JObj ([("from", JStr from)] ++ opt_field "promotion" (fun p => JStr (toString p)) promotion ++
            [("to", JStr to)])
  | HeartbeatPing version => JObj (opt_field "lastKnownGameVersion" JNum version)
  | GameReady _ _ | GameResign _ _ | GameSync _ _ => JObj []
  end.

Definition client_fields (e : ClientEvent) : list (string * json) :=
  match e with
  | GameReady gameId gameVersion | GameResign gameId gameVersion =>
      [("gameId", JStr gameId); ("gameVersion", JNum gameVersion)]
  | MoveSubmit clientMoveId gameId gameVersion _ _ _ =>
      [("clientMoveId", JStr clientMoveId); ("gameId", JStr gameId); ("gameVersion", JNum gameVersion)]
  | GameSync gameId gameVersion =>
      opt_field "gameId" JStr gameId ++ opt_field "gameVersion" JNum gameVersion
  | QueueJoin | QueueLeave | HeartbeatPing _ => []
  end.

Definition json_of_client_event (c : ClientEventEnvelope) : json :=
  JObj (opt_field "correlationId" JStr (ce_correlationId c) ++
        [("eventId", JStr (ce_eventId c)); ("protocolVersion", JNum PROTOCOL_VERSION);
         ("timestamp", JNum (ce_timestamp c)); ("payload", json_of_client_payload (ce_event c));
         ("type", JStr (client_type (ce_event c)))] ++ client_fields (ce_event c)).

Definition json_of_error (e : ProtocolErrorPayload) : json :=
  JObj (opt_field "authoritativeVersion" JNum (pe_authoritativeVersion e) ++
        [("code", JStr (toString (pe_code e))); ("message", JStr (pe_message e))] ++
        opt_field "retryAfterMs" JNum (pe_retryAfterMs e) ++
        [("retryable", JBool (pe_retryable e))]).

Definition json_of_fixed_clocks (running : json) (c : FixedClocks) : json :=
  JObj [("blackMs", JNum (fc_blackMs c)); ("running", running);
        ("serverTime", JNum (fc_serverTime c)); ("whiteMs", JNum (fc_whiteMs c))].

Definition json_of_guest (g : AuthenticatedSocketIdentity) : json :=
  JObj [("avatar", JStr (si_avatar g)); ("expiresAt", JStr (si_expiresAt g));
        ("id", JStr (si_guestSessionId g)); ("name", JStr (si_name g))].

Definition json_of_server_payload (p : ServerPayload) : json :=
  match p with
  | SessionReady activeGameId guest =>
      JObj [("activeGameId", match activeGameId with None => JNull | Some id => JStr id end);
            ("guest", json_of_guest guest)]
  | QueueJoined position since =>
      JObj ([("mode", JStr "blitz")] ++ opt_field "position" JNum position ++ [("since", JNum since)])
  | QueueLeft reason => JObj [("mode", JStr "blitz"); ("reason", JStr (toString reason))]
  | MatchFound m =>
      JObj [("color", JStr (toString (mf_color m))); ("joinDeadline", JNum (mf_joinDeadline m));
            ("opponent", JObj [("avatar", JStr (mf_opponentAvatar m)); ("name", JStr (mf_opponentName m))]);
            ("timeControl", JObj [("incrementMs", JNum (mf_incrementMs m));
                                  ("initialMs", JNum (mf_initialMs m))])]
  | GameSnapshot snapshot => json_of_payload snapshot
  | GameStarted clocks initialFen =>
      JObj [("clocks", json_of_fixed_clocks (JStr "white") clocks); ("initialFen", JStr initialFen);
            ("turn", JStr "white")]
  | MoveAccepted m =>
      JObj [("check", JBool (ma_check m)); ("clocks", json_of_clocks (ma_clocks m));
            ("fenAfter", JStr (ma_fenAfter m)); ("ply", JNum (ma_ply m)); ("san", JStr (ma_san m));
            ("turn", JStr (toString (ma_turn m))); ("uci", JStr (ma_uci m))]
  | MoveRejected error | ServerError error => json_of_error error
  | Disconnected color graceDeadline =>
      JObj [("clocksContinue", JBool true); ("color", JStr (toString color));
            ("graceDeadline", JNum graceDeadline)]
  | Reconnected color => JObj [("color", JStr (toString color))]
  | GameEnded e =>
      JObj [("clocks", json_of_fixed_clocks JNull (ge_clocks e)); ("finalFen", JStr (ge_finalFen e));
            ("pgn", JStr (ge_pgn e)); ("result", JStr (toString (ge_result e)));
            ("termination", JStr (toString (ge_termination e)))]
  | HeartbeatPong presenceExpiresInMs serverTime =>
      JObj [("presenceExpiresInMs", JNum presenceExpiresInMs); ("serverTime", JNum serverTime)]
  end.

Definition json_of_server_event (s : ServerEventEnvelope) : json :=
  JObj (opt_field "clientMoveId" JStr (sj_clientMoveId (se_subject s)) ++
        opt_field "correlationId" JStr (se_correlationId s) ++
        opt_field "gameId" JStr (sj_gameId (se_subject s)) ++
        opt_field "gameVersion" JNum (sj_gameVersion (se_subject s)) ++
        [("payload", json_of_server_payload (se_payload s));
         ("type", JStr (server_type (se_payload s))); ("eventId", JStr (se_eventId s));
         ("protocolVersion", JNum PROTOCOL_VERSION); ("timestamp", JNum (se_timestamp s))]).

Definition json_of_ack (ack : RealtimeAck) : json :=
  match ack with
  | AckSuccess requestEventId correlationId payload gameVersion =>
      JObj ([("correlationId", JStr correlationId)] ++ opt_field "gameVersion" JNum gameVersion ++
            [("ok", JBool true); ("payload", json_of_server_payload payload);
             ("protocolVersion", JNum PROTOCOL_VERSION); ("requestEventId", JStr requestEventId);
             ("type", JStr (server_type payload))])
  | AckFailure requestEventId correlationId error type gameVersion =>
      JObj ([("correlationId", JStr correlationId); ("error", json_of_error error)] ++
            opt_field "gameVersion" JNum gameVersion ++
            [("ok", JBool false); ("protocolVersion", JNum PROTOCOL_VERSION);
             ("requestEventId", JStr requestEventId); ("type", JStr (toString type))])
  end.

End Schemas.
End Protocol.
