(* ===== verification/ProtocolCodec.v ===== *)
(** * Messages and their texts

    What the schemas of [Protocol] ask of a message, and that a message that has it is
    read back as it was written. *)

From S2P Require Export Protocol.
From S2P Require Import JsonText.
From Stdlib Require Import Ascii.
Local Open Scope string_scope.
Local Open Scope list_scope.
Local Open Scope Z_scope.

Module Codec.
Import Protocol.

Section Codec.
Context `{Zod} `{ZodDatetime}.

(** ** What the schemas ask of a message *)

Definition uuid (s : string) : Prop := zod_uuidv4 s = true.
Definition positive_int (n : Z) : Prop := 1 <= n /\ isSafeInteger n = true.

Definition client_event_ok (e : ClientEvent) : Prop :=
  match e with
  | QueueJoin | QueueLeave => True
  | GameReady gameId gameVersion | GameResign gameId gameVersion => uuid gameId /\ counts gameVersion
  | MoveSubmit clientMoveId gameId gameVersion from to _ =>
      uuid clientMoveId /\ uuid gameId /\ counts gameVersion /\ SQUARE from = true /\ SQUARE to = true
  | GameSync gameId gameVersion => if_any uuid gameId /\ if_any counts gameVersion
  | HeartbeatPing version => if_any counts version
  end.

Definition client_ok (c : ClientEventEnvelope) : Prop :=
  if_any uuid (ce_correlationId c) /\ uuid (ce_eventId c) /\ counts (ce_timestamp c) /\
  client_event_ok (ce_event c).

Definition error_ok (e : ProtocolErrorPayload) : Prop :=
  if_any counts (pe_authoritativeVersion e) /\ fits 1 256 (pe_message e) /\
  if_any positive_int (pe_retryAfterMs e).

Definition identity_ok (g : AuthenticatedSocketIdentity) : Prop :=
  fits 1 128 (si_avatar g) /\ zod_datetime (si_expiresAt g) = true /\
  uuid (si_guestSessionId g) /\ fits 1 128 (si_name g).

Definition fixed_ok (c : FixedClocks) : Prop :=
  counts (fc_blackMs c) /\ counts (fc_serverTime c) /\ counts (fc_whiteMs c).

Definition clocks_ok (c : SnapshotClocks) : Prop :=
  counts (sc_blackMs c) /\ counts (sc_whiteMs c) /\ exists t, sc_serverTime c = Some t /\ counts t.

Definition server_payload_ok (p : ServerPayload) : Prop :=
  match p with
  | SessionReady activeGameId guest => if_any uuid activeGameId /\ identity_ok guest
  | QueueJoined position since => if_any positive_int position /\ counts since
  | QueueLeft _ | Reconnected _ => True
  | MatchFound m =>
      counts (mf_joinDeadline m) /\ fits 1 128 (mf_opponentAvatar m) /\
      fits 1 128 (mf_opponentName m) /\ counts (mf_incrementMs m) /\ counts (mf_initialMs m)
  | GameSnapshot snapshot => payload_ok snapshot
  | GameStarted clocks initialFen => fixed_ok clocks /\ fits 1 256 initialFen
  | MoveAccepted m =>
      clocks_ok (ma_clocks m) /\ fits 1 256 (ma_fenAfter m) /\ positive_int (ma_ply m) /\
      fits 1 32 (ma_san m) /\ fits 4 5 (ma_uci m)
  | MoveRejected error | ServerError error => error_ok error
  | Disconnected _ graceDeadline => counts graceDeadline
  | GameEnded e => fixed_ok (ge_clocks e) /\ fits 1 256 (ge_finalFen e) /\ fits 0 16384 (ge_pgn e)
  | HeartbeatPong presenceExpiresInMs serverTime => positive_int presenceExpiresInMs /\ counts serverTime
  end.

(** What a message of each type says it is about. *)
Definition shape_ok (p : ServerPayload) (about : Subject) : Prop :=
  match p with
  | SessionReady _ _ | QueueJoined _ _ | QueueLeft _ | HeartbeatPong _ _ => about = no_subject
  | ServerError _ => True
  | MoveAccepted _ | MoveRejected _ =>
      exists m g v, about = mkSubject (Some m) (Some g) (Some v)
  | _ => exists g v, about = of_game g v
  end.

Definition subject_ok (p : ServerPayload) (about : Subject) : Prop :=
  if_any uuid (sj_clientMoveId about) /\ if_any uuid (sj_gameId about) /\
  if_any counts (sj_gameVersion about) /\ shape_ok p about.

Definition server_ok (s : ServerEventEnvelope) : Prop :=
  if_any uuid (se_correlationId s) /\ uuid (se_eventId s) /\ counts (se_timestamp s) /\
  subject_ok (se_payload s) (se_subject s) /\ server_payload_ok (se_payload s).

(** The types of successful answers, and which of them have a version. *)
Definition versioned (p : ServerPayload) : option bool :=
  match p with
  | GameSnapshot _ | MoveAccepted _ | GameEnded _ => Some true
  | SessionReady _ _ | QueueJoined _ _ | QueueLeft _ | HeartbeatPong _ _ => Some false
  | _ => None
  end.

Definition ack_ok (ack : RealtimeAck) : Prop :=
  match ack with
  | AckSuccess requestEventId correlationId payload gameVersion =>
      uuid requestEventId /\ uuid correlationId /\ server_payload_ok payload /\
      versioned payload = Some (negb (isNull gameVersion)) /\ if_any counts gameVersion
  | AckFailure requestEventId correlationId error _ gameVersion =>
      uuid requestEventId /\ uuid correlationId /\ error_ok error /\ if_any counts gameVersion
  end.

(** ** Soundness: what is accepted has it *)

Ltac z_accepted := z_open; try red; simpl; split_and?; try done.

Lemma accepts_enum {A} `{ToString A} (l : list A) P : (forall a, P a) -> accepts (z_enum l) P.
Proof. intros HP j a _. apply HP. Qed.

Lemma accepts_uuid : accepts z_uuidv4 uuid.
Proof. apply accepts_string. Qed.
Lemma accepts_nonnegative : accepts z_int_nonnegative counts.
Proof. apply accepts_int. Qed.
Lemma accepts_positive : accepts z_int_positive positive_int.
Proof. apply accepts_int. Qed.
#[local] Hint Resolve accepts_uuid accepts_nonnegative accepts_positive : accepted.

Lemma accepts_error : accepts protocolErrorSchema error_ok.
Proof. z_accepted. Qed.
Lemma accepts_guest : accepts guestSchema identity_ok.
Proof. z_accepted. Qed.
Lemma accepts_fixed running : accepts (fixedClocks running) fixed_ok.
Proof. z_accepted. Qed.
Lemma accepts_clocks : accepts clocksSchema clocks_ok.
Proof. z_accepted. eauto. Qed.
Lemma accepts_player : accepts publicPlayerSchema player_ok.
Proof. z_accepted. Qed.
Lemma accepts_snapshot_move : accepts snapshotMoveSchema move_ok.
Proof. z_accepted; unfold positive_int in *; naive_solver. Qed.
#[local] Hint Resolve accepts_error accepts_guest accepts_fixed accepts_clocks accepts_player
  accepts_snapshot_move : accepted.

Lemma accepts_snapshot : accepts gameSnapshotPayloadSchema payload_ok.
Proof. z_open. split; simpl; try done; by split_and?. Qed.

Lemma accepts_then {A B} (p : parser A) (f : A -> B) P (Q : B -> Prop) :
  accepts p P -> (forall a, P a -> Q (f a)) -> accepts (fun j => a ← p j; Some (f a)) Q.
Proof. intros Hp HQ j c. simpl. intros (a & Ha & [= <-])%bind_Some. by eapply HQ, Hp. Qed.

(** Every payload schema accepts valid payloads of its type only. *)
Definition typed (type : string) (p : ServerPayload) : Prop :=
  server_type p = type /\ server_payload_ok p.

Lemma accepts_opponent : accepts opponentSchema (fun o => fits 1 128 o.1 /\ fits 1 128 o.2).
Proof. z_accepted. Qed.
Lemma accepts_timeControl : accepts timeControlSchema (fun o => counts o.1 /\ counts o.2).
Proof. z_accepted. Qed.
#[local] Hint Resolve accepts_snapshot accepts_opponent accepts_timeControl : accepted.

Lemma accepts_sessionReady : accepts sessionReadyPayloadSchema (typed "session.ready").
Proof. z_accepted. Qed.
Lemma accepts_queueJoined : accepts queueJoinedPayloadSchema (typed "queue.joined").
Proof. z_accepted. Qed.
Lemma accepts_queueLeft : accepts queueLeftPayloadSchema (typed "queue.left").
Proof. z_accepted. Qed.
Lemma accepts_matchFound : accepts matchFoundPayloadSchema (typed "match.found").
Proof. z_accepted; naive_solver. Qed.
Lemma accepts_gameStarted : accepts gameStartedPayloadSchema (typed "game.started").
Proof. z_accepted. Qed.
Lemma accepts_moveAccepted : accepts moveAcceptedPayloadSchema (typed "move.accepted").
Proof. z_accepted. Qed.
Lemma accepts_disconnected : accepts playerDisconnectedPayloadSchema (typed "player.disconnected").
Proof. z_accepted. Qed.
Lemma accepts_reconnected : accepts playerReconnectedPayloadSchema (typed "player.reconnected").
Proof. z_accepted. Qed.
Lemma accepts_gameEnded : accepts gameEndedPayloadSchema (typed "game.ended").
Proof. z_accepted. Qed.
Lemma accepts_heartbeatPong : accepts heartbeatPongPayloadSchema (typed "heartbeat.pong").
Proof. z_accepted. Qed.
Lemma accepts_snapshotPayload : accepts snapshotPayload (typed "game.snapshot").
Proof. by apply (accepts_then _ _ payload_ok); [apply accepts_snapshot|]. Qed.
Lemma accepts_errorPayload make type :
  (forall e, server_type (make e) = type) -> (forall e, error_ok e -> server_payload_ok (make e)) ->
  accepts (errorPayload make) (typed type).
Proof. intros Ht Hm. apply (accepts_then _ _ error_ok); [apply accepts_error|]. by split; auto. Qed.

#[local] Hint Resolve accepts_sessionReady accepts_queueJoined accepts_queueLeft accepts_matchFound
  accepts_gameStarted accepts_moveAccepted accepts_disconnected accepts_reconnected
  accepts_gameEnded accepts_heartbeatPong accepts_snapshotPayload : accepted.

Lemma accepts_serverEnvelope type keys subject payload (P : Subject -> Prop) :
  (forall f about, subject f = Some about -> P about) -> accepts payload (typed type) ->
  (forall p about, server_type p = type -> P about -> subject_ok p about) ->
  accepts (serverEnvelope type keys subject payload).2 server_ok.
Proof.
  intros Hs Hp HP. apply accepts_object. intros f s Hf.
  eapply accepts_optional in Hf as (corr & Hcorr & Hf); [|exact accepts_uuid].
  eapply accepts_field in Hf as (id & Hid & Hf); [|exact accepts_uuid].
  eapply accepts_field in Hf as (u & _ & Hf); [|apply accepts_any].
  eapply accepts_field in Hf as (t & Ht & Hf); [|exact accepts_nonnegative].
  apply bind_Some in Hf as (about & Habout%Hs & Hf).
  eapply accepts_field in Hf as (p & Hp' & Hf); [|exact Hp]. destruct Hp' as [Hty Hok].
  eapply accepts_field in Hf as (u' & _ & Hf); [|apply accepts_any].
  injection Hf as <-. unfold server_ok. simpl. auto 10.
Qed.

Lemma accepts_plainEnvelope type payload :
  accepts payload (typed type) ->
  (forall p, server_type p = type -> subject_ok p no_subject) ->
  accepts (plainEnvelope type payload).2 server_ok.
Proof.
  intros Hp HP. apply (accepts_serverEnvelope _ _ _ _ (eq no_subject)); [congruence|done|].
  intros p about Hty <-. auto.
Qed.

Lemma accepts_gameServerEnvelope type payload :
  accepts payload (typed type) ->
  (forall p g v, server_type p = type -> uuid g -> counts v -> subject_ok p (of_game g v)) ->
  accepts (gameServerEnvelope type payload).2 server_ok.
Proof.
  intros Hp HP.
  apply (accepts_serverEnvelope _ _ _ _ (fun about => exists g v, about = of_game g v /\ uuid g /\ counts v)).
  - intros f about Hf. eapply accepts_field in Hf as (g & Hg & Hf); [|exact accepts_uuid].
    eapply accepts_field in Hf as (v & Hv & Hf); [|exact accepts_nonnegative].
    injection Hf as <-. eauto 10.
  - done.
  - intros p about Hty (g & v & -> & Hg & Hv). auto.
Qed.

Lemma accepts_moveServerEnvelope type payload :
  accepts payload (typed type) ->
  (forall p m g v, server_type p = type -> uuid m -> uuid g -> counts v ->
     subject_ok p (mkSubject (Some m) (Some g) (Some v))) ->
  accepts (moveServerEnvelope type payload).2 server_ok.
Proof.
  intros Hp HP.
  apply (accepts_serverEnvelope _ _ _ _ (fun about => exists m g v,
    about = mkSubject (Some m) (Some g) (Some v) /\ uuid m /\ uuid g /\ counts v)).
  - intros f about Hf. eapply accepts_field in Hf as (m & Hm & Hf); [|exact accepts_uuid].
    eapply accepts_field in Hf as (g & Hg & Hf); [|exact accepts_uuid].
    eapply accepts_field in Hf as (v & Hv & Hf); [|exact accepts_nonnegative].
    injection Hf as <-. eauto 10.
  - done.
  - intros p about Hty (m & g & v & -> & Hm & Hg & Hv). auto.
Qed.

Lemma accepts_serverError : accepts serverErrorEnvelopeSchema.2 server_ok.
Proof.
  apply (accepts_serverEnvelope _ _ _ _ (fun about =>
    if_any uuid (sj_clientMoveId about) /\ if_any uuid (sj_gameId about) /\
    if_any counts (sj_gameVersion about))).
  - intros f about Hf. eapply accepts_optional in Hf as (m & Hm & Hf); [|exact accepts_uuid].
    eapply accepts_optional in Hf as (g & Hg & Hf); [|exact accepts_uuid].
    eapply accepts_optional in Hf as (v & Hv & Hf); [|exact accepts_nonnegative].
    injection Hf as <-. auto.
  - by apply accepts_errorPayload.
  - intros p about Hty (Hm & Hg & Hv). destruct p; try discriminate. by unfold subject_ok.
Qed.

(** The subject a payload of a given type may have. *)
Ltac subject_of_type :=
  intros p; intros; destruct p; try discriminate; unfold subject_ok, shape_ok; simpl; eauto 10.

Lemma serverEnvelopeSchema_sound : accepts serverEnvelopeSchema server_ok.
Proof.
  apply accepts_discriminated. repeat apply List.Forall_cons; [..|apply List.Forall_nil].
  all: first
    [ apply accepts_serverError
    | apply accepts_plainEnvelope; [auto with accepted|by subject_of_type]
    | apply accepts_gameServerEnvelope; [auto with accepted|by subject_of_type]
    | apply accepts_moveServerEnvelope;
        [first [by auto with accepted|by apply accepts_errorPayload]|by subject_of_type] ].
Qed.

(** Clients. *)
Lemma accepts_move :
  accepts movePayload (fun m => SQUARE m.1.1 = true /\ SQUARE m.2 = true).
Proof. z_accepted. Qed.
Lemma accepts_heartbeat : accepts heartbeatPayload (if_any counts).
Proof. z_accepted. Qed.
#[local] Hint Resolve accepts_move accepts_heartbeat : accepted.

Lemma accepts_clientEnvelope type keys body :
  (forall f e, body f = Some e -> client_event_ok e) ->
  accepts (clientEnvelope type keys body).2 client_ok.
Proof.
  intros Hb. apply accepts_object. intros f s Hf.
  eapply accepts_optional in Hf as (corr & Hcorr & Hf); [|exact accepts_uuid].
  eapply accepts_field in Hf as (id & Hid & Hf); [|exact accepts_uuid].
  eapply accepts_field in Hf as (u & _ & Hf); [|apply accepts_any].
  eapply accepts_field in Hf as (t & Ht & Hf); [|exact accepts_nonnegative].
  apply bind_Some in Hf as (e & He%Hb & Hf).
  eapply accepts_field in Hf as (u' & _ & Hf); [|apply accepts_any].
  injection Hf as <-. by unfold client_ok.
Qed.

Lemma clientEnvelopeSchema_sound : accepts clientEnvelopeSchema client_ok.
Proof.
  apply accepts_discriminated. repeat apply List.Forall_cons; [..|apply List.Forall_nil].
  all: apply accepts_clientEnvelope; intros f e Hopen; z_fields Hopen; simpl; split_and?; first [done|apply Hv2].
Qed.

(** Acknowledgments. *)
Lemma accepts_ackSuccess type payload requires :
  accepts payload (typed type) ->
  (forall p, server_type p = type -> versioned p = Some requires) ->
  accepts (ackSuccess type payload requires).2 ack_ok.
Proof.
  intros Hp HP. apply accepts_object. intros f s Hf.
  eapply accepts_field in Hf as (corr & Hcorr & Hf); [|exact accepts_uuid].
  eapply accepts_field in Hf as (u1 & _ & Hf); [|apply accepts_any].
  eapply accepts_field in Hf as (u2 & _ & Hf); [|apply accepts_any].
  eapply accepts_field in Hf as (id & Hid & Hf); [|exact accepts_uuid].
  apply bind_Some in Hf as (version & Hversion & Hf).
  eapply accepts_field in Hf as (p & Hp' & Hf); [|exact Hp]. destruct Hp' as [Hty%HP Hok].
  eapply accepts_field in Hf as (u3 & _ & Hf); [|apply accepts_any].
  injection Hf as <-. unfold ack_ok. rewrite Hty. destruct requires.
  - destruct (z_field f "gameVersion" z_int_nonnegative) as [v|] eqn:E; [|done].
    injection Hversion as <-. by apply (z_field_Some _ _ _ counts _ accepts_nonnegative) in E.
  - by injection Hversion as <-.
Qed.

Ltac version_of_type := intros p; destruct p; try discriminate; done.

Lemma realtimeAckSchema_sound : accepts realtimeAckSchema ack_ok.
Proof.
  intros j ack. unfold realtimeAckSchema. destruct (ackSuccessSchema j) as [a|] eqn:E.
  - intros [= <-]. revert E. revert j a. apply accepts_discriminated.
    repeat apply List.Forall_cons; [..|apply List.Forall_nil].
    all: apply accepts_ackSuccess; [by auto with accepted|version_of_type].
  - clear E. revert j ack. z_accepted.
Qed.

(** ** Completeness: what has it is read back *)

Lemma z_required_present {A B} fields key v (p : parser A) a (k : option A -> option B) :
  property fields key = Some v -> p v = Some a ->
  ((Some <$> z_field fields key p) ≫= k) = k (Some a).
Proof. intros Hf Hp. unfold z_field. rewrite Hf. simpl. by rewrite Hp. Qed.

Lemma some_bind {A B} (a : A) (k : A -> option B) : (Some a ≫= k) = k a.
Proof. done. Qed.

(** Reads the fields of an object, optional or not. *)
Ltac z_known :=
  repeat first
    [ rewrite some_bind; cbv beta
    | erewrite z_required_present; [cbv beta|reflexivity|solve [eauto with cluchess]]
    | erewrite z_field_bind; [cbv beta|reflexivity|solve [eauto with cluchess]]
    | erewrite z_optional_absent; [cbv beta|reflexivity]
    | erewrite z_optional_present; [cbv beta|reflexivity|solve [eauto with cluchess]] ].
Ltac z_known_object := rewrite z_object_eval by reflexivity; z_known.

Lemma uuid_eval s : uuid s -> z_uuidv4 (JStr s) = Some s.
Proof. apply z_string_where_eval. Qed.
Lemma positive_eval n : positive_int n -> z_int_positive (JNum n) = Some n.
Proof. intros [? ?]. by apply z_int_from_eval. Qed.
Lemma number_literal_eval n : z_number_literal n (JNum n) = Some ().
Proof. simpl. by rewrite Z.eqb_refl. Qed.
Lemma boolean_literal_eval v : z_boolean_literal v (JBool v) = Some ().
Proof. by destruct v. Qed.
Lemma literal_eval s : z_literal s (JStr s) = Some s.
Proof. apply z_string_where_eval. by apply bool_decide_eq_true. Qed.
Lemma promotion_eval p : z_enum [pq; pr; pb; pn] (JStr (toString p)) = Some p.
Proof. by destruct p. Qed.
Lemma errorCode_eval c : z_enum PROTOCOL_ERROR_CODES (JStr (toString c)) = Some c.
Proof. by destruct c. Qed.
Lemma leftReason_eval r : z_enum allLeftReasons (JStr (toString r)) = Some r.
Proof. by destruct r. Qed.
Lemma responseType_eval r : z_enum allResponseTypes (JStr (toString r)) = Some r.
Proof. by destruct r. Qed.
Lemma blitz_eval : blitzPayload (JObj [("mode", JStr "blitz")]) = Some ().
Proof. done. Qed.
Lemma empty_eval : emptyPayload (JObj []) = Some ().
Proof. done. Qed.
Lemma white_eval : z_white (JStr "white") = Some ().
Proof. done. Qed.
Lemma null_eval : z_only_null JNull = Some ().
Proof. done. Qed.
Lemma boolean_eval v : z_boolean (JBool v) = Some v.
Proof. done. Qed.
Hint Resolve uuid_eval positive_eval number_literal_eval boolean_literal_eval literal_eval
  promotion_eval errorCode_eval leftReason_eval responseType_eval blitz_eval empty_eval
  white_eval null_eval boolean_eval : cluchess.

Lemma error_eval e : error_ok e -> protocolErrorSchema (json_of_error e) = Some e.
Proof.
  destruct e as [[version|] code message [after|] retryable]; intros (Hv & Hm & Ha);
    cbn [if_any pe_authoritativeVersion pe_message pe_retryAfterMs] in *; unfold protocolErrorSchema, json_of_error;
    cbn [opt_field app pe_authoritativeVersion pe_code pe_message pe_retryAfterMs pe_retryable];
    by z_known_object.
Qed.

Lemma guest_eval g : identity_ok g -> guestSchema (json_of_guest g) = Some g.
Proof.
  destruct g; intros (Ha & Hd & Hu & Hn); unfold guestSchema, json_of_guest; by z_known_object.
Qed.

Lemma fixed_eval running j c :
  running j = Some () -> fixed_ok c -> fixedClocks running (json_of_fixed_clocks j c) = Some c.
Proof.
  intros Hj (Hb & Hs & Hw). destruct c. unfold fixedClocks, json_of_fixed_clocks. by z_known_object.
Qed.

Lemma clocks_eval c : clocks_ok c -> clocksSchema (json_of_clocks c) = Some c.
Proof. intros (Hb & Hw & t & Ht & Hc). by eapply clocksSchema_eval. Qed.

Lemma opponent_eval a n :
  fits 1 128 a -> fits 1 128 n ->
  opponentSchema (JObj [("avatar", JStr a); ("name", JStr n)]) = Some (a, n).
Proof. intros. unfold opponentSchema. by z_known_object. Qed.

Lemma timeControl_eval i n :
  counts i -> counts n ->
  timeControlSchema (JObj [("incrementMs", JNum i); ("initialMs", JNum n)]) = Some (i, n).
Proof. intros. unfold timeControlSchema. by z_known_object. Qed.
Hint Resolve error_eval guest_eval fixed_eval clocks_eval opponent_eval timeControl_eval
  gameSnapshotPayloadSchema_eval : cluchess.

Lemma nullable_uuid_eval (o : option string) :
  if_any uuid o ->
  z_nullable z_uuidv4 (match o with None => JNull | Some id => JStr id end) = Some o.
Proof. destruct o as [s|]; [|done]. intros Hs. apply z_nullable_Some; [done|]. by apply uuid_eval. Qed.
Hint Resolve nullable_uuid_eval : cluchess.

(** The schema of each type of payload. *)
Definition payloadSchema (p : ServerPayload) : parser ServerPayload :=
  match p with
  | SessionReady _ _ => sessionReadyPayloadSchema
  | QueueJoined _ _ => queueJoinedPayloadSchema
  | QueueLeft _ => queueLeftPayloadSchema
  | MatchFound _ => matchFoundPayloadSchema
  | GameSnapshot _ => snapshotPayload
  | GameStarted _ _ => gameStartedPayloadSchema
  | MoveAccepted _ => moveAcceptedPayloadSchema
  | MoveRejected _ => errorPayload MoveRejected
  | Disconnected _ _ => playerDisconnectedPayloadSchema
  | Reconnected _ => playerReconnectedPayloadSchema
  | GameEnded _ => gameEndedPayloadSchema
  | HeartbeatPong _ _ => heartbeatPongPayloadSchema
  | ServerError _ => errorPayload ServerError
  end.

Lemma payload_eval p : server_payload_ok p -> payloadSchema p (json_of_server_payload p) = Some p.
Proof.
  destruct p as [g guest|[pos|] since|reason|m|snap|clocks fen|m|e|color grace|color|e|n t|e];
    cbn [server_payload_ok]; intros Hok; cbn [payloadSchema json_of_server_payload opt_field app];
    unfold sessionReadyPayloadSchema, queueJoinedPayloadSchema, queueLeftPayloadSchema,
      matchFoundPayloadSchema, gameStartedPayloadSchema, moveAcceptedPayloadSchema,
      playerDisconnectedPayloadSchema, playerReconnectedPayloadSchema, gameEndedPayloadSchema,
      heartbeatPongPayloadSchema.
  all: repeat match goal with Hok : _ /\ _ |- _ => destruct Hok end; cbn [if_any] in *.
  all: try (z_known_object; try (destruct m || destruct e); reflexivity).
  - unfold snapshotPayload. by rewrite gameSnapshotPayloadSchema_eval.
  - unfold errorPayload. by rewrite error_eval.
  - unfold errorPayload. by rewrite error_eval.
Qed.
Hint Resolve payload_eval : cluchess.

(** Finds the schema of the message's type and reads it. *)
Ltac z_message :=
  unfold clientEnvelopeSchema, serverEnvelopeSchema, ackSuccessSchema;
  erewrite z_discriminated_eval; [|reflexivity|reflexivity];
  unfold queueJoinEnvelopeSchema, queueLeaveEnvelopeSchema, gameReadyEnvelopeSchema,
    moveSubmitEnvelopeSchema, gameResignEnvelopeSchema, gameSyncEnvelopeSchema,
    heartbeatPingEnvelopeSchema, plainEnvelope, gameServerEnvelope, moveServerEnvelope,
    serverErrorEnvelopeSchema, clientEnvelope, serverEnvelope, ackSuccess; cbn [snd];
  z_known_object; reflexivity.

Lemma serverEnvelopeSchema_complete s :
  server_ok s -> serverEnvelopeSchema (json_of_server_event s) = Some s.
Proof.
  destruct s as [corr id p [m g v] t]. intros (Hc & Hid & Ht & (Hm & Hg & Hv & Hs) & Hp).
  cbn [se_correlationId se_eventId se_timestamp se_subject se_payload sj_clientMoveId sj_gameId
       sj_gameVersion] in *.
  apply payload_eval in Hp. unfold json_of_server_event.
  cbn [se_correlationId se_eventId se_timestamp se_subject se_payload sj_clientMoveId sj_gameId
       sj_gameVersion].
  destruct p; cbn [payloadSchema] in Hp; cbn [shape_ok] in Hs.
  all: lazymatch type of Hs with
       | True => destruct m, g, v
       | _ = no_subject => injection Hs as -> -> ->
       | exists m g v, _ => destruct Hs as (? & ? & ? & [= -> -> ->])
       | _ => destruct Hs as (? & ? & [= -> -> ->])
       end.
  all: destruct corr; cbn [opt_field app server_type if_any] in *; z_message.
Qed.

Lemma client_payload_eval c :
  client_ok c -> clientEnvelopeSchema (json_of_client_event c) = Some c.
Proof.
  destruct c as [corr e id t]. intros (Hc & Hid & Ht & He).
  cbn [ce_correlationId ce_eventId ce_timestamp ce_event] in *. unfold json_of_client_event.
  cbn [ce_correlationId ce_eventId ce_timestamp ce_event].
  assert (forall f p t', SQUARE f = true -> SQUARE t' = true ->
            movePayload (json_of_client_payload (MoveSubmit "" "" 0 f t' p)) = Some (f, p, t')).
  { intros f p t' Hf Ht'. unfold movePayload, json_of_client_payload.
    destruct p; cbn [opt_field app]; by z_known_object. }
  assert (forall v, if_any counts v ->
            heartbeatPayload (json_of_client_payload (HeartbeatPing v)) = Some v).
  { intros v Hv. unfold heartbeatPayload, json_of_client_payload.
    destruct v; cbn [opt_field app if_any] in *; by z_known_object. }
  destruct e as [| |g v|m g v f t' p|g v|[g|] [v|]|v]; cbn [client_event_ok] in He;
    repeat match goal with Hok : _ /\ _ |- _ => destruct Hok end;
    destruct corr; cbn [opt_field app client_type client_fields if_any] in *; z_message.
Qed.

Lemma realtimeAckSchema_complete ack : ack_ok ack -> realtimeAckSchema (json_of_ack ack) = Some ack.
Proof.
  unfold realtimeAckSchema. destruct ack as [id corr p version|id corr error type version].
  - intros (Hid & Hcorr & Hp%payload_eval & Hv & Hc).
    assert (ackSuccessSchema (json_of_ack (AckSuccess id corr p version)) =
              Some (AckSuccess id corr p version)) as ->; [|done].
    unfold json_of_ack. destruct p; try discriminate; cbn [payloadSchema] in Hp;
      destruct version; try discriminate; cbn [opt_field app server_type if_any] in *.
    all: z_message.
  - intros (Hid & Hcorr & He & Hv).
    assert (ackSuccessSchema (json_of_ack (AckFailure id corr error type version)) = None) as ->.
    { unfold json_of_ack, ackSuccessSchema, z_discriminated.
      destruct version, type; reflexivity. }
    unfold json_of_ack, ackFailureSchema.
    destruct version; cbn [opt_field app if_any] in *; z_known_object; reflexivity.
Qed.

(** ** What is read back at all is what was written *)

Definition same {A} (p : parser A) (f : A -> json) : Prop := forall a a', p (f a) = Some a' -> a' = a.

Lemma same_int lo : same (z_int_from lo) JNum.
Proof. intros n n'. simpl. destruct (_ && _); congruence. Qed.
Lemma same_string q : same (z_string_where q) JStr.
Proof. intros s s'. simpl. destruct (q s); congruence. Qed.
Lemma same_boolean : same z_boolean JBool.
Proof. intros v v'. simpl. congruence. Qed.
Lemma same_total {A} (p : parser A) f : (forall a, p (f a) = Some a) -> same p f.
Proof. intros Hp a a'. rewrite Hp. congruence. Qed.

Lemma same_nullable {A} (p : parser A) f :
  same p f -> (forall a, f a <> JNull) ->
  same (z_nullable p) (fun o => match o with None => JNull | Some a => f a end).
Proof.
  intros Hp Hf o o'. destruct o as [a|]; simpl; [|congruence].
  assert (z_nullable p (f a) = Some <$> p (f a)) as ->.
  { specialize (Hf a). by destruct (f a). }
  destruct (p (f a)) as [a1|] eqn:E; simpl; [|done]. apply Hp in E as ->. congruence.
Qed.

Lemma same_field {A B} fields key (p : parser A) f v (k : A -> option B) c :
  property fields key = Some (f v) -> same p f -> (z_field fields key p ≫= k) = Some c ->
  k v = Some c.
Proof.
  intros Hf Hp. unfold z_field. rewrite Hf. simpl. destruct (p (f v)) as [a|] eqn:E; [|done].
  by apply Hp in E as ->.
Qed.

Lemma same_fixed_field {B} fields key (p : parser ()) j (k : () -> option B) c :
  property fields key = Some j -> (z_field fields key p ≫= k) = Some c -> k () = Some c.
Proof. intros Hf. unfold z_field. rewrite Hf. simpl. by destruct (p j) as [[]|]. Qed.

Lemma same_literal_field {B} fields key s j (k : string -> option B) c :
  property fields key = Some j -> (z_field fields key (z_literal s) ≫= k) = Some c -> k s = Some c.
Proof.
  intros Hf. unfold z_field. rewrite Hf. simpl.
  destruct j as [| | |s'| |]; try done. simpl. case_bool_decide; [by subst|done].
Qed.

Lemma same_present {A B} fields key (p : parser A) f v (k : option A -> option B) c :
  property fields key = Some (f v) -> same p f -> (z_optional_field fields key p ≫= k) = Some c ->
  k (Some v) = Some c.
Proof.
  intros Hf Hp. unfold z_optional_field. rewrite Hf. simpl.
  destruct (p (f v)) as [a|] eqn:E; [|done]. simpl. by apply Hp in E as ->.
Qed.

Lemma same_absent {A B} fields key (p : parser A) (k : option A -> option B) c :
  property fields key = None -> (z_optional_field fields key p ≫= k) = Some c -> k None = Some c.
Proof. intros Hf. by rewrite z_optional_absent. Qed.

Lemma same_required {A B} fields key (p : parser A) f v (k : option A -> option B) c :
  property fields key = Some (f v) -> same p f -> ((Some <$> z_field fields key p) ≫= k) = Some c ->
  k (Some v) = Some c.
Proof.
  intros Hf Hp. unfold z_field. rewrite Hf. simpl.
  destruct (p (f v)) as [a|] eqn:E; [|done]. simpl. by apply Hp in E as ->.
Qed.

Lemma same_total_enum {A} `{ToString A} (p : parser A) :
  (forall a, p (JStr (toString a)) = Some a) -> same p (fun a => JStr (toString a)).
Proof. apply same_total. Qed.

Lemma same_enum_nullable {A} `{ToString A} (p : parser A) :
  (forall a, p (JStr (toString a)) = Some a) -> same (z_nullable p) json_of_enum.
Proof. intros Hp. apply same_total. intros v. by apply z_nullable_enum. Qed.

Lemma same_date : same z_int_nonnegative JNum.
Proof. apply same_int. Qed.
Lemma same_color : same colorSchema (fun a => JStr (toString a)).
Proof. apply same_total_enum, colorSchema_eval. Qed.
Lemma same_status : same gameStatusSchema (fun a => JStr (toString a)).
Proof. apply same_total_enum, gameStatusSchema_eval. Qed.
Lemma same_result : same resultSchema (fun a => JStr (toString a)).
Proof. apply same_total_enum, resultSchema_eval. Qed.
Lemma same_termination : same terminationSchema (fun a => JStr (toString a)).
Proof. apply same_total_enum, terminationSchema_eval. Qed.
Lemma same_nullable_color : same (z_nullable colorSchema) json_of_enum.
Proof. apply same_enum_nullable, colorSchema_eval. Qed.
Lemma same_nullable_result : same (z_nullable resultSchema) json_of_enum.
Proof. apply same_enum_nullable, resultSchema_eval. Qed.
Lemma same_nullable_termination : same (z_nullable terminationSchema) json_of_enum.
Proof. apply same_enum_nullable, terminationSchema_eval. Qed.
Lemma same_code : same (z_enum PROTOCOL_ERROR_CODES) (fun a => JStr (toString a)).
Proof. apply same_total_enum, errorCode_eval. Qed.
Lemma same_reason : same (z_enum allLeftReasons) (fun a => JStr (toString a)).
Proof. apply same_total_enum, leftReason_eval. Qed.
Lemma same_responseType : same (z_enum allResponseTypes) (fun a => JStr (toString a)).
Proof. apply same_total_enum, responseType_eval. Qed.
Lemma same_uuid_nullable :
  same (z_nullable z_uuidv4) (fun o => match o with None => JNull | Some s => JStr s end).
Proof. by apply same_nullable; [apply same_string|]. Qed.

Create HintDb readback.
Hint Resolve same_int same_string same_boolean same_color same_status same_result
  same_termination same_nullable_color same_nullable_result same_nullable_termination same_code
  same_reason same_responseType same_uuid_nullable : readback.
Hint Extern 1 (same z_uuidv4 _) => apply same_string : readback.
Hint Extern 1 (same (z_string_length _ _) _) => apply same_string : readback.
Hint Extern 1 (same z_int_nonnegative _) => apply same_int : readback.
Hint Extern 1 (same z_int_positive _) => apply same_int : readback.

Lemma bind_assoc {A B C} (m : option A) (f : A -> option B) (k : B -> option C) :
  ((m ≫= f) ≫= k) = (m ≫= fun a => f a ≫= k).
Proof. by destruct m. Qed.

(** Reads an object that was written from known values. *)
Ltac z_same_fields H :=
  repeat first
    [ rewrite bind_assoc in H; cbv beta in H
    | eapply same_literal_field in H; [|reflexivity]; cbv beta in H
    | eapply same_field in H; [| |solve [eauto with readback]]; [|reflexivity]; cbv beta in H
    | eapply same_present in H; [| |solve [eauto with readback]]; [|reflexivity]; cbv beta in H
    | eapply same_required in H; [| |solve [eauto with readback]]; [|reflexivity]; cbv beta in H
    | eapply same_absent in H; [|reflexivity]; cbv beta in H
    | rewrite some_bind in H; cbv beta in H
    | eapply same_fixed_field in H; [|reflexivity]; cbv beta in H ].

Ltac z_same H :=
  rewrite z_object_eval in H by reflexivity; z_same_fields H; injection H as <-; reflexivity.

Lemma same_move : same snapshotMoveSchema json_of_move.
Proof. intros m m' Hm. unfold snapshotMoveSchema, json_of_move in Hm. destruct m. z_same Hm. Qed.

Lemma same_moves : same (z_array snapshotMoveSchema) (fun l => JArr (map json_of_move l)).
Proof.
  intros l l'. cbn [z_array]. revert l'. induction l as [|m l IH]; intros l'; cbn [map z_items].
  - congruence.
  - intros (m' & ->%same_move & (l1 & ->%IH & [= <-])%bind_Some)%bind_Some. done.
Qed.

Lemma same_clocks : same clocksSchema json_of_clocks.
Proof.
  intros [b r [t|] w] c' Hc; unfold clocksSchema, json_of_clocks in Hc;
    cbn [sc_blackMs sc_running sc_serverTime sc_whiteMs json_of_date] in Hc; [z_same Hc|].
  rewrite z_object_eval in Hc by reflexivity. z_same_fields Hc. discriminate.
Qed.

Lemma same_player : same publicPlayerSchema json_of_player.
Proof. intros [] p' Hp. unfold publicPlayerSchema, json_of_player in Hp. z_same Hp. Qed.
Hint Resolve same_moves same_clocks same_player : readback.

Lemma same_snapshot : same gameSnapshotPayloadSchema json_of_payload.
Proof. intros [] p' Hp. unfold gameSnapshotPayloadSchema, json_of_payload in Hp. z_same Hp. Qed.

Lemma same_error : same protocolErrorSchema json_of_error.
Proof.
  intros [[v|] code message [r|] retryable] e' He; unfold protocolErrorSchema, json_of_error in He;
    cbn [opt_field app pe_authoritativeVersion pe_code pe_message pe_retryAfterMs pe_retryable] in He;
    z_same He.
Qed.

Lemma same_guest : same guestSchema json_of_guest.
Proof. intros [] g' Hg. unfold guestSchema, json_of_guest in Hg. z_same Hg. Qed.

Lemma same_fixed running j : same (fixedClocks running) (json_of_fixed_clocks j).
Proof. intros [] c' Hc. unfold fixedClocks, json_of_fixed_clocks in Hc. z_same Hc. Qed.

Lemma same_opponent :
  same opponentSchema (fun o => JObj [("avatar", JStr o.1); ("name", JStr o.2)]).
Proof. intros [] o' Ho. unfold opponentSchema in Ho. z_same Ho. Qed.

Lemma same_timeControl :
  same timeControlSchema (fun o => JObj [("incrementMs", JNum o.1); ("initialMs", JNum o.2)]).
Proof. intros [] o' Ho. unfold timeControlSchema in Ho. z_same Ho. Qed.
Hint Resolve same_snapshot same_error same_guest same_fixed same_opponent same_timeControl : readback.

Lemma same_server_payload p p' :
  payloadSchema p (json_of_server_payload p) = Some p' -> p' = p.
Proof.
  intros Hp. destruct p as [g guest|[pos|] since|reason|m|snap|clocks fen|m|e|color grace|color|e|n t|e];
    cbn [payloadSchema json_of_server_payload opt_field app] in Hp;
    unfold sessionReadyPayloadSchema, queueJoinedPayloadSchema, queueLeftPayloadSchema,
      matchFoundPayloadSchema, gameStartedPayloadSchema, moveAcceptedPayloadSchema,
      playerDisconnectedPayloadSchema, playerReconnectedPayloadSchema, gameEndedPayloadSchema,
      heartbeatPongPayloadSchema in Hp.
  all: try solve [destruct m; z_same Hp | destruct e; z_same Hp | z_same Hp].
  - destruct m as [c d a n i j]. rewrite z_object_eval in Hp by reflexivity. z_same_fields Hp.
    eapply (same_field _ _ _ _ (a, n)) in Hp; [| |exact same_opponent]; [|reflexivity].
    eapply (same_field _ _ _ _ (i, j)) in Hp; [| |exact same_timeControl]; [|reflexivity].
    by injection Hp as <-.
  - unfold snapshotPayload in Hp. by apply bind_Some in Hp as (s & ->%same_snapshot & [= <-]).
  - unfold errorPayload in Hp. by apply bind_Some in Hp as (s & ->%same_error & [= <-]).
  - unfold errorPayload in Hp. by apply bind_Some in Hp as (s & ->%same_error & [= <-]).
Qed.

Lemma same_payload_field {B} p fields (k : ServerPayload -> option B) c :
  property fields "payload" = Some (json_of_server_payload p) ->
  (z_field fields "payload" (payloadSchema p) ≫= k) = Some c -> k p = Some c.
Proof.
  intros Hf. unfold z_field. rewrite Hf. simpl.
  destruct (payloadSchema p _) as [p'|] eqn:E; [|done]. by apply same_server_payload in E as ->.
Qed.

(** Reads a message that was written, around its payload [p]. *)
Ltac z_same_message p H :=
  unfold clientEnvelopeSchema, serverEnvelopeSchema, ackSuccessSchema in H;
  erewrite z_discriminated_eval in H; [|reflexivity|reflexivity];
  unfold plainEnvelope, gameServerEnvelope, moveServerEnvelope,
    serverErrorEnvelopeSchema, serverEnvelope, ackSuccess in H; cbn [snd] in H;
  rewrite z_object_eval in H by reflexivity; z_same_fields H;
  eapply (same_payload_field p) in H; [|reflexivity]; cbv beta in H; z_same_fields H;
  injection H as <-; reflexivity.

Lemma same_server_event s s' :
  shape_ok (se_payload s) (se_subject s) ->
  serverEnvelopeSchema (json_of_server_event s) = Some s' -> s' = s.
Proof.
  destruct s as [corr id p [m g v] t]. intros Hs He. unfold json_of_server_event in He.
  cbn [se_correlationId se_eventId se_timestamp se_subject se_payload sj_clientMoveId sj_gameId
       sj_gameVersion] in *.
  destruct p; cbn [shape_ok] in Hs.
  all: lazymatch type of Hs with
       | True => destruct m, g, v
       | _ = no_subject => injection Hs as -> -> ->
       | exists m g v, _ => destruct Hs as (? & ? & ? & [= -> -> ->])
       | _ => destruct Hs as (? & ? & [= -> -> ->])
       end.
  all: destruct corr; cbn [opt_field app server_type] in He.
  all: lazymatch type of He with
       | context [json_of_server_payload ?p] => z_same_message p He
       end.
Qed.

Definition ack_shape_ok (ack : RealtimeAck) : Prop :=
  match ack with
  | AckSuccess _ _ payload gameVersion => versioned payload = Some (negb (isNull gameVersion))
  | AckFailure _ _ _ _ _ => True
  end.

Lemma same_ack ack ack' :
  ack_shape_ok ack -> realtimeAckSchema (json_of_ack ack) = Some ack' -> ack' = ack.
Proof.
  unfold realtimeAckSchema. destruct ack as [id corr p version|id corr error type version].
  - cbn [ack_shape_ok]. intros Hv Ha.
    destruct (ackSuccessSchema _) as [a|] eqn:E.
    + injection Ha as <-. unfold json_of_ack in E. destruct p; try discriminate;
        destruct version; try discriminate; cbn [opt_field app server_type] in E.
      all: lazymatch type of E with
           | context [json_of_server_payload ?p] => z_same_message p E
           end.
    + exfalso. revert Ha. unfold json_of_ack.
      destruct p; try discriminate; destruct version; discriminate.
  - intros _. assert (ackSuccessSchema (json_of_ack (AckFailure id corr error type version)) = None) as ->.
    { unfold json_of_ack, ackSuccessSchema, z_discriminated.
      destruct version, type; reflexivity. }
    intros Ha. unfold json_of_ack, ackFailureSchema in Ha.
    destruct version; cbn [opt_field app] in Ha; z_same Ha.
Qed.

(** ** Over the wire *)

Lemma plain_moves ms : forallb plain (map json_of_move ms) = true.
Proof. by induction ms. Qed.

Lemma plain_snapshot p : plain (json_of_payload p) = true.
Proof.
  destruct p as [clocks fen initial ms opponent [|] status [|] turn you], clocks as [? [] [] ?];
    simpl; by rewrite plain_moves.
Qed.

Lemma plain_error e : plain (json_of_error e) = true.
Proof. by destruct e as [[] ? ? [] ?]. Qed.

Lemma plain_server_payload p : plain (json_of_server_payload p) = true.
Proof.
  destruct p as [[]|[]|reason|m|snap|clocks fen|m|e|color grace|color|e|n t|e]; try done.
  - apply plain_snapshot.
  - by destruct m as [? [? [] [] ?]].
  - apply plain_error.
  - apply plain_error.
Qed.

Lemma plain_server_event s : plain (json_of_server_event s) = true.
Proof.
  unfold json_of_server_event.
  destruct s as [[] id p [[] [] []] t]; cbn -[json_of_server_payload server_type];
    rewrite plain_server_payload; reflexivity.
Qed.

Lemma plain_client_event c : plain (json_of_client_event c) = true.
Proof. by destruct c as [[] [| |g v|m g v f t' []|g v|[] []|[]] id t]. Qed.

Lemma plain_ack ack : plain (json_of_ack ack) = true.
Proof.
  destruct ack as [id corr p []|id corr e type []];
    cbn -[json_of_server_payload json_of_error server_type toString];
    rewrite ?plain_server_payload, ?plain_error; reflexivity.
Qed.

End Codec.

(** C28: The protocol is exact. For messages of clients, of the server, and
    acknowledgments alike: a message can be sent, as text, and is read back as it was,
    exactly when it is valid (its ids are UUIDs, its numbers are in range, its strings
    have the lengths the schema allows, and it is about a move and a game just if its type
    says so); and whatever text the schemas accept is a valid message. *)
Theorem messages_roundtrip `{Zod} `{ZodDatetime} `{JsonText} `{!JsonTextLaws} :
  (forall c, client_ok c <-> json_parse (stringify (json_of_client_event c)) ≫= clientEnvelopeSchema = Some c) /\
  (forall s, server_ok s <-> json_parse (stringify (json_of_server_event s)) ≫= serverEnvelopeSchema = Some s) /\
  (forall a, ack_ok a <-> json_parse (stringify (json_of_ack a)) ≫= realtimeAckSchema = Some a) /\
  (forall text c, json_parse text ≫= clientEnvelopeSchema = Some c -> client_ok c) /\
  (forall text s, json_parse text ≫= serverEnvelopeSchema = Some s -> server_ok s) /\
  (forall text a, json_parse text ≫= realtimeAckSchema = Some a -> ack_ok a).
Proof.
  split_and!.
  - intros c. rewrite parse_stringify by apply plain_client_event. rewrite some_bind. split.
    + apply client_payload_eval.
    + apply clientEnvelopeSchema_sound.
  - intros s. rewrite parse_stringify by apply plain_server_event. rewrite some_bind. split.
    + apply serverEnvelopeSchema_complete.
    + apply serverEnvelopeSchema_sound.
  - intros a. rewrite parse_stringify by apply plain_ack. rewrite some_bind. split.
    + apply realtimeAckSchema_complete.
    + apply realtimeAckSchema_sound.
  - intros text c (j & _ & Hj)%bind_Some. by eapply clientEnvelopeSchema_sound.
  - intros text s (j & _ & Hj)%bind_Some. by eapply serverEnvelopeSchema_sound.
  - intros text a (j & _ & Hj)%bind_Some. by eapply realtimeAckSchema_sound.
Qed.

(** A resignation, and the acknowledgment of it. *)
Definition sample_event : ClientEventEnvelope :=
  mkClientEnvelope None (GameResign "game" 3) "5f0c0f5e-8a43-4f0e-9d7e-2d2f4f6f8a10" 1000.

Lemma messages_roundtrip_witness :
  let zod : Zod := {| zod_uuidv4 s := negb (String.eqb s "") |} in
  let datetime : ZodDatetime := {| zod_datetime s := negb (String.eqb s "") |} in
  client_ok sample_event /\
  json_parse (stringify (json_of_client_event sample_event)) ≫= clientEnvelopeSchema = Some sample_event.
Proof.
  intros zod datetime. destruct messages_roundtrip as (Hc & _).
  assert (client_ok sample_event) as Hok by (vm_compute; repeat split; discriminate).
  split; [exact Hok|]. by apply (Hc sample_event).
Defined.
End Codec.
