(* ===== verification/RealtimeProtocol.v ===== *)
(** * The protocol service

    [realtime-protocol.service.ts]: checking what clients send, and making what is sent to
    them. An error that is thrown by zod is a plain error. *)

From S2P Require Export ProtocolCodec.
From Stdlib Require Import Ascii.
Local Open Scope string_scope.
Local Open Scope list_scope.
Local Open Scope Z_scope.

Module RealtimeProtocol.
Import Protocol Codec.

Definition UUID_V4 (s : string) : bool := matches (uuid_classes (is_char "4"%char)) (chars s).

(** [ServerEventDraft], without its type, which is that of the payload. *)
Record ServerEventDraft : Type := mkDraft {
  dr_correlationId : option string;
  dr_payload : ServerPayload;
  dr_subject : Subject
}.

Definition draft (payload : ServerPayload) : ServerEventDraft := mkDraft None payload no_subject.

Section Service.
Context `{Zod} `{ZodDatetime} `{JsonText} `{Redis}.
Context (maxPayloadBytes : Z).

Definition refused (code : ProtocolErrorCode) (message : string) : fault :=
  ERealtime (realtimeError code message false).

Definition isSupportedClientEvent (value : string) : bool := includes CLIENT_EVENT_NAMES value.

(** [undefined] cannot be encoded. *)
Definition encodedSize (value : option json) : result fault Z :=
  match value with
  | None => Err (refused PE_INVALID_PAYLOAD "Socket event payload is invalid")
  | Some value => Ok (Z.of_nat (String.length (stringify value)))
  end.

(** The value of a key, if the value is an object that has it. *)
Definition key_of (value : json) (key : string) : option json :=
  match value with JObj fields => property fields key | _ => None end.

Definition is_version (value : json) : bool := negb (isNull (z_number_literal PROTOCOL_VERSION value)).
Definition is_text (s : string) (value : json) : bool := negb (isNull (z_literal s value)).

Definition parseClientEvent (eventName : string) (rawEnvelope : option json)
    : result fault ClientEventEnvelope :=
  if negb (isSupportedClientEvent eventName)
  then Err (refused PE_UNSUPPORTED_EVENT "Socket event is not supported") else
  size ← encodedSize rawEnvelope;
  if maxPayloadBytes <? size
  then Err (refused PE_INVALID_PAYLOAD "Socket event exceeds the payload limit") else
  match rawEnvelope with
  | None => Err (refused PE_INVALID_PAYLOAD "Socket event payload is invalid")
  | Some raw =>
      if match key_of raw "protocolVersion" with Some v => negb (is_version v) | None => false end
      then Err (refused PE_UNSUPPORTED_PROTOCOL_VERSION "Socket protocol version is not supported")
      else
      if match key_of raw "type" with Some v => negb (is_text eventName v) | None => false end
      then Err (refused PE_INVALID_PAYLOAD "Socket event name and envelope type must match") else
      match clientEnvelopeSchema raw with
      | Some event => Ok event
      | None => Err (refused PE_INVALID_PAYLOAD "Socket event payload is invalid")
      end
  end.

(** [schema.parse(..)] throws when the schema does not accept. *)
Definition parsed {A} (schema : parser A) (value : json) : result fault A :=
  match schema value with Some a => Ok a | None => Err (EApp EOther) end.

Definition stamped (d : ServerEventDraft) (eventId : string) (timestamp : Z) : ServerEventEnvelope :=
  mkServerEnvelope (dr_correlationId d) eventId (dr_payload d) (dr_subject d) timestamp.

Definition createServerEvent (d : ServerEventDraft) : Prog ServerEventEnvelope :=
  eventId ← randomUUID;
  timestamp ← clock;
  lift (parsed serverEnvelopeSchema (json_of_server_event (stamped d eventId timestamp))).

Definition createSuccessAck (requestEventId correlationId : string) (payload : ServerPayload)
    (gameVersion : option Z) : result fault RealtimeAck :=
  parsed realtimeAckSchema (json_of_ack (AckSuccess requestEventId correlationId payload gameVersion)).

Definition createFailureAck (requestEventId correlationId : string) (error : ProtocolErrorPayload)
    (type : ResponseType) (gameVersion : option Z) : result fault RealtimeAck :=
  parsed realtimeAckSchema (json_of_ack (AckFailure requestEventId correlationId error type gameVersion)).

Definition correlationId (value : option json) : Prog string :=
  match value with
  | Some (JStr s) => if UUID_V4 s then mret (toLower s) else randomUUID
  | _ => randomUUID
  end.

Definition requestEventId (rawEnvelope : option json) : Prog string :=
  match rawEnvelope ≫= fun raw => key_of raw "eventId" with
  | Some (JStr s) => if UUID_V4 s then mret (toLower s) else randomUUID
  | _ => randomUUID
  end.

End Service.

(** ** What is accepted, and why not *)

Section Facts.
Context `{Zod} `{ZodDatetime} `{JsonText}.

Lemma clientEnvelope_type type keys body :
  (forall f e, body f = Some e -> client_type e = type) ->
  accepts (clientEnvelope type keys body).2 (fun c => client_type (ce_event c) = type).
Proof.
  intros Hb. apply accepts_object. intros f c Hf.
  apply bind_Some in Hf as (? & _ & Hf). apply bind_Some in Hf as (? & _ & Hf).
  apply bind_Some in Hf as (? & _ & Hf). apply bind_Some in Hf as (? & _ & Hf).
  apply bind_Some in Hf as (ev & Hev%Hb & Hf). apply bind_Some in Hf as (? & _ & Hf).
  by injection Hf as <-.
Qed.

(** The event is of the type the envelope names. *)
Lemma clientEnvelopeSchema_type j e :
  clientEnvelopeSchema j = Some e -> key_of j "type" = Some (JStr (client_type (ce_event e))).
Proof.
  intros (fields & c & -> & Hp & Hc & Hj)%z_discriminated_inv. simpl. rewrite Hp. do 2 f_equal.
  symmetry. revert Hj. clear Hp. generalize (JObj fields) as j. intros j Hj.
  repeat apply elem_of_cons in Hc as [->|Hc]; [..|by apply not_elem_of_nil in Hc].
  all: refine (clientEnvelope_type _ _ _ _ _ _ Hj); intros f ev Hf; z_fields Hf; done.
Qed.

Lemma clientEnvelope_version type keys body j e :
  (clientEnvelope type keys body).2 j = Some e ->
  key_of j "protocolVersion" = Some (JNum PROTOCOL_VERSION).
Proof.
  unfold clientEnvelope, z_object. cbn [snd]. destruct j as [| | | | |fields]; try done.
  case_match; [|done]. intros (? & _ & Hj)%bind_Some. apply bind_Some in Hj as (? & _ & Hj).
  apply bind_Some in Hj as (u & Hu & _). unfold z_field in Hu. unfold key_of.
  destruct (property fields "protocolVersion") as [[| |n| | |]|]; try discriminate.
  simpl in Hu. destruct (Z.eqb_spec n PROTOCOL_VERSION); [by subst|done].
Qed.

Lemma clientEnvelopeSchema_version j e :
  clientEnvelopeSchema j = Some e ->
  key_of j "protocolVersion" = Some (JNum PROTOCOL_VERSION).
Proof.
  intros (fields & c & _ & _ & Hc & Hj)%z_discriminated_inv.
  repeat apply elem_of_cons in Hc as [->|Hc]; [..|by apply not_elem_of_nil in Hc].
  all: exact (clientEnvelope_version _ _ _ _ _ Hj).
Qed.

Lemma is_version_true v : is_version v = true <-> v = JNum PROTOCOL_VERSION.
Proof.
  unfold is_version, z_number_literal. destruct v as [| |n| | |]; simpl; try (by split).
  destruct (Z.eqb_spec n PROTOCOL_VERSION); split; simpl; intros; simplify_eq; done.
Qed.

Lemma is_text_true s v : is_text s v = true <-> v = JStr s.
Proof.
  unfold is_text, z_literal, z_string_where. destruct v as [| | |u| |]; simpl; try (by split).
  case_bool_decide; split; simpl; intros; simplify_eq; done.
Qed.

Definition size_of (j : json) : Z := Z.of_nat (String.length (stringify j)).

Lemma client_type_supported e : client_type e ∈ CLIENT_EVENT_NAMES.
Proof. apply includes_true. by destruct e. Qed.

Lemma parseClientEvent_Ok max name raw e :
  parseClientEvent max name raw = Ok e <->
  exists j, raw = Some j /\ size_of j <= max /\ clientEnvelopeSchema j = Some e /\
    client_type (ce_event e) = name.
Proof.
  unfold parseClientEvent, isSupportedClientEvent. split.
  - destruct (includes CLIENT_EVENT_NAMES name); [|done]. simpl.
    destruct raw as [j|]; [|done]. simpl. destruct (Z.ltb_spec max (Z.of_nat (String.length (stringify j)))); [done|].
    destruct (match key_of j "protocolVersion" with Some v => _ | None => _ end); [done|].
    destruct (match key_of j "type" with Some v => _ | None => _ end) eqn:Et; [done|].
    destruct (clientEnvelopeSchema j) as [e'|] eqn:E; [|done]. intros [= ->].
    exists j. split_and!; try done. rewrite (clientEnvelopeSchema_type _ _ E) in Et.
    apply negb_false_iff, is_text_true in Et. by injection Et.
  - intros (j & -> & Hsize & Hj & <-).
    rewrite (proj2 (includes_true _ _) (client_type_supported _)). simpl.
    rewrite (proj2 (Z.ltb_ge _ (Z.of_nat _)) Hsize).
    rewrite (clientEnvelopeSchema_version _ _ Hj), (clientEnvelopeSchema_type _ _ Hj).
    rewrite (proj2 (is_version_true _) eq_refl), (proj2 (is_text_true _ _) eq_refl). simpl.
    by rewrite Hj.
Qed.

(** Whatever a client may send is accepted, if it is not too long. *)
Lemma parseClientEvent_valid max c :
  client_ok c -> size_of (json_of_client_event c) <= max ->
  parseClientEvent max (client_type (ce_event c)) (Some (json_of_client_event c)) = Ok c.
Proof.
  intros Hc Hs. apply parseClientEvent_Ok. eexists. split_and!; try done.
  by apply client_payload_eval.
Qed.

(** C30: which messages of clients are refused, and how. One is accepted exactly when its
    text is short enough, it is a valid message, and of the type of the event it was sent
    as. Otherwise the error is not retryable, and it is UNSUPPORTED_EVENT just if there is
    no such event, UNSUPPORTED_PROTOCOL_VERSION just if the message is short enough and
    names another version, and INVALID_PAYLOAD in all other cases. *)
Theorem parseClientEvent_classification max name raw :
  match parseClientEvent max name raw with
  | Ok e => exists j, raw = Some j /\ size_of j <= max /\ clientEnvelopeSchema j = Some e /\
      client_type (ce_event e) = name /\ client_ok e
  | Err error => exists code message, error = ERealtime (realtimeError code message false) /\
      (forall j e, raw = Some j -> size_of j <= max -> clientEnvelopeSchema j = Some e ->
         client_type (ce_event e) <> name) /\
      (code = PE_UNSUPPORTED_EVENT <-> name ∉ CLIENT_EVENT_NAMES) /\
      (code = PE_UNSUPPORTED_PROTOCOL_VERSION <->
         name ∈ CLIENT_EVENT_NAMES /\ exists j v, raw = Some j /\ size_of j <= max /\
           key_of j "protocolVersion" = Some v /\ v <> JNum PROTOCOL_VERSION) /\
      (code = PE_UNSUPPORTED_EVENT \/ code = PE_UNSUPPORTED_PROTOCOL_VERSION \/ code = PE_INVALID_PAYLOAD)
  end.
Proof.
  destruct (parseClientEvent max name raw) as [e|error] eqn:Hp.
  - apply parseClientEvent_Ok in Hp as (j & -> & Hs & Hj & Hty). exists j.
    split_and!; try done. by eapply clientEnvelopeSchema_sound.
  - assert (forall j e, raw = Some j -> size_of j <= max -> clientEnvelopeSchema j = Some e ->
              client_type (ce_event e) <> name) as Hno.
    { intros j e Hraw Hs Hj Hty. assert (parseClientEvent max name raw = Ok e); [|congruence].
      apply parseClientEvent_Ok. eauto. }
    unfold parseClientEvent, isSupportedClientEvent in Hp.
    destruct (includes CLIENT_EVENT_NAMES name) eqn:Ein; simpl in Hp; js_bool;
      [|injection Hp as <-; do 2 eexists; split_and!; [done..| |by left]; split; [done|naive_solver]].
    destruct raw as [j|]; simpl in Hp;
      [|injection Hp as <-; do 2 eexists; split_and!; [done..| |by auto];
        split; [done|intros (_ & j & v & ? & _); done]].
    change (Z.of_nat (String.length (stringify j))) with (size_of j) in Hp.
    destruct (Z.ltb_spec max (size_of j)) as [Hs|Hs];
      [injection Hp as <-; do 2 eexists; split_and!; [done..| |by auto];
       split; [done|intros (_ & j' & v & [= <-] & ? & _); lia]|].
    destruct (key_of j "protocolVersion") as [v|] eqn:Ev.
    + destruct (is_version v) eqn:Eis; simpl in Hp.
      * apply is_version_true in Eis as ->.
        repeat case_match; simplify_eq; do 2 eexists; split_and!; try done; try (by auto);
          (split; [done|intros (_ & j' & v & [= <-] & _ & Hv & ?); congruence]).
      * injection Hp as <-. do 2 eexists. split_and!; [done..| |by auto].
        split; [intros _|done]. split; [done|]. exists j, v. split_and!; try done.
        intros ->. by rewrite (proj2 (is_version_true _)) in Eis.
    + repeat case_match; simplify_eq; do 2 eexists; split_and!; try done; try (by auto);
        (split; [done|intros (_ & j' & v & [= <-] & _ & Hv & ?); congruence]).
Qed.

(** ** What is sent is valid, and is what was asked for *)

Lemma parsed_ack ack :
  ack_shape_ok ack ->
  (forall a, parsed realtimeAckSchema (json_of_ack ack) = Ok a <-> a = ack /\ ack_ok ack).
Proof.
  intros Hs a. unfold parsed. split.
  - destruct (realtimeAckSchema (json_of_ack ack)) as [a'|] eqn:E; [|done]. intros [= ->].
    pose proof (same_ack _ _ Hs E) as ->. split; [done|]. by eapply realtimeAckSchema_sound.
  - intros [-> Hok]. by rewrite realtimeAckSchema_complete.
Qed.

Lemma createSuccessAck_Ok id corr p version a :
  versioned p = Some (negb (isNull version)) ->
  createSuccessAck id corr p version = Ok a <->
  a = AckSuccess id corr p version /\ ack_ok (AckSuccess id corr p version).
Proof. intros Hv. by apply parsed_ack. Qed.

Lemma createFailureAck_Ok id corr e type version a :
  createFailureAck id corr e type version = Ok a <->
  a = AckFailure id corr e type version /\ ack_ok (AckFailure id corr e type version).
Proof. by apply parsed_ack. Qed.

(** A message that was made. *)
Definition made (d : ServerEventDraft) (s : ServerEventEnvelope) : Prop :=
  server_ok s /\ se_payload s = dr_payload d /\ se_subject s = dr_subject d /\
  se_correlationId s = dr_correlationId d.

Context `{Redis}.

Lemma createServerEvent_made d :
  shape_ok (dr_payload d) (dr_subject d) -> returns (made d) (createServerEvent d).
Proof.
  intros Hs. apply (returns_bind (fun _ => True)); [apply returns_any|]. intros id _.
  apply (returns_bind (fun _ => True)); [apply returns_any|]. intros t _.
  unfold parsed. destruct (serverEnvelopeSchema _) as [s|] eqn:E; [|done]. simpl.
  pose proof (same_server_event (stamped d id t) s Hs E) as ->. unfold made.
  split; [by eapply serverEnvelopeSchema_sound|done].
Qed.

(** What a call finds out is usable. *)
Definition fresh (x : Ext) : Prop :=
  uuid (x_uuids x).1 /\ counts (x_now x).

Lemma createServerEvent_steady d x w :
  fresh x -> if_any uuid (dr_correlationId d) -> subject_ok (dr_payload d) (dr_subject d) ->
  server_payload_ok (dr_payload d) ->
  steady x (createServerEvent d) w = (Ok (stamped d (x_uuids x).1 (x_now x)), w).
Proof.
  intros [Hid Ht] Hc Hs Hp. unfold createServerEvent, randomUUID, clock.
  rewrite (steady_bind x (perform _)), (steady_perform x), (steady_bind x (perform _)), (steady_perform x).
  unfold parsed. by rewrite serverEnvelopeSchema_complete.
Qed.
End Facts.
End RealtimeProtocol.
