(* ===== verification/RateLimits.v ===== *)
(** * Rate limits

    [realtime-rate-limit.service.ts], [session-rate-limit.service.ts] and
    [recovery-rate-limit.service.ts]: a counter per caller, kept in Redis, that starts
    anew when its key expires. The three share their script. *)

From S2P Require Export RealtimeProtocol SessionServices.
From Stdlib Require Import DecimalString DecimalZ.
Local Open Scope string_scope.
Local Open Scope list_scope.
Local Open Scope Z_scope.

(** ** Counters *)

(** The commands of counters: [INCR], and [PTTL], which asks how long a key has left. *)
Class RedisCounters `{Redis} : Type := {
  INCR : string -> Keyspace -> Z * Keyspace;
  PTTL : Keyspace -> string -> Z
}.

Definition decimal (n : Z) : string := NilZero.string_of_int (Z.to_int n).

(** What a key holds that is a counter. *)
Definition counter (n : Z) (px : option positive) : Entry :=
  mkEntry (Some (decimal n)) ∅ ∅ px.

Definition counts_to (n : Z) (e : Entry) : Prop :=
  (n = 0 /\ e = no_entry) \/ exists px, e = counter n px.

(** What the documentation says: a key that is not there counts as 0, and counting does
    not change the time to live; integers have 64 bits. *)
Class RedisCountersLaws `{RedisCounters} : Prop := {
  INCR_reply k n r :
    counts_to n (entry r k) -> n < 2 ^ 63 - 1 -> (INCR k r).1 = n + 1;
  INCR_entry k n r :
    counts_to n (entry r k) -> n < 2 ^ 63 - 1 ->
    entry (INCR k r).2 k = counter (n + 1) (en_px (entry r k));
  INCR_other k r k' : k' <> k -> entry (INCR k r).2 k' = entry r k';
  PTTL_expiring k px r :
    bare (entry r k) = false -> en_px (entry r k) = Some px -> 0 <= PTTL r k <= Zpos px
}.

Module RateLimits.

Section Limits.
Context `{RedisCounters}.

Definition count_request_lua (key : string) (windowMs : positive) : lua (Z * Z) :=
  count ← INCR key;
  _ ← (if count =? 1 then call (PEXPIRE key windowMs) else mret ());
  ttl ← ask (fun r => PTTL r key);
  mret (count, ttl).

Definition count_request (key : string) (windowMs : positive) : Prog (Z * Z) :=
  command (fun _ => count_request_lua key windowMs).

(** ** realtime-rate-limit.service.ts *)

Inductive Scope : Type := ScopeMove | ScopeQueue | ScopeSync.

#[export] Instance Scope_toString : ToString Scope := fun s =>
  match s with ScopeMove => "move" | ScopeQueue => "queue" | ScopeSync => "sync" end.

Record RateLimit : Type := mkRateLimit { rl_limit : positive; rl_windowMs : positive }.

Record RateLimitConfig : Type := mkRateLimitConfig {
  RL_QUEUE : RateLimit;
  RL_MOVE : RateLimit;
  RL_SYNC : RateLimit;
  RL_SESSION_CREATE : RateLimit;
  RL_SESSION_GET : RateLimit;
  RL_SESSION_RENEW : RateLimit;
  RL_SESSION_RESET : RateLimit
}.

Context (limits : RateLimitConfig).

Definition scope_of (event : Protocol.ClientEvent) : Scope :=
  match event with
  | Protocol.GameReady _ _ | Protocol.GameSync _ _ | Protocol.HeartbeatPing _ => ScopeSync
  | Protocol.GameResign _ _ | Protocol.MoveSubmit _ _ _ _ _ _ => ScopeMove
  | Protocol.QueueJoin | Protocol.QueueLeave => ScopeQueue
  end.

Definition policy_of (scope : Scope) : RateLimit :=
  match scope with
  | ScopeMove => RL_MOVE limits
  | ScopeQueue => RL_QUEUE limits
  | ScopeSync => RL_SYNC limits
  end.

Definition realtimeRateKey (scope : Scope) (guestSessionId : string) : string :=
  "rl:" +:+ toString scope +:+ ":" +:+ guestSessionId.

(** Redis that does not answer lets everybody pass. *)
Definition consume (event : Protocol.ClientEvent) (guestSessionId : string) : Prog () :=
  let scope := scope_of event in
  let policy := policy_of scope in
  catch
    ('(count, ttl) ← count_request (realtimeRateKey scope guestSessionId) (rl_windowMs policy);
     if Zpos (rl_limit policy) <? count then
       Throw (ERealtime (mkRealtimeError PE_RATE_LIMITED "Socket command rate limit exceeded" true
                           None None None (Some (Z.max 1 ttl))))
     else mret ())
    (fun error => match error with ERealtime _ => Throw error | _ => mret () end).

(** ** session-rate-limit.service.ts *)

Inductive SessionRateLimitPolicy : Type := RateCreate | RateGet | RateRenew | RateReset.

#[export] Instance SessionRateLimitPolicy_toString : ToString SessionRateLimitPolicy := fun p =>
  match p with
  | RateCreate => "create" | RateGet => "get" | RateRenew => "renew" | RateReset => "reset"
  end.

Definition session_policy (policy : SessionRateLimitPolicy) : RateLimit :=
  match policy with
  | RateCreate => RL_SESSION_CREATE limits
  | RateGet => RL_SESSION_GET limits
  | RateRenew => RL_SESSION_RENEW limits
  | RateReset => RL_SESSION_RESET limits
  end.

Context `{NodeHash}.

Definition sessionRateKey (policy : SessionRateLimitPolicy) (identifier : string) : string :=
  "rl:session:" +:+ toString policy +:+ ":" +:+ sha256_hex identifier.

(** Here nobody passes when Redis does not answer. *)
Definition consume_session (policy : SessionRateLimitPolicy) (identifier : string) : Prog () :=
  let configuration := session_policy policy in
  catch
    ('(count, ttl) ← count_request (sessionRateKey policy identifier) (rl_windowMs configuration);
     if Zpos (rl_limit configuration) <? count then
       Throw (ESession SE_RATE_LIMITED true (Some (Z.max 1 ttl)))
     else mret ())
    (fun error => match error with
                  | ESession _ _ _ => Throw error
                  | _ => Throw (ESession SE_SERVICE_UNAVAILABLE true None)
                  end).

(** ** recovery-rate-limit.service.ts *)

Inductive RecoveryPolicy : Type := RateActive | RateSnapshot.

#[export] Instance RecoveryPolicy_toString : ToString RecoveryPolicy := fun p =>
  match p with RateActive => "active" | RateSnapshot => "snapshot" end.

Definition recovery_policy (policy : RecoveryPolicy) : RateLimit :=
  match policy with RateActive => RL_SESSION_GET limits | RateSnapshot => RL_SYNC limits end.

Definition recoveryRateKey (policy : RecoveryPolicy) (guestSessionId : string) : string :=
  "rl:recovery:" +:+ toString policy +:+ ":" +:+ sha256_hex guestSessionId.

Definition consume_recovery (policy : RecoveryPolicy) (guestSessionId : string) : Prog () :=
  let configuration := recovery_policy policy in
  catch
    ('(count, ttl) ← count_request (recoveryRateKey policy guestSessionId) (rl_windowMs configuration);
     if Zpos (rl_limit configuration) <? count then
       Throw (ERecovery RE_RATE_LIMITED true (Some (Z.max 1 ttl)))
     else mret ())
    (fun error => match error with ERecovery _ _ _ => Throw error | _ => mret () end).

End Limits.

(** ** What a window lets pass *)

(** What a service of a rate limit does with a request, at a moment. *)
#[local] Notation service := (Ext -> World -> result fault () * World).

Section Counting.
Context `{Redis, !RedisLaws, !RedisCounters, !RedisCountersLaws}.

Definition most : Z := 2 ^ 63 - 1.

Lemma count_request_counts key n windowMs r :
  counts_to n (entry r key) -> 0 <= n < most ->
  exists r', count_request_lua key windowMs r = ((n + 1, PTTL r' key), r') /\
    entry r' key = counter (n + 1) (if n =? 0 then Some windowMs else en_px (entry r key)) /\
    forall k, k <> key -> entry r' k = entry r k.
Proof.
  intros Hn [Hpos Hmost]. unfold count_request_lua, call, ask, mbind, lua_bind, mret, lua_ret.
  pose proof (INCR_reply key n r Hn Hmost) as Hreply.
  pose proof (INCR_entry key n r Hn Hmost) as Hentry.
  pose proof (INCR_other key r) as Hother.
  destruct (INCR key r) as [c r1]. simpl in *. subst c.
  replace (n + 1 =? 1) with (n =? 0) by (destruct (Z.eqb_spec n 0), (Z.eqb_spec (n + 1) 1); lia || done).
  destruct (n =? 0) eqn:E; eexists; (split; [done|]).
  - split; [|intros k Hk]; rewrite entry_PEXPIRE; [|by rewrite decide_False, Hother].
    rewrite decide_True by done. by rewrite Hentry.
  - split; [done|]. intros k Hk. by apply Hother.
Qed.

(** Redis answered; and whether it ran the script, answered or not. *)
Definition answered (x : Ext) : bool :=
  ln_connected (x_link x) && match ln_first (x_link x) with Replied => true | _ => false end.
Definition ran_at (x : Ext) : bool :=
  ln_connected (x_link x) &&
  match ln_first (x_link x) with Replied | Failed true => true | NoScript | Failed false => false end.

(** A service that counts the requests of one key, lets the first ones pass and refuses
    the others with the time after which to try again, and gives the answer [silent] when
    Redis gave none. *)
Record gate (serve : service) (key : string) (limit windowMs : positive)
    (refuse : Z -> fault) (silent : result fault ()) : Prop := {
  gate_answered x w n : answered x = true -> counts_to n (entry (w_redis w) key) -> 0 <= n < most ->
    (0 < n -> en_px (entry (w_redis w) key) = Some windowMs) ->
    if n <? Zpos limit then (serve x w).1 = Ok ()
    else exists retryAfterMs, 1 <= retryAfterMs <= Zpos windowMs /\ (serve x w).1 = Err (refuse retryAfterMs);
  gate_counts x w n : ran_at x = true -> counts_to n (entry (w_redis w) key) -> 0 <= n < most ->
    entry (w_redis (serve x w).2) key =
      counter (n + 1) (if n =? 0 then Some windowMs else en_px (entry (w_redis w) key));
  gate_idle x w : ran_at x = false -> (serve x w).2 = w;
  gate_silent x w : answered x = false -> (serve x w).1 = silent
}.

(** A window: requests, of which some are counted, some pass, and some have no answer of
    Redis, and between them anything that leaves the counter alone. *)
Record Window : Type := mkWindow {
  counted : nat;
  passed : nat;
  unanswered : nat;
  world_of : World
}.

Definition next (b : bool) (n : nat) : nat := if b then S n else n.

Definition served (serve : service) (x : Ext) (s : Window) : Window :=
  mkWindow (next (ran_at x) (counted s)) (next (is_ok (serve x (world_of s)).1) (passed s))
    (next (negb (answered x)) (unanswered s)) (serve x (world_of s)).2.

Definition opened (w : World) : Window := mkWindow 0 0 0 w.

Inductive window_step (serve : service) (key : string) : Window -> Window -> Prop :=
| W_request x s : window_step serve key s (served serve x s)
| W_other s w :
    entry (w_redis w) key = entry (w_redis (world_of s)) key ->
    window_step serve key s (mkWindow (counted s) (passed s) (unanswered s) w).

(** The requests that pass are the first ones, up to those that had no answer. *)
Definition passes (limit : positive) (silent : result fault ()) (s : Window) : Prop :=
  let first := Nat.min (counted s) (Pos.to_nat limit) in
  if is_ok silent then (first <= passed s <= first + unanswered s)%nat
  else (passed s <= first <= passed s + unanswered s)%nat.

Definition in_window (key : string) (limit windowMs : positive) (silent : result fault ())
    (s : Window) : Prop :=
  let e := entry (w_redis (world_of s)) key in
  counts_to (Z.of_nat (counted s)) e /\ passes limit silent s /\
  ((0 < counted s)%nat -> en_px e = Some windowMs).

Lemma answered_ran x : answered x = true -> ran_at x = true.
Proof.
  unfold answered, ran_at. destruct (ln_connected _); simpl; [|done]. by destruct (ln_first _).
Qed.

Lemma window_kept serve key limit windowMs refuse silent s s' :
  gate serve key limit windowMs refuse silent ->
  in_window key limit windowMs silent s -> window_step serve key s s' ->
  Z.of_nat (counted s') <= most -> in_window key limit windowMs silent s'.
Proof.
  intros Hg (Hc & Hp & Hpx) Hst Hmost.
  destruct Hst as [x s|s v He]; unfold in_window in *; simpl in *; [|by rewrite He].
  assert (ran_at x = true -> 0 <= Z.of_nat (counted s) < most) as Hrange
    by (intros Hx; rewrite Hx in Hmost; simpl in Hmost; lia).
  split_and!.
  - destruct (ran_at x) eqn:Er; simpl; [|by rewrite (gate_idle _ _ _ _ _ _ Hg x _ Er)].
    right. eexists. rewrite (gate_counts _ _ _ _ _ _ Hg x _ _ Er Hc) by auto. by rewrite Nat2Z.inj_succ.
  - clear Hmost. unfold passes in *. cbn [counted passed unanswered next negb is_ok served]. destruct (answered x) eqn:Ea.
    + pose proof (answered_ran x Ea) as Er. rewrite Er. cbn [counted passed unanswered next negb is_ok served].
      pose proof (gate_answered _ _ _ _ _ _ Hg x _ _ Ea Hc (Hrange Er)) as Hans.
      specialize (Hans ltac:(intros Hpos; apply Hpx; lia)).
      destruct (Z.ltb_spec (Z.of_nat (counted s)) (Zpos limit)) as [Hl|Hl].
      * rewrite Hans. cbn [counted passed unanswered next negb is_ok served]. destruct (is_ok silent); lia.
      * destruct Hans as (retry & _ & ->). cbn [counted passed unanswered next negb is_ok served]. destruct (is_ok silent); lia.
    + rewrite (gate_silent _ _ _ _ _ _ Hg x _ Ea). cbn [counted passed unanswered next negb is_ok served].
      destruct (is_ok silent), (ran_at x); cbn [next]; lia.
  - destruct (ran_at x) eqn:Er; simpl; [|by rewrite (gate_idle _ _ _ _ _ _ Hg x _ Er)].
    intros _. rewrite (gate_counts _ _ _ _ _ _ Hg x _ _ Er Hc) by auto. simpl.
    destruct (Z.eqb_spec (Z.of_nat (counted s)) 0); [done|]. apply Hpx. lia.
Qed.

Lemma window_grows serve key s s' : window_step serve key s s' -> (counted s <= counted s')%nat.
Proof. intros Hst. destruct Hst as [x s|s v He]; simpl; [destruct (ran_at x)|]; simpl; lia. Qed.

Lemma window_holds serve key limit windowMs refuse silent w0 s :
  gate serve key limit windowMs refuse silent -> entry (w_redis w0) key = no_entry ->
  rtc (window_step serve key) (opened w0) s -> Z.of_nat (counted s) <= most ->
  in_window key limit windowMs silent s.
Proof.
  intros Hg Habsent. revert s.
  apply (rtc_ind_r (fun s => Z.of_nat (counted s) <= most -> in_window key limit windowMs silent s)).
  - intros _. split_and!; [by left| |simpl; lia]. unfold passes. simpl. destruct (is_ok silent); lia.
  - intros s s' Hs Hst IH Hmost. eapply window_kept; try done. apply IH.
    pose proof (window_grows _ _ _ _ Hst). lia.
Qed.

(** *** The three services are gates *)

(** Their common shape. *)
Definition limited (key : string) (policy : RateLimit) (refuse : Z -> fault)
    (recover : fault -> Prog ()) : Prog () :=
  catch
    ('(count, ttl) ← count_request key (rl_windowMs policy);
     if Zpos (rl_limit policy) <? count then Throw (refuse (Z.max 1 ttl)) else mret ())
    recover.

Lemma limited_gate key policy refuse recover silent :
  (forall retry, recover (refuse retry) = Throw (refuse retry)) ->
  recover ERedis = lift silent ->
  gate (fun x w => steady x (limited key policy refuse recover) w) key (rl_limit policy)
    (rl_windowMs policy) refuse silent.
Proof.
  intros Hrefuse Hrecover. destruct policy as [limit windowMs]. unfold limited. cbn [rl_limit rl_windowMs].
  assert (forall x w, steady x (recover ERedis) w = (silent, w)) as Hsilent.
  { intros x w'. rewrite Hrecover. by destruct silent. }
  assert (forall x w, steady x (count_request key windowMs) w =
            redisOp (fun _ => count_request_lua key windowMs) x w) as Hcount.
  { intros x w'. apply (steady_perform x). }
  split.
  - intros x w' n Ha Hn Hr Hpx. destruct (count_request_counts key n windowMs _ Hn Hr) as (r' & Hc & He & _).
    assert (steady x (count_request key windowMs) w' =
              (Ok (n + 1, PTTL r' key), mkWorld (w_db w') r')) as Hreply.
    { rewrite Hcount. unfold redisOp, sendOp, answered in *.
      destruct (ln_connected _); [|done]. destruct (ln_first _); [|done|done]. simpl. by rewrite Hc. }
    cbv beta. rewrite steady_catch, steady_bind, Hreply.
    destruct (Z.ltb_spec n (Zpos limit)) as [Hl|Hl].
    + by rewrite (proj2 (Z.ltb_ge _ _)) by lia.
    + rewrite (proj2 (Z.ltb_lt _ _)) by lia. simpl. rewrite Hrefuse.
      exists (Z.max 1 (PTTL r' key)). split; [|done].
      assert (0 <= PTTL r' key <= Zpos windowMs) as Httl; [|lia].
      apply PTTL_expiring; rewrite He; [done|]. simpl.
      destruct (Z.eqb_spec n 0); [done|]. apply Hpx. lia.
  - intros x w' n Ha Hn Hr. destruct (count_request_counts key n windowMs _ Hn Hr) as (r' & Hc & He & _).
    rewrite steady_catch, steady_bind, Hcount. unfold redisOp, sendOp, ran_at in *.
    destruct (ln_connected _); [|done]. simpl in *. destruct (ln_first _) as [| |[]]; try done.
    + rewrite Hc. destruct (_ <? _); simpl; [by rewrite Hrefuse|done].
    + rewrite Hsilent. simpl. by rewrite Hc.
  - intros x w' Ha. rewrite steady_catch, steady_bind, Hcount. unfold redisOp, sendOp, ran_at in *.
    destruct (ln_connected _); simpl in *; [|by rewrite Hsilent].
    destruct (ln_first _) as [| |[]]; try done; by rewrite Hsilent.
  - intros x w' Ha. rewrite steady_catch, steady_bind, Hcount. unfold redisOp, sendOp, answered in *.
    destruct (ln_connected _); simpl in *; [|by rewrite Hsilent].
    destruct (ln_first _) as [| |[]]; try done; by rewrite Hsilent.
Qed.

Context (limits : RateLimitConfig) `{NodeHash}.

(** One of the three services at work for one caller: the service, the key of its counter,
    its limit, the error of a request too many, and its answer when it has none of Redis. *)
Record Limiter : Type := mkLimiter {
  lm_serve : service;
  lm_key : string;
  lm_policy : RateLimit;
  lm_refuse : Z -> fault;
  lm_silent : result fault ()
}.

Definition realtime_limiter (event : Protocol.ClientEvent) (guest : string) : Limiter :=
  mkLimiter (fun x w => steady x (consume limits event guest) w)
    (realtimeRateKey (scope_of event) guest) (policy_of limits (scope_of event))
    (fun retryAfterMs => ERealtime (mkRealtimeError PE_RATE_LIMITED "Socket command rate limit exceeded"
                                      true None None None (Some retryAfterMs)))
    (Ok ()).

Definition session_limiter (policy : SessionRateLimitPolicy) (identifier : string) : Limiter :=
  mkLimiter (fun x w => steady x (consume_session limits policy identifier) w)
    (sessionRateKey policy identifier) (session_policy limits policy)
    (fun retryAfterMs => ESession SE_RATE_LIMITED true (Some retryAfterMs))
    (Err (ESession SE_SERVICE_UNAVAILABLE true None)).

Definition recovery_limiter (policy : RecoveryPolicy) (guest : string) : Limiter :=
  mkLimiter (fun x w => steady x (consume_recovery limits policy guest) w)
    (recoveryRateKey policy guest) (recovery_policy limits policy)
    (fun retryAfterMs => ERecovery RE_RATE_LIMITED true (Some retryAfterMs))
    (Ok ()).

(** C29: rate limits hold. Take a caller of one of the three services whose counter is not
    there, and let any number of requests follow, with anything that leaves the counter
    alone in between; some of them reach Redis and are counted, and some have no answer.
    Then a request that has an answer passes if fewer than the limit were counted before it, and
    is refused as one too many otherwise, with a time to wait between one millisecond and the
    window; a request that has none passes the limits of realtime commands and of
    recovery, which fail open, and is refused as unavailable by that of sessions, which
    fails closed. So the requests that pass are the first ones of the limit, more by
    at most the unanswered ones where the service fails open, and fewer by at most
    these where it fails closed. Once a request was counted, the counter has the time
    to live of the window, so that it starts anew. *)
Theorem rate_limits_hold event guest policy identifier recovery limiter w0 s :
  limiter ∈ [realtime_limiter event guest; session_limiter policy identifier;
             recovery_limiter recovery guest] ->
  entry (w_redis w0) (lm_key limiter) = no_entry ->
  rtc (window_step (lm_serve limiter) (lm_key limiter)) (opened w0) s -> Z.of_nat (counted s) < most ->
  let limit := rl_limit (lm_policy limiter) in
  let window := rl_windowMs (lm_policy limiter) in
  (forall x, let reply := (lm_serve limiter x (world_of s)).1 in
     if negb (answered x) then reply = lm_silent limiter
     else if (counted s <? Pos.to_nat limit)%nat then reply = Ok ()
     else exists retryAfterMs, 1 <= retryAfterMs <= Zpos window /\
            reply = Err (lm_refuse limiter retryAfterMs)) /\
  passes limit (lm_silent limiter) s /\
  ((0 < counted s)%nat -> en_px (entry (w_redis (world_of s)) (lm_key limiter)) = Some window).
Proof.
  intros Hin Habsent Hrun Hmost limit window.
  assert (gate (lm_serve limiter) (lm_key limiter) limit window (lm_refuse limiter) (lm_silent limiter)) as Hg.
  { repeat apply elem_of_cons in Hin as [->|Hin]; [..|by apply not_elem_of_nil in Hin].
    - by apply (limited_gate _ _ (lm_refuse (realtime_limiter event guest))).
    - by apply (limited_gate _ _ (lm_refuse (session_limiter policy identifier))).
    - by apply (limited_gate _ _ (lm_refuse (recovery_limiter recovery guest))). }
  destruct (window_holds _ _ _ _ _ _ _ _ Hg Habsent Hrun ltac:(lia)) as (Hc & Hp & Hpx).
  split_and!; [|exact Hp|exact Hpx]. intros x reply. destruct (answered x) eqn:Ea; simpl.
  - pose proof (gate_answered _ _ _ _ _ _ Hg x _ _ Ea Hc ltac:(lia) ltac:(intros Hpos; apply Hpx; lia)) as Hans.
    fold reply in Hans. destruct (Nat.ltb_spec (counted s) (Pos.to_nat limit)) as [Hl|Hl].
    + by rewrite (proj2 (Z.ltb_lt _ _)) in Hans by lia.
    + by rewrite (proj2 (Z.ltb_ge _ _)) in Hans by lia.
  - exact (gate_silent _ _ _ _ _ _ Hg x _ Ea).
Qed.
End Counting.

(** ** A sample run *)

Section Sample.
Import MapRedis.
#[local] Existing Instance map_redis.
#[local] Existing Instance map_redis_laws.

Definition number_at (r : gmap string Entry) (k : string) : Z :=
  match en_str (at_ r k) ≫= NilZero.int_of_string with Some n => Z.of_int n | None => 0 end.

#[local] Instance map_counters : RedisCounters := {|
  INCR k r :=
    (number_at r k + 1, put k (counter (number_at r k + 1) (en_px (at_ r k))) r);
  PTTL r k := match en_px (at_ r k) with Some px => Zpos px | None => if bare (at_ r k) then -2 else -1 end
|}.

Lemma number_at_counts n r k : counts_to n (at_ r k) -> number_at r k = n.
Proof.
  unfold number_at. intros [[-> ->]|[px ->]]; [done|]. simpl. unfold decimal.
  by rewrite int_of_string_of_int, DecimalZ.of_to.
Qed.

#[local] Instance map_counters_laws : RedisCountersLaws.
Proof.
  split; simpl; unfold at_, put.
  - intros k n r Hn _. by rewrite (number_at_counts n).
  - intros k n r Hn _. rewrite (number_at_counts n) by done. by rewrite lookup_insert_eq.
  - intros k r k' Hk. by rewrite lookup_insert_ne.
  - intros k px r _ ->. lia.
Qed.

#[local] Instance sample_hash : NodeHash := {| sha256_hex s := s |}.

Definition sample_limits : RateLimitConfig :=
  let l n := mkRateLimit n 1000 in
  mkRateLimitConfig (l 5%positive) (l 2%positive) (l 9%positive) (l 10%positive) (l 60%positive)
    (l 30%positive) (l 10%positive).

Definition answering : Ext := mkExt (mkEnv 0 0 ("", "")) DbUp good_link 0 ("", "") true [].

Definition empty_world : World :=
  mkWorld (mkDB ∅ [] [] ∅ ∅ ∅ ∅) (∅ : gmap string Entry).

Fixpoint requests (serve : service) (xs : list Ext) (s : Window) : Window :=
  match xs with
  | [] => s
  | x :: xs => requests serve xs (served serve x s)
  end.

Lemma requests_run serve key xs s : rtc (window_step serve key) s (requests serve xs s).
Proof.
  revert s. induction xs as [|x xs IH]; intros s; [apply rtc_refl|].
  eapply rtc_l; [apply W_request|apply IH].
Qed.

Definition resignation : Protocol.ClientEvent := Protocol.GameResign "g" 3.

(** Redis runs the script but its answer is lost. *)
Definition losing : Ext :=
  mkExt (mkEnv 0 0 ("", "")) DbUp (mkLink true true true (Failed true) true Replied) 0 ("", "") true [].

(** Four resignations in a window for two, the second of which has no answer. *)
Lemma rate_limits_hold_witness :
  let limiter := realtime_limiter sample_limits resignation "guest" in
  let s := requests (lm_serve limiter) [answering; losing; answering; answering] (opened empty_world) in
  counted s = 4%nat /\ (2 <= passed s <= 3)%nat /\
  (exists retryAfterMs, 1 <= retryAfterMs <= 1000 /\
     (lm_serve limiter answering (world_of s)).1 = Err (lm_refuse limiter retryAfterMs)) /\
  en_px (entry (w_redis (world_of s)) "rl:move:guest") = Some 1000%positive.
Proof.
  intros limiter s.
  assert (counted s = 4%nat) as Hc by (vm_compute; reflexivity).
  assert (unanswered s = 1%nat) as Hu by (vm_compute; reflexivity).
  destruct (rate_limits_hold sample_limits resignation "guest" RateCreate "" RateActive limiter
              empty_world s) as (Hnext & Hpasses & Hpx);
    [left|reflexivity|apply requests_run|by rewrite Hc|].
  split; [exact Hc|]. split; [|split].
  - unfold passes in Hpasses. rewrite Hc, Hu in Hpasses. exact Hpasses.
  - specialize (Hnext answering). rewrite Hc in Hnext. exact Hnext.
  - apply Hpx. rewrite Hc. apply Nat.lt_0_succ.
Defined.
End Sample.
End RateLimits.
