(* ===== verification/Connections.v ===== *)
(** * Connections

    [connection-registry.service.ts]: how many sockets an address may have open, as a
    sorted set per address whose members are sockets and whose scores are the times
    they lapse; and [realtime-authentication.service.ts], who may connect. *)

From S2P Require Export RateLimits Presence.
From S2P Require Import JsonText.
From Stdlib Require Import Ascii.
From stdpp Require Import sorting.
Local Open Scope string_scope.
Local Open Scope list_scope.
Local Open Scope Z_scope.

(** ** Instants as text *)

(** [n] in decimal, filled up to [width] digits. *)
Definition padded (width : nat) (n : Z) : string :=
  let s := RateLimits.decimal n in
  text (repeat "0"%char (width - String.length s)) +:+ s.

(** Year, month and day of a day since the epoch, in the proleptic Gregorian
    calendar: years start in March, so that the leap day is their last. *)
Definition civil (day : Z) : Z * Z * Z :=
  let z := day + 719468 in
  let era := z / 146097 in
  let doe := z mod 146097 in
  let yoe := (doe - doe / 1460 + doe / 36524 - doe / 146096) / 365 in
  let doy := doe - (365 * yoe + yoe / 4 - yoe / 100) in
  let mp := (5 * doy + 2) / 153 in
  let month := if mp <? 10 then mp + 3 else mp - 9 in
  (yoe + era * 400 + (if month <=? 2 then 1 else 0), month, doy - (153 * mp + 2) / 5 + 1).

(** [Date.prototype.toISOString], which throws outside the range of dates. *)
Definition toISOString (ms : Z) : option string :=
  if 8640000000000000 <? Z.abs ms then None else
  let '(year, month, day) := civil (ms / 86400000) in
  let t := ms mod 86400000 in
  let years :=
    if (0 <=? year) && (year <=? 9999) then padded 4 year
    else (if year <? 0 then "-" else "+") +:+ padded 6 (Z.abs year) in
  Some (years +:+ "-" +:+ padded 2 month +:+ "-" +:+ padded 2 day +:+ "T" +:+
        padded 2 (t / 3600000) +:+ ":" +:+ padded 2 (t / 60000 mod 60) +:+ ":" +:+
        padded 2 (t / 1000 mod 60) +:+ "." +:+ padded 3 (t mod 1000) +:+ "Z").

Example toISOString_samples :
  map toISOString [0; 1700000000123; 951782400000; -1; 8640000000000000] =
  [Some "1970-01-01T00:00:00.000Z"; Some "2023-11-14T22:13:20.123Z"; Some "2000-02-29T00:00:00.000Z";
   Some "1969-12-31T23:59:59.999Z"; Some "+275760-09-13T00:00:00.000Z"].
Proof. reflexivity. Qed.

Module Connections.
Import Scripts.

(** ** connection-registry.service.ts *)

Section Registry.
Context `{Redis} `{NodeHash} (config : AppConfig) (connectionLimit : positive).

Definition ttlMs : positive := PRESENCE_TTL_MS config + SOCKET_PING_TIMEOUT_MS config.

Definition addressHash (address : string) : string := sha256_hex address.

Definition connectionKey (addressHash : string) : string := "rl:conn:" +:+ addressHash.

Definition acquire_lua (addressHash socketMember : string) (nowMs : Z) : lua Z :=
  let key := connectionKey addressHash in
  _ ← call (ZREMRANGEBYSCORE key nowMs);
  existing ← ask (fun r => ZSCORE r key socketMember);
  count ← ask (fun r => ZCARD r key);
  if isNull existing && (Zpos connectionLimit <=? count) then mret (-1) else
  _ ← call (ZADD key (nowMs + Zpos ttlMs) socketMember);
  _ ← call (PEXPIRE key ttlMs);
  ask (fun r => ZCARD r key).

(** [multi().zadd(..).pexpire(..).exec()] *)
Definition refresh_multi (addressHash socketMember : string) (nowMs : Z) : lua () :=
  let key := connectionKey addressHash in
  _ ← call (ZADD key (nowMs + Zpos ttlMs) socketMember);
  call (PEXPIRE key ttlMs).

Definition connection_limit_exceeded : fault :=
  ERealtime (mkRealtimeError PE_RATE_LIMITED "Connection limit exceeded" true None None None
               (Some (Zpos ttlMs))).

Definition acquire (addressHash socketMember : string) (now : Z) : Prog () :=
  catch
    (count ← command (fun _ => acquire_lua addressHash socketMember now);
     if count <? 0 then Throw connection_limit_exceeded else mret ())
    (fun error => match error with
                  | ERealtime _ => Throw error
                  | _ => Throw ERealtimeRedisUnavailable
                  end).

Definition refresh (addressHash socketMember : string) (now : Z) : Prog () :=
  Presence.orRealtimeUnavailable (command (fun _ => refresh_multi addressHash socketMember now)).

Definition release (addressHash socketMember : string) : Prog () :=
  Presence.orRealtimeUnavailable
    (command (fun _ => call (ZREM (connectionKey addressHash) socketMember))).
End Registry.

(** ** realtime-authentication.service.ts *)

(** [RealtimeSocketData], once the socket is authenticated. *)
Record SocketData : Type := mkSocketData {
  sd_addressHash : string;
  sd_correlationId : string;
  sd_identity : AuthenticatedSocketIdentity;
  sd_socketMember : string
}.

Section Authentication.
Context `{Zod} `{JsonText} `{NodeCrypto} `{Redis} `{NodeHash}.
Context (config : AppConfig) (connectionLimit : positive) (tokens : Tokens.JwtTokenService)
  (instanceId : string).

Definition handshakeAuthSchema : parser string :=
  z_object ["token"] (fun f => z_field f "token" (z_string_length 1 8192)).

Definition unauthorized : fault :=
  ERealtime (realtimeError PE_UNAUTHORIZED "Guest authentication is required" false).

Definition identity_of (guest : Tokens.AuthenticatedGuest) : result fault AuthenticatedSocketIdentity :=
  match toISOString (Tokens.ag_expiresAt guest) with
  | Some expiresAt =>
      Ok (mkSocketIdentity (Tokens.ag_avatarKey guest) expiresAt (Tokens.ag_guestSessionId guest)
            (Tokens.ag_name guest))
  | None => Err (EApp EOther)
  end.

Definition safeReleaseConnection (addressHash socketMember : string) : Prog () :=
  catch (release addressHash socketMember) (fun _ => mret ()).

(** [socket.handshake.auth], [socket.id] and [socket.handshake.address] of a socket. *)
Definition authenticate (auth : json) (socketId address correlationId : string) : Prog SocketData :=
  match handshakeAuthSchema auth with
  | None => Throw unauthorized
  | Some token =>
      catch
        (now ← clock;
         authenticated ← lift (match Tokens.verify tokens token now with
                               | Ok guest => Ok guest
                               | Err reason => Err (EToken reason)
                               end);
         revoked ← SessionServices.isRevoked authenticated;
         if (revoked : bool) then Throw unauthorized else
         identity ← lift (identity_of authenticated);
         let socketMember := instanceId +:+ ":" +:+ socketId in
         let addressHash := Connections.addressHash address in
         now ← clock;
         _ ← acquire config connectionLimit addressHash socketMember now;
         _ ← catch
               (now ← clock;
                Presence.markConnected config (Tokens.ag_guestSessionId authenticated) socketMember now)
               (fun error => _ ← safeReleaseConnection addressHash socketMember; Throw error);
         mret (mkSocketData addressHash correlationId identity socketMember))
        (fun error => match error with
                      | ERealtime _ => Throw error
                      | ERevocationUnavailable => Throw ERealtimeRedisUnavailable
                      | EToken _ => Throw unauthorized
                      | _ => Throw error
                      end)
  end.
End Authentication.

(** ** How many connections an address has *)

Inductive Event : Type :=
| Acquired (socket : string) (now : Z)
| Refreshed (socket : string) (now : Z)
| Released (socket : string) (now : Z).

Definition event_time (e : Event) : Z :=
  match e with Acquired _ now | Refreshed _ now | Released _ now => now end.

Definition in_order (e e' : Event) : Prop := event_time e <= event_time e'.

Section Bound.
Context `{RedisLaws} `{NodeHash} (config : AppConfig) (connectionLimit : positive).
Context (hash : string).

Definition run_event (e : Event) : lua () := fun r =>
  match e with
  | Acquired socket now => ((), (acquire_lua config connectionLimit hash socket now r).2)
  | Refreshed socket now => refresh_multi config hash socket now r
  | Released socket _ => call (ZREM (connectionKey hash) socket) r
  end.

Definition run_events (events : list Event) (r : Keyspace) : Keyspace :=
  fold_left (fun r e => (run_event e r).2) events r.

(** The sockets whose connection has not lapsed at [t]. *)
Definition live (t : Z) (r : Keyspace) : gmap string Z := above t (ZSCORES r (connectionKey hash)).

(** A refresh of a connection that had lapsed, or was given back. *)
Definition late (r : Keyspace) (e : Event) : bool :=
  match e with
  | Refreshed socket now => bool_decide (live now r !! socket = None)
  | _ => false
  end.

Fixpoint late_events (r : Keyspace) (events : list Event) : nat :=
  match events with
  | [] => 0
  | e :: events => (if late r e then 1 else 0) + late_events (run_event e r).2 events
  end.

Lemma late_events_snoc r events e :
  late_events r (events ++ [e]) =
    (late_events r events + if late (run_events events r) e then 1 else 0)%nat.
Proof.
  revert r. induction events as [|e' events IH]; intros r; simpl; [lia|].
  rewrite IH. unfold run_events. simpl. lia.
Qed.

(** Whether a socket may connect. *)
Definition admits (t : Z) (socket : string) (r : Keyspace) : bool :=
  negb (isNull (live t r !! socket)) || (Z.of_nat (size (live t r)) <? Zpos connectionLimit).

Lemma acquire_eval socket now r :
  let reply := acquire_lua config connectionLimit hash socket now r in
  ZSCORES reply.2 (connectionKey hash) =
    (if admits now socket r then <[socket := now + Zpos (ttlMs config)]> (live now r) else live now r) /\
  (reply.1 <? 0) = negb (admits now socket r).
Proof.
  unfold acquire_lua, admits, live, mbind, lua_bind, call, ask, mret, lua_ret, ZCARD, ZSCORE, ZSCORES.
  simpl. redis. autorewrite with redis. set (z := above now _).
  rewrite Z.ltb_antisym. destruct (z !! socket) as [s|] eqn:E; simpl.
  - redis. autorewrite with redis. split; [done|]. apply Z.ltb_ge. lia.
  - destruct (Zpos connectionLimit <=? Z.of_nat (size z)); simpl; redis; autorewrite with redis;
      (split; [done|]); [done|]. apply Z.ltb_ge. lia.
Qed.

Lemma above_subseteq t z : above t z ⊆ z.
Proof. apply map_filter_subseteq. Qed.

Lemma size_insert_le (z : gmap string Z) m s : (size (<[m := s]> z) <= S (size z))%nat.
Proof. rewrite map_size_insert. destruct (z !! m); simpl; lia. Qed.

Lemma size_insert_live (z : gmap string Z) m s :
  z !! m <> None -> size (<[m := s]> z) = size z.
Proof. rewrite map_size_insert. by destruct (z !! m). Qed.

Lemma above_insert_subseteq now t m s z :
  now <= t -> above t (<[m := s]> z) ⊆ <[m := s]> (above now z).
Proof.
  intros Hle. apply map_subseteq_spec. intros i x. rewrite Presence.above_lookup.
  destruct (decide (i = m)) as [->|Hne].
  - rewrite !lookup_insert_eq. simpl. case_decide; [done|done].
  - rewrite !lookup_insert_ne by done. intros (y & Hy & Hx)%bind_Some. case_decide; [|done].
    injection Hx as ->. rewrite Presence.above_lookup, Hy. simpl. by rewrite decide_True by lia.
Qed.

(** One event adds at most one connection, and only an admitted or a late one. *)
Lemma run_event_size e r t bound :
  event_time e <= t ->
  (forall t', event_time e <= t' -> (size (live t' r) <= bound)%nat) ->
  (Pos.to_nat connectionLimit <= bound)%nat ->
  (size (live t (run_event e r).2) <= bound + if late r e then 1 else 0)%nat.
Proof.
  intros Ht Hr Hlimit. destruct e as [socket now|socket now|socket now]; cbn [event_time] in *.
  - pose proof (acquire_eval socket now r) as [Hz _]. cbn [run_event snd]. unfold live at 1. rewrite Hz.
    pose proof (Hr now ltac:(lia)) as Hn.
    etrans; [apply map_subseteq_size, above_subseteq|]. simpl. rewrite Nat.add_0_r.
    destruct (admits now socket r) eqn:Ha; [|done]. unfold admits in Ha.
    destruct (live now r !! socket) eqn:E; [by rewrite size_insert_live by (by rewrite E)|].
    simpl in Ha. apply Z.ltb_lt in Ha. pose proof (size_insert_le (live now r) socket (now + Zpos (ttlMs config))).
    lia.
  - unfold run_event, refresh_multi, mbind, lua_bind, call, live, ZSCORES. simpl. redis. autorewrite with redis.
    etrans; [apply map_subseteq_size, (above_insert_subseteq now); lia|].
    pose proof (Hr now ltac:(lia)) as Hn. unfold live, ZSCORES in *.
    case_bool_decide as E.
    + pose proof (size_insert_le (above now (en_zset (entry r (connectionKey hash)))) socket (now + Zpos (ttlMs config))).
      lia.
    + rewrite size_insert_live by done. lia.
  - unfold run_event, call, live, ZSCORES. simpl. redis. autorewrite with redis. rewrite Presence.above_delete.
    etrans; [apply map_subseteq_size, delete_subseteq|]. pose proof (Hr t ltac:(lia)). unfold live, ZSCORES in *. lia.
Qed.

(** C35: connections per address are bounded. After any acquisitions, refreshes and
    releases of an address's sockets, in the order of their times, at most
    the configured number of connections are live, and one more for each refresh that
    came for a connection that had already lapsed or was given back, which nothing
    counts. As long as Redis answers, a socket is let in exactly when it is among the
    live ones or their number is below the limit, and refused as rate limited
    otherwise. *)
Theorem connections_are_bounded events t w :
  ZSCORES (w_redis w) (connectionKey hash) = ∅ ->
  StronglySorted in_order events ->
  Forall (fun e => event_time e <= t) events ->
  let r := run_events events (w_redis w) in
  (size (live t r) <= Pos.to_nat connectionLimit + late_events (w_redis w) events)%nat /\
  forall socket x, RateLimits.answered x = true ->
    (steady x (acquire config connectionLimit hash socket t) (mkWorld (w_db w) r)).1 =
    if admits t socket r then Ok () else Err (connection_limit_exceeded config).
Proof.
  intros Hr Hs Ht r. split.
  - subst r. revert t Ht. induction events as [|e events IH] using rev_ind; intros t Ht.
    { unfold run_events, live. simpl. rewrite Hr.
      etrans; [apply map_subseteq_size, above_subseteq|]. rewrite map_size_empty. lia. }
    rewrite late_events_snoc. unfold run_events. rewrite fold_left_app. simpl.
    apply Forall_app in Ht as [Ht He]. apply Forall_inv in He. rewrite Nat.add_assoc.
    apply run_event_size; [done| |lia]. intros t' Ht'.
    apply IH; [by eapply StronglySorted_app_1_l|].
    apply Forall_forall. intros e' He'. etrans; [|exact Ht'].
    apply (StronglySorted_app_1_elem_of in_order events [e]); [exact Hs|done|left].
  - intros socket x Ha. unfold acquire. rewrite steady_catch, steady_bind.
    unfold command. rewrite (steady_perform x). unfold redisOp, sendOp, RateLimits.answered in *.
    destruct (ln_connected _); [|done]. simpl in *. destruct (ln_first _); [|done..].
    pose proof (proj2 (acquire_eval socket t r)) as Hn.
    destruct (acquire_lua config connectionLimit hash socket t r) as [n r']. simpl in *. rewrite Hn.
    by destruct (admits t socket r).
Qed.
End Bound.

(** ** Who may connect *)

Section Admission.
Context `{Zod} `{JsonText} `{NodeCrypto} `{RedisLaws} `{NodeHash}.
Context (config : AppConfig) (connectionLimit : positive) (tokens : Tokens.JwtTokenService)
  (instanceId : string).

(** The steps of [authenticate] that may fail, each with what it leaves. *)
Lemma alone_clock exts w :
  alone clock exts w = match exts with [] => None | x :: exts => Some (Ok (x_now x), w, exts) end.
Proof. by destruct exts. Qed.

Lemma alone_isRevoked guest exts w :
  alone (SessionServices.isRevoked guest) exts w =
    match exts with
    | [] => None
    | x :: exts =>
        Some (if RateLimits.answered x
              then Ok (negb (isNull (GET (w_redis w) (SessionServices.sessionKey (Tokens.ag_guestSessionId guest)))) ||
                       negb (isNull (GET (w_redis w) (SessionServices.tokenKey (Tokens.ag_jti guest)))))
              else Err ERevocationUnavailable, w, exts)
    end.
Proof.
  destruct exts as [|x exts]; [done|]. unfold SessionServices.isRevoked, SessionServices.unavailable_revocations.
  rewrite alone_catch, alone_bind. unfold command. rewrite (alone_perform _ x).
  unfold redisOp, sendOp, RateLimits.answered. destruct w as [db r].
  destruct (ln_connected _); [|done]. by destruct (ln_first _) as [| |[]].
Qed.

Lemma alone_acquire hash member now exts w w' left :
  alone (acquire config connectionLimit hash member now) exts w = Some (Ok (), w', left) ->
  admits connectionLimit hash now member (w_redis w) = true /\ w_db w' = w_db w /\
  ZSCORE (w_redis w') (connectionKey hash) member = Some (now + Zpos (ttlMs config)) /\
  forall k, k <> connectionKey hash -> entry (w_redis w') k = entry (w_redis w) k.
Proof.
  destruct exts as [|x exts]; [done|]. unfold acquire. rewrite alone_catch, alone_bind.
  unfold command. rewrite (alone_perform _ x). unfold redisOp, sendOp. destruct w as [db r]. simpl.
  destruct (ln_connected _); [|done]. destruct (ln_first _) as [| |[]]; try done. simpl.
  pose proof (acquire_eval config connectionLimit hash member now r) as [Hz Hn].
  assert (forall k, k <> connectionKey hash ->
            entry (acquire_lua config connectionLimit hash member now r).2 k = entry r k) as Hk.
  { intros k Hne. unfold acquire_lua, mbind, lua_bind, call, ask, mret, lua_ret. simpl.
    destruct (_ && _); simpl; rewrite ?entry_PEXPIRE, ?entry_ZADD, ?entry_ZREMRANGEBYSCORE;
      by rewrite ?decide_False. }
  destruct (acquire_lua _ _ _ _ _ _) as [n r']. simpl in *. rewrite Hn.
  destruct (admits connectionLimit hash now member r); simpl; [|done]. intros [= <- <-]. split_and!; try done.
  simpl. unfold ZSCORE. by rewrite Hz, lookup_insert_eq.
Qed.

Lemma alone_markConnected guest member now exts w n w' left :
  alone (Presence.markConnected config guest member now) exts w = Some (Ok n, w', left) ->
  w_db w' = w_db w /\
  ZSCORE (w_redis w') (presenceKey guest) member = Some (now + Zpos (PRESENCE_TTL_MS config)) /\
  forall hash, entry (w_redis w') (connectionKey hash) = entry (w_redis w) (connectionKey hash).
Proof.
  destruct exts as [|x exts]; [done|].
  unfold Presence.markConnected, Presence.refresh, Presence.orRealtimeUnavailable. rewrite alone_catch.
  unfold command. rewrite (alone_perform _ x). unfold redisOp, sendOp. destruct w as [db r]. simpl.
  destruct (ln_connected _); [|done]. destruct (ln_first _) as [| |[]]; try done. simpl.
  destruct (Presence.refresh_lua _ _ _ _ _) as [c r'] eqn:E. simpl. intros [= <- <- <-]. simpl.
  split; [done|]. apply (f_equal snd) in E. simpl in E. subst r'. split.
  - unfold Presence.refresh_lua, mbind, lua_bind, call, ask, mret, lua_ret, ZSCORE, ZSCORES, EXISTS. simpl.
    destruct (negb _); simpl; redis; autorewrite with redis; by rewrite lookup_insert_eq.
  - intros hash. unfold Presence.refresh_lua, mbind, lua_bind, call, ask, mret, lua_ret. simpl.
    destruct (EXISTS _ _); simpl;
      rewrite ?entry_PEXPIRE, ?entry_ZADD, ?entry_ZREMRANGEBYSCORE; by rewrite ?decide_False by done.
Qed.

Lemma alone_lift {A} (r : result fault A) exts w : alone (lift r) exts w = Some (r, w, exts).
Proof. by destruct r. Qed.

(** How a refusal reads. *)
Definition refusal (error : fault) : Prop :=
  error ∈ [unauthorized; connection_limit_exceeded config; ERealtimeRedisUnavailable; EApp EOther].

Lemma acquire_ends hash member now possible :
  ends possible (fun r => match r with Ok _ => True | Err e => refusal e end)
    (acquire config connectionLimit hash member now).
Proof.
  apply ends_catch, ends_bind, ends_perform. intros x w _. unfold redisOp, sendOp.
  destruct (negb _); [simpl; set_solver|].
  destruct (ln_first _) as [| |[]]; try (simpl; set_solver).
  destruct (acquire_lua _ _ _ _ _ _) as [n r]. simpl. destruct (n <? 0); simpl; set_solver.
Qed.

Ltac refused := repeat apply ends_throw; unfold refusal; rewrite ?elem_of_cons; by auto.

Lemma authenticate_ends auth socketId address corr possible :
  ends possible (fun r => match r with Ok _ => True | Err e => refusal e end)
    (authenticate config connectionLimit tokens instanceId auth socketId address corr).
Proof.
  unfold authenticate. destruct (handshakeAuthSchema auth) as [token|]; [|refused].
  apply ends_catch, ends_bind, ends_clock. intros x _.
  apply ends_bind, ends_lift. destruct (Tokens.verify tokens token (x_now x)) as [guest|reason];
    [|refused].
  apply ends_bind, ends_catch. apply ends_any. intros [revoked|e]; [|refused].
  destruct revoked; [refused|].
  apply ends_bind, ends_lift. destruct (identity_of guest) as [identity|e] eqn:Ei;
    [|unfold identity_of in Ei; destruct (toISOString _); simplify_eq; refused].
  cbv zeta. apply ends_bind, ends_clock. intros x1 _.
  apply ends_bind. eapply ends_mono; [|apply acquire_ends].
  intros [[]|e] Ha; [|repeat apply elem_of_cons in Ha as [->|Ha]; try (by apply elem_of_nil in Ha); refused].
  apply ends_bind, ends_catch, ends_bind, ends_clock. intros x2 _. apply ends_catch.
  apply ends_any. intros [n|e]; [done|]. apply ends_throw, ends_bind, ends_catch, ends_any.
  intros [[]|e']; [refused|apply ends_ret; refused].
Qed.

(** C36: who may connect. However the handshake goes, it is refused as unauthorized, for
    the limit of connections, because Redis cannot be reached, or for an expiry
    that is no date, and for no other reason. A socket that is let in, when
    nobody else acts meanwhile, showed a token that verifies, of a session and with a
    token id that are not marked as revoked; it has the identity of that token, one of the
    connections of its address, which were below the limit, and is present; the
    database is unchanged. *)
Theorem admitted_sockets_are_live auth socketId address corr exts w r w' left :
  alone (authenticate config connectionLimit tokens instanceId auth socketId address corr) exts w =
    Some (r, w', left) ->
  match r with
  | Err error => refusal error
  | Ok data =>
      let hash := addressHash address in
      let member := instanceId +:+ ":" +:+ socketId in
      exists token guest now t,
        handshakeAuthSchema auth = Some token /\ Tokens.verify tokens token now = Ok guest /\
        GET (w_redis w) (SessionServices.sessionKey (Tokens.ag_guestSessionId guest)) = None /\
        GET (w_redis w) (SessionServices.tokenKey (Tokens.ag_jti guest)) = None /\
        identity_of guest = Ok (sd_identity data) /\ sd_addressHash data = hash /\
        sd_socketMember data = member /\ sd_correlationId data = corr /\
        admits connectionLimit hash t member (w_redis w) = true /\ w_db w' = w_db w /\
        is_Some (ZSCORE (w_redis w') (connectionKey hash) member) /\
        is_Some (ZSCORE (w_redis w') (presenceKey (Tokens.ag_guestSessionId guest)) member)
  end.
Proof.
  intros Hrun. destruct r as [data|error].
  2: { assert (Forall (fun _ => True) exts) as Hall by by apply Forall_forall.
       exact (ends_alone _ _ _ _ _ _ _ _ (authenticate_ends auth socketId address corr _) Hall Hrun). }
  unfold authenticate in Hrun. destruct (handshakeAuthSchema auth) as [token|]; [|done].
  rewrite alone_catch in Hrun. revert Hrun.
  match goal with |- context [alone ?p exts w] => destruct (alone p exts w) as [[[[d|e] w1] l1]|] eqn:E end;
    [|destruct e; done|done].
  intros [= <- <- <-]. rewrite alone_bind, alone_clock in E. destruct exts as [|x exts]; [done|].
  rewrite alone_bind, alone_lift in E.
  destruct (Tokens.verify tokens token (x_now x)) as [guest|reason] eqn:Ev; [|done].
  rewrite alone_bind, alone_isRevoked in E. destruct exts as [|x1 exts]; [done|].
  destruct (RateLimits.answered x1); [|done].
  destruct (GET _ (SessionServices.sessionKey _)) eqn:Eg1; [done|].
  destruct (GET _ (SessionServices.tokenKey _)) eqn:Eg2; [done|]. cbn [isNull negb orb] in E.
  rewrite alone_bind, alone_lift in E. destruct (identity_of guest) as [identity|] eqn:Ei; [|done].
  cbv zeta in E. rewrite alone_bind, alone_clock in E. destruct exts as [|x2 exts]; [done|].
  rewrite alone_bind in E. destruct (alone (acquire _ _ _ _ _) exts w) as [[[[[]|e] w2] l2]|] eqn:Ea; [|done..].
  apply alone_acquire in Ea as (Hadm & Hdb & Hz & Hframe).
  rewrite alone_bind, alone_catch, alone_bind, alone_clock in E. destruct l2 as [|x3 l2]; [done|].
  destruct (alone (Presence.markConnected _ _ _ _) l2 w2) as [[[[n|e] w3] l3]|] eqn:Ep; [| |done].
  2: { rewrite alone_bind in E. unfold safeReleaseConnection in E.
       destruct (alone (catch _ _) l3 w3) as [[[[?|?] ?] ?]|]; done. }
  apply alone_markConnected in Ep as (Hdb' & Hp & Hkeep). simpl in E. injection E as <- <- <-.
  exists token, guest, (x_now x), (x_now x2). split_and!; try done; try congruence.
  - unfold ZSCORE, ZSCORES in *. by rewrite Hkeep, Hz.
Qed.
End Admission.

(** ** Sample runs *)

Section Sample.
#[local] Existing Instance MapRedis.map_redis.
#[local] Existing Instance MapRedis.map_redis_laws.
#[local] Existing Instance RateLimits.sample_hash.
#[local] Existing Instance Tokens.sample_crypto.

(** Two connections are allowed: the third socket is refused, until one leaves; a late
    refresh brings the number to three. *)
Definition sample_events : list Event :=
  [Acquired "s1" 0; Acquired "s2" 1; Acquired "s3" 2; Released "s1" 3; Acquired "s3" 4;
   Refreshed "s1" 5].

Lemma connections_are_bounded_witness :
  let r := run_events default_config 2 "here" sample_events (w_redis RateLimits.empty_world) in
  (size (live "here" 6 r) <= 3)%nat /\
  (steady RateLimits.answering (acquire default_config 2 "here" "s4" 6)
     (mkWorld (w_db RateLimits.empty_world) r)).1 = Err (connection_limit_exceeded default_config).
Proof.
  destruct (connections_are_bounded default_config 2 "here" sample_events 6 RateLimits.empty_world)
    as [Hsize Hacquire].
  - reflexivity.
  - repeat constructor; vm_compute; discriminate.
  - repeat constructor; vm_compute; discriminate.
  - assert (admits 2 "here" 6 "s4" (run_events default_config 2 "here" sample_events
              (w_redis RateLimits.empty_world)) = false) as Ha by (vm_compute; reflexivity).
    split.
    + etrans; [exact Hsize|]. apply Nat.leb_le. vm_compute. reflexivity.
    + specialize (Hacquire "s4" RateLimits.answering eq_refl). rewrite Ha in Hacquire. exact Hacquire.
Defined.

Definition sample_data : SocketData :=
  mkSocketData "127.0.0.1" "c1"
    (mkSocketIdentity "knight_bay_02" "2023-11-14T23:13:20.000Z" "3f2504e0-4f89-41d3-9a0c-0305e82c3301"
       "BoldFox42") "i1:s1".

Definition at_once : Ext := mkExt (mkEnv 0 0 ("", "")) DbUp good_link 1700000000000 ("", "") true [].

Definition handshake : option (result fault SocketData * World * list Ext) :=
  alone (authenticate default_config 2 Tokens.sample_service "i1"
           (JObj [("token", JStr Tokens.sample_token)]) "s1" "127.0.0.1" "c1")
    (repeat at_once 6) RateLimits.empty_world.

Lemma admitted_sockets_are_live_witness :
  exists w', handshake = Some (Ok sample_data, w', []) /\
    is_Some (ZSCORE (w_redis w') (presenceKey "3f2504e0-4f89-41d3-9a0c-0305e82c3301") "i1:s1").
Proof.
  assert (match handshake with Some (Ok d, _, []) => d = sample_data | _ => False end) as Hd
    by (vm_compute; reflexivity).
  destruct handshake as [[[[d|e] w'] [|x left]]|] eqn:E; try contradiction. subst d.
  exists w'. split; [reflexivity|].
  destruct (admitted_sockets_are_live _ _ _ _ _ _ _ _ _ _ _ _ _ E)
    as (token & guest & now & t & _ & _ & _ & _ & Hid & _ & _ & _ & _ & _ & _ & Hp).
  assert (Tokens.ag_guestSessionId guest = "3f2504e0-4f89-41d3-9a0c-0305e82c3301") as Hg.
  { unfold identity_of in Hid. destruct (toISOString _); [|discriminate]. injection Hid. congruence. }
  rewrite Hg in Hp. exact Hp.
Defined.
End Sample.
End Connections.
