(* ===== verification/Application.v ===== *)
(** * The life of a server process

    [application-lifecycle.service.ts]: whether the process takes work, the work in
    flight, and who waits for it to end; and the time the gateway takes to drain. *)

From S2P Require Export Prelude.
Local Open Scope list_scope.
Local Open Scope Z_scope.

Module Application.

Inductive ApplicationState : Type := starting | ready | draining.
Inductive InFlightWorkKind : Type := http | realtime.

#[export] Instance ApplicationState_eq_dec : EqDecision ApplicationState.
Proof. solve_decision. Defined.
#[export] Instance InFlightWorkKind_eq_dec : EqDecision InFlightWorkKind.
Proof. solve_decision. Defined.

(** The service. The functions [trackWork] returns are numbered, [ap_work] has the kind
    and the flag [finished] of each; so are the promises of [waitForIdle], [ap_waiters]
    has what became of each, and [ap_idleWaiters] are those in [idleWaiters]. A drain
    hook is a number; [ap_drained] has the hooks that were started with [drainPromise]. *)
Record Service : Type := mkService {
  ap_state : ApplicationState;
  ap_http : Z;
  ap_realtime : Z;
  ap_work : gmap nat (InFlightWorkKind * bool);
  ap_waiters : gmap nat (option bool);
  ap_idleWaiters : gset nat;
  ap_drainHooks : gset nat;
  ap_drained : option (gset nat)
}.

Definition fresh_service : Service := mkService starting 0 0 ∅ ∅ ∅ ∅ None.

Definition onApplicationBootstrap (s : Service) : Service :=
  if bool_decide (ap_state s = starting)
  then mkService ready (ap_http s) (ap_realtime s) (ap_work s) (ap_waiters s) (ap_idleWaiters s)
         (ap_drainHooks s) (ap_drained s)
  else s.

Definition isReady (s : Service) : bool := bool_decide (ap_state s = ready).
Definition inFlightWork (s : Service) : Z := ap_http s + ap_realtime s.

(** [inFlightByKind] *)
Definition in_flight (s : Service) (kind : InFlightWorkKind) : Z :=
  match kind with http => ap_http s | realtime => ap_realtime s end.
Definition set_in_flight (kind : InFlightWorkKind) (n : Z) (s : Service) : Service :=
  match kind with
  | http => mkService (ap_state s) n (ap_realtime s) (ap_work s) (ap_waiters s) (ap_idleWaiters s)
              (ap_drainHooks s) (ap_drained s)
  | realtime => mkService (ap_state s) (ap_http s) n (ap_work s) (ap_waiters s) (ap_idleWaiters s)
                  (ap_drainHooks s) (ap_drained s)
  end.
Definition set_work (work : gmap nat (InFlightWorkKind * bool)) (s : Service) : Service :=
  mkService (ap_state s) (ap_http s) (ap_realtime s) work (ap_waiters s) (ap_idleWaiters s)
    (ap_drainHooks s) (ap_drained s).
Definition set_waiters (waiters : gmap nat (option bool)) (idle : gset nat) (s : Service) : Service :=
  mkService (ap_state s) (ap_http s) (ap_realtime s) (ap_work s) waiters idle
    (ap_drainHooks s) (ap_drained s).
Definition set_hooks (hooks : gset nat) (s : Service) : Service :=
  mkService (ap_state s) (ap_http s) (ap_realtime s) (ap_work s) (ap_waiters s) (ap_idleWaiters s)
    hooks (ap_drained s).

(** [trackWork], which returns the function [h]. *)
Definition trackWork (kind : InFlightWorkKind) (h : nat) (s : Service) : Service :=
  set_work (<[h := (kind, false)]> (ap_work s)) (set_in_flight kind (in_flight s kind + 1) s).

(** [finish(idle)] of a promise of [waitForIdle]. *)
Definition finish (idle : bool) (p : nat) (s : Service) : Service :=
  match ap_waiters s !! p with
  | Some None => set_waiters (<[p := Some idle]> (ap_waiters s)) (ap_idleWaiters s ∖ {[p]}) s
  | _ => s
  end.

(** The loop over [idleWaiters], then [idleWaiters.clear()]. *)
Definition resolve_all (s : Service) : Service :=
  let s' := foldr (finish true) s (elements (ap_idleWaiters s)) in
  set_waiters (ap_waiters s') ∅ s'.

(** The function [h] that [trackWork] returned is called. *)
Definition finishWork (h : nat) (s : Service) : Service :=
  match ap_work s !! h with
  | Some (kind, false) =>
      let s := set_work (<[h := (kind, true)]> (ap_work s)) s in
      let s := set_in_flight kind (Z.max 0 (in_flight s kind - 1)) s in
      if inFlightWork s =? 0 then resolve_all s else s
  | _ => s
  end.

(** [waitForIdle], which returns the promise [p]. *)
Definition waitForIdle (p : nat) (s : Service) : Service :=
  if inFlightWork s =? 0 then set_waiters (<[p := Some true]> (ap_waiters s)) (ap_idleWaiters s) s
  else set_waiters (<[p := None]> (ap_waiters s)) ({[p]} ∪ ap_idleWaiters s) s.

Definition registerDrainHook (hook : nat) (s : Service) : Service :=
  set_hooks ({[hook]} ∪ ap_drainHooks s) s.
Definition unregisterDrainHook (hook : nat) (s : Service) : Service :=
  set_hooks (ap_drainHooks s ∖ {[hook]}) s.

(** Errors of hooks are logged. *)
Definition beginDrain (s : Service) : Service :=
  match ap_drained s with
  | Some _ => s
  | None => mkService draining (ap_http s) (ap_realtime s) (ap_work s) (ap_waiters s)
              (ap_idleWaiters s) (ap_drainHooks s) (Some (ap_drainHooks s))
  end.

(** What may happen. Numbers of functions and promises are new; the timer of a promise
    fires when it fires, unless it was cleared, which [finish] sees. *)
Inductive step : Service -> Service -> Prop :=
| L_bootstrap s : step s (onApplicationBootstrap s)
| L_track kind h s : ap_work s !! h = None -> step s (trackWork kind h s)
| L_finish h s : step s (finishWork h s)
| L_wait p s : ap_waiters s !! p = None -> step s (waitForIdle p s)
| L_timeout p s : step s (finish false p s)
| L_register hook s : step s (registerDrainHook hook s)
| L_unregister hook s : step s (unregisterDrainHook hook s)
| L_drain s : step s (beginDrain s).

(** ** What the service keeps *)

(** The pieces of work begun and not ended. *)
Definition unfinished (kind : InFlightWorkKind) (s : Service) : gmap nat (InFlightWorkKind * bool) :=
  filter (fun kv => kv.2 = (kind, false)) (ap_work s).

Record sound (s : Service) : Prop := {
  so_count kind : in_flight s kind = Z.of_nat (size (unfinished kind s));
  so_waiting p : p ∈ ap_idleWaiters s <-> ap_waiters s !! p = Some None;
  so_idle : inFlightWork s = 0 -> ap_idleWaiters s = ∅;
  so_drained : ap_drained s <> None <-> ap_state s = draining
}.

Lemma in_flight_set kind kind' n s :
  in_flight (set_in_flight kind n s) kind' = if decide (kind = kind') then n else in_flight s kind'.
Proof. by destruct kind, kind'. Qed.

Lemma in_flight_total s : inFlightWork s = in_flight s http + in_flight s realtime.
Proof. done. Qed.

Lemma in_flight_nonnegative s kind : sound s -> 0 <= in_flight s kind.
Proof. intros Hs. rewrite (so_count _ Hs). lia. Qed.

Lemma set_in_flight_rest kind n s :
  ap_work (set_in_flight kind n s) = ap_work s /\ ap_waiters (set_in_flight kind n s) = ap_waiters s /\
  ap_idleWaiters (set_in_flight kind n s) = ap_idleWaiters s /\
  ap_state (set_in_flight kind n s) = ap_state s /\ ap_drained (set_in_flight kind n s) = ap_drained s.
Proof. by destruct kind. Qed.

(** Settling the promises of a list, none of which is settled otherwise. *)
Lemma finish_all l s :
  let s' := foldr (finish true) s l in
  (forall p, ap_waiters s' !! p =
     match ap_waiters s !! p with
     | Some None => if bool_decide (p ∈ l) then Some (Some true) else Some None
     | o => o
     end) /\
  ap_work s' = ap_work s /\ ap_state s' = ap_state s /\ ap_drained s' = ap_drained s /\
  (forall kind, in_flight s' kind = in_flight s kind).
Proof.
  induction l as [|q l IH]; simpl.
  { split_and!; try done. intros p. by destruct (ap_waiters s !! p) as [[]|]. }
  destruct IH as (Hw & Hwork & Hst & Hd & Hk). set (s' := foldr (finish true) s l) in *. clearbody s'.
  unfold finish. rewrite Hw.
  assert (forall p, p <> q -> bool_decide (p ∈ q :: l) = bool_decide (p ∈ l)) as Hne.
  { intros p Hp. apply bool_decide_ext. rewrite elem_of_cons. naive_solver. }
  assert (bool_decide (q ∈ q :: l) = true) as Hq by (apply bool_decide_eq_true_2; left).
  destruct (ap_waiters s !! q) as [[v|]|] eqn:Eq; cbv iota.
  - split_and!; try done. intros p. rewrite Hw. destruct (decide (p = q)) as [->|]; [by rewrite Eq|].
    by rewrite Hne.
  - destruct (bool_decide (q ∈ l)) eqn:El; cbv iota.
    + split_and!; try done. intros p. rewrite Hw.
      destruct (decide (p = q)) as [->|]; [by rewrite Eq, El, Hq|by rewrite Hne].
    + split_and!; try done. intros p. cbn [set_waiters ap_waiters].
      destruct (decide (p = q)) as [->|]; [by rewrite lookup_insert_eq, Eq, Hq|].
      by rewrite lookup_insert_ne, Hw, Hne by done.
  - split_and!; try done. intros p. rewrite Hw. destruct (decide (p = q)) as [->|]; [by rewrite Eq|].
    by rewrite Hne.
Qed.

Lemma size_unfinished_insert kind kind' h s :
  ap_work s !! h = None ->
  size (unfinished kind' (set_work (<[h := (kind, false)]> (ap_work s)) s)) =
  (size (unfinished kind' s) + if decide (kind = kind') then 1 else 0)%nat.
Proof.
  intros Hh. unfold unfinished. cbn [set_work ap_work].
  assert (filter (fun kv : nat * (InFlightWorkKind * bool) => kv.2 = (kind', false)) (ap_work s) !! h = None) as Hf
    by (apply map_lookup_filter_None; auto).
  destruct (decide (kind = kind')) as [->|Hne].
  - rewrite map_filter_insert_True by done. rewrite map_size_insert, Hf. simpl. lia.
  - rewrite map_filter_insert_False by (simpl; congruence).
    by rewrite delete_id, Nat.add_0_r.
Qed.

Lemma size_unfinished_finish kind kind' h s :
  ap_work s !! h = Some (kind, false) ->
  size (unfinished kind' (set_work (<[h := (kind, true)]> (ap_work s)) s)) =
  (size (unfinished kind' s) - if decide (kind = kind') then 1 else 0)%nat /\
  (kind = kind' -> (0 < size (unfinished kind' s))%nat).
Proof.
  intros Hh. unfold unfinished. cbn [set_work ap_work].
  rewrite map_filter_insert_False by (simpl; congruence). rewrite map_filter_delete, map_size_delete.
  destruct (decide (kind = kind')) as [->|Hne].
  - assert (filter (fun kv : nat * (InFlightWorkKind * bool) => kv.2 = (kind', false)) (ap_work s) !! h
            = Some (kind', false)) as Hf by (by apply map_lookup_filter_Some).
    rewrite Hf. split; [simpl; lia|]. intros _. apply Nat.neq_0_lt_0, map_size_ne_0_lookup. by eexists _, _.
  - assert (filter (fun kv : nat * (InFlightWorkKind * bool) => kv.2 = (kind', false)) (ap_work s) !! h
            = None) as Hf by (apply map_lookup_filter_None; right; naive_solver).
    rewrite Hf. split; [simpl; lia|done].
Qed.

Lemma fresh_sound : sound fresh_service.
Proof.
  split; simpl; try done. intros []; unfold unfinished; simpl; by rewrite map_filter_empty, map_size_empty.
Qed.

(** A change of what the invariant does not mention together. *)
Lemma sound_same s s' :
  sound s -> (forall kind, in_flight s' kind = in_flight s kind) -> ap_work s' = ap_work s ->
  ap_waiters s' = ap_waiters s -> ap_idleWaiters s' = ap_idleWaiters s ->
  (ap_drained s' <> None <-> ap_state s' = draining) -> sound s'.
Proof.
  intros [Hc Hp Hi Hd] Hk Hw Hwait Hidle Hd'. split; [| | |done].
  - intros kind. unfold unfinished. rewrite Hk, Hw. apply Hc.
  - by rewrite Hwait, Hidle.
  - rewrite Hidle, in_flight_total, !Hk, <- in_flight_total. apply Hi.
Qed.

Lemma trackWork_sound kind h s : ap_work s !! h = None -> sound s -> sound (trackWork kind h s).
Proof.
  intros Hh Hs. pose proof Hs as [Hc Hp Hi Hd]. unfold trackWork.
  destruct (set_in_flight_rest kind (in_flight s kind + 1) s) as (Hw & Hwait & Hidle & Hst & Hdr).
  assert (forall kind', in_flight (set_in_flight kind (in_flight s kind + 1) s) kind' =
            in_flight s kind' + if decide (kind = kind') then 1 else 0) as Hk.
  { intros kind'. rewrite in_flight_set. destruct (decide (kind = kind')) as [->|]; lia. }
  set (s1 := set_in_flight kind (in_flight s kind + 1) s) in *. rewrite <- Hw.
  split; cbn [set_work ap_waiters ap_idleWaiters ap_drained ap_state].
  - intros kind'. change (in_flight (set_work _ s1) kind') with (in_flight s1 kind').
    rewrite size_unfinished_insert by by rewrite Hw.
    unfold unfinished. rewrite Hw. fold (unfinished kind' s). rewrite Hk, Hc.
    destruct (decide (kind = kind')); lia.
  - by rewrite Hwait, Hidle.
  - change (inFlightWork (set_work _ s1)) with (inFlightWork s1). rewrite in_flight_total, !Hk.
    pose proof (in_flight_nonnegative s http Hs). pose proof (in_flight_nonnegative s realtime Hs).
    intros E. exfalso. destruct kind; repeat case_decide; simplify_eq; lia.
  - by rewrite Hst, Hdr.
Qed.

Lemma resolve_all_sound s :
  (forall kind, in_flight s kind = Z.of_nat (size (unfinished kind s))) ->
  (forall p, p ∈ ap_idleWaiters s <-> ap_waiters s !! p = Some None) ->
  (ap_drained s <> None <-> ap_state s = draining) ->
  sound (resolve_all s) /\ forall p v, ap_waiters s !! p = Some (Some v) ->
    ap_waiters (resolve_all s) !! p = Some (Some v).
Proof.
  intros Hc Hp Hd. unfold resolve_all.
  destruct (finish_all (elements (ap_idleWaiters s)) s) as (Hw & Hwork & Hst & Hdr & Hk).
  set (s' := foldr _ _ _) in *. clearbody s'.
  assert (forall p, ap_waiters s' !! p <> Some None) as Hnone.
  { intros p. rewrite Hw. destruct (ap_waiters s !! p) as [[v|]|] eqn:E; try done.
    rewrite bool_decide_eq_true_2; [done|]. by apply elem_of_elements, Hp. }
  split; [split|]; cbn [set_waiters ap_waiters ap_idleWaiters ap_drained ap_state].
  - intros kind. change (in_flight (set_waiters _ _ s') kind) with (in_flight s' kind).
    unfold unfinished. cbn [set_waiters ap_work]. rewrite Hk, Hwork. apply Hc.
  - intros p. split; [set_solver|]. intros Hn. by destruct (Hnone p).
  - done.
  - by rewrite Hst, Hdr.
  - intros p v Hv. by rewrite Hw, Hv.
Qed.

Lemma finishWork_sound h s :
  sound s -> sound (finishWork h s) /\ forall p v, ap_waiters s !! p = Some (Some v) ->
    ap_waiters (finishWork h s) !! p = Some (Some v).
Proof.
  intros Hs. pose proof Hs as [Hc Hp Hi Hd]. unfold finishWork.
  destruct (ap_work s !! h) as [[kind []]|] eqn:Eh; try done. cbv zeta.
  set (s1 := set_work _ s).
  assert (forall k, in_flight s1 k = in_flight s k) as Hs1 by done.
  destruct (set_in_flight_rest kind (Z.max 0 (in_flight s1 kind - 1)) s1) as (Hw & Hwait & Hidle & Hst & Hdr).
  assert (forall k, in_flight (set_in_flight kind (Z.max 0 (in_flight s1 kind - 1)) s1) k =
            Z.of_nat (size (unfinished k s1))) as Hk.
  { intros k. rewrite in_flight_set, Hs1. subst s1.
    destruct (size_unfinished_finish kind k h s Eh) as [-> Hpos].
    destruct (decide (kind = k)) as [->|]; rewrite ?Hs1, Hc; [specialize (Hpos eq_refl)|]; lia. }
  set (s2 := set_in_flight _ _ s1) in *.
  assert (forall k, in_flight s2 k = Z.of_nat (size (unfinished k s2))) as Hc2
    by (intros k; unfold unfinished; rewrite Hw; apply Hk).
  assert (forall p, p ∈ ap_idleWaiters s2 <-> ap_waiters s2 !! p = Some None) as Hp2
    by (intros p; rewrite Hidle, Hwait; apply Hp).
  assert (ap_drained s2 <> None <-> ap_state s2 = draining) as Hd2 by by rewrite Hst, Hdr.
  destruct (Z.eqb_spec (inFlightWork s2) 0) as [E|E].
  - destruct (resolve_all_sound s2 Hc2 Hp2 Hd2) as [Hr Hsettled]. split; [done|].
    intros p v Hv. apply Hsettled. by rewrite Hwait.
  - split; [|intros p v Hv; by rewrite Hwait]. by split.
Qed.

Lemma waitForIdle_sound p s : sound s -> ap_waiters s !! p = None -> sound (waitForIdle p s).
Proof.
  intros [Hc Hp Hi Hd] Hn. unfold waitForIdle.
  destruct (Z.eqb_spec (inFlightWork s) 0) as [E|E]; split; try done; intros q;
    cbn [set_waiters ap_waiters ap_idleWaiters].
  - rewrite Hp. destruct (decide (q = p)) as [->|]; [rewrite lookup_insert_eq, Hn; naive_solver|].
    by rewrite lookup_insert_ne.
  - rewrite elem_of_union, elem_of_singleton, Hp.
    destruct (decide (q = p)) as [->|]; [rewrite lookup_insert_eq; naive_solver|].
    rewrite lookup_insert_ne by done. naive_solver.
Qed.

Lemma finish_sound v p s : sound s -> sound (finish v p s).
Proof.
  intros Hs. pose proof Hs as [Hc Hp Hi Hd]. unfold finish.
  destruct (ap_waiters s !! p) as [[]|] eqn:E; try done.
  split; try done; cbn [set_waiters ap_waiters ap_idleWaiters].
  - intros q. rewrite elem_of_difference, elem_of_singleton, Hp.
    destruct (decide (q = p)) as [->|]; [rewrite lookup_insert_eq; naive_solver|].
    rewrite lookup_insert_ne by done. naive_solver.
  - intros Hz. change (inFlightWork (set_waiters _ _ s)) with (inFlightWork s) in Hz.
    specialize (Hi Hz). set_solver.
Qed.

Lemma step_sound s s' : step s s' -> sound s -> sound s'.
Proof.
  intros Hst Hs. pose proof Hs as [Hc Hp Hi Hd]. destruct Hst.
  - unfold onApplicationBootstrap. case_bool_decide as E; [|done].
    eapply sound_same; try done. simpl. rewrite Hd, E. done.
  - by apply trackWork_sound.
  - by apply finishWork_sound.
  - by apply waitForIdle_sound.
  - by apply finish_sound.
  - by eapply sound_same.
  - by eapply sound_same.
  - unfold beginDrain. destruct (ap_drained s) eqn:E; [done|]. by eapply sound_same.
Qed.

(** What never changes again. *)
Record kept (s s' : Service) : Prop := {
  ke_waiters p v : ap_waiters s !! p = Some (Some v) -> ap_waiters s' !! p = Some (Some v);
  ke_drained hooks : ap_drained s = Some hooks -> ap_drained s' = Some hooks;
  ke_state : ap_state s = draining -> ap_state s' = draining;
  ke_started : ap_state s' = starting -> ap_state s = starting
}.

#[export] Instance kept_preorder : PreOrder kept.
Proof.
  split; [by split|]. intros s1 s2 s3 [? ? ? ?] [? ? ? ?]. split; eauto.
Qed.

Lemma kept_same s s' :
  ap_waiters s' = ap_waiters s -> ap_drained s' = ap_drained s -> ap_state s' = ap_state s -> kept s s'.
Proof. intros Hw Hd Hst. by split; rewrite ?Hw, ?Hd, ?Hst. Qed.

Lemma finishWork_rest h s :
  ap_state (finishWork h s) = ap_state s /\ ap_drained (finishWork h s) = ap_drained s.
Proof.
  unfold finishWork. destruct (ap_work s !! h) as [[kind []]|]; [done| |done]. cbv zeta.
  set (s1 := set_work _ s).
  destruct (set_in_flight_rest kind (Z.max 0 (in_flight s1 kind - 1)) s1) as (_ & _ & _ & Hst & Hdr).
  destruct (_ =? 0); [|by rewrite Hst, Hdr]. unfold resolve_all. cbn [set_waiters ap_state ap_drained].
  destruct (finish_all (elements (ap_idleWaiters (set_in_flight kind (Z.max 0 (in_flight s1 kind - 1)) s1)))
              (set_in_flight kind (Z.max 0 (in_flight s1 kind - 1)) s1)) as (_ & _ & -> & -> & _).
  by rewrite Hst, Hdr.
Qed.

Lemma step_kept s s' : step s s' -> sound s -> kept s s'.
Proof.
  intros Hst Hs. pose proof (so_drained _ Hs) as Hd.
  destruct Hst as [s|kind h s Hh|h s|p s Hp|p s|hook s|hook s|s].
  - unfold onApplicationBootstrap. case_bool_decide as E; [|done]. split; simpl; congruence.
  - apply kept_same; cbn [trackWork set_work ap_waiters ap_drained ap_state];
      by destruct (set_in_flight_rest kind (in_flight s kind + 1) s) as (? & ? & ? & ? & ?).
  - destruct (finishWork_rest h s) as [Est Edr].
    split; rewrite ?Est, ?Edr; [|done..]. apply (finishWork_sound h s Hs).
  - split; try (by unfold waitForIdle; destruct (_ =? 0)). intros q v Hq.
    assert (q <> p) by congruence. unfold waitForIdle.
    destruct (_ =? 0); cbn [set_waiters ap_waiters]; by rewrite lookup_insert_ne.
  - unfold finish. destruct (ap_waiters s !! p) as [[]|] eqn:E; try done. split; try done.
    intros q v Hq. cbn [set_waiters ap_waiters]. rewrite lookup_insert_ne; [done|]. congruence.
  - by apply kept_same.
  - by apply kept_same.
  - unfold beginDrain. destruct (ap_drained s) eqn:E; [done|]. split; simpl; congruence.
Qed.

(** A promise is settled as idle only when there is no work. *)
Lemma settled_idle s s' p :
  step s s' -> sound s -> ap_waiters s !! p <> Some (Some true) ->
  ap_waiters s' !! p = Some (Some true) -> inFlightWork s' = 0.
Proof.
  intros Hst Hs Hn. pose proof (step_sound _ _ Hst Hs) as Hs'.
  destruct Hst as [s|kind h s Hh|h s|q s Hq|q s|hook s|hook s|s]; try done.
  - unfold onApplicationBootstrap. by case_bool_decide.
  - destruct (set_in_flight_rest kind (in_flight s kind + 1) s) as (_ & E & _).
    unfold trackWork. cbn [set_work ap_waiters]. by rewrite E.
  - unfold finishWork. destruct (ap_work s !! h) as [[kind []]|]; [done| |done]. cbv zeta.
    set (s1 := set_work _ s).
    destruct (set_in_flight_rest kind (Z.max 0 (in_flight s1 kind - 1)) s1) as (_ & E & _).
    set (s2 := set_in_flight kind _ s1) in *. destruct (Z.eqb_spec (inFlightWork s2) 0) as [Ez|Ez].
    + intros _. unfold resolve_all. destruct (finish_all (elements (ap_idleWaiters s2)) s2) as (_ & _ & _ & _ & Hk).
      change (inFlightWork (set_waiters _ _ ?x)) with (inFlightWork x). by rewrite in_flight_total, !Hk.
    + by rewrite E.
  - unfold waitForIdle. destruct (Z.eqb_spec (inFlightWork s) 0) as [Ez|Ez]; [done|].
    cbn [set_waiters ap_waiters]. destruct (decide (p = q)) as [->|]; [by rewrite lookup_insert_eq|].
    by rewrite lookup_insert_ne.
  - unfold finish. destruct (ap_waiters s !! q) as [[]|] eqn:E; try done. cbn [set_waiters ap_waiters].
    destruct (decide (p = q)) as [->|]; [by rewrite lookup_insert_eq|]. by rewrite lookup_insert_ne.
  - unfold beginDrain. by destruct (ap_drained s).
Qed.

Lemma steps_kept s s' : rtc step s s' -> sound s -> sound s' /\ kept s s'.
Proof.
  induction 1 as [s|s s1 s' Hst _ IH]; intros Hs; [by split|].
  destruct (IH (step_sound _ _ Hst Hs)) as [Hs' Hk]. split; [done|].
  etransitivity; [by apply step_kept|done].
Qed.

(** C37: the process knows what it is doing. In every order of events, the work in flight of a
    kind is the number of pieces of that kind begun and not ended, however often they are
    declared ended; while there is none nobody waits for it, and a promise says that
    there is none only at such a moment. What a promise said stays; once the process
    drains it never becomes ready again, and its hooks are started once, those that
    were registered then. *)
Theorem work_in_flight_is_exact s s' :
  rtc step fresh_service s -> rtc step s s' ->
  (forall kind, in_flight s kind = Z.of_nat (size (unfinished kind s))) /\
  (inFlightWork s = 0 -> forall p, ap_waiters s !! p <> Some None) /\
  (ap_drained s <> None <-> ap_state s = draining) /\
  (ap_drained s = None -> ap_drained (beginDrain s) = Some (ap_drainHooks s)) /\
  kept s s' /\
  forall p s1, step s s1 -> ap_waiters s !! p <> Some (Some true) ->
    ap_waiters s1 !! p = Some (Some true) -> inFlightWork s1 = 0.
Proof.
  intros Hs Hs'. destruct (steps_kept _ _ Hs fresh_sound) as [Hsound _].
  pose proof Hsound as [Hc Hp Hi Hd]. split_and!; try done.
  - intros Hz p Hn. apply Hp in Hn. rewrite (Hi Hz) in Hn. set_solver.
  - intros Hn. unfold beginDrain. by rewrite Hn.
  - by apply steps_kept.
  - intros p s1 Hst. by eapply settled_idle.
Qed.

(** ** Draining connections

    [drainConnections] of the gateway waits for the work to end and for the grace of the
    sockets, disconnects the sockets, and waits for what that starts. *)

Section Drain.
Context (transactionTimeoutMs drainGraceMs drainTimeoutMs : Z).

Definition cleanupWindowMs : Z := transactionTimeoutMs + 100.
Definition workWindowMs : Z := Z.max 0 (drainTimeoutMs - drainGraceMs - cleanupWindowMs - 100).

(** The promise of [waitForIdle(timeout)] made at [start] is settled at [settled]. *)
Definition settles (timeout start settled : Z) : Prop := start <= settled <= start + timeout.

(** The sockets are disconnected at [closed], and the hook ends at [ended]. *)
Definition drains (start closed ended : Z) : Prop :=
  exists idle graced, settles workWindowMs start idle /\ graced = start + drainGraceMs /\
    closed = Z.max idle graced /\ settles cleanupWindowMs closed ended.
End Drain.

(** One request, during which somebody starts to wait; then the process drains. *)
Definition waiting : Service := waitForIdle 1 (trackWork http 1 (onApplicationBootstrap fresh_service)).
Definition drained : Service := beginDrain (finishWork 1 waiting).

Lemma work_in_flight_is_exact_witness :
  in_flight waiting http = 1 /\ ap_waiters drained !! 1%nat = Some (Some true) /\
  ap_state drained = draining /\
  in_flight waiting http = Z.of_nat (size (unfinished http waiting)) /\ kept waiting drained.
Proof.
  assert (rtc step fresh_service waiting) as Hs.
  { eapply rtc_l; [apply L_bootstrap|]. eapply rtc_l; [apply (L_track http 1); reflexivity|].
    apply rtc_once. apply (L_wait 1). reflexivity. }
  assert (rtc step waiting drained) as Hd
    by (eapply rtc_l; [apply (L_finish 1)|]; apply rtc_once, L_drain).
  destruct (work_in_flight_is_exact waiting drained Hs Hd) as (Hc & _ & _ & _ & Hk & _).
  split; [reflexivity|]. split; [vm_compute; reflexivity|]. split; [vm_compute; reflexivity|].
  split; [apply Hc|exact Hk].
Defined.
End Application.
