(* ===== verification/EphemeralState.v ===== *)
(** * The ephemeral state of games

    [game-ephemeral-state.service.ts]: what Redis holds of running games (the pointer
    of a guest to its game, the snapshot cache, the marks of reconnect grace), how it
    is written after each change of a game, and how it is restored. Every failure is
    caught: this state can be lost at any time. *)

From S2P Require Export Snapshots MatchmakingScripts.
Local Open Scope string_scope.
Local Open Scope list_scope.
Local Open Scope Z_scope.

Module Ephemeral.
Import Scripts.

Definition ACTIVE_STATUSES : list GameStatus :=
  [CREATED; WAITING_FOR_PLAYERS; READY; IN_PROGRESS; RECONNECTING].

Record EphemeralAllocationState : Type := mkAllocationState {
  ea_available : bool;
  ea_graceDrift : list string;
  ea_missingActive : list string;
  ea_missingState : list string;
  ea_snapshotMissing : bool
}.

Record CachedGameSnapshot : Type := mkCached { cs_gameVersion : Z; cs_payload : json }.

Section Service.
Context `{Redis} `{JsonText} (config : AppConfig).

Definition clearActiveGame_lua (active state expectedGameId : string) : lua Z :=
  current ← ask (fun r => GET r active);
  st ← ask (fun r => GET r state);
  if bool_decide (current = Some expectedGameId) then
    _ ← call (DEL active);
    _ ← call (SET state "IDLE" (Some (MATCH_STATE_TTL_MS config)));
    mret 1
  else if isNull current && bool_decide (st = Some "IN_GAME") then
    _ ← call (SET state "IDLE" (Some (MATCH_STATE_TTL_MS config)));
    mret 1
  else mret 0.

Definition clearActiveGame (guest expectedGameId : string) : Prog bool :=
  catch (n ← command (fun _ => clearActiveGame_lua (activeGameKey guest) (stateKey guest)
                                 expectedGameId);
         mret (n =? 1))
    (fun _ => mret false).

(** [None] for [undefined], that is when Redis or the text is unreadable. *)
Definition readSnapshot (gameId guest : string) : Prog (option (option CachedGameSnapshot)) :=
  catch
    (value ← command (fun _ => ask (fun r => GET r (snapshotKey gameId)));
     match value with
     | None => mret (Some None)
     | Some value =>
         match json_parse value with
         | None => mret None
         | Some (JObj parsed) =>
             match property parsed "gameVersion", property parsed "payloads" with
             | Some (JNum gameVersion), Some (JObj payloads) =>
                 match property payloads guest with
                 | Some payload => mret (Some (Some (mkCached gameVersion payload)))
                 | None => mret (Some None)
                 end
             | _, _ => mret (Some None)
             end
         | Some _ => mret (Some None)
         end
     end)
    (fun _ => mret None).

Definition allocation_players (al : Games.GameAllocation) : list Games.GamePlayerRecord :=
  [(Games.ga_players al).1; (Games.ga_players al).2].

Definition grace_expected (now : Z) (player : Games.GamePlayerRecord) : bool :=
  match Games.gp_reconnectGraceEndsAt player with Some t => now <? t | None => false end.

(** The commands of the pipeline of [inspectAllocation], in their order. *)
Inductive Inspected : Type := Text (v : option string) | Found (v : bool).

Definition inspection (al : Games.GameAllocation) : list (lua Inspected) :=
  let gameId := Games.gr_id (Games.ga_game al) in
  let guests := map Games.gp_guestSessionId (allocation_players al) in
  map (fun g => ask (fun r => Text (GET r (activeGameKey g)))) guests ++
  map (fun g => ask (fun r => Text (GET r (stateKey g)))) guests ++
  [ask (fun r => Found (EXISTS r (snapshotKey gameId)))] ++
  map (fun g => ask (fun r => Found (EXISTS r (graceKey gameId g)))) guests.

Definition is_text (i : option Inspected) (s : string) : bool :=
  match i with Some (Text v) => bool_decide (v = Some s) | _ => false end.
Definition is_found (i : option Inspected) : bool :=
  match i with Some (Found v) => v | _ => false end.

(** [filter] with the index of each element *)
Definition filter_index {A} (p : A -> nat -> bool) (l : list A) : list A :=
  omap (fun x => if p x.2 x.1 then Some x.2 else None) (imap pair l).

Definition inspectAllocation (al : Games.GameAllocation) : Prog EphemeralAllocationState :=
  let players := allocation_players al in
  catch
    (_ ← ensureConnected;
     results ← pipeline (inspection al);
     results ← all_ok results;
     let missingActive := filter_index (fun _ index =>
       negb (is_text (results !! index) (Games.gr_id (Games.ga_game al)))) players in
     let missingState := filter_index (fun _ index =>
       negb (is_text (results !! (index + 2)%nat) "IN_GAME")) players in
     now ← clock;
     let graceDrift := filter_index (fun player index =>
       negb (Bool.eqb (grace_expected now player) (is_found (results !! (index + 5)%nat)))) players in
     mret (mkAllocationState true (map Games.gp_guestSessionId graceDrift)
             (map Games.gp_guestSessionId missingActive)
             (map Games.gp_guestSessionId missingState)
             (negb (is_found (results !! 4%nat)))))
    (fun _ => mret (mkAllocationState false [] [] [] false)).

Definition readActiveGame (guest : string) : Prog (option (option string)) :=
  catch (value ← command (fun _ => ask (fun r => GET r (activeGameKey guest))); mret (Some value))
    (fun _ => mret None).

Definition point_to (gameId guest : string) : list (lua ()) :=
  [call (SET (activeGameKey guest) gameId None);
   call (SET (stateKey guest) "IN_GAME" (Some (MATCH_STATE_TTL_MS config)))].

Definition restoreActiveGame (gameId guest : string) : Prog bool :=
  catch (_ ← ensureConnected;
         results ← pipeline (point_to gameId guest);
         _ ← all_ok results;
         mret true)
    (fun _ => mret false).

(** The value of the snapshot key; a payload that cannot be presented throws. *)
Fixpoint presented (snapshot : GameSnapshotView) (guests : list string)
    : result fault (list (string * json)) :=
  match guests with
  | [] => Ok []
  | guest :: guests =>
      payload ← present snapshot guest;
      rest ← presented snapshot guests;
      Ok ((guest, json_of_payload payload) :: rest)
  end.

Definition snapshot_text (snapshot : GameSnapshotView) (payloads : list (string * json)) : string :=
  stringify (JObj [("gameId", JStr (Games.gr_id (sv_game snapshot)));
                   ("gameVersion", JNum (Games.gr_version (sv_game snapshot)));
                   ("payloads", JObj payloads)]).

(** The command that restores the grace mark of one player; the clock is read for the
    condition and, if it holds, for the time to live. *)
Definition grace_command (gameId : string) (player : Games.GamePlayerRecord) : Prog (lua ()) :=
  let key := graceKey gameId (Games.gp_guestSessionId player) in
  match Games.gp_reconnectGraceEndsAt player with
  | Some graceEndsAt =>
      now ← clock;
      if now <? graceEndsAt then
        later ← clock;
        mret (call (SET key (string_of_number graceEndsAt)
                      (Some (Z.to_pos (Z.max 1 (graceEndsAt - later))))))
      else mret (call (DEL key))
  | None => mret (call (DEL key))
  end.

Definition is_active (snapshot : GameSnapshotView) : bool :=
  bool_decide (Games.gr_status (sv_game snapshot) ∈ ACTIVE_STATUSES).

Definition restoreSnapshot (snapshot : GameSnapshotView) : Prog bool :=
  let gameId := Games.gr_id (sv_game snapshot) in
  let guests := map Games.gp_guestSessionId (sv_players snapshot) in
  catch
    (_ ← ensureConnected;
     payloads ← lift (presented snapshot guests);
     graces ← mapAll (grace_command gameId) (sv_players snapshot);
     results ← pipeline
       ([call (SET (snapshotKey gameId) (snapshot_text snapshot payloads)
                 (Some (SNAPSHOT_CACHE_TTL_MS config)))] ++
        (if is_active snapshot then concat (map (point_to gameId) guests) else []) ++ graces);
     _ ← all_ok results;
     _ ← (if is_active snapshot then mret []
          else mapAll (fun guest => clearActiveGame guest gameId) guests);
     mret true)
    (fun _ => mret false).

(** A deletion whose failure is ignored. *)
Definition forget (keys : list string) : Prog () :=
  catch (command (fun _ => foldr (fun k m => _ ← call (DEL k); m) (mret ()) keys))
    (fun _ => mret ()).

Definition afterTerminal (gameId : string) (guests : string * string) : Prog () :=
  catch
    (_ ← ensureConnected;
     _ ← pipeline
       ([call (DEL (snapshotKey gameId))] ++
        map (fun guest => _ ← call (DEL (graceKey gameId guest)); call (DEL (guardKey guest)))
          [guests.1; guests.2]);
     _ ← mapAll (fun guest => clearActiveGame guest gameId) [guests.1; guests.2];
     mret ())
    (fun _ => mret ()).

Definition afterMove (submission : MoveSubmission) : Prog () :=
  let gameId := am_gameId (ms_accepted submission) in
  match ms_ended submission with
  | Some _ => afterTerminal gameId (ms_guestSessionIds submission)
  | None => forget [snapshotKey gameId]
  end.

Definition afterDisconnect (gameId guest : string) (graceDeadline : Z) : Prog () :=
  catch
    (_ ← ensureConnected;
     now ← clock;
     _ ← send (fun _ => call (SET (graceKey gameId guest) (string_of_number graceDeadline)
                                (Some (Z.to_pos (Z.max 1 (graceDeadline - now))))));
     send (fun _ => call (DEL (snapshotKey gameId))))
    (fun _ => mret ()).

Definition afterReconnect (gameId guest : string) : Prog () :=
  forget [graceKey gameId guest; snapshotKey gameId].

Definition afterStart (gameId : string) : Prog () := forget [snapshotKey gameId].
End Service.
End Ephemeral.
