(* ===== verification/GameServices.v ===== *)
(** * The application services of games

    [game-room.service.ts], [game-move.service.ts], [game-lifecycle.service.ts] and
    [game-recovery.service.ts]: each calls a repository, then brings Redis and the
    timers up to date and announces what happened. The timers of
    [game-deadline.service.ts] are in [GameDeadlines]; here a call of [scheduleGame]
    is the query it makes. *)

From S2P Require Export EphemeralState Presence GameplayRepository GameLifecycleRepository.
From S2P Require Export GameClock.
Local Open Scope string_scope.
Local Open Scope list_scope.
Local Open Scope Z_scope.

(** [game-lifecycle-delivery.port.ts]: the transport that announces events. It is
    called synchronously and may throw; it touches neither the database nor the keys
    of games. *)
Class LifecycleDelivery : Type := {
  gameEnded : TerminalSubmission -> result fault ();
  playerDisconnected : PlayerDisconnected -> result fault ();
  playerReconnected : PlayerReconnected -> result fault ()
}.

Module Services.
Import Ephemeral.

Definition failed (code : GameServiceErrorCode) (retryable : bool) : fault :=
  EApp (EGameService (mkGameServiceError code retryable None server_error)).

(** [this.games.findSnapshot] and the like may be answered at any later time. *)
Section Services.
Context `{Zod} `{ChessJs} `{Prisma} `{Redis} `{JsonText} `{LifecycleDelivery}.
Context (config : AppConfig).

(** The query of [scheduleGame], whose failure is logged. *)
Definition scheduleGame (gameId : string) : Prog () :=
  catch (_ ← query (fun _ db => Ok (Lifecycle.findDeadline db gameId)); mret ())
    (fun _ => mret ()).

(** ** game-room.service.ts *)

Definition is_member (al : Games.GameAllocation) (guest : string) : bool :=
  existsb (fun p => bool_decide (Games.gp_guestSessionId p = guest)) (allocation_players al).

Definition authorize (gameId guest : string) : Prog Games.GameAllocation :=
  allocation ← query (fun _ db => Games.findById db gameId);
  match allocation with
  | None => Throw (failed GAME_NOT_FOUND false)
  | Some allocation =>
      if negb (is_member allocation guest) then Throw (failed NOT_A_PLAYER false)
      else mret allocation
  end.

(** The clock a snapshot is viewed at. *)
Definition snapshot_clock (game : Games.GameRecord) : GameClock :=
  let running :=
    match Games.gr_status game with
    | IN_PROGRESS | RECONNECTING => Some (Games.gr_turnColor game)
    | _ => None
    end in
  mkGameClock (Games.gr_blackClockMs game) (Games.gr_incrementMs game) running
    (match running with None => None | Some _ => Some <$> Games.gr_turnStartedAt game end)
    (Games.gr_whiteClockMs game).

Definition viewOf (snapshot : Games.GameSnapshotRecord) : result fault GameSnapshotView :=
  let game := Games.ga_game (Games.gsn_allocation snapshot) in
  match clockViewAt (snapshot_clock game) (Some (Games.gsn_observedAt snapshot)) with
  | Ok clocks => Ok (mkGameSnapshotView snapshot clocks)
  | Err _ => Err (failed GAME_STATE_CORRUPT false)
  end.

Definition snapshot (gameId guest : string) : Prog GameSnapshotView :=
  snapshot ← query (fun x db => Games.findSnapshot (x_env x) db gameId);
  match snapshot with
  | None => Throw (failed GAME_NOT_FOUND false)
  | Some snapshot =>
      if negb (is_member (Games.gsn_allocation snapshot) guest)
      then Throw (failed NOT_A_PLAYER false)
      else lift (viewOf snapshot)
  end.

Definition activeSnapshot (guest : string) : Prog GameSnapshotView :=
  now ← clock;
  eligibility ← query (fun _ db => Ok (Games.getGuestMatchEligibility db guest now));
  match Games.ge_activeGameId eligibility with
  | None => Throw (failed GAME_NOT_FOUND false)
  | Some gameId => snapshot gameId guest
  end.

(** What [ready] makes of a game that it started. *)
Definition startedOf (al : Games.GameAllocation) : result fault StartedGame :=
  let game := Games.ga_game al in
  match Games.gr_startedAt game with
  | None => Err (failed GAME_STATE_CORRUPT false)
  | Some startedAt =>
      Ok (mkStartedGame
            (mkGameplayClock (Games.gr_blackClockMs game) startedAt (Some w)
               (Games.gr_whiteClockMs game))
            (Games.gr_id game) (Games.gr_version game) (Games.gr_initialFen game))
  end.

Definition ready (gameId guest : string) (expectedVersion observedAt : Z)
    : Prog (GameSnapshotView * option StartedGame) :=
  allocation ← database (fun x db => Games.markReady (x_env x)
                           (Games.mkMarkGameReady expectedVersion gameId guest observedAt) db);
  started ←
    (if bool_decide (Games.gr_status (Games.ga_game allocation) = READY) then
       result ← database (fun x db => Games.startIfReady (x_env x) gameId db);
       if Games.st_started result then
         started ← lift (startedOf (Games.st_allocation result));
         _ ← afterStart gameId;
         mret (Some started)
       else mret None
     else mret None);
  view ← snapshot gameId guest;
  _ ← scheduleGame gameId;
  mret (view, started).

(** ** game-move.service.ts *)

(** [submitObserved]: an error of the database becomes a retryable rejection. *)
Definition rejected_move : fault :=
  EApp (EGameService (mkGameServiceError DEPENDENCY_UNAVAILABLE true None move_rejected)).

Definition submit (input : SubmitMove) : Prog MoveSubmission :=
  submission ← catch
    (database (fun x db => Gameplay.submitMove (x_env x) input db db))
    (fun error => match error with
                  | EApp (EDatabase _ _) => Throw rejected_move
                  | _ => Throw error
                  end);
  _ ← afterMove config submission;
  _ ← match ms_ended submission with
      | None => scheduleGame (am_gameId (ms_accepted submission))
      | Some _ => mret ()
      end;
  mret submission.

(** ** game-lifecycle.service.ts *)

Definition completeTerminal (submission : TerminalSubmission) : Prog () :=
  _ ← afterTerminal config (eg_gameId (ts_ended submission)) (ts_guestSessionIds submission);
  if ts_duplicate submission then mret () else lift (gameEnded submission).

Definition resign (input : ResignGame) : Prog TerminalSubmission :=
  catch
    (submission ← database (fun x db => Lifecycle.resign (x_env x) input db db);
     _ ← completeTerminal submission;
     mret submission)
    (fun error => match error with
                  | EApp (EDatabase _ _) => Throw (failed DEPENDENCY_UNAVAILABLE true)
                  | _ => Throw error
                  end).

(** The guest's assignment is read first, in the same transaction. *)
Definition observe : Prog DB := perform (fun _ w => (Ok (w_db w), w)).

(** What is done for [terminateForReset], with the game it ended. *)
Definition endedForReset (guest : string) : Prog (option TerminalSubmission) :=
  before ← observe;
  submission ← database (fun x db => Lifecycle.terminateForReset (x_env x) before guest db);
  _ ← match submission with
      | Some submission => completeTerminal submission
      | None => mret ()
      end;
  mret submission.

Definition terminateForReset (guest : string) : Prog () := _ ← endedForReset guest; mret ().

Definition disconnected (guest : string) : Prog (option PlayerDisconnected) :=
  before ← observe;
  event ← database (fun x db =>
    Lifecycle.markDisconnected (x_env x) before guest (Zpos (GRACE_MS config)) db);
  _ ← match event with
      | Some event =>
          _ ← afterDisconnect (pd_gameId event) guest (pd_graceDeadline event);
          lift (playerDisconnected event)
      | None => mret ()
      end;
  mret event.

Definition reconnected (guest : string) : Prog (option PlayerReconnected) :=
  before ← observe;
  event ← database (fun x db => Lifecycle.markReconnected (x_env x) before guest db);
  _ ← match event with
      | Some event =>
          _ ← afterReconnect (pr_gameId event) guest;
          lift (playerReconnected event)
      | None => mret ()
      end;
  mret event.

(** Completes a game that was ended, and says whether it was. *)
Definition completed (terminal : option TerminalSubmission) (otherwise : Prog (option TerminalSubmission))
    : Prog (option TerminalSubmission) :=
  match terminal with
  | Some submission => _ ← completeTerminal submission; mret (Some submission)
  | None => otherwise
  end.

(** The guests of [grace] without a live connection. *)
Definition absentGuests (guests : string * string) : Prog (option (list string)) :=
  catch
    (presence ← mapAll (fun guest => now ← clock; live ← Presence.isPresent guest now;
                                     mret (guest, live)) [guests.1; guests.2];
     mret (Some (map fst (filter (fun candidate => candidate.2 = false) presence))))
    (fun _ => mret None).

Definition adjudicateGame (gameId : string) : Prog (option TerminalSubmission) :=
  noShow ← database (fun x db => Lifecycle.adjudicateNoShow (x_env x) gameId db);
  completed noShow
  (timeout ← database (fun x db => Lifecycle.adjudicateTimeout (x_env x) gameId db);
   completed timeout
   (grace ← query (fun x db => Lifecycle.findGraceState (x_env x) gameId db);
    match grace with
    | None => mret None
    | Some grace =>
        absent ← absentGuests (gs_guestSessionIds grace);
        match absent with
        | None => mret None
        | Some absent =>
            if negb (existsb (fun guest => includes absent guest) (gs_dueGuestSessionIds grace))
            then mret None else
            abandonment ← database (fun x db =>
              Lifecycle.adjudicateAbandonment (x_env x) gameId absent db);
            completed abandonment (mret None)
        end
    end)).

(** ** game-recovery.service.ts *)

Record RecoveredGameSnapshot : Type := mkRecovered {
  rs_gameId : string;
  rs_gameVersion : Z;
  rs_payload : GameSnapshotPayload
}.

Definition mapDatabaseFailure {A} (p : Prog A) : Prog A :=
  catch p (fun error => match error with
                        | EApp (EDatabase _ _) => Throw (failed DEPENDENCY_UNAVAILABLE true)
                        | _ => Throw error
                        end).

Definition activeGameId (guest : string) : Prog (option string) :=
  mapDatabaseFailure
    (cached ← readActiveGame guest;
     now ← clock;
     eligibility ← query (fun _ db => Ok (Games.getGuestMatchEligibility db guest now));
     let authoritative := Games.ge_activeGameId eligibility in
     _ ← match authoritative, cached with
         | None, Some (Some cached) => clearActiveGame config guest cached
         | None, _ => mret true
         | Some gameId, _ => restoreActiveGame config gameId guest
         end;
     mret authoritative).

(** A snapshot of a finished game in the cache. *)
Definition cachedTerminal (cached : option (option CachedGameSnapshot))
    : option (Z * GameSnapshotPayload) :=
  match cached with
  | Some (Some cached) =>
      match gameSnapshotPayloadSchema (cs_payload cached) with
      | Some payload =>
          if bool_decide (gsp_status payload ∈ [ABANDONED; COMPLETED; EXPIRED])
          then Some (cs_gameVersion cached, payload) else None
      | None => None
      end
  | _ => None
  end.

Definition recoverFresh (gameId guest : string) : Prog RecoveredGameSnapshot :=
  view ← snapshot gameId guest;
  payload ← lift (present view guest);
  _ ← restoreSnapshot config view;
  mret (mkRecovered gameId (Games.gr_version (sv_game view)) payload).

Definition snapshotInternal (gameId guest : string) : Prog RecoveredGameSnapshot :=
  mapDatabaseFailure
    (cached ← readSnapshot gameId guest;
     match cachedTerminal cached with
     | Some (cachedVersion, payload) =>
         allocation ← authorize gameId guest;
         if bool_decide (Games.gr_version (Games.ga_game allocation) = cachedVersion) &&
            bool_decide (Games.gr_status (Games.ga_game allocation) = gsp_status payload)
         then mret (mkRecovered gameId cachedVersion payload)
         else recoverFresh gameId guest
     | None => recoverFresh gameId guest
     end).

Definition activeRecovered (guest : string) : Prog RecoveredGameSnapshot :=
  gameId ← activeGameId guest;
  match gameId with
  | None => Throw (failed GAME_NOT_FOUND false)
  | Some gameId => snapshotInternal gameId guest
  end.
End Services.
End Services.
