(* ===== verification/Realtime.v ===== *)
(** * The realtime services

    [realtime-error-mapper.service.ts], [broadcast.service.ts],
    [game-lifecycle-delivery.service.ts] and [matchmaking-realtime.service.ts]: what
    becomes of the commands of clients, and what is announced to whom. *)

From S2P Require Export RealtimeProtocol RateLimits Connections Matchmaking GameServices.
Local Open Scope string_scope.
Local Open Scope list_scope.
Local Open Scope Z_scope.

Module Realtime.
Import Protocol RealtimeProtocol.

(** ** Programs that announce *)

(** What a program hands to Socket.IO and to the timers of the process, in this order:
    an event for everybody in a room, an event or an acknowledgment for the socket the
    program is about, that socket joins a room or is disconnected, everybody in a room
    leaves it after a while, a game's timer is set or cancelled. *)
Inductive Output : Type :=
| Emit (room : string) (event : ServerEventEnvelope)
| EmitSocket (event : ServerEventEnvelope)
| Acknowledge (ack : RealtimeAck)
| JoinRoom (room : string)
| DisconnectSocket
| CleanUpRoom (room : string)
| ScheduleDeadline (gameId : string)
| CancelDeadline (gameId : string).

Section Talk.
Context `{Redis}.

(** A program with its outputs, also those it has made before it throws. *)
Record Talk (A : Type) : Type := mkTalk { talk : Prog (list Output * result fault A) }.
Arguments mkTalk {A} talk.
Arguments talk {A} _.

#[export] Instance talk_ret : MRet Talk := fun A a => mkTalk (mret ([], Ok a)).
#[export] Instance talk_bind : MBind Talk := fun A B f p =>
  mkTalk (r ← talk p;
          match r.2 with
          | Ok a => r' ← talk (f a); mret (r.1 ++ r'.1, r'.2)
          | Err e => mret (r.1, Err e)
          end).

Definition throw {A} (e : fault) : Talk A := mkTalk (mret ([], Err e)).
Definition say (o : Output) : Talk () := mkTalk (mret ([o], Ok ())).

(** A program of the services, which announces nothing. *)
Definition hear {A} (p : Prog A) : Talk A := mkTalk (r ← attempt p; mret ([], r)).
Definition say_lift {A} (r : result fault A) : Talk A := mkTalk (mret ([], r)).

(** [try { p } catch (e) { h(e) }] *)
Definition handle {A} (p : Talk A) (h : fault -> Talk A) : Talk A :=
  mkTalk (r ← talk p;
          match r.2 with
          | Ok a => mret (r.1, Ok a)
          | Err e => r' ← talk (h e); mret (r.1 ++ r'.1, r'.2)
          end).

(** One element of [Promise.allSettled]. *)
Definition settled {A} (p : Talk A) : Talk (result fault A) :=
  mkTalk (r ← talk p; mret (r.1, Ok r.2)).

Fixpoint sayAll {A} (f : A -> Talk ()) (l : list A) : Talk () :=
  match l with
  | [] => mret ()
  | x :: l => _ ← f x; sayAll f l
  end.
End Talk.
Arguments mkTalk {_ A} talk.
Arguments talk {_ A} _.

(** ** realtime-rooms.ts, broadcast.service.ts *)

Definition gameRoom (gameId : string) : string := "game:" +:+ gameId.
Definition guestRoom (guestSessionId : string) : string := "guest:" +:+ guestSessionId.

Section Broadcast.
Context `{Redis}.

(** The event goes to the sockets of all processes while the adapter's Redis is reached,
    and to those of this process otherwise. *)
Definition emit (room : string) (event : ServerEventEnvelope) : Talk () := say (Emit room event).
Definition toGame (gameId : string) (event : ServerEventEnvelope) : Talk () := emit (gameRoom gameId) event.
Definition toGuest (guestSessionId : string) (event : ServerEventEnvelope) : Talk () :=
  emit (guestRoom guestSessionId) event.
End Broadcast.

(** ** realtime-error-mapper.service.ts *)

Record MappedRealtimeError : Type := mkMapped {
  mp_error : ProtocolErrorPayload;
  mp_gameVersion : option Z;
  mp_responseType : ResponseType
}.

(** The texts of the errors of the other services. *)
Class ErrorMessages : Type := { error_message : fault -> string }.

Section Mapper.
Context `{ErrorMessages}.

Definition gameErrorCode (code : GameServiceErrorCode) : ProtocolErrorCode :=
  match code with
  | CLOCK_EXPIRED => PE_CLOCK_EXPIRED
  | GAME_ALREADY_ENDED => PE_GAME_ALREADY_ENDED
  | GAME_NOT_FOUND => PE_GAME_NOT_FOUND
  | IDEMPOTENCY_KEY_REUSED => PE_IDEMPOTENCY_KEY_REUSED
  | ILLEGAL_MOVE => PE_ILLEGAL_MOVE
  | NOT_A_PLAYER => PE_NOT_A_PLAYER
  | NOT_YOUR_TURN => PE_NOT_YOUR_TURN
  | STALE_GAME_VERSION => PE_STALE_GAME_VERSION
  | GUEST_ALREADY_IN_GAME => PE_ALREADY_IN_GAME
  | _ => PE_SERVICE_UNAVAILABLE
  end.

Definition error_payload (error : RealtimeError) : ProtocolErrorPayload :=
  mkErrorPayload (re_authoritativeVersion error) (re_code error) (re_message error)
    (re_retryAfterMs error) (re_retryable error).

Definition unavailable_payload : ProtocolErrorPayload :=
  mkErrorPayload None PE_SERVICE_UNAVAILABLE "Realtime service is temporarily unavailable" None true.

Definition map_error (error : fault) : MappedRealtimeError :=
  match error with
  | ERealtime e =>
      mkMapped (error_payload e) (re_gameVersion e) (default server_error (re_responseType e))
  | ERealtimeRedisUnavailable => mkMapped unavailable_payload None server_error
  | EMatchmaking code retryable =>
      let code := match code with
                  | MM_ALREADY_IN_GAME => PE_ALREADY_IN_GAME
                  | _ => PE_SERVICE_UNAVAILABLE
                  end in
      mkMapped (mkErrorPayload None code (error_message error) None retryable) None server_error
  | EApp (EGameService e) =>
      mkMapped (mkErrorPayload (gse_authoritativeVersion e) (gameErrorCode (gse_code e))
                  (error_message error) None (gse_retryable e))
        (gse_authoritativeVersion e) (gse_responseType e)
  | EApp (EDatabase _ _) => mkMapped unavailable_payload None server_error
  | _ =>
      mkMapped (mkErrorPayload None PE_INTERNAL_ERROR "Realtime request could not be completed" None true)
        None server_error
  end.
End Mapper.

(** ** game-lifecycle-delivery.service.ts *)

Section Delivery.
Context `{Zod} `{ZodDatetime} `{Redis}.

Definition createEvent (d : ServerEventDraft) : Talk ServerEventEnvelope := hear (createServerEvent d).

(** The clocks of a message that names the running side itself. *)
Definition fixed_clocks (clocks : GameplayClock) : FixedClocks :=
  mkFixedClocks (gpc_blackMs clocks) (gpc_observedAt clocks) (gpc_whiteMs clocks).

Definition endedPayload (ended : EndedGame) : GameEndedPayload :=
  mkGameEnded (fixed_clocks (eg_clocks ended)) (eg_finalFen ended) (eg_pgn ended) (eg_result ended)
    (eg_termination ended).

Definition ended_draft (ended : EndedGame) : ServerEventDraft :=
  mkDraft None (GameEnded (endedPayload ended)) (of_game (eg_gameId ended) (eg_gameVersion ended)).
Definition disconnected_draft (event : PlayerDisconnected) : ServerEventDraft :=
  mkDraft None (Disconnected (wireColor (pd_color event)) (pd_graceDeadline event))
    (of_game (pd_gameId event) (pd_gameVersion event)).
Definition reconnected_draft (event : PlayerReconnected) : ServerEventDraft :=
  mkDraft None (Reconnected (wireColor (pr_color event)))
    (of_game (pr_gameId event) (pr_gameVersion event)).

Definition gameEnded (submission : TerminalSubmission) : Talk () :=
  let ended := ts_ended submission in
  event ← createEvent (ended_draft ended);
  _ ← toGuest (ts_guestSessionIds submission).1 event;
  _ ← toGuest (ts_guestSessionIds submission).2 event;
  _ ← say (CancelDeadline (eg_gameId ended));
  say (CleanUpRoom (gameRoom (eg_gameId ended))).

Definition playerDisconnected (event : PlayerDisconnected) : Talk () :=
  message ← createEvent (disconnected_draft event); toGame (pd_gameId event) message.

Definition playerReconnected (event : PlayerReconnected) : Talk () :=
  message ← createEvent (reconnected_draft event); toGame (pr_gameId event) message.

(** Whether a message would be made: whatever its id, a UUID, and its time are. *)
Definition sendable (d : ServerEventDraft) : result fault () :=
  _ ← parsed serverEnvelopeSchema
        (json_of_server_event (stamped d "00000000-0000-4000-8000-000000000000" 0));
  Ok ().

(** What the game services know of their delivery. They announce as the last thing they
    do, so that what they announce is said here when they return: [announcing]. *)
#[local] Instance delivery : LifecycleDelivery := {|
  GameServices.gameEnded submission := sendable (ended_draft (ts_ended submission));
  GameServices.playerDisconnected event := sendable (disconnected_draft event);
  GameServices.playerReconnected event := sendable (reconnected_draft event)
|}.

Definition announcing {A} (service : Prog A) (announce : A -> Talk ()) : Talk A :=
  a ← hear service; _ ← announce a; mret a.

Context `{ChessJs} `{Prisma} `{JsonText} (config : AppConfig).

(** Of a game that a service ended, if it did, its end is announced once. *)
Definition endAnnounced (submission : option TerminalSubmission) : Talk () :=
  match submission with
  | Some submission => if ts_duplicate submission then mret () else gameEnded submission
  | None => mret ()
  end.

Definition resign (input : ResignGame) : Talk TerminalSubmission :=
  announcing (Services.resign config input)
    (fun submission => endAnnounced (Some submission)).

(** A game that ran out of time, and one that ended because its player's session was reset. *)
Definition timedOut (gameId : string) : Talk (option TerminalSubmission) :=
  announcing (Services.adjudicateGame config gameId) endAnnounced.

Definition endedForReset (guest : string) : Talk (option TerminalSubmission) :=
  announcing (Services.endedForReset config guest) endAnnounced.

Definition disconnected (guest : string) : Talk (option PlayerDisconnected) :=
  announcing (Services.disconnected config guest)
    (fun event => match event with Some event => playerDisconnected event | None => mret () end).

Definition reconnected (guest : string) : Talk (option PlayerReconnected) :=
  announcing (Services.reconnected guest)
    (fun event => match event with Some event => playerReconnected event | None => mret () end).
End Delivery.

(** ** matchmaking-realtime.service.ts *)

(** [RealtimeCommandResult] *)
Record CommandResult : Type := mkCommandResult {
  cr_payload : ServerPayload;
  cr_gameVersion : option Z
}.

Section Commands.
Context `{Zod} `{ZodUuid} `{ZodDatetime} `{ChessJs} `{Prisma} `{Redis} `{JsonText}.
Context (config : AppConfig) (drainRetryAfterMs : positive).

#[local] Existing Instance delivery.

Definition wireClocks (clocks : GameplayClock) : SnapshotClocks :=
  mkSnapshotClocks (gpc_blackMs clocks) (wireColor <$> gpc_running clocks)
    (Some (gpc_observedAt clocks)) (gpc_whiteMs clocks).

Definition acceptedPayload (accepted : AcceptedMove) : MoveAcceptedPayload :=
  mkMoveAccepted (am_check accepted) (wireClocks (am_clocks accepted)) (am_fenAfter accepted)
    (am_ply accepted) (am_san accepted) (wireColor (am_turn accepted)) (am_uci accepted).

Definition started_draft (started : StartedGame) : ServerEventDraft :=
  mkDraft None (GameStarted (fixed_clocks (sg_clocks started)) (sg_initialFen started))
    (of_game (sg_gameId started) (sg_gameVersion started)).
Definition accepted_draft (accepted : AcceptedMove) : ServerEventDraft :=
  mkDraft None (MoveAccepted (acceptedPayload accepted))
    (mkSubject (Some (am_clientMoveId accepted)) (Some (am_gameId accepted))
       (Some (am_gameVersion accepted))).

Definition publishStarted (started : StartedGame) : Talk () :=
  event ← createEvent (started_draft started); toGame (sg_gameId started) event.

Definition publishAccepted (accepted : AcceptedMove) : Talk () :=
  event ← createEvent (accepted_draft accepted); toGame (am_gameId accepted) event.

Definition left_draft (reason : QueueLeftReason) : ServerEventDraft := draft (QueueLeft reason).

Definition match_draft (allocation : Games.GameAllocation) (player opponent : Games.GamePlayerRecord)
    (deadline : Z) : ServerEventDraft :=
  let game := Games.ga_game allocation in
  mkDraft None
    (MatchFound (mkMatchFound (wireColor (Games.gp_color player)) deadline
                   (Games.gp_avatarKey opponent) (Games.gp_displayName opponent)
                   (Games.gr_incrementMs game) (Games.gr_timeInitialMs game)))
    (of_game (Games.gr_id game) (Games.gr_version game)).

Definition publishMatchFound (allocation : Games.GameAllocation)
    (player opponent : Games.GamePlayerRecord) : Talk () :=
  match Games.gr_joinDeadlineAt (Games.ga_game allocation) with
  | None => throw (EApp EOther)
  | Some deadline =>
      queueLeft ← createEvent (left_draft LeftMatched);
      matchFound ← createEvent (match_draft allocation player opponent deadline);
      _ ← toGuest (Games.gp_guestSessionId player) queueLeft;
      toGuest (Games.gp_guestSessionId player) matchFound
  end.

Definition publishAllocation (allocation : Games.GameAllocation) : Talk () :=
  let (first, second) := Games.ga_players allocation in
  _ ← publishMatchFound allocation first second;
  _ ← publishMatchFound allocation second first;
  say (ScheduleDeadline (Games.gr_id (Games.ga_game allocation))).

Definition left_reason (reason : Scripts.RemovalReason) : QueueLeftReason :=
  match reason with
  | Scripts.reason_disconnected => LeftDisconnected
  | Scripts.reason_stale => LeftStale
  | Scripts.reason_timeout => LeftTimeout
  end.

Definition publishEffects (effects : Matchmaking.MatchmakingEffects) : Talk () :=
  _ ← sayAll (fun removed =>
        event ← createEvent (left_draft (left_reason (Scripts.rm_reason removed)));
        toGuest (Scripts.rm_guestSessionId removed) event) (Matchmaking.me_removed effects);
  _ ← sayAll (fun requeued =>
        event ← createEvent (draft (QueueJoined None (Scripts.rq_since requeued)));
        toGuest (Scripts.rq_guestSessionId requeued) event) (Matchmaking.me_requeued effects);
  sayAll publishAllocation (Matchmaking.me_allocations effects).

Definition joinQueue (isReady : bool) (identity : AuthenticatedSocketIdentity) : Talk CommandResult :=
  if negb isReady
  then throw (ERealtime (mkRealtimeError PE_SERVICE_UNAVAILABLE
                "This server is draining; reconnect before joining the queue." true None None None
                (Some (Zpos drainRetryAfterMs))))
  else
    result ← hear (now ← clock; Matchmaking.join config (si_guestSessionId identity) "blitz" now);
    _ ← publishEffects result.1;
    mret (mkCommandResult
            (QueueJoined (Some (Scripts.qj_position result.2)) (Scripts.qj_since result.2)) None).

Definition leaveQueue (identity : AuthenticatedSocketIdentity) : Talk CommandResult :=
  let guest := si_guestSessionId identity in
  _ ← hear (Matchmaking.leave config guest "blitz");
  let payload := QueueLeft LeftRequested in
  event ← createEvent (draft payload);
  _ ← toGuest guest event;
  mret (mkCommandResult payload None).

Definition joinGameRoom (gameId : string) : Talk () := say (JoinRoom (gameRoom gameId)).

Definition readyGame (gameId : string) (gameVersion : Z) (identity : AuthenticatedSocketIdentity)
    : Talk CommandResult :=
  let guest := si_guestSessionId identity in
  _ ← hear (Services.authorize gameId guest);
  _ ← joinGameRoom gameId;
  result ← hear (now ← clock; Services.ready gameId guest gameVersion now);
  _ ← match result.2 with Some started => publishStarted started | None => mret () end;
  payload ← say_lift (present result.1 guest);
  mret (mkCommandResult (GameSnapshot payload) (Some (Games.gr_version (sv_game result.1)))).

Definition syncGame (gameId : option string) (identity : AuthenticatedSocketIdentity)
    : Talk CommandResult :=
  let guest := si_guestSessionId identity in
  snapshot ← hear (match gameId with
                   | None => Services.activeRecovered config guest
                   | Some gameId => Services.snapshotInternal config gameId guest
                   end);
  _ ← joinGameRoom (Services.rs_gameId snapshot);
  _ ← hear (Services.scheduleGame (Services.rs_gameId snapshot));
  mret (mkCommandResult (GameSnapshot (Services.rs_payload snapshot))
          (Some (Services.rs_gameVersion snapshot))).

Definition submitMove (clientMoveId gameId : string) (gameVersion : Z) (from to : string)
    (promotion : option PromotionPiece) (identity : AuthenticatedSocketIdentity)
    : Talk CommandResult :=
  submission ← hear (Services.submit config
    (mkSubmitMove clientMoveId gameVersion gameId (si_guestSessionId identity)
       (mkMoveInput from promotion to)));
  _ ← (if ms_duplicate submission then mret () else
       _ ← match ms_started submission with
           | Some started => publishStarted started
           | None => mret ()
           end;
       _ ← publishAccepted (ms_accepted submission);
       match ms_ended submission with
       | Some ended => gameEnded (mkTerminalSubmission false ended (ms_guestSessionIds submission))
       | None => mret ()
       end);
  mret (mkCommandResult (MoveAccepted (acceptedPayload (ms_accepted submission)))
          (Some (am_gameVersion (ms_accepted submission)))).

Definition resignGame (gameId : string) (gameVersion : Z) (eventId : string)
    (identity : AuthenticatedSocketIdentity) : Talk CommandResult :=
  submission ← resign config
    (mkResignGame eventId gameVersion gameId (si_guestSessionId identity));
  mret (mkCommandResult (GameEnded (endedPayload (ts_ended submission)))
          (Some (eg_gameVersion (ts_ended submission)))).

(** [isReady] is what [lifecycle.isReady] says when the command is executed. *)
Definition execute (isReady : bool) (event : ClientEventEnvelope)
    (identity : AuthenticatedSocketIdentity) : Talk CommandResult :=
  match ce_event event with
  | QueueJoin => joinQueue isReady identity
  | QueueLeave => leaveQueue identity
  | GameReady gameId gameVersion => readyGame gameId gameVersion identity
  | GameSync gameId _ => syncGame gameId identity
  | MoveSubmit clientMoveId gameId gameVersion from to promotion =>
      submitMove clientMoveId gameId gameVersion from to promotion identity
  | GameResign gameId gameVersion => resignGame gameId gameVersion (ce_eventId event) identity
  | HeartbeatPing _ =>
      throw (ERealtime (realtimeError PE_SERVICE_UNAVAILABLE
               "This game command is not available until its implementation phase." true))
  end.

(** ** Presence of guests *)

Definition finallyDisconnected (guest : string) : Talk () :=
  queueResult ← settled (hear (Matchmaking.finallyDisconnected config guest "blitz"));
  gameResult ← settled (disconnected config guest);
  _ ← match queueResult with
      | Ok true => event ← createEvent (left_draft LeftDisconnected); toGuest guest event
      | _ => mret ()
      end;
  match gameResult with
  | Ok (Some event) => hear (Services.scheduleGame (pd_gameId event))
  | _ => mret ()
  end.

Definition reconnectedGuest (guest : string) : Talk () :=
  event ← reconnected guest;
  match event with
  | Some event => hear (Services.scheduleGame (pr_gameId event))
  | None => mret ()
  end.

(** ** Jobs *)

Inductive JobName : Type := JobDrain | JobReconcile | JobSweep.

(** [pages]: what the scan for reservations answers. *)
Definition job_work (pages : list (list string)) (name : JobName) : Prog Matchmaking.MatchmakingEffects :=
  now ← clock;
  match name with
  | JobDrain => Matchmaking.drain config "blitz" now
  | JobSweep => Matchmaking.sweep config "blitz" now
  | JobReconcile => Matchmaking.reconcile config pages now
  end.

(** [running]: the job's last run has not ended. *)
Definition runJob (pages : list (list string)) (running : bool) (name : JobName) : Talk () :=
  if running then mret () else
  handle (effects ← hear (job_work pages name); publishEffects effects) (fun _ => mret ()).
End Commands.

(** * Theory *)

(** ** What a program says and how it ends *)

Section Says.
Context `{Redis} (possible : Ext -> Prop).

Definition says {A} (Q : list Output -> result fault A -> Prop) (p : Talk A) : Prop :=
  ends possible (fun r => exists outs res, r = Ok (outs, res) /\ Q outs res) (talk p).

Lemma says_mono {A} (Q Q' : list Output -> result fault A -> Prop) p :
  (forall outs r, Q outs r -> Q' outs r) -> says Q p -> says Q' p.
Proof. intros HQ. apply ends_mono. intros r (outs & res & -> & Hq). eauto. Qed.

Lemma says_and {A} (Q Q' : list Output -> result fault A -> Prop) p :
  says Q p -> says Q' p -> says (fun outs r => Q outs r /\ Q' outs r) p.
Proof.
  intros Hq Hq'. eapply ends_mono; [|exact (ends_and _ _ _ _ Hq Hq')].
  intros r [(outs & res & -> & HQ) (outs' & res' & [= <- <-] & HQ')]. eauto.
Qed.

Lemma says_ret {A} (a : A) (Q : list Output -> result fault A -> Prop) : Q [] (Ok a) -> says Q (mret a).
Proof. intros HQ. exists [], (Ok a). done. Qed.

Lemma says_throw {A} e (Q : list Output -> result fault A -> Prop) : Q [] (Err e) -> says Q (throw e).
Proof. intros HQ. exists [], (Err e). done. Qed.

Lemma says_say o Q : Q [o] (Ok ()) -> says Q (say o).
Proof. intros HQ. exists [o], (Ok ()). done. Qed.

Lemma says_lift {A} (r : result fault A) Q : Q [] r -> says Q (say_lift r).
Proof. intros HQ. exists [], r. done. Qed.

Lemma says_hear {A} (p : Prog A) (Q : list Output -> result fault A -> Prop) :
  ends possible (Q []) p -> says Q (hear p).
Proof.
  intros Hp. apply ends_bind, ends_attempt. eapply ends_mono; [|exact Hp].
  intros r Hr. apply ends_ret. by exists [], r.
Qed.

Lemma says_hear_any {A} (p : Prog A) (Q : list Output -> result fault A -> Prop) :
  (forall r, Q [] r) -> says Q (hear p).
Proof. intros HQ. by apply says_hear, ends_any. Qed.

Lemma says_bind {A B} (p : Talk A) (f : A -> Talk B) Q :
  says (fun outs r => match r with
                      | Ok a => says (fun outs' r' => Q (outs ++ outs') r') (f a)
                      | Err e => Q outs (Err e)
                      end) p ->
  says Q (p ≫= f).
Proof.
  intros Hp. apply ends_bind. eapply ends_mono; [|exact Hp].
  intros r (outs & [a|e] & -> & Hq); simpl.
  - apply ends_bind. eapply ends_mono; [|exact Hq]. intros r (outs' & r' & -> & Hq').
    apply ends_ret. eauto.
  - eauto.
Qed.

Lemma says_handle {A} (p : Talk A) h Q :
  says (fun outs r => match r with
                      | Ok a => Q outs (Ok a)
                      | Err e => says (fun outs' r' => Q (outs ++ outs') r') (h e)
                      end) p ->
  says Q (handle p h).
Proof.
  intros Hp. apply ends_bind. eapply ends_mono; [|exact Hp].
  intros r (outs & [a|e] & -> & Hq); simpl; [eauto|].
  apply ends_bind. eapply ends_mono; [|exact Hq]. intros r (outs' & r' & -> & Hq').
  apply ends_ret. eauto.
Qed.

Lemma says_settled {A} (p : Talk A) Q :
  says (fun outs r => Q outs (Ok r)) p -> says Q (settled p).
Proof.
  intros Hp. apply ends_bind. eapply ends_mono; [|exact Hp].
  intros r (outs & res & -> & Hq). apply ends_ret. eauto.
Qed.

(** An output that every element allows. *)
Lemma says_sayAll {A} (f : A -> Talk ()) l (P : Output -> Prop) :
  (forall x, says (fun outs _ => Forall P outs) (f x)) ->
  says (fun outs _ => Forall P outs) (sayAll f l).
Proof.
  intros Hf. induction l as [|x l IH]; simpl; [by apply says_ret|].
  apply says_bind. eapply says_mono; [|apply Hf]. intros outs [[]|e] Ho; [|done].
  eapply says_mono; [|exact IH]. intros outs' r Ho'. by apply Forall_app.
Qed.

(** A single event. *)
Lemma says_createEvent `{Zod} `{ZodDatetime} d Q :
  (forall event, Q [] (Ok event)) -> (forall e, Q [] (Err e)) -> says Q (createEvent d).
Proof. intros Ho He. apply says_hear_any. by intros [event|e]. Qed.

Lemma says_emit room event Q : Q [Emit room event] (Ok ()) -> says Q (emit room event).
Proof. apply says_say. Qed.
End Says.

(** ** Running in a steady environment *)

Section Steady.
Context `{Redis} (x : Ext).

Lemma steady_talk_bind {A B} (p : Talk A) (f : A -> Talk B) w :
  steady x (talk (p ≫= f)) w =
    match steady x (talk p) w with
    | (Ok (outs, Ok a), w') =>
        match steady x (talk (f a)) w' with
        | (Ok (outs', r), w'') => (Ok (outs ++ outs', r), w'')
        | (Err e, w'') => (Err e, w'')
        end
    | (Ok (outs, Err e), w') => (Ok (outs, Err e), w')
    | (Err e, w') => (Err e, w')
    end.
Proof.
  change (talk (p ≫= f)) with
    (r ← talk p; match r.2 with
                 | Ok a => r' ← talk (f a); mret (r.1 ++ r'.1, r'.2)
                 | Err e => mret (r.1, Err e) end).
  rewrite (steady_bind x (talk p)). destruct (steady x (talk p) w) as [[[outs [a|e]]|e] w']; simpl; try done.
  rewrite (steady_bind x (talk (f a))). by destruct (steady x (talk (f a)) w') as [[[outs' r]|e] w''].
Qed.

Lemma steady_hear {A} (p : Prog A) w :
  steady x (talk (hear p)) w = (Ok ([], (steady x p w).1), (steady x p w).2).
Proof.
  unfold hear. cbn [talk]. rewrite (steady_bind x (attempt p)), steady_attempt. done.
Qed.

Lemma steady_handle {A} (p : Talk A) h w :
  steady x (talk (handle p h)) w =
    match steady x (talk p) w with
    | (Ok (outs, Err e), w') =>
        match steady x (talk (h e)) w' with
        | (Ok (outs', r), w'') => (Ok (outs ++ outs', r), w'')
        | (Err e, w'') => (Err e, w'')
        end
    | r => r
    end.
Proof.
  unfold handle. cbn [talk].
  rewrite (steady_bind x (talk p)). destruct (steady x (talk p) w) as [[[outs [a|e]]|e] w']; simpl; try done.
  rewrite (steady_bind x (talk (h e))). by destruct (steady x (talk (h e)) w') as [[[outs' r]|e'] w''].
Qed.
End Steady.

(** ** What commands announce and reply *)

(** Commands leave the answer, and the fate of the socket, to the gateway. *)
Definition announces (o : Output) : Prop :=
  match o with
  | Emit _ _ | JoinRoom _ | CleanUpRoom _ | ScheduleDeadline _ | CancelDeadline _ => True
  | EmitSocket _ | Acknowledge _ | DisconnectSocket => False
  end.

Section Replies.
Context `{Redis} (possible : Ext -> Prop).

(** It only announces, and what it returns satisfies [P]. *)
Definition replies {A} (P : A -> Prop) (p : Talk A) : Prop :=
  says possible (fun outs r => Forall announces outs /\ forall a, r = Ok a -> P a) p.

Lemma replies_ret {A} (P : A -> Prop) a : P a -> replies P (mret a).
Proof. intros HP. apply says_ret. split; [done|]. by intros ? [= <-]. Qed.

Lemma replies_throw {A} (P : A -> Prop) e : replies P (throw e).
Proof. apply says_throw. by split. Qed.

Lemma replies_say o : announces o -> replies (fun _ => True) (say o).
Proof. intros Ho. apply says_say. split; [by constructor|done]. Qed.

Lemma replies_lift {A} (r : result fault A) : replies (fun _ => True) (say_lift r).
Proof. by apply says_lift. Qed.

Lemma replies_hear {A} (p : Prog A) : replies (fun _ => True) (hear p).
Proof. by apply says_hear_any. Qed.

Lemma replies_bind {A B} (P : A -> Prop) (Q : B -> Prop) (p : Talk A) (f : A -> Talk B) :
  replies P p -> (forall a, P a -> replies Q (f a)) -> replies Q (p ≫= f).
Proof.
  intros Hp Hf. apply says_bind. eapply says_mono; [|exact Hp]. intros outs [a|e] [Ho HP]; [|done].
  eapply says_mono; [|by apply Hf, HP]. intros outs' r [Ho' HQ]. split; [|done]. by apply Forall_app.
Qed.

Lemma replies_weaken {A} (P Q : A -> Prop) p : (forall a, P a -> Q a) -> replies P p -> replies Q p.
Proof. intros HPQ. apply says_mono. intros outs r [Ho HP]. split; [done|]. auto. Qed.

Lemma replies_handle {A} (P : A -> Prop) p h :
  replies P p -> (forall e, replies P (h e)) -> replies P (handle p h).
Proof.
  intros Hp Hh. apply says_handle. eapply says_mono; [|exact Hp]. intros outs [a|e] [Ho HP]; [done|].
  eapply says_mono; [|apply Hh]. intros outs' r [Ho' HP']. split; [|done]. by apply Forall_app.
Qed.

Lemma replies_settled {A} (p : Talk A) : replies (fun _ => True) p -> replies (fun _ => True) (settled p).
Proof. intros Hp. apply says_settled. eapply says_mono; [|exact Hp]. intros outs r [Ho _]. by split. Qed.

Lemma replies_sayAll {A} (f : A -> Talk ()) l :
  (forall x, replies (fun _ => True) (f x)) -> replies (fun _ => True) (sayAll f l).
Proof.
  intros Hf. induction l as [|x l IH]; simpl; [by apply replies_ret|].
  eapply replies_bind; [apply Hf|]. intros _ _. exact IH.
Qed.

Lemma replies_emit room event : replies (fun _ => True) (emit room event).
Proof. by apply replies_say. Qed.
End Replies.

#[local] Hint Resolve replies_ret replies_throw replies_hear replies_lift replies_emit replies_settled replies_sayAll : replies.
#[local] Hint Extern 1 (replies _ _ (say _)) => apply replies_say; exact I : replies.
#[local] Hint Extern 2 (replies _ _ (mret _)) => apply (replies_ret _ (fun _ => True)); exact I : replies.
#[local] Hint Extern 1 (replies _ _ (createEvent _)) => apply replies_hear : replies.
#[local] Hint Extern 1 (replies _ _ (toGuest _ _)) => apply replies_emit : replies.
#[local] Hint Extern 1 (replies _ _ (toGame _ _)) => apply replies_emit : replies.

(** Goes through a program of pieces about which nothing else is known. *)
Ltac quiet :=
  repeat first
    [ eapply replies_bind; [solve [eauto with replies]|intros ? _]
    | solve [eauto with replies]
    | apply (replies_bind _ (fun _ => True)); [solve [quiet]|intros ? _]
    | case_match ].

Section Commands.
Context `{Zod} `{ZodUuid} `{ZodDatetime} `{ChessJs} `{Prisma} `{Redis} `{JsonText}.
Context (config : AppConfig) (drainRetryAfterMs : positive) (possible : Ext -> Prop).

Notation quiet_talk p := (replies possible (fun _ => True) p).

Lemma gameEnded_quiet submission : quiet_talk (gameEnded submission).
Proof. unfold gameEnded. cbv zeta. quiet. Qed.
Lemma playerDisconnected_quiet event : quiet_talk (playerDisconnected event).
Proof. unfold playerDisconnected. quiet. Qed.
Lemma playerReconnected_quiet event : quiet_talk (playerReconnected event).
Proof. unfold playerReconnected. quiet. Qed.
Lemma publishStarted_quiet started : quiet_talk (publishStarted started).
Proof. unfold publishStarted. quiet. Qed.
Lemma publishAccepted_quiet accepted : quiet_talk (publishAccepted accepted).
Proof. unfold publishAccepted. quiet. Qed.

Lemma publishMatchFound_quiet allocation player opponent :
  quiet_talk (publishMatchFound allocation player opponent).
Proof. unfold publishMatchFound. quiet. Qed.
#[local] Hint Resolve gameEnded_quiet playerDisconnected_quiet playerReconnected_quiet publishStarted_quiet
  publishAccepted_quiet publishMatchFound_quiet : replies.

Lemma publishAllocation_quiet allocation : quiet_talk (publishAllocation allocation).
Proof. unfold publishAllocation. quiet. Qed.
#[local] Hint Resolve publishAllocation_quiet : replies.

Lemma publishEffects_quiet effects : quiet_talk (publishEffects effects).
Proof.
  unfold publishEffects. eapply replies_bind; [apply replies_sayAll; intros x; quiet|intros _ _].
  eapply replies_bind; [apply replies_sayAll; intros x; quiet|intros _ _]. quiet.
Qed.

Lemma announcing_quiet {A} (service : Prog A) announce :
  (forall a, quiet_talk (announce a)) -> quiet_talk (announcing service announce).
Proof.
  intros Ha. unfold announcing. eapply replies_bind; [apply replies_hear|intros a _].
  eapply replies_bind; [apply Ha|intros _ _]. by apply replies_ret.
Qed.

Lemma resign_quiet input : quiet_talk (resign config input).
Proof. apply announcing_quiet. intros submission. unfold endAnnounced. quiet. Qed.
Lemma disconnected_quiet guest : quiet_talk (disconnected config guest).
Proof. apply announcing_quiet. intros event. quiet. Qed.
Lemma reconnected_quiet guest : quiet_talk (reconnected guest).
Proof. apply announcing_quiet. intros event. quiet. Qed.
#[local] Hint Resolve publishEffects_quiet resign_quiet disconnected_quiet reconnected_quiet : replies.

(** The types of the answers to a command. *)
Definition answers_command (event : ClientEvent) (p : ServerPayload) : Prop :=
  match event, p with
  | QueueJoin, QueueJoined (Some _) _ => True
  | QueueLeave, QueueLeft LeftRequested => True
  | GameReady _ _, GameSnapshot _ => True
  | GameSync _ _, GameSnapshot _ => True
  | GameSync None _, SessionReady None _ => True
  | MoveSubmit _ _ _ _ _ _, MoveAccepted _ => True
  | GameResign _ _, GameEnded _ => True
  | HeartbeatPing _, HeartbeatPong _ _ => True
  | _, _ => False
  end.

Definition fitting (event : ClientEvent) (result : CommandResult) : Prop :=
  answers_command event (cr_payload result) /\
  Codec.versioned (cr_payload result) = Some (negb (isNull (cr_gameVersion result))).

Lemma execute_replies isReady event identity :
  replies possible (fitting (ce_event event)) (execute config drainRetryAfterMs isReady event identity).
Proof.
  unfold execute. destruct (ce_event event) as [| |gid v|mid gid v from to promotion|gid v|gid v|v].
  - unfold joinQueue. destruct isReady; [|apply replies_throw]. cbn [negb].
    quiet. by apply replies_ret.
  - unfold leaveQueue. cbv zeta. quiet. by apply replies_ret.
  - unfold readyGame, joinGameRoom. cbv zeta. quiet; by apply replies_ret.
  - unfold submitMove. eapply replies_bind; [apply replies_hear|intros submission _].
    eapply replies_bind; [|intros _ _; by apply replies_ret]. quiet.
  - unfold resignGame. quiet. by apply replies_ret.
  - unfold syncGame, joinGameRoom. cbv zeta. quiet; apply replies_ret; by destruct gid.
  - apply replies_throw.
Qed.

Lemma finallyDisconnected_quiet guest : quiet_talk (finallyDisconnected config guest).
Proof. unfold finallyDisconnected. quiet. Qed.
Lemma reconnectedGuest_quiet guest : quiet_talk (reconnectedGuest guest).
Proof. unfold reconnectedGuest. quiet. Qed.
End Commands.

(** ** Announcements *)

Section Announcements.
Context `{Zod} `{ZodUuid} `{ZodDatetime} `{ChessJs} `{Prisma} `{Redis} `{JsonText}.
Context (config : AppConfig) (possible : Ext -> Prop).
#[local] Existing Instance delivery.

Lemma says_createEvent_made d Q :
  Codec.shape_ok (dr_payload d) (dr_subject d) ->
  (forall event, made d event -> Q [] (Ok event)) -> (forall e, Q [] (Err e)) ->
  says possible Q (createEvent d).
Proof.
  intros Hs Ho He. apply says_hear. unfold createServerEvent.
  apply ends_bind, ends_randomUUID. intros x _. apply ends_bind, ends_clock. intros x' _.
  apply ends_lift. unfold parsed. destruct (serverEnvelopeSchema _) as [s|] eqn:E; [|apply He].
  apply Ho. pose proof (Codec.same_server_event (stamped d (x_uuids x).1 (x_now x')) s Hs E) as ->.
  unfold made. split; [by eapply Codec.serverEnvelopeSchema_sound|done].
Qed.

(** What everybody hears of a move. *)
Definition heard_start (started : option StartedGame) (outs : list Output) : Prop :=
  match started with
  | None => outs = []
  | Some s => exists event, made (started_draft s) event /\ outs = [Emit (gameRoom (sg_gameId s)) event]
  end.

Definition heard_end (ended : option EndedGame) (guests : string * string) (outs : list Output) : Prop :=
  match ended with
  | None => outs = []
  | Some g => exists event, made (ended_draft g) event /\
      outs = [Emit (guestRoom guests.1) event; Emit (guestRoom guests.2) event;
              CancelDeadline (eg_gameId g); CleanUpRoom (gameRoom (eg_gameId g))]
  end.

Definition heard_move (submission : MoveSubmission) (outs : list Output) : Prop :=
  if ms_duplicate submission then outs = [] else
  exists started event ended,
    outs = started ++ Emit (gameRoom (am_gameId (ms_accepted submission))) event :: ended /\
    heard_start (ms_started submission) started /\
    made (accepted_draft (ms_accepted submission)) event /\
    heard_end (ms_ended submission) (ms_guestSessionIds submission) ended.

Lemma publishStarted_says started :
  says possible (fun outs r => r = Ok () -> heard_start (Some started) outs) (publishStarted started).
Proof.
  unfold publishStarted. apply says_bind, says_createEvent_made; [simpl; eauto|..|done].
  intros event He. apply says_emit. simpl. eauto.
Qed.

Lemma publishAccepted_says accepted :
  says possible (fun outs r => r = Ok () ->
    exists event, made (accepted_draft accepted) event /\ outs = [Emit (gameRoom (am_gameId accepted)) event])
    (publishAccepted accepted).
Proof.
  unfold publishAccepted. apply says_bind, says_createEvent_made; [simpl; eauto|..|done].
  intros event He. apply says_emit. simpl. eauto.
Qed.

Lemma gameEnded_says submission :
  says possible (fun outs r => r = Ok () ->
    heard_end (Some (ts_ended submission)) (ts_guestSessionIds submission) outs) (gameEnded submission).
Proof.
  unfold gameEnded. cbv zeta. apply says_bind, says_createEvent_made; [simpl; eauto|..|done].
  intros event He. apply says_bind, says_emit, says_bind, says_emit, says_bind, says_say, says_say.
  intros _. exists event. done.
Qed.


(** The end of a game whose record is longer than the schema of the message allows is not
    announced: the announcement throws. *)
Lemma long_games_end_unheard submission :
  (16384 < js_length (eg_pgn (ts_ended submission)))%nat ->
  says possible (fun outs r => outs = [] /\ exists e, r = Err e) (gameEnded submission).
Proof.
  intros Hlong. unfold gameEnded. cbv zeta.
  apply says_bind, says_createEvent_made; [simpl; eauto| |eauto].
  intros event (Hok & Hp & _). destruct Hok as (_ & _ & _ & _ & Hok). rewrite Hp in Hok.
  destruct Hok as (_ & _ & [_ Hshort]). cbn [ge_pgn endedPayload] in Hshort. lia.
Qed.
End Announcements.
End Realtime.
