(* ===== verification/Gateway.v ===== *)
(** * The gateway

    [realtime.gateway.ts] and [active-game-lookup.service.ts]: handshakes, what happens
    to a socket when it connects, sends a command, and disconnects. *)

From S2P Require Export Realtime.
Local Open Scope string_scope.
Local Open Scope list_scope.
Local Open Scope Z_scope.

Module Gateway.
Import Protocol RealtimeProtocol Realtime.

Section Gateway.
Context `{Zod} `{ZodUuid} `{ZodDatetime} `{ChessJs} `{Prisma} `{Redis} `{!RedisCounters} `{JsonText}.
Context `{NodeCrypto} `{NodeHash} `{ErrorMessages}.
Context (config : AppConfig) (limits : RateLimits.RateLimitConfig) (connectionLimit : positive).
Context (tokens : Tokens.JwtTokenService) (instanceId : string) (maxPayloadBytes drainGraceMs : positive).

(** ** active-game-lookup.service.ts *)

Definition findActiveGameId (guest : string) : Prog (option string) :=
  query (fun _ db => Ok (assignments db !! guest)).

(** ** Handshakes *)

Inductive Handshake : Type :=
| LetIn (data : Connections.SocketData)
| RefusedWith (code : ProtocolErrorCode) (correlationId : string) (retryAfterMs : option Z)
    (retryable : bool).

Definition drainingHandshakeError (correlationId : string) : Handshake :=
  RefusedWith PE_SERVICE_UNAVAILABLE correlationId (Some (Zpos drainGraceMs)) true.

(** The function given to [server.use]; [header] is [x-correlation-id]. *)
Definition handshake (isReady : bool) (header : option json) (auth : json) (socketId address : string)
    : Prog Handshake :=
  correlation ← correlationId header;
  if negb isReady then mret (drainingHandshakeError correlation) else
  catch
    (data ← Connections.authenticate config connectionLimit tokens instanceId auth socketId address
              correlation;
     mret (LetIn data))
    (fun error =>
       let mapped := map_error error in
       mret (RefusedWith (pe_code (mp_error mapped)) correlation None
               (pe_retryable (mp_error mapped)))).

(** ** Events for one socket *)

(** A socket that reaches the handlers was admitted: it has its data. *)
Definition Socket : Type := Connections.SocketData.
Definition identity (socket : Socket) : AuthenticatedSocketIdentity := Connections.sd_identity socket.
Definition guest_of (socket : Socket) : string := si_guestSessionId (identity socket).

Definition sessionReadyPayload (identity : AuthenticatedSocketIdentity) (activeGameId : option string)
    : ServerPayload := SessionReady activeGameId identity.

Definition emitServerError (error : fault) (correlationId : string) : Talk () :=
  event ← createEvent (mkDraft (Some correlationId) (ServerError (mp_error (map_error error))) no_subject);
  say (EmitSocket event).

Definition drain_advisory : ServerEventDraft :=
  draft (ServerError (mkErrorPayload None PE_SERVICE_UNAVAILABLE
                        "This server is restarting; reconnect to another instance."
                        (Some (Zpos drainGraceMs)) true)).

Definition emitDrainAdvisory : Talk () :=
  event ← createEvent drain_advisory; say (EmitSocket event).

Definition sessionReadyEvent (identity : AuthenticatedSocketIdentity) (correlationId : option string)
    : Talk ServerEventEnvelope :=
  activeGameId ← hear (findActiveGameId (si_guestSessionId identity));
  createEvent (mkDraft correlationId (sessionReadyPayload identity activeGameId) no_subject).

(** ** Commands *)

Definition heartbeat (socket : Socket) : Prog (Z * ()) :=
  both (now ← clock; Presence.refresh config (guest_of socket) (Connections.sd_socketMember socket) now)
       (now ← clock; Connections.refresh config (Connections.sd_addressHash socket)
                       (Connections.sd_socketMember socket) now).

(** Both refreshes of [Promise.allSettled]. *)
Definition refresh_settled (socket : Socket) : Prog () :=
  _ ← attempt (now ← clock; Presence.refresh config (guest_of socket) (Connections.sd_socketMember socket) now);
  _ ← attempt (now ← clock; Connections.refresh config (Connections.sd_addressHash socket)
                              (Connections.sd_socketMember socket) now);
  mret ().

Definition executeEvent (isReady : bool) (socket : Socket) (event : ClientEventEnvelope)
    : Talk CommandResult :=
  match ce_event event with
  | HeartbeatPing _ =>
      _ ← hear (heartbeat socket);
      now ← hear clock;
      mret (mkCommandResult (HeartbeatPong (Zpos (PRESENCE_TTL_MS config)) now) None)
  | GameSync gameId _ =>
      _ ← hear (refresh_settled socket);
      match gameId with
      | Some _ => execute config drainGraceMs isReady event (identity socket)
      | None =>
          activeGameId ← hear (findActiveGameId (guest_of socket));
          match activeGameId with
          | None => mret (mkCommandResult (sessionReadyPayload (identity socket) None) None)
          | Some _ => execute config drainGraceMs isReady event (identity socket)
          end
      end
  | _ => execute config drainGraceMs isReady event (identity socket)
  end.

(** [rawCorrelationId(raw) ?? socket.data.correlationId] *)
Definition rawCorrelationId (rawEnvelope : option json) (socket : Socket) : option json :=
  match rawEnvelope ≫= fun raw => key_of raw "correlationId" with
  | Some JNull | None => Some (JStr (Connections.sd_correlationId socket))
  | Some value => Some value
  end.

(** The body of the [try] of [handleIncoming]. *)
Definition command_body (isReady : bool) (socket : Socket) (eventName : string)
    (rawEnvelope : option json) (acknowledgment : bool) (correlation : string) : Talk () :=
  if negb acknowledgment
  then throw (refused PE_INVALID_PAYLOAD "Socket command acknowledgment is required") else
  event ← say_lift (parseClientEvent (Zpos maxPayloadBytes) eventName rawEnvelope);
  _ ← hear (RateLimits.consume limits (ce_event event) (guest_of socket));
  result ← executeEvent isReady socket event;
  ack ← say_lift (createSuccessAck (ce_eventId event) correlation (cr_payload result) (cr_gameVersion result));
  say (Acknowledge ack).

Definition command_failed (acknowledgment : bool) (requestId correlation : string) (error : fault) : Talk () :=
  let mapped := map_error error in
  if acknowledgment then
    ack ← say_lift (createFailureAck requestId correlation (mp_error mapped) (mp_responseType mapped)
                      (mp_gameVersion mapped));
    say (Acknowledge ack)
  else emitServerError error correlation.

(** [rawEnvelope] is the first argument of the event, if there is one; [acknowledgment]
    says whether there are two, and the second is a function. *)
Definition handleIncoming (isReady : bool) (socket : Socket) (eventName : string)
    (rawEnvelope : option json) (acknowledgment : bool) : Talk () :=
  correlation ← hear (correlationId (rawCorrelationId rawEnvelope socket));
  requestId ← hear (requestEventId rawEnvelope);
  handle (command_body isReady socket eventName rawEnvelope acknowledgment correlation)
    (command_failed acknowledgment requestId correlation).

(** ** Connections *)

Definition emitInitialGameSnapshot (isReady : bool) (socket : Socket) (gameId : string) : Talk () :=
  eventId ← hear randomUUID;
  timestamp ← hear clock;
  result ← execute config drainGraceMs isReady
             (mkClientEnvelope None (GameSync (Some gameId) None) eventId timestamp) (identity socket);
  match cr_payload result, cr_gameVersion result with
  | GameSnapshot payload, Some gameVersion =>
      snapshot ← createEvent (mkDraft (Some (Connections.sd_correlationId socket)) (GameSnapshot payload)
                                (of_game gameId gameVersion));
      say (EmitSocket snapshot)
  | _, _ => throw (EApp EOther)
  end.

Definition initializeSocket (isReady : bool) (socket : Socket) : Talk () :=
  handle
    (_ ← say (JoinRoom (guestRoom (guest_of socket)));
     _ ← reconnectedGuest (guest_of socket);
     event ← sessionReadyEvent (identity socket) (Some (Connections.sd_correlationId socket));
     _ ← say (EmitSocket event);
     match se_payload event with
     | SessionReady (Some gameId) _ => emitInitialGameSnapshot isReady socket gameId
     | _ => mret ()
     end)
    (fun error =>
       _ ← emitServerError error (Connections.sd_correlationId socket);
       say DisconnectSocket).

Definition handleConnection (isReady : bool) (socket : Socket) : Talk () :=
  if negb isReady then _ ← emitDrainAdvisory; say DisconnectSocket
  else initializeSocket isReady socket.

(** Errors are logged. *)
Definition cleanUpSocket (socket : Socket) : Talk () :=
  presenceResult ← settled (hear (now ← clock;
    Presence.remove (guest_of socket) (Connections.sd_socketMember socket) now));
  _ ← settled (hear (Connections.release (Connections.sd_addressHash socket)
                       (Connections.sd_socketMember socket)));
  match presenceResult with
  | Ok 0 => handle (finallyDisconnected config (guest_of socket)) (fun _ => mret ())
  | _ => mret ()
  end.

(** ** Backpressure *)

Context (maxSendQueuePackets : positive).

(** Before each packet is sent: [depth] is the length of the socket's write buffer,
    [closing] its [backpressureClosing]. *)
Definition enforceBackpressure (depth : Z) (closing : bool) : bool * list Output :=
  if (depth <? Zpos maxSendQueuePackets) || closing then (closing, [])
  else (true, [DisconnectSocket]).
End Gateway.

(** * Theory *)

(** zod takes every version 4 UUID for one. *)
Class ZodUuidLaws `{Zod} : Prop := { zod_takes_v4 s : UUID_V4 s = true -> zod_uuidv4 s = true }.

(** Error messages are short texts. *)
Class ErrorMessagesLaws `{ErrorMessages} : Prop := { message_fits e : fits 1 256 (error_message e) }.

(** ** Ids *)

Lemma chars_toLower s : chars (toLower s) = map lower (chars s).
Proof. unfold chars. induction s as [|c s IH]; simpl; [done|]. by f_equal. Qed.

Lemma matches_lower ps l :
  (forall p c, In p ps -> p c = true -> p (lower c) = true) ->
  matches ps l = true -> matches ps (map lower l) = true.
Proof.
  revert l. induction ps as [|p ps IH]; intros [|c l] Hp; simpl; try done.
  intros [Hc Hl]%andb_true_iff. rewrite (Hp p c) by (simpl; auto). simpl. apply IH; [|done].
  intros p' c' Hin. apply Hp. simpl. auto.
Qed.

Lemma hex_lower c : hex c = true -> hex (lower c) = true.
Proof. destruct c as [[] [] [] [] [] [] [] []]; vm_compute; auto. Qed.

Lemma UUID_V4_lower s : UUID_V4 s = true -> UUID_V4 (toLower s) = true.
Proof.
  unfold UUID_V4. rewrite chars_toLower. apply matches_lower. intros p c Hin.
  unfold uuid_classes in Hin. simpl in Hin.
  repeat destruct Hin as [<-|Hin]; try contradiction; try apply hex_lower;
    destruct c as [[] [] [] [] [] [] [] []]; vm_compute; auto.
Qed.

Section Ids.
Context `{Zod} `{!ZodUuidLaws} `{Redis}.

Lemma uuid_lower s : UUID_V4 s = true -> Codec.uuid (toLower s).
Proof. intros Hs. by apply zod_takes_v4, UUID_V4_lower. Qed.

(** A valid id is answered in lower case, anything else with a new one. *)
Definition echoes (value : option json) (id : string) : Prop :=
  Codec.uuid id /\ forall s, value = Some (JStr s) -> UUID_V4 s = true -> id = toLower s.

Lemma correlationId_ends value :
  ends fresh (fun r => exists id, r = Ok id /\ echoes value id) (correlationId value).
Proof.
  assert (forall Q, (forall id, Codec.uuid id -> Q (Ok id)) -> ends fresh Q randomUUID) as Hnew.
  { intros Q HQ. apply ends_randomUUID. intros x [Hx _]. by apply HQ. }
  unfold correlationId. destruct value as [[| | |s| |]|];
    try (apply Hnew; intros id Hid; exists id; split; [done|]; split; [done|]; intros ? [=]).
  destruct (UUID_V4 s) eqn:Es.
  - apply ends_ret. eexists. split; [done|]. split; [by apply uuid_lower|]. by intros ? [= ->].
  - apply Hnew. intros id Hid. exists id. split; [done|]. split; [done|]. intros ? [= ->]. congruence.
Qed.

Lemma correlationId_steady value x w :
  fresh x -> exists id, steady x (correlationId value) w = (Ok id, w) /\ echoes value id.
Proof.
  intros Hx. pose proof (ends_steady _ _ _ x w (correlationId_ends value) Hx) as (id & Hid & He).
  exists id. split; [|done]. rewrite <- Hid.
  unfold correlationId. destruct value as [[| | |s| |]|]; try done. by destruct (UUID_V4 s).
Qed.

Lemma requestEventId_ends raw :
  ends fresh (fun r => exists id, r = Ok id /\ echoes (raw ≫= fun raw => key_of raw "eventId") id)
    (requestEventId raw).
Proof. apply (correlationId_ends (raw ≫= fun raw => key_of raw "eventId")). Qed.
End Ids.

(** ** Every command is answered *)

Definition answers (outs : list Output) : list RealtimeAck :=
  omap (fun o => match o with Acknowledge ack => Some ack | _ => None end) outs.

Lemma answers_app outs outs' : answers (outs ++ outs') = answers outs ++ answers outs'.
Proof. apply omap_app. Qed.

Lemma announces_answers outs : Forall announces outs -> answers outs = [].
Proof. induction 1 as [|o outs Ho _ IH]; [done|]. simpl. by destruct o. Qed.

(** The numbers and texts of an error are ones the protocol can carry. *)
Definition expressible (error : fault) : Prop :=
  match error with
  | ERealtime e =>
      fits 1 256 (re_message e) /\ if_any counts (re_authoritativeVersion e) /\
      if_any Codec.positive_int (re_retryAfterMs e) /\ if_any counts (re_gameVersion e)
  | EApp (EGameService e) => if_any counts (gse_authoritativeVersion e)
  | _ => True
  end.

Lemma map_error_ok `{ErrorMessagesLaws} error :
  expressible error ->
  Codec.error_ok (mp_error (map_error error)) /\ if_any counts (mp_gameVersion (map_error error)).
Proof.
  destruct error as [[| e | | | |] | | | | | | | | | e |]; simpl; unfold Codec.error_ok, fits; simpl;
    try (intros; split_and!; done || lia || apply message_fits). tauto.
Qed.

Section Answers.
Context `{Zod} `{!ZodUuidLaws} `{ZodUuid} `{ZodDatetime} `{ChessJs} `{Prisma} `{Redis} `{!RedisCounters}.
Context `{JsonText} `{NodeCrypto} `{NodeHash} `{ErrorMessages} `{!ErrorMessagesLaws}.
Context (config : AppConfig) (limits : RateLimits.RateLimitConfig) (maxPayloadBytes drainGraceMs : positive).

Notation executeEvent := (executeEvent config drainGraceMs).
Notation command_body := (command_body config limits maxPayloadBytes drainGraceMs).
Notation handleIncoming := (handleIncoming config limits maxPayloadBytes drainGraceMs).

Lemma executeEvent_replies isReady socket event :
  replies fresh (fitting (ce_event event)) (executeEvent isReady socket event).
Proof.
  pose proof (execute_replies config drainGraceMs fresh isReady event (identity socket)) as Hx.
  unfold Gateway.executeEvent. destruct (ce_event event) as [| |gid v|mid gid v from to promotion|gid v|gid v|v] eqn:Ee;
    try exact Hx.
  - eapply replies_bind; [apply replies_hear|intros _ _]. destruct gid as [gid|]; [exact Hx|].
    eapply replies_bind; [apply replies_hear|intros active _]. destruct active; [exact Hx|].
    by apply replies_ret.
  - eapply replies_bind; [apply replies_hear|intros _ _].
    eapply replies_bind; [apply replies_hear|intros now _]. by apply replies_ret.
Qed.

(** What the callback is given; [E]: the errors a failure may stem from. *)
Definition answer_to (E : fault -> Prop) (socket : Socket) (name : string) (raw : option json) (ack : RealtimeAck) : Prop :=
  Codec.ack_ok ack /\
  match ack with
  | AckSuccess id correlation payload version =>
      exists event, parseClientEvent (Zpos maxPayloadBytes) name raw = Ok event /\
        id = ce_eventId event /\ answers_command (ce_event event) payload /\
        echoes (rawCorrelationId raw socket) correlation
  | AckFailure id correlation error type version =>
      echoes (raw ≫= fun raw => key_of raw "eventId") id /\
      echoes (rawCorrelationId raw socket) correlation /\
      exists fault, E fault /\ error = mp_error (map_error fault) /\ type = mp_responseType (map_error fault) /\
        version = mp_gameVersion (map_error fault)
  end.

Lemma command_body_says isReady socket name raw correlation :
  echoes (rawCorrelationId raw socket) correlation ->
  says fresh (fun outs r => match r with
                            | Ok _ => exists ack, answers outs = [ack] /\ forall E, answer_to E socket name raw ack
                            | Err _ => answers outs = []
                            end)
    (command_body isReady socket name raw true correlation).
Proof.
  intros Hcorr. unfold Gateway.command_body. cbn [negb]. apply says_bind, says_lift.
  destruct (parseClientEvent _ name raw) as [event|e] eqn:Ep; [|done].
  apply says_bind, says_hear_any. intros [[]|e]; [|done]. apply says_bind.
  eapply says_mono; [|apply executeEvent_replies].
  intros outs [result|e] [Ho Hr]; [|by apply announces_answers].
  destruct (Hr result eq_refl) as [Hanswer Hversion].
  apply says_bind, says_lift. destruct (createSuccessAck _ _ _ _) as [ack|e] eqn:Ea.
  - apply says_say. apply createSuccessAck_Ok in Ea as [-> Hok]; [|done].
    eexists. rewrite !answers_app, (announces_answers outs Ho). split; [done|]. intros E. split; [done|].
    exists event. done.
  - rewrite app_nil_r. by apply announces_answers.
Qed.

End Answers.
End Gateway.
