(* ===== verification/HttpApi.v ===== *)
(** * The HTTP endpoints

    [correlation-id.middleware.ts], [session.controller.ts], [session.schemas.ts],
    [session-auth.guard.ts] and [session-exception.filter.ts]; [recovery.controller.ts],
    [recovery.schemas.ts] and [recovery-exception.filter.ts]: what a request is answered,
    from the services and from their errors. *)

From S2P Require Export Realtime.
Local Open Scope string_scope.
Local Open Scope list_scope.
Local Open Scope Z_scope.

#[export] Instance SessionErrorCode_toString : ToString SessionErrorCode := fun code =>
  match code with
  | SE_BAD_REQUEST => "BAD_REQUEST"
  | SE_IDEMPOTENCY_KEY_REUSED => "IDEMPOTENCY_KEY_REUSED"
  | SE_INTERNAL_ERROR => "INTERNAL_ERROR"
  | SE_RATE_LIMITED => "RATE_LIMITED"
  | SE_SERVICE_UNAVAILABLE => "SERVICE_UNAVAILABLE"
  | SE_UNAUTHORIZED => "UNAUTHORIZED"
  end.

#[export] Instance RecoveryErrorCode_toString : ToString RecoveryErrorCode := fun code =>
  match code with RE_BAD_REQUEST => "BAD_REQUEST" | RE_RATE_LIMITED => "RATE_LIMITED" end.

Module HttpApi.
Import SessionServices RateLimits RealtimeProtocol Realtime.

(** ** Requests and responses *)

(** What the handlers read of a request: the headers [authorization], [cookie] and
    [idempotency-key], the body if it has one, [request.ip] and [socket.remoteAddress]. *)
Record HttpRequest : Type := mkHttpRequest {
  hr_auth : SessionRequest;
  hr_body : option json;
  hr_idempotencyKey : option string;
  hr_ip : option string;
  hr_remoteAddress : option string
}.

(** What becomes of the session cookie; its other options are fixed. *)
Inductive CookieChange : Type :=
| CookieKept
| CookieSet (token expires : string) (secure : bool)
| CookieCleared (secure : bool).

(** [rs_retryAfter] is the header [Retry-After], in seconds. *)
Record HttpResponse : Type := mkHttpResponse {
  rs_status : Z;
  rs_correlationId : string;
  rs_cookie : CookieChange;
  rs_retryAfter : option Z;
  rs_body : json
}.

(** What a handler has done to its response when it returns a body or fails to. *)
Record Answer : Type := mkAnswer {
  an_status : Z;
  an_cookie : CookieChange;
  an_body : result fault json
}.

(** ** Errors *)

Record HttpError : Type := mkHttpError {
  he_code : string;
  he_message : string;
  he_retryAfterMs : option Z;
  he_retryable : bool;
  he_status : Z
}.

(** [Math.max(1, Math.ceil(ms / 1000))] *)
Definition retry_seconds (ms : Z) : Z := Z.max 1 (- (- ms / 1000)).

Definition error_body (correlationId : string) (error : HttpError) : json :=
  JObj [("correlationId", JStr correlationId);
        ("error", JObj ([("code", JStr (he_code error)); ("message", JStr (he_message error));
                         ("retryable", JBool (he_retryable error))] ++
                        match he_retryAfterMs error with
                        | Some ms => [("retryAfterMs", JNum ms)]
                        | None => []
                        end))].

Definition failure (correlationId : string) (cookie : CookieChange) (error : HttpError) : HttpResponse :=
  mkHttpResponse (he_status error) correlationId cookie (retry_seconds <$> he_retryAfterMs error)
    (error_body correlationId error).

Definition STATUS_BY_CODE (code : SessionErrorCode) : Z :=
  match code with
  | SE_BAD_REQUEST => 400
  | SE_IDEMPOTENCY_KEY_REUSED => 409
  | SE_INTERNAL_ERROR => 500
  | SE_RATE_LIMITED => 429
  | SE_SERVICE_UNAVAILABLE => 503
  | SE_UNAUTHORIZED => 401
  end.

Section Errors.
Context `{ErrorMessages}.

(** [SessionExceptionFilter.catch] *)
Definition session_error (exception : fault) : HttpError :=
  match exception with
  | ESession code retryable retryAfterMs =>
      mkHttpError (toString code) (error_message exception) retryAfterMs retryable (STATUS_BY_CODE code)
  | _ => mkHttpError "INTERNAL_ERROR" "Session request could not be completed" None false 500
  end.

Definition internal_recovery_error : HttpError :=
  mkHttpError "INTERNAL_ERROR" "Recovery request could not be completed" None true 500.

(** [RecoveryExceptionFilter.map] *)
Definition recovery_error (exception : fault) : HttpError :=
  match exception with
  | ERecovery code retryable retryAfterMs =>
      mkHttpError (toString code) (error_message exception) retryAfterMs retryable
        (match code with RE_BAD_REQUEST => 400 | RE_RATE_LIMITED => 429 end)
  | ESession code retryable retryAfterMs =>
      mkHttpError (toString code) (error_message exception) retryAfterMs retryable
        (match code with SE_SERVICE_UNAVAILABLE => 503 | SE_UNAUTHORIZED => 401 | _ => 500 end)
  | EApp (EGameService e) =>
      match gse_code e with
      | GAME_NOT_FOUND => mkHttpError "GAME_NOT_FOUND" (error_message exception) None (gse_retryable e) 404
      | NOT_A_PLAYER => mkHttpError "NOT_A_PLAYER" (error_message exception) None (gse_retryable e) 403
      | DEPENDENCY_UNAVAILABLE =>
          mkHttpError "SERVICE_UNAVAILABLE" (error_message exception) None (gse_retryable e) 503
      | _ => internal_recovery_error
      end
  | EApp (EDatabase _ _) =>
      mkHttpError "SERVICE_UNAVAILABLE" "The authoritative game store is temporarily unavailable."
        None true 503
  | _ => internal_recovery_error
  end.
End Errors.

(** A guarded handler with its filter. *)
Definition respond `{Redis} (mapped : fault -> HttpError) (correlationId : string) (handler : Prog Answer)
    : Prog HttpResponse :=
  r ← attempt handler;
  mret (match r with
        | Ok answer =>
            match an_body answer with
            | Ok body => mkHttpResponse (an_status answer) correlationId (an_cookie answer) None body
            | Err error => failure correlationId (an_cookie answer) (mapped error)
            end
        | Err error => failure correlationId CookieKept (mapped error)
        end).

(** [CorrelationIdMiddleware.use]: the id of the request, as the log gave it. *)
Definition correlate `{Redis} (requestId : option string) : Prog string :=
  match requestId with
  | Some requestId => if RealtimeProtocol.UUID_V4 requestId then mret requestId else randomUUID
  | None => randomUUID
  end.

(** ** session.schemas.ts *)

(** [schema.parse(body)] *)
Definition checked {A} (schema : parser A) (body : json) : result fault json :=
  match schema body with Some _ => Ok body | None => Err (EApp EOther) end.

Definition emptySessionBodySchema : parser () := z_object [] (fun _ => Some ()).

Section Schemas.
Context `{Zod} `{ZodUuid} `{ZodDatetime}.

Definition guest_fields (f : list (string * json)) : option () :=
  _ ← z_field f "avatar" (z_string_length 1 128);
  _ ← z_field f "expiresAt" (z_string_where zod_datetime);
  _ ← z_field f "id" z_uuid;
  _ ← z_field f "name" (z_string_length 1 128);
  Some ().

Definition publicGuestSchema : parser () :=
  z_object ["avatar"; "expiresAt"; "id"; "issuedAt"; "name"] (fun f =>
    _ ← z_field f "issuedAt" (z_string_where zod_datetime);
    guest_fields f).

Definition createSessionResponseSchema : parser () :=
  z_object ["correlationId"; "guest"; "token"] (fun f =>
    _ ← z_field f "correlationId" z_uuid;
    _ ← z_field f "guest" (z_object ["avatar"; "expiresAt"; "id"; "name"] guest_fields);
    _ ← z_field f "token" z_string_min1;
    Some ()).

Definition renewSessionResponseSchema : parser () :=
  z_object ["correlationId"; "expiresAt"; "token"] (fun f =>
    _ ← z_field f "correlationId" z_uuid;
    _ ← z_field f "expiresAt" (z_string_where zod_datetime);
    _ ← z_field f "token" z_string_min1;
    Some ()).

Definition getSessionResponseSchema : parser () :=
  z_object ["correlationId"; "guest"] (fun f =>
    _ ← z_field f "correlationId" z_uuid;
    z_field f "guest" publicGuestSchema).

Definition resetSessionResponseSchema : parser () :=
  z_object ["correlationId"; "ok"] (fun f =>
    _ ← z_field f "correlationId" z_uuid;
    ok ← z_field f "ok" z_boolean;
    if (ok : bool) then Some () else None).

(** ** recovery.schemas.ts *)

Definition gameIdParameterSchema : parser string := z_uuidv4.

Definition activeGameResponseSchema : parser () :=
  z_object ["correlationId"; "gameId"] (fun f =>
    _ ← z_field f "correlationId" z_uuid;
    _ ← z_field f "gameId" (z_nullable z_uuidv4);
    Some ()).

(** The payload of a snapshot, extended. *)
Definition recoveredSnapshotResponseSchema : parser () := fun j =>
  match j with
  | JObj fields =>
      let own := ["correlationId"; "gameId"; "gameVersion"] in
      _ ← z_field fields "correlationId" z_uuid;
      _ ← z_field fields "gameId" z_uuidv4;
      _ ← z_field fields "gameVersion" z_int_nonnegative;
      _ ← gameSnapshotPayloadSchema (JObj (List.filter (fun f => negb (includes own f.1)) fields));
      Some ()
  | _ => None
  end.
End Schemas.

(** ** session.controller.ts *)

Section Controllers.
Context `{Zod} `{ZodUuid} `{ZodDatetime} `{ChessJs} `{Prisma} `{Redis} `{!RedisCounters} `{JsonText}.
Context `{NodeCrypto} `{NodeHash} `{!SessionPorts} `{ErrorMessages}.
Context (config : AppConfig) (limits : RateLimitConfig) (tokens : Tokens.JwtTokenService).
Context (cookieEnabled : bool) (cookieName : string) (secureCookie : bool).

Definition assertEmptyBody (body : option json) : result fault () :=
  match body ≫= emptySessionBodySchema with
  | Some _ => Ok ()
  | None => Err (ESession SE_BAD_REQUEST false None)
  end.

Definition clientAddress (request : HttpRequest) : string :=
  default (default "unknown" (hr_remoteAddress request)) (hr_ip request).

Definition setCookie (token expiresAt : string) : CookieChange :=
  if cookieEnabled then CookieSet token expiresAt secureCookie else CookieKept.

Definition clearCookie : CookieChange :=
  if cookieEnabled then CookieCleared secureCookie else CookieKept.

(** [date.toISOString()], which the services apply to what they return. *)
Definition instant (ms : Z) : result fault string :=
  match toISOString ms with Some s => Ok s | None => Err (EApp EOther) end.

Definition guest_json (guest : PublicGuestSession) (expiresAt : string)
    (issuedAt : list (string * json)) : json :=
  JObj ([("avatar", JStr (pg_avatar guest)); ("expiresAt", JStr expiresAt); ("id", JStr (pg_id guest))] ++
        issuedAt ++ [("name", JStr (pg_name guest))]).

(** [SessionAuthGuard], [ResetSessionAuthGuard] *)
Definition canActivate (request : HttpRequest) (allowRevoked : bool)
    : Prog (Tokens.AuthenticatedGuest * bool) :=
  authenticate tokens cookieName (hr_auth request) allowRevoked.

Definition create (random : nat -> nat -> Identity.Draw) (request : HttpRequest) (correlationId : string)
    : Prog Answer :=
  _ ← lift (assertEmptyBody (hr_body request));
  _ ← consume_session limits RateCreate (clientAddress request);
  result ← createSession tokens random (default "" (hr_idempotencyKey request));
  expiresAt ← lift (instant (pg_expiresAt (is_guest result)));
  mret (mkAnswer (if is_replayed result then 200 else 201) (setCookie (is_token result) expiresAt)
          (checked createSessionResponseSchema
             (JObj [("correlationId", JStr correlationId);
                    ("guest", guest_json (is_guest result) expiresAt []);
                    ("token", JStr (is_token result))]))).

Definition renew (request : HttpRequest) (correlationId : string) : Prog Answer :=
  '(identity, _) ← canActivate request false;
  _ ← lift (assertEmptyBody (hr_body request));
  _ ← consume_session limits RateRenew (Tokens.ag_guestSessionId identity);
  result ← renewSession tokens identity (default "" (hr_idempotencyKey request));
  expiresAt ← lift (instant (pg_expiresAt (is_guest result)));
  mret (mkAnswer 200 (setCookie (is_token result) expiresAt)
          (checked renewSessionResponseSchema
             (JObj [("correlationId", JStr correlationId); ("expiresAt", JStr expiresAt);
                    ("token", JStr (is_token result))]))).

Definition getCurrent (request : HttpRequest) (correlationId : string) : Prog Answer :=
  '(identity, _) ← canActivate request false;
  _ ← consume_session limits RateGet (Tokens.ag_guestSessionId identity);
  now ← clock;
  guest ← SessionServices.getCurrent identity now;
  expiresAt ← lift (instant (pg_expiresAt guest));
  issuedAt ← lift (instant (pg_issuedAt guest));
  mret (mkAnswer 200 CookieKept
          (checked getSessionResponseSchema
             (JObj [("correlationId", JStr correlationId);
                    ("guest", guest_json guest expiresAt [("issuedAt", JStr issuedAt)])]))).

Definition reset (request : HttpRequest) (correlationId : string) : Prog Answer :=
  '(identity, tokenWasRevoked) ← canActivate request true;
  _ ← lift (assertEmptyBody (hr_body request));
  _ ← consume_session limits RateReset (Tokens.ag_guestSessionId identity);
  _ ← resetSession tokens identity (default "" (hr_idempotencyKey request)) tokenWasRevoked;
  mret (mkAnswer 200 clearCookie
          (checked resetSessionResponseSchema
             (JObj [("correlationId", JStr correlationId); ("ok", JBool true)]))).

(** ** recovery.controller.ts *)

Definition active (request : HttpRequest) (correlationId : string) : Prog Answer :=
  '(identity, _) ← canActivate request false;
  _ ← consume_recovery limits RateActive (Tokens.ag_guestSessionId identity);
  gameId ← Services.activeGameId config (Tokens.ag_guestSessionId identity);
  mret (mkAnswer 200 CookieKept
          (checked activeGameResponseSchema
             (JObj [("correlationId", JStr correlationId);
                    ("gameId", match gameId with Some id => JStr id | None => JNull end)]))).

(** The payload, spread, with three fields more. *)
Definition recovered_json (recovered : Services.RecoveredGameSnapshot) (correlationId : string) : json :=
  match json_of_payload (Services.rs_payload recovered) with
  | JObj fields =>
      JObj (fields ++ [("correlationId", JStr correlationId);
                       ("gameId", JStr (Services.rs_gameId recovered));
                       ("gameVersion", JNum (Services.rs_gameVersion recovered))])
  | other => other
  end.

Definition snapshot (rawGameId : string) (request : HttpRequest) (correlationId : string) : Prog Answer :=
  '(identity, _) ← canActivate request false;
  gameId ← lift (match gameIdParameterSchema (JStr rawGameId) with
                 | Some gameId => Ok gameId
                 | None => Err (ERecovery RE_BAD_REQUEST false None)
                 end);
  _ ← consume_recovery limits RateSnapshot (Tokens.ag_guestSessionId identity);
  recovered ← Services.snapshotInternal config gameId (Tokens.ag_guestSessionId identity);
  mret (mkAnswer 200 CookieKept
          (checked recoveredSnapshotResponseSchema (recovered_json recovered correlationId))).

(** ** Routes *)

Inductive Route : Type :=
| PostSession (random : nat -> nat -> Identity.Draw)
| PostSessionRenew
| GetSession
| PostSessionReset
| GetGamesActive
| GetGamesSnapshot (rawGameId : string).

Definition handler (route : Route) : HttpRequest -> string -> Prog Answer :=
  match route with
  | PostSession random => create random
  | PostSessionRenew => renew
  | GetSession => getCurrent
  | PostSessionReset => reset
  | GetGamesActive => active
  | GetGamesSnapshot rawGameId => snapshot rawGameId
  end.

(** [@UseFilters] of the controller of the route. *)
Definition filter_of (route : Route) : fault -> HttpError :=
  match route with
  | GetGamesActive | GetGamesSnapshot _ => recovery_error
  | _ => session_error
  end.

Definition serve (route : Route) (requestId : option string) (request : HttpRequest) : Prog HttpResponse :=
  correlationId ← correlate requestId;
  respond (filter_of route) correlationId (handler route request correlationId).
End Controllers.

(** ** What requests are answered *)

(** The codes of errors and their statuses. *)
Definition STATUSES : list (string * Z) :=
  [("BAD_REQUEST", 400); ("UNAUTHORIZED", 401); ("NOT_A_PLAYER", 403); ("GAME_NOT_FOUND", 404);
   ("IDEMPOTENCY_KEY_REUSED", 409); ("RATE_LIMITED", 429); ("INTERNAL_ERROR", 500);
   ("SERVICE_UNAVAILABLE", 503)].

(** The faults a program can end with. *)
Section Throws.
Context `{Redis} (possible : Ext -> Prop).

Definition throws {A} (F : fault -> Prop) (p : Prog A) : Prop :=
  ends possible (fun r => match r with Ok _ => True | Err e => F e end) p.

Lemma ends_step {A B} F (p : Prog A) (f : A -> Prog B) (Q : result fault B -> Prop) :
  throws F p -> (forall e, F e -> Q (Err e)) -> (forall a, ends possible Q (f a)) ->
  ends possible Q (p ≫= f).
Proof. intros Hp HQ Hf. apply ends_bind. eapply ends_mono; [|exact Hp]. intros [a|e] He; auto. Qed.

Lemma throws_any {A} (p : Prog A) : throws (fun _ => True) p.
Proof. apply ends_any. by intros []. Qed.

Lemma throws_mono {A} (F F' : fault -> Prop) (p : Prog A) :
  (forall e, F e -> F' e) -> throws F p -> throws F' p.
Proof. intros HF. apply ends_mono. intros [a|e]; auto. Qed.

Lemma throws_bind {A B} F (p : Prog A) (f : A -> Prog B) :
  throws F p -> (forall a, throws F (f a)) -> throws F (p ≫= f).
Proof. intros Hp Hf. by eapply ends_step. Qed.

Lemma throws_catch {A} F F' (p : Prog A) h :
  throws F' p -> (forall e, F' e -> throws F (h e)) -> throws F (catch p h).
Proof. intros Hp Hh. apply ends_catch. eapply ends_mono; [|exact Hp]. intros [a|e] He; [done|by apply Hh]. Qed.

Lemma throws_ret {A} F (a : A) : throws F (mret a).
Proof. exact I. Qed.

Lemma throws_caught {A} F (p : Prog A) (a : A) : throws F (catch p (fun _ => mret a)).
Proof. apply (throws_catch _ (fun _ => True)); [apply throws_any|]. intros; apply throws_ret. Qed.

Lemma throws_lift {A} (F : fault -> Prop) (r : result fault A) :
  (forall e, r = Err e -> F e) -> throws F (lift r).
Proof. intros HF. apply ends_lift. destruct r; auto. Qed.

Lemma throws_clock F : throws F clock.
Proof. by apply ends_clock. Qed.

(** An error of a service of the game or of the database. *)
Definition application (error : fault) : Prop := exists e, error = EApp e.

Lemma throws_database {A} (op : Ext -> DB -> result exn A * DB) : throws application (database op).
Proof.
  apply ends_perform. intros x w _. unfold dbOp. destruct (x_db x); try by eexists.
  destruct (op x (w_db w)) as [[a|e] db]; simpl; [done|by eexists].
Qed.

Lemma throws_fault {A} (F : fault -> Prop) e : F e -> throws F (Throw e : Prog A).
Proof. done. Qed.
End Throws.

Create HintDb throws.
#[export] Hint Resolve throws_ret throws_clock throws_database throws_caught throws_any : throws.

Section Recovery.
Context `{Zod} `{ZodUuid} `{ZodDatetime} `{ChessJs} `{Prisma} `{Redis} `{!RedisCounters} `{JsonText}.
Context `{NodeCrypto} `{NodeHash} (config : AppConfig) (limits : RateLimitConfig).
Context (tokens : Tokens.JwtTokenService) (cookieName : string) (possible : Ext -> Prop).

Notation throws := (throws possible).

Lemma throws_mapDatabaseFailure {A} (p : Prog A) :
  throws application p -> throws application (Services.mapDatabaseFailure p).
Proof.
  intros Hp. eapply throws_catch; [exact Hp|]. intros e [e' ->].
  destruct e'; apply throws_fault; by eexists.
Qed.

Ltac step := apply throws_bind; [eauto with throws|intros ?].

Lemma throws_restoreActiveGame gid guest :
  throws application (Ephemeral.restoreActiveGame config gid guest).
Proof. apply throws_caught. Qed.
Lemma throws_clearActiveGame guest gid :
  throws application (Ephemeral.clearActiveGame config guest gid).
Proof. apply throws_caught. Qed.
Lemma throws_readActiveGame guest : throws application (Ephemeral.readActiveGame guest).
Proof. apply throws_caught. Qed.
Lemma throws_readSnapshot gid guest : throws application (Ephemeral.readSnapshot gid guest).
Proof. apply throws_caught. Qed.
Lemma throws_restoreSnapshot view : throws application (Ephemeral.restoreSnapshot config view).
Proof. apply throws_caught. Qed.

Hint Resolve throws_restoreActiveGame throws_clearActiveGame throws_readActiveGame
  throws_readSnapshot throws_restoreSnapshot : throws.

Lemma throws_activeGameId guest : throws application (Services.activeGameId config guest).
Proof.
  apply throws_mapDatabaseFailure. step. step. step. cbv zeta. apply throws_bind; [|intros; apply throws_ret].
  repeat case_match; eauto with throws.
Qed.

Lemma throws_authorize gid guest : throws application (Services.authorize gid guest).
Proof. unfold Services.authorize. step. repeat case_match; first [by eexists|apply throws_ret]. Qed.

Lemma throws_snapshot gid guest : throws application (Services.snapshot gid guest).
Proof.
  unfold Services.snapshot. step. repeat case_match; try by eexists.
  apply throws_lift. unfold Services.viewOf. intros e. case_match; [done|]. intros [= <-]. by eexists.
Qed.

Lemma throws_snapshotInternal gid guest : throws application (Services.snapshotInternal config gid guest).
Proof.
  assert (throws application (Services.recoverFresh config gid guest)) as Hfresh.
  { unfold Services.recoverFresh. apply throws_bind; [apply throws_snapshot|intros view].
    apply throws_bind; [|intros payload; step; apply throws_ret].
    apply throws_lift. unfold present. intros e. repeat case_match; [done|intros [= <-]; by eexists..]. }
  apply throws_mapDatabaseFailure. step.
  match goal with |- throws _ (match ?o with _ => _ end) => destruct o as [[version payload]|] end; [|done].
  apply throws_bind; [apply throws_authorize|intros al]. case_match; [apply throws_ret|done].
Qed.

(** What the guard throws. *)
Definition unauthenticated (error : fault) : Prop :=
  error = unauthorized \/ error = session_unavailable_now.

Lemma throws_canActivate request allowRevoked :
  throws unauthenticated (canActivate tokens cookieName request allowRevoked).
Proof.
  apply (throws_catch possible _ (fun e => match e with ESession _ _ _ => unauthenticated e | _ => True end)).
  - apply throws_bind.
    { apply throws_lift. intros e. case_match; [done|]. intros [= <-]. by left. }
    intros token. apply throws_bind; [apply throws_clock|intros now].
    apply throws_bind.
    { apply throws_lift. intros e. by case_match; [|intros [= <-]]. }
    intros identity. apply throws_bind.
    { apply (throws_catch possible _ (fun _ => True)); [apply throws_any|]. intros; by apply throws_fault. }
    intros revoked. case_match; [by left|apply throws_ret].
  - intros e He. destruct e; apply throws_fault; first [exact He|by left|by right].
Qed.

Definition rate_limited (error : fault) : Prop :=
  exists ms, 1 <= ms /\ error = ERecovery RE_RATE_LIMITED true (Some ms).

Lemma throws_consume_recovery policy guest : throws rate_limited (consume_recovery limits policy guest).
Proof.
  apply (throws_catch possible _ (fun e => match e with ERecovery _ _ _ => rate_limited e | _ => True end)).
  - apply ends_bind, ends_perform. intros x w _. unfold redisOp, sendOp.
    destruct (negb _); [done|]. destruct (ln_first _) as [| |[]]; try done.
    destruct (count_request_lua _ _ _) as [[count ttl] r]. cbn [fst].
    case_match; [|exact I]. exists (Z.max 1 ttl). split; [lia|done].
  - intros e He. destruct e; first [apply throws_fault; exact He|apply throws_ret].
Qed.
End Recovery.

Lemma retry_seconds_covers ms : 1 <= retry_seconds ms /\ ms <= 1000 * retry_seconds ms.
Proof. unfold retry_seconds. Z.div_mod_to_equations. lia. Qed.

Section Answers.
Context `{Zod} `{ZodUuid} `{ZodDatetime} `{ChessJs} `{Prisma} `{Redis} `{!RedisCounters} `{JsonText}.
Context `{NodeCrypto} `{NodeHash} `{!SessionPorts} `{ErrorMessages}.
Context (config : AppConfig) (limits : RateLimitConfig) (tokens : Tokens.JwtTokenService).
Context (cookieEnabled : bool) (cookieName : string) (secureCookie : bool) (possible : Ext -> Prop).

Notation serve := (serve config limits tokens cookieEnabled cookieName secureCookie).
Notation handler := (handler config limits tokens cookieEnabled cookieName secureCookie).

Definition is_recovery (route : Route) : bool :=
  match route with GetGamesActive | GetGamesSnapshot _ => true | _ => false end.

Definition route_schema (route : Route) : parser () :=
  match route with
  | PostSession _ => createSessionResponseSchema
  | PostSessionRenew => renewSessionResponseSchema
  | GetSession => getSessionResponseSchema
  | PostSessionReset => resetSessionResponseSchema
  | GetGamesActive => activeGameResponseSchema
  | GetGamesSnapshot _ => recoveredSnapshotResponseSchema
  end.

(** The status of a success, and what becomes of the cookie: it holds the token of the body. *)
Definition success_ok (route : Route) (status : Z) (cookie : CookieChange) (body : json) : Prop :=
  (status = 200 \/ status = 201 /\ exists random, route = PostSession random) /\
  route_schema route body = Some () /\
  match route with
  | PostSession _ | PostSessionRenew =>
      exists token expires, key_of body "token" = Some (JStr token) /\
        cookie = setCookie cookieEnabled secureCookie token expires
  | PostSessionReset => cookie = clearCookie cookieEnabled secureCookie
  | _ => cookie = CookieKept
  end.

(** The faults the filters of the recovery endpoints see. *)
Definition recoverable (error : fault) : Prop :=
  application error \/ unauthenticated error \/ rate_limited error \/
  error = ERecovery RE_BAD_REQUEST false None.

Definition fault_ok (route : Route) (error : fault) : Prop :=
  if is_recovery route then recoverable error else True.

Definition handled (route : Route) (correlationId : string) (r : result fault Answer) : Prop :=
  match r with
  | Ok answer =>
      match an_body answer with
      | Ok body => success_ok route (an_status answer) (an_cookie answer) body /\
          key_of body "correlationId" = Some (JStr correlationId)
      | Err error => error = EApp EOther
      end
  | Err error => fault_ok route error
  end.

Lemma checked_ok {A} (schema : parser A) body (Q : result fault json -> Prop) :
  (forall a, schema body = Some a -> Q (Ok body)) -> Q (Err (EApp EOther)) -> Q (checked schema body).
Proof. intros Hok He. unfold checked. destruct (schema body) eqn:E; [by eapply Hok|done]. Qed.

(** A step of a handler whose faults need not be known. *)
Lemma ends_next {A B} (p : Prog A) (f : A -> Prog B) (Q : result fault B -> Prop) :
  (forall e, Q (Err e)) -> (forall a, ends possible Q (f a)) -> ends possible Q (p ≫= f).
Proof. intros He Hf. apply (ends_step possible (fun _ => True)); auto using throws_any. Qed.

Ltac next := apply ends_next; [done|intros ?; cbv beta].
Ltac answered :=
  apply ends_ret; unfold handled; cbn [an_body an_status an_cookie];
  apply checked_ok; [intros [] Hschema; split; [|try done]|done].

Lemma session_handled route request correlationId :
  is_recovery route = false ->
  ends possible (handled route correlationId) (handler route request correlationId).
Proof.
  intros Hr. assert (forall e, handled route correlationId (Err e)) as He
    by (intros e; unfold handled, fault_ok; by rewrite Hr).
  destruct route as [random| | | | |raw]; try done; cbn [HttpApi.handler].
  - unfold create. do 4 next. answered. split_and!; [|done|eauto].
    destruct (is_replayed _); [by left|right; eauto].
  - unfold renew. next. destruct a as [identity revoked]. do 4 next. answered. split_and!; eauto.
  - unfold getCurrent. next. destruct a as [identity revoked]. do 5 next. answered. split_and!; eauto.
  - unfold reset. next. destruct a as [identity revoked]. do 3 next. answered. split_and!; eauto.
Qed.

Lemma recovery_handled route request correlationId :
  is_recovery route = true ->
  ends possible (handled route correlationId) (handler route request correlationId).
Proof.
  intros Hr. assert (forall e, recoverable e -> handled route correlationId (Err e)) as He
    by (intros e; unfold handled, fault_ok; by rewrite Hr).
  destruct route as [random| | | | |raw]; try done; cbn [HttpApi.handler].
  - eapply (ends_step possible unauthenticated); [apply throws_canActivate|unfold recoverable in He; auto|].
    intros [identity revoked]. cbv beta.
    eapply (ends_step possible rate_limited); [apply throws_consume_recovery|unfold recoverable in He; auto|].
    intros _. eapply (ends_step possible application);
      [apply throws_activeGameId|unfold recoverable in He; auto|].
    intros gameId. answered. split_and!; auto.
  - eapply (ends_step possible unauthenticated); [apply throws_canActivate|unfold recoverable in He; auto|].
    intros [identity revoked]. cbv beta.
    eapply (ends_step possible (fun e => e = ERecovery RE_BAD_REQUEST false None));
      [apply throws_lift; by case_match; [|intros ? [= <-]]|unfold recoverable in He; auto|].
    intros gid. eapply (ends_step possible rate_limited);
      [apply throws_consume_recovery|unfold recoverable in He; auto|].
    intros _. eapply (ends_step possible application);
      [apply throws_snapshotInternal|unfold recoverable in He; auto|].
    intros recovered. answered. split_and!; auto.
Qed.

(** A failure: the error it tells, with the status of its code. *)
Definition refused (route : Route) (response : HttpResponse) : Prop :=
  exists error, response = failure (rs_correlationId response) (rs_cookie response) error /\
    (he_code error, he_status error) ∈ STATUSES /\
    (he_status error <> 500 -> rs_cookie response = CookieKept) /\
    (forall ms, he_retryAfterMs error = Some ms ->
       exists s, rs_retryAfter response = Some s /\ 1 <= s /\ ms <= 1000 * s) /\
    (is_recovery route = true -> he_status error = 429 -> exists ms, 1 <= ms /\ he_retryAfterMs error = Some ms).

Lemma filter_told route error :
  fault_ok route error -> (he_code (filter_of route error), he_status (filter_of route error)) ∈ STATUSES.
Proof.
  unfold fault_ok. destruct route; simpl;
    try (intros _; destruct error as [| | | |[] ? ?| | | | | |]; simpl; set_solver);
    (intros [[e ->]|[[->| ->]|[(ms & _ & ->)| ->]]]; simpl; try set_solver;
     destruct e as [|[[] ? ? ?]| | | |]; simpl; set_solver).
Qed.

Lemma filter_limited route error :
  is_recovery route = true -> fault_ok route error -> he_status (filter_of route error) = 429 ->
  exists ms, 1 <= ms /\ he_retryAfterMs (filter_of route error) = Some ms.
Proof.
  unfold fault_ok. destruct route; try done; intros _ [[e ->]|[[->| ->]|[(ms & Hms & ->)| ->]]];
    simpl; try done; eauto; destruct e as [|[[] ? ? ?]| | | |]; simpl; done.
Qed.

Lemma failure_refused route correlationId cookie error :
  fault_ok route error -> (he_status (filter_of route error) <> 500 -> cookie = CookieKept) ->
  refused route (failure correlationId cookie (filter_of route error)).
Proof.
  intros Hf Hc. exists (filter_of route error). split; [done|]. split; [by apply filter_told|].
  split; [done|]. split; [|by intros Hr; apply filter_limited].
  intros ms Hms. exists (retry_seconds ms). split; [simpl; by rewrite Hms|apply retry_seconds_covers].
Qed.

(** The id of a response: that of the request, if it is a UUID of version 4, or a new one. *)
Definition identified (requestId : option string) (id : string) : Prop :=
  (requestId = Some id /\ UUID_V4 id = true) \/
  ((forall s, requestId = Some s -> UUID_V4 s = false) /\ exists x, possible x /\ id = (x_uuids x).1).

(** C39: what the HTTP endpoints answer. Whatever happens in the services and to the
    databases meanwhile, each request to each endpoint is answered, with its own
    correlation id. Either the endpoint succeeded: with 200, or 201 for a session that is
    new, a body that its schema accepts, and the cookie set to just the token of the body,
    cleared, or untouched. Or it tells an error, whose status is the one of its code and
    whose [Retry-After] is not too short; the cookie is then untouched, unless the error
    is an internal one. Recovery that is limited always says when to retry. *)
Theorem requests_are_answered route requestId request :
  ends possible (fun r => exists response, r = Ok response /\
      identified requestId (rs_correlationId response) /\
      ((success_ok route (rs_status response) (rs_cookie response) (rs_body response) /\
        key_of (rs_body response) "correlationId" = Some (JStr (rs_correlationId response)) /\
        rs_retryAfter response = None) \/
       refused route response))
    (serve route requestId request).
Proof.
  assert (ends possible (fun r => exists id, r = Ok id /\ identified requestId id) (correlate requestId)) as Hid.
  { unfold correlate, identified. destruct requestId as [s|]; [destruct (UUID_V4 s) eqn:Es|].
    - apply ends_ret. eauto.
    - apply ends_randomUUID. intros x Hx. eexists. split; [done|]. right. split; [by intros ? [= <-]|eauto].
    - apply ends_randomUUID. intros x Hx. eexists. split; [done|]. right. split; [done|eauto]. }
  apply ends_bind. eapply ends_mono; [|exact Hid]. intros _ (id & -> & Hcorr).
  apply ends_bind, ends_attempt.
  assert (ends possible (handled route id) (handler route request id)) as Hh
    by (destruct (is_recovery route) eqn:Er; auto using session_handled, recovery_handled).
  eapply ends_mono; [|exact Hh]. intros [answer|error] Ha; apply ends_ret; eexists; (split; [done|]).
  - unfold handled in Ha. destruct (an_body answer) as [body|error].
    + destruct Ha as [Hs Hk]. split; [done|]. left. done.
    + subst error. split; [done|]. right. apply failure_refused.
      * unfold fault_ok, recoverable, application. destruct (is_recovery route); eauto.
      * by destruct route.
  - split; [done|]. right. by apply failure_refused.
Qed.
End Answers.
End HttpApi.
