(* ===== verification/RealtimeExamples.v ===== *)
(** * Commands at work

    The theorems of the gateway at concrete inputs: a move and its end on a game
    of alice and bob, and a command that arrives at a gateway that is draining. *)

From S2P Require Export Gateway.
Local Open Scope string_scope.
Local Open Scope list_scope.
Local Open Scope Z_scope.

Module RealtimeExamples.
Import Protocol Realtime Gateway RealtimeProtocol.

#[local] Existing Instance MapRedis.map_redis.
#[local] Existing Instance MapRedis.map_redis_laws.
#[local] Existing Instance RateLimits.map_counters.
#[local] Existing Instance Gameplay.sample_zod.
#[local] Existing Instance Scripts.any_zod_uuid.
#[local] Existing Instance sample_prisma.
#[local] Existing Instance SampleChess.sample.
#[local] Existing Instance Tokens.sample_crypto.
#[local] Existing Instance RateLimits.sample_hash.
#[local] Instance any_datetime : ZodDatetime := {| zod_datetime := nonempty |}.
#[local] Instance one_message : ErrorMessages := {| error_message _ := "it failed" |}.

#[local] Instance sample_zod_laws : ZodUuidLaws.
Proof. split. intros s Hs. by destruct s. Qed.

#[local] Instance one_message_fits : ErrorMessagesLaws.
Proof. split. intros e. unfold fits. simpl. lia. Qed.

Definition moving_ext : Ext :=
  mkExt (env_at 1030000) DbUp good_link 1030000
    ("5f0c0f5e-8a43-4f0e-9d7e-2d2f4f6f8a10", "5f0c0f5e-8a43-4f0e-9d7e-2d2f4f6f8a11") true [].

Definition moving_world : World := mkWorld sample_db (∅ : gmap string Entry).

Definition alice : AuthenticatedSocketIdentity :=
  mkSocketIdentity "knight_bay_02" "2023-11-14T23:13:20.000Z" "alice" "BoldFox42".

Definition moving : result fault (list Output * result fault CommandResult) * World :=
  steady moving_ext
    (talk (submitMove default_config "move-1" "game-1" 2 "e2" "e4" None alice)) moving_world.

Definition pinging : json :=
  json_of_client_event
    (mkClientEnvelope None (HeartbeatPing (Some 7)) "5f0c0f5e-8a43-4f0e-9d7e-2d2f4f6f8a10" 1000).

Definition alice_socket : Socket :=
  Connections.mkSocketData "127.0.0.1" "5f0c0f5e-8a43-4f0e-9d7e-2d2f4f6f8a12" alice "i1:s1".

Definition pinged : result fault (list Output * result fault ()) * World :=
  steady moving_ext
    (talk (handleIncoming default_config RateLimits.sample_limits 16384 1000 true alice_socket
             "heartbeat.ping" (Some pinging) true)) moving_world.
End RealtimeExamples.
