(* ===== verification/Reconciliation.v ===== *)
(** * Repairing the ephemeral state

    [game-reconciliation.service.ts]: a job that compares what Redis holds of games
    with the database, in two passes: every active game of a page has its pointers,
    states, grace marks and snapshot; and every pointer of a page of keys points to
    the game its guest is assigned to. *)

From S2P Require Export Text GameServices Matchmaking.
From Stdlib Require Import Ascii.
Local Open Scope string_scope.
Local Open Scope list_scope.
Local Open Scope Z_scope.

Module Reconciliation.
Import Ephemeral Services.

Record GameReconciliationReport : Type := mkReport {
  rr_activeGameRepairs : Z;
  rr_graceRepairs : Z;
  rr_snapshotRepairs : Z;
  rr_staleActiveGameRepairs : Z;
  rr_stateRepairs : Z
}.

Definition no_repairs : GameReconciliationReport := mkReport 0 0 0 0 0.

(** The fields of the service that live from one run to the next. *)
Record Cursors : Type := mkCursors {
  databaseCursor : option Games.GameAllocationCursor;
  redisCursor : string
}.

(** ** Keys *)

(** [/^[0-9a-f]{8}-..$/i] *)
Definition UUID_PATTERN (s : string) : bool :=
  matches (uuid_classes (char_in "1"%char "5"%char)) (chars s).

(** [key.slice('user:'.length, -':active-game'.length)] *)
Definition guestOfKey (key : string) : string :=
  String.substring 5 (String.length key - 5 - 12) key.

Section Service.
Context `{Zod} `{ZodUuid} `{ChessJs} `{Prisma} `{Redis} `{JsonText} `{LifecycleDelivery}.
Context (config : AppConfig).

Definition batchSize : nat := Pos.to_nat (JOB_BATCH_SIZE config).

Definition count_of {A} (l : list A) : Z := Z.of_nat (length l).

Definition driftCount (state : EphemeralAllocationState) : Z :=
  count_of (ea_missingActive state) + count_of (ea_missingState state) +
  count_of (ea_graceDrift state) + (if ea_snapshotMissing state then 1 else 0).

Definition add_repairs (state : EphemeralAllocationState) (report : GameReconciliationReport)
    : GameReconciliationReport :=
  mkReport (rr_activeGameRepairs report + count_of (ea_missingActive state))
    (rr_graceRepairs report + count_of (ea_graceDrift state))
    (rr_snapshotRepairs report + (if ea_snapshotMissing state then 1 else 0))
    (rr_staleActiveGameRepairs report)
    (rr_stateRepairs report + count_of (ea_missingState state)).

(** One turn of the loop of [reconcileDurableGames]. *)
Definition reconcileGame (al : Games.GameAllocation) (report : GameReconciliationReport)
    : Prog GameReconciliationReport :=
  state ← inspectAllocation al;
  if negb (ea_available state) then Throw (EApp EOther) else
  if driftCount state =? 0 then mret report else
  view ← snapshot (Games.gr_id (Games.ga_game al))
           (Games.gp_guestSessionId (Games.ga_players al).1);
  restored ← restoreSnapshot config view;
  if negb restored then Throw (EApp EOther) else mret (add_repairs state report).

Fixpoint reconcileAll (allocations : list Games.GameAllocation)
    (report : GameReconciliationReport) : Prog GameReconciliationReport :=
  match allocations with
  | [] => mret report
  | al :: allocations =>
      report ← reconcileGame al report;
      reconcileAll allocations report
  end.

(** Where the next run goes on: after the last game of a full page. *)
Definition nextCursor (allocations : list Games.GameAllocation)
    : option Games.GameAllocationCursor :=
  match last allocations with
  | Some al =>
      if bool_decide (length allocations = batchSize)
      then Some (Games.mkCursor (Games.gr_id (Games.ga_game al))
                   (Games.gr_updatedAt (Games.ga_game al)))
      else None
  | None => None
  end.

(** The new cursor, and the report or what was thrown after it was set. *)
Definition reconcileDurableGames (cursor : option Games.GameAllocationCursor)
    : Prog (option Games.GameAllocationCursor * result fault GameReconciliationReport) :=
  page ← attempt (Allocation.listActive batchSize cursor);
  match page with
  | Err e => mret (cursor, Err e)
  | Ok allocations =>
      report ← attempt (reconcileAll allocations no_repairs);
      mret (nextCursor allocations, report)
  end.

(** One turn of the loop of [reconcileRedisActiveKeys]; the result says whether the
    pointer was repaired. *)
Definition reconcileKey (key : string) : Prog bool :=
  let guest := guestOfKey key in
  if negb (UUID_PATTERN guest) then mret false else
  cachedGameId ← send (fun _ => ask (fun r => GET r key));
  now ← clock;
  eligibility ← query (fun _ db => Ok (Games.getGuestMatchEligibility db guest now));
  if bool_decide (cachedGameId = Games.ge_activeGameId eligibility) then mret false else
  match Games.ge_activeGameId eligibility with
  | None => clearActiveGame config guest (default "" cachedGameId)
  | Some gameId => restoreActiveGame config gameId guest
  end.

Fixpoint reconcileKeys (keys : list string) (repairs : Z) : Prog Z :=
  match keys with
  | [] => mret repairs
  | key :: keys =>
      repaired ← reconcileKey key;
      reconcileKeys keys (if (repaired : bool) then repairs + 1 else repairs)
  end.

(** [page]: what SCAN answers, its next cursor and keys. *)
Definition reconcileRedisActiveKeys (cursor : string) (page : string * list string)
    : Prog (string * result fault Z) :=
  scanned ← attempt (_ ← ensureConnected; send (fun _ => ask (fun _ => ())));
  match scanned with
  | Err e => mret (cursor, Err e)
  | Ok _ =>
      repairs ← attempt (reconcileKeys (take batchSize page.2) 0);
      mret (page.1, repairs)
  end.

Definition runOnce (cursors : Cursors) (page : string * list string)
    : Prog (Cursors * result fault GameReconciliationReport) :=
  durable ← reconcileDurableGames (databaseCursor cursors);
  let (cursor, report) := (durable : _ * _) in
  match report with
  | Err e => mret (mkCursors cursor (redisCursor cursors), Err e)
  | Ok report =>
      keys ← reconcileRedisActiveKeys (redisCursor cursors) page;
      let (cursor', repairs) := (keys : _ * _) in
      mret (mkCursors cursor cursor',
            (fun n => mkReport (rr_activeGameRepairs report) (rr_graceRepairs report)
                        (rr_snapshotRepairs report) n (rr_stateRepairs report)) <$> repairs)
  end.
End Service.
End Reconciliation.
