(* ===== verification/GameSystem.v ===== *)
(** * The game database as a state machine

    The operations of the three repositories as the steps of one transition
    system, the invariant its states satisfy, and what follows for every game:
    its rows change only along the lifecycle of [game-state-machine.ts], a
    version names one state of a row, and a finished game never changes.

    The invariant contains the CHECK constraints and the deferred aggregate
    constraint of [src/prisma/migrations], in the form of statements about
    reachable states. *)

From S2P Require Export GameStateMachine GameplayRepository.
From S2P Require Export GameLifecycleRepository GameRepository.
Local Open Scope string_scope.
Local Open Scope list_scope.
Local Open Scope Z_scope.

(** ** Operations *)

(** [before] is the database in which the operation read the guest's
    assignment, at some earlier time. *)
Inductive Op : Type :=
| OpAllocate (input : Games.AllocateGame)
| OpReady (input : Games.MarkGameReady)
| OpStart (gameId : string)
| OpMove (input : SubmitMove)
| OpResign (input : ResignGame)
| OpReset (before : DB) (guestSessionId : string)
| OpDisconnect (before : DB) (guestSessionId : string) (graceMs : Z)
| OpReconnect (before : DB) (guestSessionId : string)
| OpTimeout (gameId : string)
| OpNoShow (gameId : string)
| OpAbandon (gameId : string) (absentGuestSessionIds : list string).

Section System.
Context `{Zod} `{ChessJs} `{Prisma}.

(** The database after the operation, whatever it answers. *)
Definition exec (env : Env) (op : Op) (db : DB) : DB :=
  match op with
  | OpAllocate input => (Games.allocate env input db).2
  | OpReady input => (Games.markReady env input db).2
  | OpStart gid => (Games.startIfReady env gid db).2
  | OpMove input => (Gameplay.submitMove env input db db).2
  | OpResign input => (Lifecycle.resign env input db db).2
  | OpReset before guest => (Lifecycle.terminateForReset env before guest db).2
  | OpDisconnect before guest graceMs =>
      (Lifecycle.markDisconnected env before guest graceMs db).2
  | OpReconnect before guest => (Lifecycle.markReconnected env before guest db).2
  | OpTimeout gid => (Lifecycle.adjudicateTimeout env gid db).2
  | OpNoShow gid => (Lifecycle.adjudicateNoShow env gid db).2
  | OpAbandon gid guests => (Lifecycle.adjudicateAbandonment env gid guests db).2
  end.

(** What callers guarantee: a new game starts from a position of the engine
    with White to move, its time is positive and its increment not negative, and the
    ids made for its players are new; the grace period is not negative. *)
Definition op_ok (env : Env) (op : Op) (db : DB) : Prop :=
  match op with
  | OpAllocate input =>
      Games.al_mode input = "BLITZ" /\
      0 < Games.al_timeInitialMs input /\ 0 <= Games.al_timeIncrementMs input /\
      (exists chess, replayHistory (Games.al_initialFen input) [] = Ok chess /\
         chess_fen chess = Games.al_initialFen input /\ chess_turn chess = w) /\
      (env_playerIds env).1 <> (env_playerIds env).2 /\
      (forall p, p ∈ players db -> p_id p <> (env_playerIds env).1 /\
                                   p_id p <> (env_playerIds env).2)
  | OpDisconnect _ _ graceMs => 0 <= graceMs
  | _ => True
  end.

Definition isTerminal (row : GameRow) : bool :=
  includes ["ABANDONED"; "COMPLETED"; "EXPIRED"] (g_status row).

Lemma isTerminal_spec row :
  isTerminal row = true <->
  g_status row = "ABANDONED" \/ g_status row = "COMPLETED" \/ g_status row = "EXPIRED".
Proof. unfold isTerminal. rewrite includes_true. set_solver. Qed.

Lemma not_terminal row st :
  g_status row = st ->
  st ∈ ["IN_PROGRESS"; "READY"; "RECONNECTING"; "WAITING_FOR_PLAYERS"] ->
  isTerminal row = false.
Proof.
  intros <- Hin. apply not_true_iff_false. rewrite isTerminal_spec.
  repeat (apply elem_of_cons in Hin as [Hin|Hin]; [rewrite Hin; naive_solver|]).
  by apply not_elem_of_nil in Hin.
Qed.

(** ** Effects

    What an operation can do to the database: one constructor per way to
    write, with the facts the guards of the code establish. *)

Definition may_end (game : GameRow) (event : TerminalEvent) : Prop :=
  match event with
  | TIMEOUT _ | RESIGNATION _ => is_running game = true
  | ABANDONMENT _ =>
      g_status game ∈ ["IN_PROGRESS"; "READY"; "RECONNECTING"; "WAITING_FOR_PLAYERS"]
  | NO_SHOW _ => g_status game = "WAITING_FOR_PLAYERS"
  | BOARD _ _ => False
  end.

Inductive effect (env : Env) (db : DB) : DB -> Prop :=
| E_none : effect env db db
| E_end gid event sub db1 f game :
    Lifecycle.ends_game env gid db event sub db1 ->
    games db !! gid = Some game -> may_end game event ->
    (forall m key command, m !! key = Some command ->
       commands db !! key = Some command -> f m !! key = Some command) ->
    effect env db (with_commands f db1)
| E_move input game player color plan :
    Gameplay.admits env input db game player color plan ->
    effect env db
      (Gameplay.movedDB env game player color (env_observedAt env) input plan db)
| E_disconnect gid game guest player c graceMs :
    games db !! gid = Some game -> is_running game = true ->
    Lifecycle.playerFor (gamePlayers db gid) guest = Some (player, c) ->
    p_disconnectedAt player = None -> 0 <= graceMs ->
    effect env db (Lifecycle.disconnectedDB env game (gamePlayers db gid) player graceMs db)
| E_reconnect gid game guest player c :
    games db !! gid = Some game -> g_status game = "RECONNECTING" ->
    Lifecycle.playerFor (gamePlayers db gid) guest = Some (player, c) ->
    p_disconnectedAt player <> None ->
    effect env db (Lifecycle.reconnectedDB env game (gamePlayers db gid) player db)
| E_offline gid game guest player c :
    games db !! gid = Some game ->
    g_status game = "WAITING_FOR_PLAYERS" ->
    Lifecycle.playerFor (gamePlayers db gid) guest = Some (player, c) ->
    effect env db (with_players (map (on_player (p_id player) [P_connectedAt None])) db)
| E_join input game player :
    games db !! Games.mg_gameId input = Some game ->
    Games.findGuest (gamePlayers db (Games.mg_gameId input)) (Games.mg_guestSessionId input)
      = Some player ->
    isTerminal game = false ->
    (g_status game = "WAITING_FOR_PLAYERS" ->
     Games.joinedCount (Games.joinedDB input player db) (Games.mg_gameId input) <> 2%nat) ->
    effect env db (Games.joinedDB input player db)
| E_ready input game player :
    games db !! Games.mg_gameId input = Some game ->
    Games.findGuest (gamePlayers db (Games.mg_gameId input)) (Games.mg_guestSessionId input)
      = Some player ->
    g_status game = "WAITING_FOR_PLAYERS" ->
    effect env db
      (with_games <[Games.mg_gameId input := Games.readyRow env game]>
         (Games.joinedDB input player db))
| E_start gid game :
    games db !! gid = Some game -> g_status game = "READY" ->
    effect env db (with_games <[gid := Games.startedRow env game]> db)
| E_allocate input :
    Games.al_whiteGuestSessionId input <> Games.al_blackGuestSessionId input ->
    games db !! Games.al_gameId input = None ->
    assignments db !! Games.al_whiteGuestSessionId input = None ->
    assignments db !! Games.al_blackGuestSessionId input = None ->
    op_ok env (OpAllocate input) db ->
    effect env db (Games.allocatedDB env input db).

Lemma allocate_effect env input db :
  op_ok env (OpAllocate input) db -> effect env db (Games.allocate env input db).2.
Proof.
  intros Hok.
  destruct (decide (Games.al_whiteGuestSessionId input = Games.al_blackGuestSessionId input))
    as [E|Hne].
  { unfold Games.allocate. rewrite bool_decide_eq_true_2 by done. constructor. }
  rewrite Games.allocate_eval by done.
  destruct (run (Games.allocateInTransaction env input) db) as [[r|e] db1] eqn:Hrun; cycle 1.
  { apply Lifecycle.run_Err in Hrun as ->. constructor. }
  apply Lifecycle.run_inv, Games.allocateInTransaction_inv in Hrun; [|done].
  destruct Hrun as [[-> _] | (_ & Hg & _ & Aw & Ab & -> & ->)].
  - destruct r; constructor.
  - by apply E_allocate.
Qed.

Lemma markReady_effect env input db :
  keyed db -> effect env db (Games.markReady env input db).2.
Proof.
  intros Hk. unfold Games.markReady.
  destruct (run (Games.markReadyInTransaction env input) db) as [[r|e] db1] eqn:Hrun; cycle 1.
  { apply Lifecycle.run_Err in Hrun as ->. constructor. }
  assert (effect env db db1) as He; [|by destruct r].
  apply Lifecycle.run_inv in Hrun.
  destruct (games db !! Games.mg_gameId input) as [game|] eqn:Hg; cycle 1.
  { unfold Games.markReadyInTransaction, game_findUnique, tx_read, mbind, tx_bind in Hrun.
    rewrite Hg in Hrun. js_ret. constructor. }
  destruct (Games.findGuest (gamePlayers db (Games.mg_gameId input))
              (Games.mg_guestSessionId input)) as [player|] eqn:Hf; cycle 1.
  { unfold Games.markReadyInTransaction, game_findUnique, tx_read, mbind, tx_bind in Hrun.
    unfold Games.findGuest in Hf. rewrite Hg, Hf in Hrun. js_ret. constructor. }
  destruct (Games.acceptsReady game player input) eqn:Ha.
  - rewrite (Games.markReadyInTransaction_eval _ _ _ _ _ Hk Hg Hf Ha) in Hrun.
    destruct (bool_decide (g_status game = _) && _) eqn:Hb; js_ret.
    + apply andb_true_iff in Hb as [Hb _]. js_bool. by eapply E_ready.
    + eapply E_join; [done..| |].
      { apply andb_true_iff in Ha as [_ Ha%includes_true].
        eapply not_terminal; [done|]. set_solver. }
      intros Hs. apply andb_false_iff in Hb as [Hb|Hb]; by js_bool.
  - unfold Games.markReadyInTransaction, game_findUnique, tx_read in Hrun.
    unfold mbind at 1, tx_bind at 1 in Hrun. rewrite Hg in Hrun.
    unfold mbind at 1, tx_bind at 1 in Hrun. unfold Games.findGuest in Hf. rewrite Hf in Hrun.
    unfold Games.acceptsReady in Ha. apply andb_false_iff in Ha as [Ha|Ha].
    + rewrite <- negb_orb, Ha in Hrun. simpl in Hrun. js_ret. constructor.
    + rewrite Ha in Hrun. destruct (negb _ && negb _); js_ret; constructor.
Qed.

Lemma startIfReady_effect env gid db :
  keyed db -> effect env db (Games.startIfReady env gid db).2.
Proof.
  intros Hk. unfold Games.startIfReady.
  destruct (run (Games.startIfReadyInTransaction env gid) db) as [[r|e] db1] eqn:Hrun; cycle 1.
  { apply Lifecycle.run_Err in Hrun as ->. constructor. }
  assert (effect env db db1) as He; [|by destruct r].
  apply Lifecycle.run_inv in Hrun.
  destruct (games db !! gid) as [game|] eqn:Hg.
  - destruct (lock_fits env game) eqn:Hl.
    + rewrite (Games.startIfReadyInTransaction_eval _ _ _ _ Hk Hg Hl) in Hrun.
      destruct (bool_decide _) eqn:Hs; js_ret; [|constructor]. js_bool. by apply E_start.
    + unfold Games.startIfReadyInTransaction, mbind at 1, tx_bind at 1 in Hrun.
      by rewrite (lockGameClock_eval _ _ _ _ Hg), Hl in Hrun.
  - unfold Games.startIfReadyInTransaction, mbind at 1, tx_bind at 1 in Hrun.
    rewrite lockGameClock_missing in Hrun by done. js_ret. constructor.
Qed.

Lemma with_commands_id db : with_commands (fun c => c) db = db.
Proof. by destruct db. Qed.

Lemma end_effect env gid event sub db db1 game :
  Lifecycle.ends_game env gid db event sub db1 -> games db !! gid = Some game ->
  may_end game event -> effect env db db1.
Proof. intros. rewrite <- (with_commands_id db1). by eapply (E_end env db gid event sub). Qed.

Lemma submitMove_effect env input db :
  keyed db -> effect env db (Gameplay.submitMove env input db db).2.
Proof.
  intros Hk. unfold Gameplay.submitMove.
  destruct (run (Gameplay.submitInTransaction env input) db) as [[r|e] db1] eqn:Hrun; cycle 1.
  { apply Lifecycle.run_Err in Hrun as ->.
    destruct e as [| | |[]| |]; try constructor.
    destruct (Gameplay.findReplay input db) as [[|]|]; constructor. }
  apply Lifecycle.run_inv in Hrun.
  destruct (Gameplay.submit_inv _ _ _ _ _ Hk Hrun)
    as [[-> _] | (game & player & c & plan & Ha & -> & ->)].
  - destruct r; constructor.
  - simpl. by apply E_move.
Qed.

Lemma resign_effect env input db :
  keyed db -> effect env db (Lifecycle.resign env input db db).2.
Proof.
  intros Hk. unfold Lifecycle.resign.
  destruct (run (Lifecycle.resignInTransaction env input) db) as [[r|e] db1] eqn:Hrun; cycle 1.
  { apply Lifecycle.run_Err in Hrun as ->.
    destruct e as [| | |[]| |]; try constructor.
    destruct (Lifecycle.findResignReplay input db) as [[|]|]; constructor. }
  apply Lifecycle.run_inv in Hrun.
  destruct (Lifecycle.resignInTransaction_inv _ _ _ _ _ Hk Hrun)
    as [[-> _] | (sub & game & player & c & db2 & -> & Hg & Hr & _ & Hnone & _ & He & ->)].
  - destruct r; constructor.
  - simpl. eapply E_end; [done..|]. intros m key command Hm Hc.
    rewrite lookup_insert_ne; [done|]. intros <-. congruence.
Qed.

Lemma markDisconnected_effect env before guest graceMs db :
  keyed db -> 0 <= graceMs ->
  effect env db (Lifecycle.markDisconnected env before guest graceMs db).2.
Proof.
  intros Hk Hgrace.
  destruct (assignments before !! guest) as [gid|] eqn:Ha; cycle 1.
  { unfold Lifecycle.markDisconnected. rewrite Ha. constructor. }
  destruct (games db !! gid) as [game|] eqn:Hg; cycle 1.
  { unfold Lifecycle.markDisconnected, run, mbind, tx_bind. rewrite Ha.
    rewrite lockGameClock_missing by done. constructor. }
  destruct (lock_fits env game) eqn:Hl; cycle 1.
  { unfold Lifecycle.markDisconnected, run, mbind, tx_bind. rewrite Ha.
    rewrite (lockGameClock_eval _ _ _ _ Hg), Hl. constructor. }
  destruct (Lifecycle.playerFor (gamePlayers db gid) guest) as [[player c]|] eqn:Hp; cycle 1.
  { unfold Lifecycle.markDisconnected, run. rewrite Ha.
    rewrite (Lifecycle.locked_found _ _ _ _ _ _ Hg Hl).
    rewrite (tx_bind_eval _ _ _ _ _ (Lifecycle.findGame_eval _ _ _ Hg)), Hp. constructor. }
  rewrite (Lifecycle.markDisconnected_eval _ _ _ _ _ _ _ _ _ Hk Ha Hg Hl Hp).
  destruct (is_running game) eqn:Hr.
  - destruct (p_disconnectedAt player) eqn:Hd; simpl; [constructor|].
    by eapply E_disconnect.
  - case_bool_decide; [|constructor]. by eapply (E_offline env db gid game guest).
Qed.

Lemma markReconnected_effect env before guest db :
  keyed db -> effect env db (Lifecycle.markReconnected env before guest db).2.
Proof.
  intros Hk.
  destruct (assignments before !! guest) as [gid|] eqn:Ha; cycle 1.
  { unfold Lifecycle.markReconnected. rewrite Ha. constructor. }
  destruct (games db !! gid) as [game|] eqn:Hg; cycle 1.
  { unfold Lifecycle.markReconnected, run, mbind, tx_bind. rewrite Ha.
    rewrite lockGameClock_missing by done. constructor. }
  destruct (lock_fits env game) eqn:Hl; cycle 1.
  { unfold Lifecycle.markReconnected, run, mbind, tx_bind. rewrite Ha.
    rewrite (lockGameClock_eval _ _ _ _ Hg), Hl. constructor. }
  destruct (Lifecycle.playerFor (gamePlayers db gid) guest) as [[player c]|] eqn:Hp; cycle 1.
  { unfold Lifecycle.markReconnected, run. rewrite Ha.
    rewrite (Lifecycle.locked_found _ _ _ _ _ _ Hg Hl).
    rewrite (tx_bind_eval _ _ _ _ _ (Lifecycle.findGame_eval _ _ _ Hg)), Hp.
    case_bool_decide; constructor. }
  rewrite (Lifecycle.markReconnected_eval _ _ _ _ _ _ _ _ Hk Ha Hg Hl Hp).
  destruct (bool_decide (g_status game = _) && _) eqn:Hb; [|constructor].
  apply andb_true_iff in Hb as [Hs Hd]. js_bool.
  eapply E_reconnect; [done..|]. by destruct (p_disconnectedAt player).
Qed.

(** Every operation has one of these effects. *)
Lemma exec_effect env op db : keyed db -> op_ok env op db -> effect env db (exec env op db).
Proof.
  intros Hk Hok. destruct op; simpl.
  - by apply allocate_effect.
  - by apply markReady_effect.
  - by apply startIfReady_effect.
  - by apply submitMove_effect.
  - by apply resign_effect.
  - destruct (Lifecycle.terminateForReset _ _ _ _) as [[r|e] db1] eqn:E.
    + apply Lifecycle.terminateForReset_inv in E as
        [[_ ->] | (sub & gid & game & player & c & _ & _ & Hg & Hs & _ & He)];
        [constructor| |done].
      by eapply end_effect.
    + apply Lifecycle.run_Err in E as ->. constructor.
  - by apply markDisconnected_effect.
  - by apply markReconnected_effect.
  - destruct (Lifecycle.adjudicateTimeout _ _ _) as [[r|e] db1] eqn:E.
    + apply Lifecycle.adjudicateTimeout_inv in E as
        [[_ ->] | (sub & game & c & _ & Hg & Hr & _ & _ & He)]; [constructor| |done].
      by eapply end_effect.
    + apply Lifecycle.run_Err in E as ->. constructor.
  - destruct (Lifecycle.adjudicateNoShow _ _ _) as [[r|e] db1] eqn:E.
    + apply Lifecycle.adjudicateNoShow_inv in E as
        [[_ ->] | (sub & game & d & _ & Hg & Hs & _ & _ & He)]; [constructor| |done].
      by eapply end_effect.
    + apply Lifecycle.run_Err in E as ->. constructor.
  - destruct (Lifecycle.adjudicateAbandonment _ _ _ _) as [[r|e] db1] eqn:E.
    + apply Lifecycle.adjudicateAbandonment_inv in E as
        [[_ ->] | (sub & game & _ & Hg & Hs & _ & He)]; [constructor| |done].
      eapply end_effect; [done..|]. simpl. rewrite Hs. set_solver.
    + apply Lifecycle.run_Err in E as ->. constructor.
Qed.

(** ** Rows change along the lifecycle *)

Definition row_at (row : GameRow) (s : Lifecycle) : Prop :=
  g_status row = toString (lc_status s) /\ g_version row = lc_version s.

(** The outcome of a step is what the row records. *)
Definition records (row : GameRow) (outcome : option TerminalOutcome) : Prop :=
  match outcome with
  | None => True
  | Some o => g_result row = Some (Lifecycle.persistedResult (to_result o)) /\
              g_termination row = Some (Lifecycle.persistedTermination (to_termination o))
  end.

(** How an operation may change a row: not at all; one step of the lifecycle;
    the start and the first move in one; and two changes that the lifecycle's
    table does not have: a reset abandons a game that has not started, and one of
    two missing players comes back. *)
Inductive row_change (row row' : GameRow) : Prop :=
| RC_same : row' = row -> row_change row row'
| RC_step s t o s' :
    row_at row s -> t <> ALLOCATE -> lifecycle_step s t o s' -> row_at row' s' ->
    records row' o -> row_change row row'
| RC_start_move s s1 t o s' :
    row_at row s -> lifecycle_step s START None s1 ->
    t ∈ [ACCEPT_MOVE; ACCEPT_TERMINAL_MOVE] -> lifecycle_step s1 t o s' -> row_at row' s' ->
    records row' o -> row_change row row'
| RC_reset_unstarted :
    g_status row ∈ ["READY"; "WAITING_FOR_PLAYERS"] -> g_status row' = "ABANDONED" ->
    g_version row' = g_version row + 1 -> row_change row row'
| RC_still_reconnecting :
    g_status row = "RECONNECTING" -> g_status row' = "RECONNECTING" ->
    g_version row' = g_version row + 1 -> row_change row row'.

Lemma lifecycle_step_intro st v t outcome st' v' :
  0 <= v -> v' <= MAX_SAFE_INTEGER -> st ∈ rule_from (TRANSITION_RULES t) ->
  st' = rule_to (TRANSITION_RULES t) -> v' = v + rule_versionDelta (TRANSITION_RULES t) ->
  match outcome with
  | None => rule_outcomeStatus (TRANSITION_RULES t) = None
  | Some o => rule_outcomeStatus (TRANSITION_RULES t) = Some (to_status o) /\
              validTermination t (to_termination o) = true
  end ->
  lifecycle_step (mkLifecycle st v) t outcome (mkLifecycle st' v').
Proof.
  intros Hv Hmax Hin -> -> Ho.
  pose proof (transitionGame_eval (mkGameTransitionInput outcome st t v) Hv Hmax Hin Ho) as Ht.
  exact (LifecycleStep (mkLifecycle st v) t outcome _ Ht).
Qed.

(** The transition an event of a repository stands for. *)
Definition event_transition (event : TerminalEvent) : GameTransition :=
  match event with
  | BOARD _ _ => ACCEPT_TERMINAL_MOVE
  | RESIGNATION _ => RESIGN
  | TIMEOUT _ => TIME_OUT
  | ABANDONMENT _ => ABANDON
  | NO_SHOW _ => EXPIRE_NO_SHOW
  end.

Lemma derived_outcome event o :
  deriveTerminalOutcome event = Ok o ->
  let rule := TRANSITION_RULES (event_transition event) in
  rule_outcomeStatus rule = Some (to_status o) /\
  rule_to rule = statusOf (to_status o) /\
  validTermination (event_transition event) (to_termination o) = true.
Proof.
  destruct event; simpl; unfold deriveBoardOutcome, deriveAbandonment, deriveNoShow;
    intros Ho; repeat case_match; js_ret; simplify_eq; try done; js_bool.
  all: split_and!; try done.
  all: by destruct reason.
Qed.

Lemma running_strings row :
  is_running row = true -> exists st, g_status row = toString st /\ st ∈ [IN_PROGRESS; RECONNECTING].
Proof.
  intros [Hs|Hs]%Lifecycle.running_status; [exists IN_PROGRESS|exists RECONNECTING];
    (split; [done|set_solver]).
Qed.

(** The rows an operation can put in the place of [row]. *)
Inductive written (env : Env) (db : DB) (row : GameRow) : GameRow -> Prop :=
| W_same : written env db row row
| W_ended event outcome :
    may_end row event -> deriveTerminalOutcome event = Ok outcome ->
    written env db row (Lifecycle.endedRow env row (locked_of env row) outcome)
| W_moved input player color plan :
    Gameplay.admits env input db row player color plan ->
    written env db row (Gameplay.movedRow env row color (env_observedAt env) plan)
| W_disconnected d :
    is_running row = true ->
    written env db row
      (set_GameColumns [G_reconnectDeadlineAt d; G_status "RECONNECTING";
         G_version_increment 1; G_updatedAt (env_updatedAt env)] row)
| W_reconnected d back :
    g_status row = "RECONNECTING" -> back = "IN_PROGRESS" \/ back = "RECONNECTING" ->
    written env db row
      (set_GameColumns [G_reconnectDeadlineAt d; G_status back;
         G_version_increment 1; G_updatedAt (env_updatedAt env)] row)
| W_ready :
    g_status row = "WAITING_FOR_PLAYERS" -> written env db row (Games.readyRow env row)
| W_started :
    g_status row = "READY" -> written env db row (Games.startedRow env row).

Lemma insert_row (m : gmap string GameRow) gid gid' row new :
  m !! gid' = Some row ->
  (gid = gid' /\ <[gid := new]> m !! gid' = Some new) \/
  <[gid := new]> m !! gid' = Some row.
Proof.
  intros Hm. destruct (decide (gid = gid')) as [->|Hne].
  - left. by rewrite lookup_insert_eq.
  - right. by rewrite lookup_insert_ne.
Qed.

(** No row disappears, and every row is one of these. *)
Lemma effect_row env db db' gid row :
  keyed db -> effect env db db' -> games db !! gid = Some row ->
  exists row', games db' !! gid = Some row' /\ written env db row row'.
Proof.
  intros Hk He Hrow.
  assert (forall gid' game new, games db !! gid' = Some game ->
    written env db game new ->
    exists row', <[g_id game := new]> (games db) !! gid = Some row' /\
                 written env db row row') as Hput.
  { intros gid' game new Hg Hw. rewrite (Hk _ _ Hg).
    destruct (insert_row (games db) gid' gid row new Hrow) as [[-> E]|E]; [|by eauto using written].
    exists new. split; [done|]. by assert (row = game) as -> by congruence. }
  destruct He as [|gid' event sub db1 f game Hend Hg Hmay _|input game player color plan Ha
    |gid' game guest player c grace Hg Hr Hp Hd _|gid' game guest player c Hg Hs Hp Hd
    |gid' game guest player c Hg Hs Hp|input game player Hg Hf _ Hn|input game player Hg Hf Hs
    |gid' game Hg Hs|input Hne Hnew _ _ _].
  - eauto using written.
  - destruct Hend as (game' & o & Hg' & _ & Ho & _ & _ & ->). simpl.
    assert (game' = game) as -> by congruence.
    apply (Hput gid'); [done|]. by eapply W_ended.
  - rewrite Gameplay.movedDB_games. apply (Hput (sm_gameId input)); [by eapply Gameplay.ad_game|].
    by eapply W_moved.
  - apply (Hput gid'); [done|]. by apply W_disconnected.
  - apply (Hput gid'); [done|]. apply W_reconnected; [done|]. case_decide; auto.
  - eauto using written.
  - eauto using written.
  - pose proof (Hput _ _ _ Hg (W_ready env db game Hs)) as E. by rewrite (Hk _ _ Hg) in E.
  - pose proof (Hput _ _ _ Hg (W_started env db game Hs)) as E. by rewrite (Hk _ _ Hg) in E.
  - exists row. split; [|constructor]. simpl.
    rewrite lookup_insert_ne; [done|]. intros <-. congruence.
Qed.

Lemma W_ended_change env row event o :
  may_end row event -> deriveTerminalOutcome event = Ok o ->
  0 <= g_version row -> g_version row + 2 <= MAX_SAFE_INTEGER ->
  row_change row (Lifecycle.endedRow env row (locked_of env row) o).
Proof.
  intros Hmay Ho Hver Hmax.
  pose proof (Lifecycle.endedRow_spec env row (locked_of env row) o)
    as (_ & _ & _ & _ & _ & _ & _ & Hv & Hs & Hr & Ht & _).
  destruct (derived_outcome _ _ Ho) as (Hos & Hto & Hval).
  assert (forall st, g_status row = toString st ->
            st ∈ rule_from (TRANSITION_RULES (event_transition event)) ->
            row_change row (Lifecycle.endedRow env row (locked_of env row) o)) as Hstep.
  { intros st Hst Hin. eapply (RC_step _ _ (mkLifecycle st (g_version row))
      (event_transition event) (Some o) (mkLifecycle (statusOf (to_status o))
      (g_version row + 1))); try done.
    - by destruct event.
    - apply lifecycle_step_intro; try done; [lia|by destruct event]. }
  destruct event as [reason winner|loser|loser|absent|joined]; simpl in Hmay.
  - done.
  - destruct (running_strings _ Hmay) as (st & Hst & Hin). by apply (Hstep st).
  - destruct (running_strings _ Hmay) as (st & Hst & Hin). by apply (Hstep st).
  - assert (g_status (Lifecycle.endedRow env row (locked_of env row) o)
      = "ABANDONED") as Hab by (by rewrite Hs, <- Hto).
    repeat (apply elem_of_cons in Hmay as [Hmay|Hmay]); [..|by apply not_elem_of_nil in Hmay].
    + apply (Hstep IN_PROGRESS); [done|set_solver].
    + apply RC_reset_unstarted; [rewrite Hmay; set_solver|done|done].
    + apply (Hstep RECONNECTING); [done|set_solver].
    + apply RC_reset_unstarted; [rewrite Hmay; set_solver|done|done].
  - apply (Hstep WAITING_FOR_PLAYERS); [done|set_solver].
Qed.

(** The transition a move takes: ACCEPT_MOVE, or ACCEPT_TERMINAL_MOVE with its outcome. *)
Lemma moved_transition env db input row player color plan :
  Gameplay.admits env input db row player color plan ->
  let row' := Gameplay.movedRow env row color (env_observedAt env) plan in
  exists t o st',
    t ∈ [ACCEPT_MOVE; ACCEPT_TERMINAL_MOVE] /\ rule_from (TRANSITION_RULES t) = [IN_PROGRESS] /\
    rule_to (TRANSITION_RULES t) = st' /\ rule_versionDelta (TRANSITION_RULES t) = 1 /\
    match o with
    | None => rule_outcomeStatus (TRANSITION_RULES t) = None
    | Some o => rule_outcomeStatus (TRANSITION_RULES t) = Some (to_status o) /\
                validTermination t (to_termination o) = true
    end /\
    g_status row' = toString st' /\ records row' o.
Proof.
  intros Ha row'.
  pose proof (Gameplay.movedRow_spec env row color (env_observedAt env) plan)
    as (_ & _ & _ & _ & _ & _ & _ & _ & _ & _ & _ & _ & _ & _ & _ & Ht). fold row' in Ht.
  pose proof (Gameplay.ad_plan _ _ _ _ _ _ _ Ha) as Hp.
  apply Gameplay.planMove_inr in Hp as (el & g1 & g2 & _ & _ & _ & Hgo & _).
  destruct (me_gameOver (Gameplay.mp_evaluation plan)) as [|reason winner].
  - rewrite Hgo in Ht. destruct Ht as (Hst & _).
    exists ACCEPT_MOVE, None, IN_PROGRESS. split_and!; try done; [set_solver|].
    rewrite Hst. case_bool_decide as Hb; [done|].
    by destruct (Gameplay.ad_status _ _ _ _ _ _ _ Ha).
  - destruct Hgo as (o & Ho & Hgo). rewrite Hgo in Ht. destruct Ht as (Hst & _ & _ & Hr & Htm).
    destruct (derived_outcome _ _ Ho) as (Hos & Hto & Hval).
    exists ACCEPT_TERMINAL_MOVE, (Some o), (statusOf (to_status o)).
    split_and!; try done. set_solver.
Qed.

Lemma W_moved_change env db input row player color plan :
  Gameplay.admits env input db row player color plan ->
  0 <= g_version row -> g_version row + 2 <= MAX_SAFE_INTEGER ->
  row_change row (Gameplay.movedRow env row color (env_observedAt env) plan).
Proof.
  intros Ha Hver Hmax.
  pose proof (Gameplay.movedRow_spec env row color (env_observedAt env) plan)
    as (_ & _ & _ & _ & _ & _ & _ & Hv & _).
  destruct (moved_transition _ _ _ _ _ _ _ Ha)
    as (t & o & st' & Hin & Hfrom & Hto & Hd & Hout & Hst & Hrec).
  assert (t <> ALLOCATE) as Hna by (intros ->; set_solver).
  unfold Gameplay.moveIncrement in Hv.
  destruct (Gameplay.ad_status _ _ _ _ _ _ _ Ha) as [Hs|Hs].
  - rewrite bool_decide_eq_false_2 in Hv by (by rewrite Hs).
    apply (RC_step _ _ (mkLifecycle IN_PROGRESS (g_version row)) t o
             (mkLifecycle st' (g_version row + 1))); try done.
    apply lifecycle_step_intro; try done; [lia|rewrite Hfrom; set_solver|by rewrite Hd].
  - rewrite bool_decide_eq_true_2 in Hv by done.
    apply (RC_start_move _ _ (mkLifecycle READY (g_version row))
             (mkLifecycle IN_PROGRESS (g_version row + 1)) t o
             (mkLifecycle st' (g_version row + 2))); try done.
    + apply lifecycle_step_intro; try done; [lia|set_solver].
    + apply lifecycle_step_intro; try done; [lia|rewrite Hfrom; set_solver|rewrite Hd; lia].
Qed.

Lemma written_change env db row row' :
  written env db row row' ->
  0 <= g_version row -> g_version row + 2 <= MAX_SAFE_INTEGER -> row_change row row'.
Proof.
  intros Hw Hver Hmax.
  assert (forall st st' t, g_status row = toString st -> g_status row' = toString st' ->
    g_version row' = g_version row + 1 -> t <> ALLOCATE ->
    st ∈ rule_from (TRANSITION_RULES t) -> rule_to (TRANSITION_RULES t) = st' ->
    rule_outcomeStatus (TRANSITION_RULES t) = None ->
    rule_versionDelta (TRANSITION_RULES t) = 1 -> row_change row row') as Hplain.
  { intros st st' t Hst Hst' Hv Hna Hin Hto Hno Hd.
    apply (RC_step _ _ (mkLifecycle st (g_version row)) t None
             (mkLifecycle st' (g_version row'))); try done.
    apply lifecycle_step_intro; try done; [rewrite Hv; lia|by rewrite Hv, Hd]. }
  destruct Hw as [|event o Hmay Ho|input player color plan Ha|d Hr|d back Hs Hb|Hs|Hs].
  - by apply RC_same.
  - by eapply W_ended_change.
  - by eapply W_moved_change.
  - destruct (running_strings _ Hr) as (st & Hst & Hin).
    by apply (Hplain st RECONNECTING PLAYER_DISCONNECTED).
  - destruct Hb as [-> | ->].
    + apply (Hplain RECONNECTING IN_PROGRESS PLAYER_RECONNECTED); try done. set_solver.
    + by apply RC_still_reconnecting.
  - apply (Hplain WAITING_FOR_PLAYERS READY MARK_PLAYERS_READY); try done. set_solver.
  - apply (Hplain READY IN_PROGRESS START); try done. set_solver.
Qed.
(** The columns an allocation fixes for good. *)
Definition same_identity (row row' : GameRow) : Prop :=
  g_id row' = g_id row /\ g_matchId row' = g_matchId row /\ g_mode row' = g_mode row /\
  g_initialFen row' = g_initialFen row /\ g_timeInitialMs row' = g_timeInitialMs row /\
  g_incrementMs row' = g_incrementMs row /\ g_joinDeadlineAt row' = g_joinDeadlineAt row.

Lemma written_identity env db row row' : written env db row row' -> same_identity row row'.
Proof.
  unfold same_identity.
  intros [|event o _ _|input player color plan _|d _|d back _ _|_|_]; try done.
  pose proof (Gameplay.movedRow_spec env row color (env_observedAt env) plan)
    as (-> & -> & -> & -> & _ & _ & _ & _ & _ & _ & -> & -> & -> & _). done.
Qed.

Lemma written_version env db row row' :
  written env db row row' -> row' = row \/ g_version row < g_version row' <= g_version row + 2.
Proof.
  intros [|event o _ _|input player color plan _|d _|d back _ _|_|_]; [by left|right..];
    try (simpl; lia).
  pose proof (Gameplay.movedRow_spec env row color (env_observedAt env) plan)
    as (_ & _ & _ & _ & _ & _ & _ & -> & _).
  unfold Gameplay.moveIncrement. case_bool_decide; lia.
Qed.

Lemma may_end_active row event : may_end row event -> isTerminal row = false.
Proof.
  intros Hm. destruct event; simpl in Hm; try done;
    try (destruct (running_strings _ Hm) as (st & Hst & Hin);
         eapply not_terminal; [exact Hst|]; set_solver).
  - by eapply not_terminal.
  - eapply not_terminal; [exact Hm|set_solver].
Qed.

Lemma written_active env db row row' :
  written env db row row' -> row' = row \/ isTerminal row = false.
Proof.
  intros [|event o Hm _|input player color plan Ha|d Hr|d back Hs _|Hs|Hs];
    [by left|right..].
  - by eapply may_end_active.
  - destruct (Gameplay.ad_status _ _ _ _ _ _ _ Ha) as [Hs|Hs];
      eapply not_terminal; try exact Hs; set_solver.
  - destruct (running_strings _ Hr) as (st & Hst & Hin).
    eapply not_terminal; [exact Hst|]. set_solver.
  - eapply not_terminal; [exact Hs|set_solver].
  - eapply not_terminal; [exact Hs|set_solver].
  - eapply not_terminal; [exact Hs|set_solver].
Qed.

Lemma keyed_put db f gid row :
  keyed db -> g_id row = gid ->
  (forall d, games (f d) = games d) -> keyed (f (with_games <[gid := row]> db)).
Proof.
  intros Hk Hid Hf g r. rewrite Hf. simpl.
  intros [[<- <-]|[_ Hr]]%lookup_insert_Some; [done|by apply Hk].
Qed.

(** A new row is an allocated game's. *)
Lemma effect_new_row env db db' gid row' :
  keyed db -> effect env db db' -> games db !! gid = None -> games db' !! gid = Some row' ->
  exists input, gid = Games.al_gameId input /\ row' = Games.newGameRow env input.
Proof.
  intros Hk He Hrow Hrow'.
  destruct He as [|gid' event sub db1 f game Hend Hg _ _|input game player color plan Ha
    |gid' game guest player c grace Hg _ _ _ _|gid' game guest player c Hg _ _ _
    |gid' game guest player c Hg _ _|input game player Hg _ _ _|input game player Hg _ _
    |gid' game Hg _|input _ _ _ _ _]; try congruence.
  - destruct Hend as (game' & o & Hg' & _ & _ & _ & _ & ->). simpl in Hrow'.
    rewrite (Hk _ _ Hg') in Hrow'. rewrite lookup_insert_ne in Hrow' by congruence. congruence.
  - pose proof (Gameplay.ad_game _ _ _ _ _ _ _ Ha) as Hg.
    rewrite Gameplay.movedDB_games, (Hk _ _ Hg), lookup_insert_ne in Hrow'; congruence.
  - simpl in Hrow'. rewrite (Hk _ _ Hg), lookup_insert_ne in Hrow' by congruence. congruence.
  - simpl in Hrow'. rewrite (Hk _ _ Hg), lookup_insert_ne in Hrow' by congruence. congruence.
  - simpl in Hrow'. congruence.
  - simpl in Hrow'. congruence.
  - simpl in Hrow'. rewrite lookup_insert_ne in Hrow' by congruence. congruence.
  - simpl in Hrow'. rewrite lookup_insert_ne in Hrow' by congruence. congruence.
  - simpl in Hrow'. apply lookup_insert_Some in Hrow' as [[<- <-]|[_ Hr]]; [eauto|congruence].
Qed.

Lemma effect_keyed env db db' : keyed db -> effect env db db' -> keyed db'.
Proof.
  intros Hk He gid row' Hrow'.
  destruct (games db !! gid) as [row|] eqn:Hrow.
  - destruct (effect_row _ _ _ _ _ Hk He Hrow) as (r & Hr & Hw).
    assert (r = row') as <- by congruence.
    rewrite (proj1 (written_identity _ _ _ _ Hw)). by apply Hk.
  - by destruct (effect_new_row _ _ _ _ _ Hk He Hrow Hrow') as (input & -> & ->).
Qed.

(** ** Runs *)

(** Operations one after the other, each at its own time. *)
Definition exec_all (steps : list (Env * Op)) (db : DB) : DB :=
  fold_left (fun db step => exec step.1 step.2 db) steps db.

Fixpoint steps_ok (steps : list (Env * Op)) (db : DB) : Prop :=
  match steps with
  | [] => True
  | (env, op) :: steps => op_ok env op db /\ steps_ok steps (exec env op db)
  end.

Lemma exec_keyed env op db : keyed db -> op_ok env op db -> keyed (exec env op db).
Proof. intros Hk Hok. by eapply effect_keyed, exec_effect. Qed.

(** What every operation preserves of a row, every run preserves. *)
Lemma exec_all_row (R : GameRow -> GameRow -> Prop) steps db gid row :
  keyed db -> steps_ok steps db -> games db !! gid = Some row ->
  (forall r, R r r) -> (forall r1 r2 r3, R r1 r2 -> R r2 r3 -> R r1 r3) ->
  (forall env db r r', written env db r r' -> R r r') ->
  exists row', games (exec_all steps db) !! gid = Some row' /\ R row row'.
Proof.
  intros Hk Hok Hrow Hrefl Htrans Hstep. revert db row Hk Hok Hrow.
  induction steps as [|[env op] steps IH]; intros db row Hk Hok Hrow; [by eauto|].
  destruct Hok as [Hop Hok].
  destruct (effect_row _ _ _ _ _ Hk (exec_effect _ _ _ Hk Hop) Hrow) as (row1 & Hrow1 & Hw).
  destruct (IH _ row1 (exec_keyed _ _ _ Hk Hop) Hok Hrow1) as (row' & Hrow' & HR).
  exists row'. split; [done|]. eauto.
Qed.

(** C3: the repositories refine the lifecycle of game-state-machine.ts. Whatever
    operation runs on the database, and whatever it answers, every game row stays
    in place and keeps its identity, and its (status, version) pair either stays,
    or makes one step of transitionGame, recording the step's outcome in its
    result and termination columns, or (the first move in a READY game) makes a
    START and a move step at once. The only other changes are two that the
    transition table does not have: a session reset abandons a game that has not
    started, and a player comes back while the other one is still away. *)
Theorem operations_refine_lifecycle env op db gid row :
  keyed db -> op_ok env op db -> games db !! gid = Some row ->
  0 <= g_version row -> g_version row + 2 <= MAX_SAFE_INTEGER ->
  exists row', games (exec env op db) !! gid = Some row' /\
    same_identity row row' /\ row_change row row'.
Proof.
  intros Hk Hok Hrow Hver Hmax.
  destruct (effect_row _ _ _ _ _ Hk (exec_effect _ _ _ Hk Hok) Hrow) as (row' & Hrow' & Hw).
  exists row'. eauto using written_identity, written_change.
Qed.

(** Optimistic concurrency control is sound. Along any sequence of operations
    the version of a game never goes down, and two states of the game with the
    same version are the same row: whoever writes at an expected version writes
    over exactly the state that was read. *)
Theorem version_identifies_state steps db gid row :
  keyed db -> steps_ok steps db -> games db !! gid = Some row ->
  exists row', games (exec_all steps db) !! gid = Some row' /\
    g_version row <= g_version row' /\ (g_version row' = g_version row -> row' = row).
Proof.
  intros Hk Hok Hrow.
  apply (exec_all_row (fun r r' => g_version r <= g_version r' /\
           (g_version r' = g_version r -> r' = r)) steps db gid row); try done.
  - intros r1 r2 r3 [L1 E1] [L2 E2]. split; [lia|]. intros E.
    rewrite E2 by lia. apply E1. lia.
  - intros env d r r' [->|Hv]%written_version; [by split|lia].
Qed.
End System.

(** ** A sample run, for the witnesses

    Alice and Bob are matched, get ready and play a move; Bob's connection breaks
    and comes back, and Bob resigns. *)

#[local] Existing Instance SampleChess.sample.
#[local] Existing Instance SampleChess.sample_laws.
#[local] Existing Instance sample_prisma.
#[local] Existing Instance Gameplay.sample_zod.

Definition sample_start : list (Env * Op) :=
  [(env_at 900000, OpAllocate Games.sample_allocation);
   (env_at 905000, OpReady (Games.mkMarkGameReady 0 "game-1" "alice" 905000));
   (env_at 910000, OpReady (Games.mkMarkGameReady 0 "game-1" "bob" 910000));
   (env_at 911000, OpStart "game-1")].

Definition sample_end : list (Env * Op) :=
  [(env_at 920000, OpDisconnect Games.waiting_db "bob" 60000);
   (env_at 925000, OpReconnect Games.waiting_db "bob");
   (env_at 930000, OpResign (mkResignGame "event-1" 5 "game-1" "bob"))].

Definition sample_steps : list (Env * Op) :=
  sample_start ++ (env_at 915000, OpMove Gameplay.sample_move) :: sample_end.

Lemma sample_allocation_ok db :
  players db = [] -> op_ok (env_at 900000) (OpAllocate Games.sample_allocation) db.
Proof.
  intros Hp. split_and!; try done.
  - eexists. split; [reflexivity|]. done.
  - intros p. rewrite Hp. by intros ?%not_elem_of_nil.
Qed.

Lemma sample_start_ok : steps_ok sample_start Games.empty_db.
Proof. split; [by apply sample_allocation_ok|]. done. Qed.

Lemma sample_steps_ok : steps_ok sample_steps Games.empty_db.
Proof. split; [by apply sample_allocation_ok|]. split_and!; done. Qed.

Lemma empty_keyed : keyed Games.empty_db.
Proof. intros gid row Hrow. simpl in Hrow. by rewrite lookup_empty in Hrow. Qed.

Lemma operations_refine_lifecycle_witness :
  exists row', games (exec (env_at 1030000) (OpMove Gameplay.sample_move) sample_db) !! "game-1"
      = Some row' /\ row_change sample_row row' /\ g_version row' = 3.
Proof.
  assert (g_version <$> games (exec (env_at 1030000) (OpMove Gameplay.sample_move) sample_db)
            !! "game-1" = Some 3) as Hv by (vm_compute; reflexivity).
  destruct (operations_refine_lifecycle (env_at 1030000) (OpMove Gameplay.sample_move) sample_db
    "game-1" sample_row Gameplay.sample_keyed I eq_refl) as (row' & Hrow & _ & Hc);
    [vm_compute; discriminate|vm_compute; discriminate|].
  exists row'. split; [exact Hrow|]. split; [exact Hc|].
  rewrite Hrow in Hv. by injection Hv.
Defined.

(** The whole run, from the position after the start on. *)
Lemma version_identifies_state_witness :
  exists row', games (exec_all sample_end sample_db) !! "game-1" = Some row' /\
    g_version sample_row <= g_version row' /\
    (g_version row' = g_version sample_row -> row' = sample_row).
Proof.
  apply (version_identifies_state sample_end sample_db "game-1" sample_row);
    [exact Gameplay.sample_keyed|repeat split; vm_compute; discriminate|reflexivity].
Defined.
