(* ===== verification/GameInvariant.v ===== *)
(** * The invariant of the game database

    What every state the operations can reach satisfies, for each game: its row,
    its two players, its moves and its assignments fit together. The CHECK
    constraints and the deferred aggregate constraint of
    [src/prisma/migrations] are among it, so that they never fire, and the
    stored history of every game replays to its stored position.

    Each effect of [GameSystem] preserves the invariant; every run of operations
    therefore does. *)

From S2P Require Export GameSystem Schema.
Local Open Scope string_scope.
Local Open Scope list_scope.
Local Open Scope Z_scope.

Section Invariant.
Context `{Zod} `{ChessJs} `{Prisma}.

(** ** The invariant *)

Definition disconnected (p : PlayerRow) : Prop := p_disconnectedAt p <> None.

(** The invariant of one game: its row, its players, its moves, and the guests
    assigned to it. *)
Record game_inv (row : GameRow) (ps : list PlayerRow) (ms : list MoveRow)
    (assigned : string -> Prop) : Prop := {
  gi_players : exists pw pb, ps = [pw; pb] /\
    p_color pw = "w" /\ p_color pb = "b" /\ p_slot pw = 0 /\ p_slot pb = 1 /\
    p_id pw <> p_id pb /\ p_guestSessionId pw <> p_guestSessionId pb;
  gi_mode : g_mode row = "BLITZ";
  gi_status : exists st : GameStatus, g_status row = toString st /\ st <> CREATED;
  gi_turn : exists c : PlayerColor, g_turnColor row = toString c;
  gi_assigned : forall guest, assigned guest <->
    isTerminal row = false /\ guest ∈ map p_guestSessionId ps;
  gi_terminal :
    if isTerminal row
    then is_Some (g_result row) /\ is_Some (g_termination row) /\ is_Some (g_endedAt row)
    else g_result row = None /\ g_termination row = None /\ g_endedAt row = None;
  gi_running : is_running row = true <-> is_Some (g_turnStartedAt row);
  gi_started : is_running row = true -> is_Some (g_startedAt row);
  gi_graces : Forall (fun p => game_players_disconnect_state_check p = true) ps;
  gi_reconnecting : g_status row = "RECONNECTING" <-> Exists disconnected ps;
  gi_deadline : g_reconnectDeadlineAt row =
    Lifecycle.earliest (omap p_reconnectGraceEndsAt ps);
  gi_waiting : g_status row = "WAITING_FOR_PLAYERS" ->
    Exists (fun p => p_joinedAt p = None) ps;
  gi_clocks : 0 <= g_whiteClockMs row /\ 0 <= g_blackClockMs row /\ 0 <= g_incrementMs row;
  gi_initial : 0 < g_timeInitialMs row;
  gi_outcome : games_result_check row = true /\ games_termination_check row = true;
  gi_version : 0 <= g_version row;
  gi_moves : Gameplay.hasContiguousHistory ms = true;
  gi_chess : exists chess,
    replayHistory (g_initialFen row) (map m_uci ms) = Ok chess /\
    chess_fen chess = g_currentFen row /\ toString (chess_turn chess) = g_turnColor row
}.

Definition assignedTo (db : DB) (gid guest : string) : Prop :=
  assignments db !! guest = Some gid.

Record wf (db : DB) : Prop := {
  wf_keyed : keyed db;
  wf_owned : Games.owned db;
  wf_moves : forall m, m ∈ moves db -> is_Some (games db !! m_gameId m);
  wf_ids : NoDup (map p_id (players db));
  wf_assigned : forall guest gid, assignments db !! guest = Some gid ->
                                  is_Some (games db !! gid);
  wf_games : forall gid row, games db !! gid = Some row ->
    game_inv row (gamePlayers db gid) (gameMoves db gid) (assignedTo db gid)
}.

(** ** Frames *)

(** Nothing but the game [gid] differs. *)
Record frame (gid : string) (db db' : DB) : Prop := {
  fr_games : forall g, g <> gid -> games db' !! g = games db !! g;
  fr_players : forall g, g <> gid -> gamePlayers db' g = gamePlayers db g;
  fr_moves : forall g, g <> gid -> gameMoves db' g = gameMoves db g;
  fr_assigned : forall g guest, g <> gid -> assignedTo db' g guest <-> assignedTo db g guest
}.

Lemma game_inv_ext row ps ms a a' :
  (forall g, a' g <-> a g) -> game_inv row ps ms a -> game_inv row ps ms a'.
Proof. intros Ha [? ? ? ? Has]. constructor; try done. intros g. by rewrite Ha, Has. Qed.

Lemma wf_frame gid db db' :
  wf db -> frame gid db db' -> keyed db' -> Games.owned db' ->
  (forall m, m ∈ moves db' -> is_Some (games db' !! m_gameId m)) ->
  NoDup (map p_id (players db')) -> is_Some (games db' !! gid) ->
  (forall row, games db' !! gid = Some row ->
     game_inv row (gamePlayers db' gid) (gameMoves db' gid) (assignedTo db' gid)) ->
  wf db'.
Proof.
  intros Hwf [Hfg Hfp Hfm Hfa] Hk Ho Hm Hn Hsome Hg. constructor; try done.
  - intros guest g Ha. destruct (decide (g = gid)) as [->|Hne]; [done|].
    rewrite Hfg by done. eapply wf_assigned; [done|]. by apply Hfa.
  - intros g row Hrow. destruct (decide (g = gid)) as [->|Hne]; [by apply Hg|].
    rewrite Hfp, Hfm by done. rewrite Hfg in Hrow by done.
    eapply game_inv_ext; [intros; by apply Hfa|]. by apply wf_games.
Qed.

(** ** Writes to players *)

Lemma on_player_other db player gid data :
  NoDup (map p_id (players db)) -> player ∈ players db -> gid <> p_gameId player ->
  gamePlayers (with_players (map (on_player (p_id player) data)) db) gid =
  gamePlayers db gid.
Proof.
  intros Hn Hin Hne. rewrite gamePlayers_on_player.
  rewrite <- (map_id (gamePlayers db gid)) at 2. apply map_ext_in.
  intros r Hr%list_elem_of_In. apply gamePlayers_elem in Hr as [Hr Hg].
  unfold on_player. case_decide as Hid; [|done].
  apply list_elem_of_lookup in Hr as [i Hi]. apply list_elem_of_lookup in Hin as [j Hj].
  assert (i = j) as <-; [|congruence].
  apply (proj1 (NoDup_alt _) Hn i j (p_id player)); rewrite list_lookup_fmap;
    [by rewrite Hi; simpl; f_equal|by rewrite Hj].
Qed.

Lemma on_game_other db gid gid' data :
  gid' <> gid ->
  gamePlayers (with_players (map (on_game_players gid data)) db) gid' = gamePlayers db gid'.
Proof.
  intros Hne. rewrite gamePlayers_on_game.
  rewrite <- (map_id (gamePlayers db gid')) at 2. apply map_ext_in.
  intros r Hr%list_elem_of_In. apply gamePlayers_elem in Hr as [_ Hg].
  unfold on_game_players. rewrite decide_False by congruence. done.
Qed.

Lemma map_on_player_ids id data l : map p_id (map (on_player id data) l) = map p_id l.
Proof.
  rewrite map_map. apply map_ext. intros r. unfold on_player.
  case_decide; [apply p_id_set|done].
Qed.

Lemma map_on_game_ids gid data l : map p_id (map (on_game_players gid data) l) = map p_id l.
Proof.
  rewrite map_map. apply map_ext. intros r. unfold on_game_players.
  case_decide; [apply p_id_set|done].
Qed.

Lemma owned_map f db db' :
  Games.owned db -> players db' = map f (players db) ->
  (forall r, p_gameId (f r) = p_gameId r) ->
  (forall gid, is_Some (games db !! gid) -> is_Some (games db' !! gid)) ->
  Games.owned db'.
Proof.
  intros Ho Hp Hf Hg p. rewrite Hp. intros Hin%list_elem_of_In%in_map_iff.
  destruct Hin as (r & <- & Hr). rewrite Hf. apply Hg, Ho. by apply list_elem_of_In.
Qed.

Lemma on_player_gameId id data r : p_gameId (on_player id data r) = p_gameId r.
Proof. unfold on_player. case_decide; [apply p_gameId_set|done]. Qed.

Lemma on_game_gameId gid data r : p_gameId (on_game_players gid data r) = p_gameId r.
Proof. unfold on_game_players. case_decide; [apply p_gameId_set|done]. Qed.

Lemma insert_is_Some {A} (m : gmap string A) k v k' :
  is_Some (m !! k') -> is_Some (<[k := v]> m !! k').
Proof.
  intros Hm. destruct (decide (k = k')) as [->|Hne];
    [by rewrite lookup_insert_eq|by rewrite lookup_insert_ne].
Qed.

(** The general case of an operation on the existing game [gid]: it replaces its
    row, changes players of that game and nothing of others. *)
Lemma wf_update env db db' gid row row' f :
  wf db -> effect env db db' -> games db !! gid = Some row ->
  games db' = <[gid := row']> (games db) ->
  players db' = map f (players db) ->
  (forall r, p_gameId (f r) = p_gameId r) -> (forall r, p_id (f r) = p_id r) ->
  frame gid db db' ->
  (forall m, m ∈ moves db' -> m ∈ moves db \/ m_gameId m = gid) ->
  (game_inv row (gamePlayers db gid) (gameMoves db gid) (assignedTo db gid) ->
   game_inv row' (gamePlayers db' gid) (gameMoves db' gid) (assignedTo db' gid)) ->
  wf db'.
Proof.
  intros Hwf He Hrow Hgames Hpl Hfg Hfi Hframe Hmoves Hinv.
  assert (forall g, is_Some (games db !! g) -> is_Some (games db' !! g)) as Hkeep
    by (intros g Hg; rewrite Hgames; by apply insert_is_Some).
  apply (wf_frame gid db db' Hwf Hframe).
  - eapply effect_keyed; [apply (wf_keyed db Hwf)|done].
  - eapply owned_map; [apply (wf_owned db Hwf)|done..].
  - intros m Hm. apply Hmoves in Hm as [Hm|Hm]; [by apply Hkeep, (wf_moves db Hwf)|].
    rewrite Hm. apply Hkeep. eauto.
  - rewrite Hpl, map_map. erewrite map_ext; [apply (wf_ids db Hwf)|done].
  - apply Hkeep. eauto.
  - intros r Hr. rewrite Hgames, lookup_insert_eq in Hr. injection Hr as <-.
    by apply Hinv, (wf_games db Hwf).
Qed.
(** ** Each effect preserves the invariant *)

Lemma locked_ms_nonneg env row color ms : 0 <= ms -> 0 <= locked_ms env row color ms.
Proof. intros Hms. unfold locked_ms. repeat case_match; lia. Qed.

Lemma terminal_status_string s : isTerminal s = true -> is_running s = false.
Proof.
  intros Ht%isTerminal_spec. unfold is_running. apply includes_false.
  destruct Ht as [-> | [-> | ->]]; set_solver.
Qed.

Lemma statusOf_terminal (o : TerminalOutcome) row :
  g_status row = toString (statusOf (to_status o)) -> isTerminal row = true.
Proof. rewrite isTerminal_spec. intros ->. destruct (to_status o); simpl; auto. Qed.

Lemma ended_inv env row o ps ms a :
  game_inv row ps ms a -> Forall (fun p => p_gameId p = g_id row) ps ->
  game_inv (Lifecycle.endedRow env row (locked_of env row) o)
    (map (on_game_players (g_id row) [P_disconnectedAt None; P_reconnectGraceEndsAt None]) ps)
    ms (fun _ => False).
Proof.
  intros [(pw & pb & -> & Cw & Cb & Sw & Sb & Hid & Hguest) Hmode _ Hturn _ _ _ _ _ _ _ _
          (K1 & K2 & K3) Hinit Hout Hver Hmoves Hchess] Hgame.
  pose proof (Forall_inv Hgame) as Gw. pose proof (Forall_inv (Forall_inv_tail Hgame)) as Gb.
  pose proof (Lifecycle.endedRow_spec env row (locked_of env row) o)
    as (E1 & _ & E2 & E3 & E4 & _ & E5 & E6 & E7 & E8 & E9 & E10 & E11 & E12 & _ & _ & E13
        & E16 & E14 & E15).
  assert (isTerminal (Lifecycle.endedRow env row (locked_of env row) o) = true) as Ht
    by by apply (statusOf_terminal o).
  pose proof (terminal_status_string _ Ht) as Hr.
  simpl. unfold on_game_players. rewrite !decide_True by done.
  constructor; rewrite ?Ht, ?Hr, ?E2, ?E3, ?E4, ?E5, ?E8, ?E9, ?E10, ?E11, ?E12, ?E13, ?E14, ?E15, ?E16;
    try done.
  - eexists _, _. split; [reflexivity|]. simpl. done.
  - rewrite E7. eexists. split; [reflexivity|]. by destruct (to_status o).
  - intros g. simpl. naive_solver.
  - by repeat (constructor; [done|]).
  - rewrite E7. split; [by destruct (to_status o)|].
    by intros [Hd|[Hd|Hd%Exists_nil]%Exists_cons]%Exists_cons.
  - rewrite E7. by destruct (to_status o).
  - split_and!; [by apply locked_ms_nonneg..|done].
  - unfold games_result_check, games_termination_check. rewrite E8, E9.
    split; [by destruct (to_result o)|by destruct (to_termination o) as [|[]| | | |]].
  - lia.
Qed.

Lemma gamePlayers_game db gid : Forall (fun p => p_gameId p = gid) (gamePlayers db gid).
Proof. apply Forall_forall. by intros p [_ Hp]%gamePlayers_elem. Qed.

Lemma filter_assigned db gid g guest f :
  assignments (f db) = assignments db ->
  assignedTo (with_assignments (filter (fun kv => kv.2 <> gid)) (f db)) g guest <->
  g <> gid /\ assignedTo db g guest.
Proof.
  intros Hf. unfold assignedTo. simpl. rewrite Hf.
  rewrite map_lookup_filter_Some. simpl. naive_solver.
Qed.

Lemma ended_assigned env game o db g guest :
  assignedTo (Lifecycle.endedDB env game (locked_of env game) o db) g guest <->
  g <> g_id game /\ assignedTo db g guest.
Proof. by apply (filter_assigned db (g_id game) g guest (fun db => with_players _ (with_games _ db))). Qed.

Lemma E_end_frame env db gid event sub db1 f :
  wf db -> Lifecycle.ends_game env gid db event sub db1 -> frame gid db (with_commands f db1).
Proof.
  intros Hwf (game & o & Hg & _ & _ & _ & _ & ->). pose proof (wf_keyed _ Hwf _ _ Hg) as Hid.
  constructor; intros g.
  - intros Hne. simpl. rewrite Hid. by apply lookup_insert_ne.
  - intros Hne. rewrite <- Hid in Hne. exact (on_game_other db _ _ _ Hne).
  - done.
  - intros guest Hne. rewrite <- Hid in Hne.
    pose proof (ended_assigned env game o db g guest) as Ha. unfold assignedTo in *. simpl in *.
    naive_solver.
Qed.

Lemma E_end_wf env db gid event sub db1 f game :
  wf db -> effect env db (with_commands f db1) ->
  Lifecycle.ends_game env gid db event sub db1 -> games db !! gid = Some game ->
  wf (with_commands f db1).
Proof.
  intros Hwf He Hend Hg. pose proof (E_end_frame _ _ _ _ _ _ f Hwf Hend) as Hframe.
  destruct Hend as (game' & o & Hg' & _ & _ & _ & _ & ->).
  assert (game' = game) as -> by congruence.
  pose proof (wf_keyed _ Hwf _ _ Hg) as Hid.
  set (data := [P_disconnectedAt None; P_reconnectGraceEndsAt None]).
  eapply (wf_update env db _ gid game _ (on_game_players (g_id game) data) Hwf He Hg);
    [by rewrite <- Hid|done|apply on_game_gameId| |done|by left|].
  - intros r. unfold on_game_players. case_decide; [apply p_id_set|done].
  - intros Hinv.
    assert (Forall (fun p => p_gameId p = g_id game) (gamePlayers db gid)) as Hgp
      by (rewrite Hid; apply gamePlayers_game).
    pose proof (ended_inv env _ o _ _ _ Hinv Hgp) as Hended.
    fold data in Hended. rewrite <- (gamePlayers_on_game db (g_id game) gid data) in Hended.
    eapply game_inv_ext; [|exact Hended].
    intros guest. rewrite <- Hid.
    pose proof (ended_assigned env game o db (g_id game) guest) as Ha.
    unfold assignedTo in *. simpl in *. naive_solver.
Qed.

(** A move. *)

Lemma running_from s : g_status s = "IN_PROGRESS" -> is_running s = true.
Proof. intros Hs. unfold is_running. apply includes_true. rewrite Hs. set_solver. Qed.

Lemma moved_clocks game color t clock el :
  Gameplay.admission game color t = Ok (Accepted clock el) ->
  0 <= gc_whiteMs clock /\ 0 <= gc_blackMs clock.
Proof.
  unfold Gameplay.admission. intros (c & _ & Ha)%result_bind_Ok.
  apply admitMoveOnClock_nonneg in Ha. naive_solver.
Qed.

(** The status of the game after a move: over exactly when the move ended it. *)
Lemma moved_status env input db game player color plan :
  Gameplay.admits env input db game player color plan ->
  let row := Gameplay.movedRow env game color (env_observedAt env) plan in
  let continues := isNull (Gameplay.mp_terminal plan) in
  is_running row = continues /\ isTerminal row = negb continues /\
  g_turnStartedAt row = (if continues then Some (env_observedAt env) else None) /\
  g_status row = (if continues then "IN_PROGRESS" else "COMPLETED").
Proof.
  intros Ha row continues.
  pose proof (Gameplay.movedRow_spec env game color (env_observedAt env) plan)
    as (_ & _ & _ & _ & _ & _ & _ & _ & _ & _ & _ & _ & _ & _ & _ & Et). fold row in Et.
  pose proof (Gameplay.ad_status _ _ _ _ _ _ _ Ha) as Hst.
  pose proof (Gameplay.ad_plan _ _ _ _ _ _ _ Ha) as Hplan.
  pose proof (Gameplay.planMove_outcome _ _ _ _ _ _ _ Hplan) as Hboard. unfold continues.
  destruct (Gameplay.mp_terminal plan) as [o|]; simpl; destruct Et as (Es & -> & _).
  - destruct (Hboard o eq_refl) as [Hc _]. rewrite Hc in Es.
    split_and!; try done; [|apply isTerminal_spec; rewrite Es; auto].
    unfold is_running. by rewrite Es.
  - assert (g_status row = "IN_PROGRESS") as Es'
      by (rewrite Es; case_bool_decide; [done|]; by destruct Hst).
    split_and!; try done; [by apply running_from|].
    eapply not_terminal; [exact Es'|set_solver].
Qed.

Lemma moved_inv `{!ChessJsLaws} env input db game player color plan a a' :
  keyed db -> Gameplay.admits env input db game player color plan ->
  let gid := sm_gameId input in
  let row := Gameplay.movedRow env game color (env_observedAt env) plan in
  (forall guest, a' guest <-> Gameplay.mp_terminal plan = None /\ a guest) ->
  game_inv game (gamePlayers db gid) (gameMoves db gid) a ->
  game_inv row (gamePlayers db gid)
    (gameMoves db gid ++
     [Gameplay.moveRow game player (env_observedAt env) input plan]) a'.
Proof.
  intros Hk Ha gid row Has
    [Hps Hmode _ _ Hassigned Hterm Hrun Hstart Hgr Hrec Hdl Hwait (K1 & K2 & K3) Hinit Hout Hver Hms _].
  pose proof (Gameplay.movedRow_spec env game color (env_observedAt env) plan)
    as (E1 & _ & E2 & E3 & E4 & _ & E5 & E6 & E7 & E8 & E9 & E12 & _ & E10 & E11 & Et).
  fold row in E1, E2, E3, E4, E5, E6, E7, E8, E9, E10, E11, E12, Et.
  pose proof (Gameplay.admits_chess _ _ _ _ _ _ _ Ha) as (Hply & _ & chess & Hrep & Hfen & Ht & _).
  pose proof (Gameplay.ad_status _ _ _ _ _ _ _ Ha) as Hst.
  pose proof (Gameplay.ad_plan _ _ _ _ _ _ _ Ha) as Hplan.
  apply Gameplay.planMove_inr in Hplan as (el & _ & _ & Hadm & _).
  destruct (moved_clocks _ _ _ _ _ Hadm) as [C1 C2].
  assert (isTerminal game = false) as Hnt
    by (destruct Hst as [Hst|Hst]; eapply not_terminal; try exact Hst; set_solver).
  assert (~ Exists disconnected (gamePlayers db gid)) as Hconn
    by (rewrite <- Hrec; destruct Hst as [-> | ->]; done).
  rewrite Hnt in Hterm. destruct Hterm as (T1 & T2 & T3).
  destruct (moved_status _ _ _ _ _ _ _ Ha) as (R1 & R2 & R3 & R4). fold row in R1, R2, R3, R4.
  constructor; try done.
  - by rewrite E2.
  - rewrite R4. by destruct (isNull _); [exists IN_PROGRESS|exists COMPLETED].
  - rewrite E5. eauto.
  - intros guest. rewrite Has, Hassigned, R2, Hnt.
    destruct (Gameplay.mp_terminal plan); simpl; naive_solver.
  - rewrite R2. destruct (Gameplay.mp_terminal plan) as [o|]; simpl.
    + destruct Et as (_ & _ & -> & -> & ->). eauto.
    + destruct Et as (_ & _ & -> & -> & ->). done.
  - rewrite R1, R3. destruct (isNull _); simpl; split; intros Hx; eauto; try done.
  - intros _. rewrite E11. case_bool_decide; [eauto|].
    apply Hstart, running_from. by destruct Hst.
  - rewrite R4. by destruct (isNull _).
  - by rewrite E10.
  - rewrite R4. by destruct (isNull _).
  - by rewrite E7, E8, E9.
  - by rewrite E12.
  - unfold games_result_check, games_termination_check in *.
    destruct (Gameplay.mp_terminal plan) as [o|]; destruct Et as (_ & _ & _ & -> & ->); [|done].
    split; [by destruct (to_result o)|by destruct (to_termination o) as [|[]| | | |]].
  - rewrite E6. unfold Gameplay.moveIncrement. case_bool_decide; lia.
  - by apply Gameplay.hasContiguousHistory_snoc.
  - exists chess. rewrite map_app, E3, E4, E5, Ht. done.
Qed.

Lemma moved_assigned env input db game player color plan g guest :
  g_id game = sm_gameId input ->
  assignedTo (Gameplay.movedDB env game player color (env_observedAt env) input plan db) g guest
  <-> (Gameplay.mp_terminal plan = None \/ g <> sm_gameId input) /\ assignedTo db g guest.
Proof.
  intros Hid. unfold assignedTo, Gameplay.movedDB. simpl. rewrite Hid.
  destruct (Gameplay.mp_terminal plan); simpl; [|naive_solver].
  rewrite map_lookup_filter_Some. simpl. naive_solver.
Qed.

Lemma E_move_frame env input db game player color plan :
  wf db -> Gameplay.admits env input db game player color plan ->
  frame (sm_gameId input) db
    (Gameplay.movedDB env game player color (env_observedAt env) input plan db).
Proof.
  intros Hwf Ha. pose proof (wf_keyed _ Hwf _ _ (Gameplay.ad_game _ _ _ _ _ _ _ Ha)) as Hid.
  constructor; intros g.
  - intros Hne. rewrite Gameplay.movedDB_games, Hid. by apply lookup_insert_ne.
  - done.
  - intros Hne. apply (Gameplay.gameMoves_other db g
      (fun l => l ++ [Gameplay.moveRow game player (env_observedAt env) input plan])).
    intros l. rewrite filter_app, (filter_cons_False _ _ []), filter_nil, app_nil_r; [done|].
    simpl. congruence.
  - intros guest Hne. rewrite moved_assigned by done. naive_solver.
Qed.

Lemma E_move_moves `{!ChessJsLaws} env input db game player color plan :
  keyed db -> Gameplay.admits env input db game player color plan ->
  gameMoves (Gameplay.movedDB env game player color (env_observedAt env) input plan db)
    (sm_gameId input) =
  gameMoves db (sm_gameId input) ++
    [Gameplay.moveRow game player (env_observedAt env) input plan].
Proof.
  intros Hk Ha. pose proof (Hk _ _ (Gameplay.ad_game _ _ _ _ _ _ _ Ha)) as Hid.
  pose proof (Gameplay.admits_chess _ _ _ _ _ _ _ Ha) as (Hply & _).
  pose proof (Gameplay.ad_history _ _ _ _ _ _ _ Ha) as Hh.
  pose proof (Gameplay.movedDB_moves env game player color (env_observedAt env) input plan db)
    as Hm. rewrite Hid in Hm. by apply Hm.
Qed.

Lemma E_move_wf `{!ChessJsLaws} env input db game player color plan :
  let db' := Gameplay.movedDB env game player color (env_observedAt env) input plan db in
  wf db -> effect env db db' -> Gameplay.admits env input db game player color plan ->
  wf db'.
Proof.
  intros db' Hwf He Ha. pose proof (Gameplay.ad_game _ _ _ _ _ _ _ Ha) as Hg.
  pose proof (wf_keyed _ Hwf _ _ Hg) as Hid.
  eapply (wf_update env db db' (sm_gameId input) game _ (fun r => r) Hwf He Hg); try done.
  - unfold db'. by rewrite Gameplay.movedDB_games, Hid.
  - by rewrite map_id.
  - by apply E_move_frame.
  - intros m. unfold db', Gameplay.movedDB. simpl.
    intros [Hm|Hm%list_elem_of_singleton]%elem_of_app; [by left|right]. by subst m.
  - intros Hinv. unfold db'.
    rewrite (E_move_moves _ _ _ _ _ _ _ (wf_keyed _ Hwf) Ha).
    apply (moved_inv env input db game player color plan (assignedTo db (sm_gameId input)));
      [apply (wf_keyed _ Hwf)|done| |done].
    intros guest. rewrite moved_assigned by done. naive_solver.
Qed.

(** Disconnection, reconnection, joining. *)

Lemma on_player_eq p data : on_player (p_id p) data p = set_PlayerColumns data p.
Proof. unfold on_player. by rewrite decide_True. Qed.

Lemma on_player_ne p p' data : p_id p' <> p_id p -> on_player (p_id p) data p' = p'.
Proof. intros Hne. unfold on_player. by rewrite decide_False. Qed.

Lemma otherDeadlines_two pw pb player :
  p_id pw <> p_id pb -> player ∈ [pw; pb] ->
  (player = pw /\ Lifecycle.otherDeadlines [pw; pb] player = omap p_reconnectGraceEndsAt [pb]) \/
  (player = pb /\ Lifecycle.otherDeadlines [pw; pb] player = omap p_reconnectGraceEndsAt [pw]).
Proof.
  intros Hne Hin. unfold Lifecycle.otherDeadlines.
  apply elem_of_cons in Hin as [-> | ->%list_elem_of_singleton].
  - left. split; [done|]. by rewrite filter_cons_False, filter_cons_True, filter_nil by naive_solver.
  - right. split; [done|]. by rewrite filter_cons_True, filter_cons_False, filter_nil by naive_solver.
Qed.

Lemma earliest_two x y : Lifecycle.earliest [x; y] = Lifecycle.earliest [y; x].
Proof.
  unfold Lifecycle.earliest. simpl.
  destruct (Z.ltb_spec y x), (Z.ltb_spec x y); f_equal; lia.
Qed.

(** The row of a game one of whose players left or came back. *)
Definition reconnect_row (env : Env) (d : option Z) (st : string) (game : GameRow) : GameRow :=
  set_GameColumns [G_reconnectDeadlineAt d; G_status st; G_version_increment 1;
                   G_updatedAt (env_updatedAt env)] game.

Lemma grace_iff p :
  game_players_disconnect_state_check p = true ->
  p_disconnectedAt p = None <-> p_reconnectGraceEndsAt p = None.
Proof.
  unfold game_players_disconnect_state_check.
  destruct (p_disconnectedAt p), (p_reconnectGraceEndsAt p); naive_solver.
Qed.

(** Both players' connections, after the update, decide the row. *)
Lemma reconnect_row_inv env d st game ps ps' ms a :
  game_inv game ps ms a -> is_running game = true ->
  st = "IN_PROGRESS" \/ st = "RECONNECTING" ->
  (exists pw pb pw' pb', ps = [pw; pb] /\ ps' = [pw'; pb'] /\
     p_id pw' = p_id pw /\ p_id pb' = p_id pb /\
     p_guestSessionId pw' = p_guestSessionId pw /\ p_guestSessionId pb' = p_guestSessionId pb /\
     p_color pw' = p_color pw /\ p_color pb' = p_color pb /\
     p_slot pw' = p_slot pw /\ p_slot pb' = p_slot pb) ->
  Forall (fun p => game_players_disconnect_state_check p = true) ps' ->
  (st = "RECONNECTING" <-> Exists disconnected ps') ->
  d = Lifecycle.earliest (omap p_reconnectGraceEndsAt ps') ->
  game_inv (reconnect_row env d st game) ps' ms a.
Proof.
  intros [(xw & xb & -> & Cw & Cb & Sw & Sb & Hid & Hguest) Hmode _ Hturn Hassigned Hterm Hrun
          Hstart _ _ _ _ Hclocks Hinit Hout Hver Hms Hchess]
    Hr Hst (pw & pb & pw' & pb' & [= -> ->] & -> & I1 & I2 & G1 & G2 & C1 & C2 & S1 & S2)
    Hgr Hrec Hd.
  assert (isTerminal game = false) as Hnt.
  { apply not_true_iff_false. intros Ht. apply terminal_status_string in Ht. congruence. }
  rewrite Hnt in Hterm.
  assert (isTerminal (reconnect_row env d st game) = false /\
          is_running (reconnect_row env d st game) = true) as [Ht' Hr']
    by (by destruct Hst as [-> | ->]).
  constructor; try done.
  - exists pw', pb'. by rewrite I1, I2, G1, G2, C1, C2, S1, S2.
  - destruct Hst as [-> | ->]; [by exists IN_PROGRESS|by exists RECONNECTING].
  - intros guest. rewrite Hassigned, Ht', Hnt. simpl. by rewrite G1, G2.
  - by rewrite Ht'.
  - rewrite Hr'. by rewrite Hr in Hrun.
  - intros _. by apply Hstart.
  - simpl. by destruct Hst as [-> | ->].
  - simpl. lia.
Qed.

(** A player of the game [gid] changes, and perhaps its row. *)
Lemma player_frame db gid player data g :
  wf db -> player ∈ gamePlayers db gid ->
  frame gid db (with_games <[gid := g]> (with_players (map (on_player (p_id player) data)) db)).
Proof.
  intros Hwf [Hin Hpg]%gamePlayers_elem. constructor; intros g'; try done.
  - intros Hne. by apply lookup_insert_ne.
  - intros Hne. apply (on_player_other db player g' data (wf_ids _ Hwf) Hin). congruence.
Qed.

Lemma row_frame db gid row : frame gid db (with_games <[gid := row]> db).
Proof. constructor; intros g; try done. intros Hne. by apply lookup_insert_ne. Qed.

Lemma player_change_wf env db gid game player data row' db' :
  wf db -> effect env db db' -> games db !! gid = Some game -> player ∈ gamePlayers db gid ->
  db' = with_games <[gid := row']> (with_players (map (on_player (p_id player) data)) db) ->
  (game_inv game (gamePlayers db gid) (gameMoves db gid) (assignedTo db gid) ->
   game_inv row' (map (on_player (p_id player) data) (gamePlayers db gid))
     (gameMoves db gid) (assignedTo db gid)) ->
  wf db'.
Proof.
  intros Hwf He Hg Hin Hdb Hinv.
  eapply (wf_update env db db' gid game row' (on_player (p_id player) data) Hwf He Hg);
    rewrite Hdb in *; try done.
  - apply on_player_gameId.
  - intros r. unfold on_player. case_decide; [apply p_id_set|done].
  - by apply player_frame.
  - by left.
  - intros Hi. apply Hinv in Hi. by rewrite <- gamePlayers_on_player in Hi.
Qed.

Lemma E_disconnect_wf env db gid game guest player c graceMs :
  let db' := Lifecycle.disconnectedDB env game (gamePlayers db gid) player graceMs db in
  wf db -> effect env db db' -> games db !! gid = Some game -> is_running game = true ->
  0 <= graceMs ->
  Lifecycle.playerFor (gamePlayers db gid) guest = Some (player, c) -> wf db'.
Proof.
  intros db' Hwf He Hg Hr Hgrace (Hin & _ & _)%Lifecycle.playerFor_Some.
  eapply (player_change_wf env db gid game player _ _ db' Hwf He Hg Hin).
  { unfold db', Lifecycle.disconnectedDB. by rewrite (wf_keyed _ Hwf _ _ Hg). }
  intros Hinv. apply (reconnect_row_inv _ _ _ game (gamePlayers db gid)); try done; [by right|..].
  all: pose proof (gi_players _ _ _ _ Hinv) as (pw & pb & Hps & _ & _ & _ & _ & Hne & _).
  all: pose proof (gi_graces _ _ _ _ Hinv) as Hgr; rewrite Hps in *.
  all: destruct (otherDeadlines_two pw pb player Hne Hin) as [[-> Ho]|[-> Ho]];
    simpl; rewrite on_player_eq, on_player_ne by done.
  1-2: eexists _, _, _, _; split_and!; reflexivity.
  1-2: inversion Hgr as [|? ? Hgw Hgr']; inversion Hgr' as [|? ? Hgb _]; subst;
    rewrite !Forall_cons; split_and?; try done;
    unfold game_players_disconnect_state_check; simpl; apply Z.leb_le; lia.
  - split; [intros _|done]. by apply Exists_cons_hd.
  - split; [intros _|done]. by apply Exists_cons_tl, Exists_cons_hd.
  - rewrite Ho. simpl. by destruct (p_reconnectGraceEndsAt pb).
  - rewrite Ho. simpl. destruct (p_reconnectGraceEndsAt pw); [apply earliest_two|done].
Qed.

Lemma E_reconnect_wf env db gid game guest player c :
  let db' := Lifecycle.reconnectedDB env game (gamePlayers db gid) player db in
  wf db -> effect env db db' -> games db !! gid = Some game ->
  g_status game = "RECONNECTING" ->
  Lifecycle.playerFor (gamePlayers db gid) guest = Some (player, c) -> wf db'.
Proof.
  intros db' Hwf He Hg Hs (Hin & _ & _)%Lifecycle.playerFor_Some.
  assert (is_running game = true) as Hr by (unfold is_running; by rewrite Hs).
  eapply (player_change_wf env db gid game player _ _ db' Hwf He Hg Hin).
  { unfold db', Lifecycle.reconnectedDB. by rewrite (wf_keyed _ Hwf _ _ Hg). }
  intros Hinv. apply (reconnect_row_inv _ _ _ game (gamePlayers db gid)); try done.
  { case_decide; auto. }
  all: pose proof (gi_players _ _ _ _ Hinv) as (pw & pb & Hps & _ & _ & _ & _ & Hne & _).
  all: pose proof (gi_graces _ _ _ _ Hinv) as Hgr; rewrite Hps in *.
  all: inversion Hgr as [|? ? Hgw Hgr']; inversion Hgr' as [|? ? Hgb _]; subst.
  all: destruct (otherDeadlines_two pw pb player Hne Hin) as [[-> Ho]|[-> Ho]];
    rewrite ?Ho; simpl; rewrite on_player_eq, on_player_ne by done.
  1-2: eexists _, _, _, _; split_and!; reflexivity.
  1-2: rewrite !Forall_cons; split_and?; done.
  - rewrite !Exists_cons, Exists_nil. unfold disconnected. simpl.
    apply grace_iff in Hgb. destruct (p_reconnectGraceEndsAt pb); simpl; naive_solver.
  - rewrite !Exists_cons, Exists_nil. unfold disconnected. simpl.
    apply grace_iff in Hgw. destruct (p_reconnectGraceEndsAt pw); simpl; naive_solver.
  - done.
  - by destruct (p_reconnectGraceEndsAt pw).
Qed.
(** Writes to a player that leave the connection state alone. *)
Lemma touch_inv game ps ms a f :
  game_inv game ps ms a ->
  (forall r, p_id (f r) = p_id r /\ p_guestSessionId (f r) = p_guestSessionId r /\
             p_color (f r) = p_color r /\ p_slot (f r) = p_slot r /\
             p_disconnectedAt (f r) = p_disconnectedAt r /\
             p_reconnectGraceEndsAt (f r) = p_reconnectGraceEndsAt r) ->
  (g_status game = "WAITING_FOR_PLAYERS" ->
   Exists (fun p => p_joinedAt p = None) (map f ps)) ->
  game_inv game (map f ps) ms a.
Proof.
  intros [(pw & pb & -> & Cw & Cb & Sw & Sb & Hid & Hguest) Hmode Hst Hturn Hassigned Hterm Hrun
          Hstart Hgr Hrec Hdl _ Hclocks Hinit Hout Hver Hms Hchess] Hf Hwait.
  destruct (Hf pw) as (I1 & G1 & C1 & S1 & D1 & R1), (Hf pb) as (I2 & G2 & C2 & S2 & D2 & R2).
  constructor; try done; simpl in *.
  - exists (f pw), (f pb). by rewrite I1, I2, G1, G2, C1, C2, S1, S2.
  - intros guest. by rewrite Hassigned, G1, G2.
  - rewrite !Forall_cons in *. unfold game_players_disconnect_state_check in *.
    by rewrite D1, D2, R1, R2.
  - rewrite Hrec, !Exists_cons. unfold disconnected. by rewrite D1, D2.
  - by rewrite R1, R2.
Qed.

Lemma with_games_id gid row db :
  games db !! gid = Some row -> db = with_games <[gid := row]> db.
Proof. intros Hg. destruct db. unfold with_games. simpl in *. by rewrite insert_id. Qed.

Lemma E_offline_wf env db gid game guest player c :
  let db' := with_players (map (on_player (p_id player) [P_connectedAt None])) db in
  wf db -> effect env db db' -> games db !! gid = Some game ->
  Lifecycle.playerFor (gamePlayers db gid) guest = Some (player, c) -> wf db'.
Proof.
  intros db' Hwf He Hg (Hin & _ & _)%Lifecycle.playerFor_Some.
  eapply (player_change_wf env db gid game player _ game db' Hwf He Hg Hin).
  { by apply with_games_id. }
  intros Hinv. apply touch_inv; [done| |].
  - intros r. unfold on_player. by case_decide.
  - intros Hs. apply (gi_waiting _ _ _ _ Hinv), Exists_exists in Hs as (p & Hp & Hj).
    apply Exists_exists. exists (on_player (p_id player) [P_connectedAt None] p).
    split; [by apply list_elem_of_fmap_2|]. unfold on_player. by case_decide.
Qed.

Lemma joined_touches input player r :
  let f := on_player (p_id player)
             [P_connectedAt (Some (Games.mg_observedAt input));
              P_joinedAt (Some (default (Games.mg_observedAt input) (p_joinedAt player)))] in
  p_id (f r) = p_id r /\ p_guestSessionId (f r) = p_guestSessionId r /\
  p_color (f r) = p_color r /\ p_slot (f r) = p_slot r /\
  p_disconnectedAt (f r) = p_disconnectedAt r /\
  p_reconnectGraceEndsAt (f r) = p_reconnectGraceEndsAt r.
Proof. simpl. unfold on_player. by case_decide. Qed.

Lemma not_all_joined db gid :
  length (gamePlayers db gid) = 2%nat -> Games.joinedCount db gid <> 2%nat ->
  Exists (fun p => p_joinedAt p = None) (gamePlayers db gid).
Proof.
  intros Hlen Hcount.
  rewrite Games.joinedCount_players in Hcount.
  destruct (gamePlayers db gid) as [|x [|y [|]]]; try done.
  destruct (p_joinedAt x) eqn:Ex; [|by apply Exists_cons_hd].
  destruct (p_joinedAt y) eqn:Ey; [|by apply Exists_cons_tl, Exists_cons_hd].
  destruct Hcount. by rewrite !filter_cons_True, filter_nil by congruence.
Qed.

Lemma E_join_wf env db input game player :
  let db' := Games.joinedDB input player db in
  wf db -> effect env db db' -> games db !! Games.mg_gameId input = Some game ->
  Games.findGuest (gamePlayers db (Games.mg_gameId input)) (Games.mg_guestSessionId input)
    = Some player ->
  (g_status game = "WAITING_FOR_PLAYERS" ->
   Games.joinedCount db' (Games.mg_gameId input) <> 2%nat) ->
  wf db'.
Proof.
  intros db' Hwf He Hg [Hin _]%Games.findGuest_Some Hcount.
  eapply (player_change_wf env db _ game player _ game db' Hwf He Hg Hin).
  { by apply (with_games_id _ _ (Games.joinedDB input player db)). }
  intros Hinv. apply touch_inv; [done|apply joined_touches|].
  intros Hs. specialize (Hcount Hs).
  pose proof (gi_players _ _ _ _ Hinv) as (pw & pb & Hps & _).
  assert (gamePlayers db' (Games.mg_gameId input) = map (on_player (p_id player)
             [P_connectedAt (Some (Games.mg_observedAt input));
              P_joinedAt (Some (default (Games.mg_observedAt input) (p_joinedAt player)))])
            (gamePlayers db (Games.mg_gameId input))) as Hps'
    by apply gamePlayers_on_player.
  rewrite <- Hps'. apply not_all_joined; [|done]. by rewrite Hps', Hps.
Qed.

(** Readiness and start: the row moves on, its players stay. *)
Lemma forward_inv game row ps ms a :
  game_inv game ps ms a ->
  (g_status game = "WAITING_FOR_PLAYERS" /\ g_status row = "READY" /\
   g_turnStartedAt row = g_turnStartedAt game /\ g_startedAt row = g_startedAt game) \/
  (g_status game = "READY" /\ g_status row = "IN_PROGRESS" /\
   is_Some (g_turnStartedAt row) /\ is_Some (g_startedAt row)) ->
  g_mode row = g_mode game -> g_turnColor row = g_turnColor game ->
  g_result row = g_result game -> g_termination row = g_termination game ->
  g_endedAt row = g_endedAt game -> g_reconnectDeadlineAt row = g_reconnectDeadlineAt game ->
  g_whiteClockMs row = g_whiteClockMs game -> g_blackClockMs row = g_blackClockMs game ->
  g_incrementMs row = g_incrementMs game -> g_timeInitialMs row = g_timeInitialMs game ->
  g_version row = g_version game + 1 ->
  g_initialFen row = g_initialFen game -> g_currentFen row = g_currentFen game ->
  game_inv row ps ms a.
Proof.
  intros [Hps Hmode _ Hturn Hassigned Hterm Hrun Hstart Hgr Hrec Hdl _ Hclocks Hinit Hout Hver Hms Hchess]
    Hst E1 E2 E3 E4 E5 E6 E7 E8 E9 E13 E10 E11 E12.
  assert (isTerminal game = false /\ isTerminal row = false /\ is_running game = false)
    as (Ht & Ht' & Hr).
  { unfold isTerminal, is_running. by destruct Hst as [(-> & -> & _)|(-> & -> & _)]. }
  rewrite Ht in Hterm. rewrite Hr in Hrun.
  constructor; rewrite ?E1, ?E2, ?E3, ?E4, ?E5, ?E6, ?E7, ?E8, ?E9, ?E10, ?E11, ?E12, ?E13, ?Ht';
    try done.
  - destruct Hst as [(_ & -> & _)|(_ & -> & _)]; [by exists READY|by exists IN_PROGRESS].
  - intros guest. by rewrite Hassigned, Ht.
  - unfold is_running. destruct Hst as [(_ & -> & -> & _)|(_ & -> & Hx & _)]; done.
  - unfold is_running. destruct Hst as [(_ & -> & _)|(_ & -> & _ & Hx)]; done.
  - rewrite <- Hrec. by destruct Hst as [(-> & -> & _)|(-> & -> & _)].
  - by destruct Hst as [(_ & -> & _)|(_ & -> & _)].
  - unfold games_result_check, games_termination_check in *. by rewrite E3, E4.
  - lia.
Qed.

Lemma E_ready_wf env db input game player :
  let db' := with_games <[Games.mg_gameId input := Games.readyRow env game]>
               (Games.joinedDB input player db) in
  wf db -> effect env db db' -> games db !! Games.mg_gameId input = Some game ->
  Games.findGuest (gamePlayers db (Games.mg_gameId input)) (Games.mg_guestSessionId input)
    = Some player ->
  g_status game = "WAITING_FOR_PLAYERS" -> wf db'.
Proof.
  intros db' Hwf He Hg [Hin _]%Games.findGuest_Some Hs.
  eapply (player_change_wf env db _ game player _ _ db' Hwf He Hg Hin); [done|].
  intros Hinv. apply touch_inv; [|apply joined_touches|done].
  apply (forward_inv game); try done. by left.
Qed.

Lemma E_start_wf env db gid game :
  let db' := with_games <[gid := Games.startedRow env game]> db in
  wf db -> effect env db db' -> games db !! gid = Some game ->
  g_status game = "READY" -> wf db'.
Proof.
  intros db' Hwf He Hg Hs.
  eapply (wf_update env db db' gid game _ (fun r => r) Hwf He Hg); try done.
  - by rewrite map_id.
  - apply row_frame.
  - by left.
  - intros Hinv. apply (forward_inv game); try done. right. split_and!; eauto.
Qed.
(** Allocation. *)

Lemma gamePlayers_app_other db ps gid :
  Forall (fun p => p_gameId p <> gid) ps ->
  gamePlayers (with_players (fun l => l ++ ps) db) gid = gamePlayers db gid.
Proof.
  intros Hps. unfold gamePlayers, playerRows. simpl. rewrite filter_app.
  assert (filter (fun r => p_gameId r = gid) ps = []) as ->; [|by rewrite app_nil_r].
  apply elem_of_nil_inv. intros p [Hp Hin]%list_elem_of_filter.
  by apply (proj1 (Forall_forall _ _) Hps p Hin).
Qed.

Lemma gameMoves_missing db gid :
  (forall m, m ∈ moves db -> is_Some (games db !! m_gameId m)) ->
  games db !! gid = None -> gameMoves db gid = [].
Proof.
  intros Hm Hg. apply elem_of_nil_inv. intros m [Hin Hid]%gameMoves_elem.
  destruct (Hm m Hin) as [row Hrow]. congruence.
Qed.

Lemma allocated_inv env input :
  Games.al_mode input = "BLITZ" ->
  0 < Games.al_timeInitialMs input -> 0 <= Games.al_timeIncrementMs input ->
  (exists chess, replayHistory (Games.al_initialFen input) [] = Ok chess /\
     chess_fen chess = Games.al_initialFen input /\ chess_turn chess = w) ->
  (env_playerIds env).1 <> (env_playerIds env).2 ->
  Games.al_whiteGuestSessionId input <> Games.al_blackGuestSessionId input ->
  game_inv (Games.newGameRow env input) (Games.newPlayerRows env input) []
    (fun guest => guest = Games.al_whiteGuestSessionId input \/
                  guest = Games.al_blackGuestSessionId input).
Proof.
  intros Hmode Hinit Hinc (chess & Hrep & Hfen & Hturn) Hids Hne.
  constructor; try done.
  - eexists _, _. split; [reflexivity|]. done.
  - by exists WAITING_FOR_PLAYERS.
  - by exists w.
  - intros guest. simpl. rewrite !elem_of_cons, elem_of_nil. naive_solver.
  - simpl. split; [done|]. by intros [? ?].
  - repeat (constructor; [done|]). constructor.
  - simpl. split; [done|]. by intros [Hd|[Hd|Hd%Exists_nil]%Exists_cons]%Exists_cons.
  - intros _. by apply Exists_cons_hd.
  - simpl. lia.
  - exists chess. simpl. by rewrite Hturn.
Qed.

Lemma allocated_assigned env db input :
  assignments db !! Games.al_whiteGuestSessionId input = None ->
  assignments db !! Games.al_blackGuestSessionId input = None ->
  forall g guest, assignedTo (Games.allocatedDB env input db) g guest <->
    (g = Games.al_gameId input /\ (guest = Games.al_whiteGuestSessionId input \/
                                   guest = Games.al_blackGuestSessionId input)) \/
    assignedTo db g guest.
Proof.
  intros Hw Hb g guest. unfold assignedTo, Games.allocatedDB. simpl.
  rewrite !lookup_insert_Some.
  destruct (decide (guest = Games.al_whiteGuestSessionId input)) as [->|Ew];
    [rewrite Hw; naive_solver|].
  destruct (decide (guest = Games.al_blackGuestSessionId input)) as [->|Eb];
    [rewrite Hb; naive_solver|].
  naive_solver.
Qed.

Lemma E_allocate_frame env db input :
  assignments db !! Games.al_whiteGuestSessionId input = None ->
  assignments db !! Games.al_blackGuestSessionId input = None ->
  frame (Games.al_gameId input) db (Games.allocatedDB env input db).
Proof.
  intros Hw Hb. constructor; intros g.
  - intros Hg. by apply lookup_insert_ne.
  - intros Hg.
    apply (gamePlayers_app_other
             (with_games <[Games.al_gameId input := Games.newGameRow env input]> db)).
    repeat (constructor; [done|]). constructor.
  - done.
  - intros guest Hg. rewrite allocated_assigned by done. naive_solver.
Qed.

Lemma E_allocate_wf env db input :
  let db' := Games.allocatedDB env input db in
  wf db -> effect env db db' ->
  Games.al_whiteGuestSessionId input <> Games.al_blackGuestSessionId input ->
  games db !! Games.al_gameId input = None ->
  assignments db !! Games.al_whiteGuestSessionId input = None ->
  assignments db !! Games.al_blackGuestSessionId input = None ->
  op_ok env (OpAllocate input) db -> wf db'.
Proof.
  intros db' Hwf He Hne Hnew Hw Hb (Hmode & Hinit & Hinc & Hchess & Hids & Hfresh).
  set (gid := Games.al_gameId input) in *.
  pose proof (allocated_assigned env db input Hw Hb) as Has. fold gid db' in Has.
  apply (wf_frame gid db db' Hwf).
  - by apply E_allocate_frame.
  - by eapply effect_keyed; [apply (wf_keyed _ Hwf)|].
  - intros p. unfold db', Games.allocatedDB. simpl. fold gid.
    intros [Hp|Hp]%elem_of_app; [by apply insert_is_Some, (wf_owned _ Hwf)|].
    repeat (apply elem_of_cons in Hp as [->|Hp];
            [simpl; fold gid; rewrite lookup_insert_eq; eauto|]).
    by apply not_elem_of_nil in Hp.
  - intros m Hm. apply insert_is_Some. by apply (wf_moves _ Hwf).
  - unfold db', Games.allocatedDB. simpl. rewrite map_app. apply NoDup_app.
    split_and!; [apply (wf_ids _ Hwf)| |].
    + intros i Hi%list_elem_of_In%in_map_iff Hi'. destruct Hi as (p & <- & Hp%list_elem_of_In).
      destruct (Hfresh p Hp). simpl in Hi'.
      repeat (apply elem_of_cons in Hi' as [Hi'|Hi']; [done|]).
      by apply not_elem_of_nil in Hi'.
    + simpl. repeat constructor; [|by apply not_elem_of_nil].
      by intros Hi%list_elem_of_singleton.
  - unfold db', Games.allocatedDB. simpl. fold gid. rewrite lookup_insert_eq. eauto.
  - intros row. unfold db' at 1, Games.allocatedDB. simpl. fold gid.
    rewrite lookup_insert_eq. intros [= <-].
    assert (gamePlayers db' gid = Games.newPlayerRows env input) as ->
      by (apply Games.gamePlayers_allocated; [apply (wf_owned _ Hwf)|done]).
    assert (gameMoves db' gid = []) as ->
      by (apply (gameMoves_missing db gid); [apply (wf_moves _ Hwf)|done]).
    eapply game_inv_ext; [|by apply allocated_inv].
    intros guest. rewrite Has. split; [|naive_solver].
    intros [[_ ?]|Ha]; [done|]. apply (wf_assigned _ Hwf) in Ha as [? ?]. congruence.
Qed.

(** ** Runs *)

Lemma effect_wf `{!ChessJsLaws} env db db' : wf db -> effect env db db' -> wf db'.
Proof.
  intros Hwf He. pose proof He as He'.
  destruct He' as [|gid event sub db1 f game Hend Hg Hm Hf|input game player color plan Ha
    |gid game guest player c grace Hg Hr Hp Hd Hgr|gid game guest player c Hg Hs Hp Hd
    |gid game guest player c Hg Hs Hp|input game player Hg Hf _ Hn|input game player Hg Hf Hs
    |gid game Hg Hs|input Hne Hnew Hw Hb Hok].
  - done.
  - by eapply E_end_wf.
  - by apply E_move_wf.
  - by eapply E_disconnect_wf.
  - by eapply E_reconnect_wf.
  - by eapply E_offline_wf.
  - by eapply E_join_wf.
  - by eapply E_ready_wf.
  - by eapply E_start_wf.
  - by apply E_allocate_wf.
Qed.

Lemma exec_wf `{!ChessJsLaws} env op db : wf db -> op_ok env op db -> wf (exec env op db).
Proof.
  intros Hwf Hok. eapply effect_wf; [done|]. by apply exec_effect, Hok; apply (wf_keyed _ Hwf).
Qed.
End Invariant.
