(* ===== verification/GameRuns.v ===== *)
(** * Runs of the game server

    What holds after any sequence of operations on the game database: the
    schema's constraints, the finality of finished games, the durability of
    acknowledged moves, and the exclusion between a move and a flag fall. The
    theorems combine the components' lemmas through the invariant of
    [GameInvariant]. *)

From S2P Require Export GameInvariant.
Local Open Scope string_scope.
Local Open Scope list_scope.
Local Open Scope Z_scope.

Section Runs.
Context `{Zod} `{ChessJs} `{Prisma}.

Lemma exec_all_wf `{!ChessJsLaws} steps db : wf db -> steps_ok steps db -> wf (exec_all steps db).
Proof.
  revert db. induction steps as [|[env op] steps IH]; intros db Hwf Hok; [done|].
  destruct Hok as [Hop Hok]. apply IH; [by apply exec_wf|done].
Qed.

(** A database before its first game. *)
Definition new_db (sessions : gmap string GuestRow) : DB := mkDB ∅ [] [] ∅ ∅ sessions ∅.

Lemma new_db_wf sessions : wf (new_db sessions).
Proof.
  constructor.
  - intros gid row Hr. simpl in Hr. by rewrite lookup_empty in Hr.
  - intros p Hp. by apply not_elem_of_nil in Hp.
  - intros m Hm. by apply not_elem_of_nil in Hm.
  - constructor.
  - intros guest gid Hg. simpl in Hg. by rewrite lookup_empty in Hg.
  - intros gid row Hr. simpl in Hr. by rewrite lookup_empty in Hr.
Qed.

(** C2: every reachable state is well formed. Starting with no game at all, whatever
    sequence of operations the services run, in every game of the database: there
    are two players with different guests, White in slot 0 and Black in slot 1; the
    guests assigned to the game are its players as long as it is not over, and
    nobody afterwards; result, termination and time of end are recorded exactly
    when it is over; a turn is running exactly when it is in progress or
    reconnecting; it is reconnecting exactly when a player is away, and its
    reconnect deadline is the earliest grace deadline of the players who are; the
    clocks are not negative; and the stored moves are numbered 1, 2, .. without a
    gap and replay, in the chess engine, from the initial position to the stored
    one, with the stored colour to move. *)
Theorem reachable_states_well_formed `{!ChessJsLaws} steps sessions :
  steps_ok steps (new_db sessions) -> wf (exec_all steps (new_db sessions)).
Proof. apply exec_all_wf, new_db_wf. Qed.

(** ** Finished games *)

Ltac not_over Hs := eapply not_terminal; [exact Hs|set_solver].

Lemma frame_of gid db db' game :
  games db !! gid = Some game -> frame gid db db' -> isTerminal game = false ->
  exists gid, frame gid db db' /\
    forall row, games db !! gid = Some row -> isTerminal row = false.
Proof. intros Hg Hf Ht. exists gid. split; [done|]. congruence. Qed.

(** An update of one player's row alone. *)
Lemma player_only_frame db gid player data game :
  wf db -> games db !! gid = Some game -> player ∈ gamePlayers db gid ->
  frame gid db (with_players (map (on_player (p_id player) data)) db).
Proof.
  intros Hwf Hg Hin. pose proof (player_frame db gid player data game Hwf Hin) as Hfr.
  rewrite <- with_games_id in Hfr by done. exact Hfr.
Qed.

Lemma effect_frame env db db' :
  wf db -> effect env db db' ->
  db' = db \/ exists gid, frame gid db db' /\
                forall row, games db !! gid = Some row -> isTerminal row = false.
Proof.
  intros Hwf [|gid event sub db1 f game Hend Hg Hm Hf|input game player color plan Ha
    |gid game guest player c grace Hg Hr Hp Hd Hgr|gid game guest player c Hg Hs Hp Hd
    |gid game guest player c Hg Hs Hp|input game player Hg Hf Ht Hn|input game player Hg Hf Hs
    |gid game Hg Hs|input Hne Hnew Hw Hb Hok]; [by left|right..].
  - apply (frame_of gid _ _ game Hg); [by eapply E_end_frame|].
    by eapply may_end_active.
  - pose proof (Gameplay.ad_game _ _ _ _ _ _ _ Ha) as Hg.
    apply (frame_of (sm_gameId input) _ _ game Hg); [by apply E_move_frame|].
    destruct (Gameplay.ad_status _ _ _ _ _ _ _ Ha) as [Hs|Hs]; not_over Hs.
  - apply Lifecycle.playerFor_Some in Hp as [Hin _]. destruct (running_strings _ Hr) as (st & Hst & ?).
    apply (frame_of gid _ _ game Hg); [|not_over Hst].
    unfold Lifecycle.disconnectedDB. rewrite (wf_keyed _ Hwf _ _ Hg). by apply player_frame.
  - apply Lifecycle.playerFor_Some in Hp as [Hin _].
    apply (frame_of gid _ _ game Hg); [|not_over Hs].
    unfold Lifecycle.reconnectedDB. rewrite (wf_keyed _ Hwf _ _ Hg). by apply player_frame.
  - apply Lifecycle.playerFor_Some in Hp as [Hin _].
    apply (frame_of gid _ _ game Hg); [by apply (player_only_frame _ _ _ _ game)|not_over Hs].
  - apply Games.findGuest_Some in Hf as [Hin _].
    apply (frame_of (Games.mg_gameId input) _ _ game Hg);
      [by apply (player_only_frame _ _ _ _ game)|done].
  - apply Games.findGuest_Some in Hf as [Hin _].
    apply (frame_of (Games.mg_gameId input) _ _ game Hg); [by apply player_frame|not_over Hs].
  - apply (frame_of gid _ _ game Hg); [apply row_frame|not_over Hs].
  - exists (Games.al_gameId input). split; [by apply E_allocate_frame|]. congruence.
Qed.

(** C8: a finished game is final. In a well-formed database, whatever operations
    are run after a game was completed, abandoned or expired, its row, its players
    and its moves stay exactly as they are, and no guest is ever assigned to it. *)
Theorem finished_games_are_final `{!ChessJsLaws} steps db gid row :
  wf db -> steps_ok steps db -> games db !! gid = Some row -> isTerminal row = true ->
  let db' := exec_all steps db in
  games db' !! gid = Some row /\ gamePlayers db' gid = gamePlayers db gid /\
  gameMoves db' gid = gameMoves db gid /\ forall guest, ~ assignedTo db' gid guest.
Proof.
  revert db. induction steps as [|[env op] steps IH]; intros db Hwf Hok Hrow Ht.
  - simpl. split_and!; try done. intros guest.
    rewrite (gi_assigned _ _ _ _ (wf_games _ Hwf _ _ Hrow)), Ht. by intros [? _].
  - destruct Hok as [Hop Hok].
    pose proof (exec_effect _ _ _ (wf_keyed _ Hwf) Hop) as He.
    destruct (effect_frame _ _ _ Hwf He) as [E|(g & [Fg Fp Fm Fa] & Hg)].
    + simpl. rewrite E. apply IH; try done. by rewrite <- E.
    + destruct (decide (gid = g)) as [->|Hne]; [by rewrite (Hg _ Hrow) in Ht|].
      cbv zeta. rewrite <- (Fp gid Hne), <- (Fm gid Hne).
      apply IH; [by apply exec_wf|done| |done]. by rewrite Fg.
Qed.
(** ** The schema's constraints *)

(** Games started by the time [t], and ended after they started. *)
Definition timely (t : Z) (db : DB) : Prop :=
  forall gid row, games db !! gid = Some row ->
    (forall s, g_startedAt row = Some s -> s <= t) /\
    games_ended_after_started_check row = true.

(** The database's clock does not go back. *)
Fixpoint in_order (t : Z) (steps : list (Env * Op)) : Prop :=
  match steps with
  | [] => True
  | (env, _) :: steps => t <= env_observedAt env /\ in_order (env_observedAt env) steps
  end.

Lemma ended_check row s e :
  g_startedAt row = s -> g_endedAt row = e -> (forall x, s = Some x -> default x e >= x) ->
  games_ended_after_started_check row = true.
Proof.
  unfold games_ended_after_started_check. intros -> -> Hx.
  destruct e as [e|], s as [s|]; try done. apply Z.leb_le. specialize (Hx s eq_refl).
  simpl in Hx. lia.
Qed.

Lemma written_timely env db gid row row' t :
  wf db -> games db !! gid = Some row -> written env db row row' -> t <= env_observedAt env ->
  (forall s, g_startedAt row = Some s -> s <= t) ->
  games_ended_after_started_check row = true ->
  (forall s, g_startedAt row' = Some s -> s <= env_observedAt env) /\
  games_ended_after_started_check row' = true.
Proof.
  intros Hwf Hrow Hw Ht Hs Hc.
  assert (forall s, g_startedAt row = Some s -> s <= env_observedAt env) as Hs'
    by (intros s E; specialize (Hs s E); lia).
  destruct (written_active _ _ _ _ Hw) as [->|Hnt]; [done|].
  pose proof (gi_terminal _ _ _ _ (wf_games _ Hwf _ _ Hrow)) as Hend.
  rewrite Hnt in Hend. destruct Hend as (_ & _ & Hend).
  assert (forall r st, g_endedAt r = None -> g_startedAt r = st ->
            games_ended_after_started_check r = true) as Hopen.
  { intros r st E _. unfold games_ended_after_started_check. by rewrite E. }
  destruct Hw as [|event o _ _|input player color plan Ha|d _|d back _ _|_|_];
    try (split; [done|by eapply Hopen]).
  - split; [done|]. eapply ended_check; [reflexivity..|]. intros x Hx. simpl.
    specialize (Hs' x Hx). lia.
  - pose proof (Gameplay.movedRow_spec env row color (env_observedAt env) plan)
      as (_ & _ & _ & _ & _ & _ & _ & _ & _ & _ & _ & _ & _ & _ & Est & Et).
    split.
    + rewrite Est. case_bool_decide; [|done]. intros s [= <-]. lia.
    + destruct (Gameplay.mp_terminal plan) as [o|].
      * destruct Et as (_ & _ & Ee & _). eapply ended_check; [exact Est|exact Ee|].
        intros x. case_bool_decide; simpl; [intros [= <-]; lia|].
        intros Hx. specialize (Hs' x Hx). lia.
      * destruct Et as (_ & _ & Ee & _). eapply Hopen; [by rewrite Ee|reflexivity].
  - split; [|by eapply Hopen]. intros s [= <-]. lia.
Qed.

Lemma exec_timely env op db t :
  wf db -> op_ok env op db -> timely t db -> t <= env_observedAt env ->
  timely (env_observedAt env) (exec env op db).
Proof.
  intros Hwf Hok Ht Hle gid row' Hrow'.
  pose proof (exec_effect _ _ _ (wf_keyed _ Hwf) Hok) as He.
  destruct (games db !! gid) as [row|] eqn:Hrow.
  - destruct (effect_row _ _ _ _ _ (wf_keyed _ Hwf) He Hrow) as (r & Hr & Hw).
    assert (r = row') as -> by congruence. destruct (Ht _ _ Hrow). by eapply written_timely.
  - by destruct (effect_new_row _ _ _ _ _ (wf_keyed _ Hwf) He Hrow Hrow')
      as (input & -> & ->).
Qed.

Lemma isNotNull_true {A} (o : option A) : is_Some o -> isNotNull o = true.
Proof. by intros [x ->]. Qed.

Lemma inv_games_checks db gid row :
  wf db -> games db !! gid = Some row -> games_ended_after_started_check row = true ->
  games_checks row = true.
Proof.
  intros Hwf Hrow Hended.
  destruct (wf_games _ Hwf _ _ Hrow)
    as [_ Hmode (st & Hst & _) (c & Hc) _ Hterm Hrun Hstart _ _ _ _ (K1 & K2 & K3) Hinit
        [Ho1 Ho2] Hver _ _].
  unfold games_checks. rewrite Ho1, Ho2, Hended, Hmode.
  assert (games_terminal_state_check row = true) as ->.
  { unfold games_terminal_state_check, isTerminal in *.
    replace (includes ["COMPLETED"; "ABANDONED"; "EXPIRED"] (g_status row))
      with (includes ["ABANDONED"; "COMPLETED"; "EXPIRED"] (g_status row))
      by (rewrite Hst; by destruct st).
    destruct (includes _ _).
    - destruct Hterm as ([? ->] & [? ->] & [? ->]). done.
    - by destruct Hterm as (-> & -> & ->). }
  assert (games_turn_clock_state_check row = true) as ->.
  { unfold games_turn_clock_state_check. fold (is_running row).
    destruct (is_running row).
    - destruct (proj1 Hrun eq_refl) as [? ->], (Hstart eq_refl) as [? ->]. done.
    - destruct (g_turnStartedAt row); [|done]. by destruct (proj2 Hrun (ex_intro _ _ eq_refl)). }
  rewrite Hst, Hc. rewrite !andb_true_iff. rewrite !Z.leb_le, Z.ltb_lt.
  split_and!; try done; [by destruct st|by destruct c].
Qed.

Lemma inv_players_checks row ps ms a :
  game_inv row ps ms a -> Forall (fun p => game_players_checks p = true) ps.
Proof.
  intros [(pw & pb & -> & Cw & Cb & Sw & Sb & _) _ _ _ _ _ _ _ Hgr _ _ _ _ _ _ _ _ _].
  inversion Hgr as [|? ? Hgw Hgr']; inversion Hgr' as [|? ? Hgb _]; subst.
  unfold game_players_checks.
  repeat constructor; by rewrite ?Cw, ?Cb, ?Sw, ?Sb, ?Hgw, ?Hgb.
Qed.

Lemma inv_allocation db gid : wf db -> assert_game_allocation_invariants db gid = None.
Proof.
  intros Hwf. unfold assert_game_allocation_invariants.
  destruct (games db !! gid) as [row|] eqn:Hrow; [|done].
  pose proof (wf_games _ Hwf _ _ Hrow) as Hinv.
  pose proof (gi_players _ _ _ _ Hinv) as (pw & pb & Hps & _ & _ & _ & _ & _ & Hne).
  pose proof (gi_assigned _ _ _ _ Hinv) as Has. rewrite Hps in Has.
  pose proof (gi_status _ _ _ _ Hinv) as (st & Hst & _).
  assert (playerRows db gid ≡ₚ [pw; pb]) as Hrows
    by (rewrite <- Hps; symmetry; apply orderBy_perm).
  rewrite bool_decide_eq_true_2 by (by rewrite Hrows). cbn [negb].
  replace (includes ["COMPLETED"; "ABANDONED"; "EXPIRED"] (g_status row)) with (isTerminal row)
    by (unfold isTerminal; rewrite Hst; by destruct st).
  destruct (isTerminal row) eqn:Ht.
  - assert (map fst (map_to_list (filter (fun kv => kv.2 = gid) (assignments db))) ≡ₚ [])
      as ->%Permutation_nil_r; [|done].
    apply assigned_guests; [constructor|]. intros guest. split; [|by intros ?%not_elem_of_nil].
    intros Ha. by apply Has in Ha as [? _].
  - assert (map fst (map_to_list (filter (fun kv => kv.2 = gid) (assignments db))) ≡ₚ
              [p_guestSessionId pw; p_guestSessionId pb]) as Hguests.
    { apply assigned_guests; [|intros guest; specialize (Has guest); naive_solver].
      constructor; [|by repeat constructor; apply not_elem_of_nil].
      by intros Hi%list_elem_of_singleton. }
    set (keys := map fst _) in *.
    assert (Forall (fun guest => length (filter (fun p => p_guestSessionId p = guest)
                                           (playerRows db gid)) = 1%nat) keys) as Hone.
    { rewrite Hguests. repeat constructor; rewrite Hrows.
      - by rewrite filter_cons_True, filter_cons_False, filter_nil by congruence.
      - by rewrite filter_cons_False, filter_cons_True, filter_nil by congruence. }
    rewrite map_map, (sum_list_fmap_same 1), (sum_list_fmap_same 1); [|done|].
    + assert (length keys = 2%nat) as -> by (by rewrite Hguests). done.
    + eapply Forall_impl; [exact Hone|]. intros guest Hg. simpl. by rewrite Hg.
Qed.

(** C16: no constraint of the schema ever rejects a write. Start from a well-formed
    database (an empty one, for instance) and run any operations, the database's
    clock never going back: at every point, hence after every transaction, each
    row of games satisfies all CHECK constraints of its table, each row of
    game_players those of its table, and the function of the deferred triggers
    finds exactly two players, and two matching assignments exactly while the game
    is not over. *)
Theorem schema_constraints_never_fire `{!ChessJsLaws} steps t db :
  wf db -> timely t db -> steps_ok steps db -> in_order t steps ->
  let db' := exec_all steps db in
  forall gid,
    assert_game_allocation_invariants db' gid = None /\
    forall row, games db' !! gid = Some row ->
      games_checks row = true /\
      Forall (fun p => game_players_checks p = true) (playerRows db' gid).
Proof.
  revert t db. induction steps as [|[env op] steps IH]; intros t db Hwf Ht Hok Hord.
  - cbv zeta. intros gid. split; [by apply inv_allocation|]. intros row Hrow.
    split; [eapply inv_games_checks; [done..|]; by apply (Ht _ _ Hrow)|].
    pose proof (inv_players_checks _ _ _ _ (wf_games _ Hwf _ _ Hrow)) as Hps.
    unfold gamePlayers in Hps. by rewrite orderBy_perm in Hps.
  - destruct Hok as [Hop Hok], Hord as [Hle Hord].
    apply (IH (env_observedAt env)); try done; [by apply exec_wf|by eapply exec_timely].
Qed.
(** ** Acknowledged moves *)

Lemma exec_all_app steps steps' db :
  exec_all (steps ++ steps') db = exec_all steps' (exec_all steps db).
Proof. apply fold_left_app. Qed.

Lemma effect_commands env db db' key command :
  keyed db -> effect env db db' -> commands db !! key = Some command ->
  commands db' !! key = Some command.
Proof.
  intros Hk [|gid event sub db1 f game (g & o & _ & _ & _ & _ & _ & ->) Hg Hm Hf
    |input game player color plan Ha| | | | | | | ] Hc; try done.
  - by apply Hf.
  - unfold Gameplay.movedDB. simpl. rewrite lookup_insert_ne; [done|]. intros <-.
    rewrite (Hk _ _ (Gameplay.ad_game _ _ _ _ _ _ _ Ha)) in Hc.
    pose proof (Gameplay.ad_fresh _ _ _ _ _ _ _ Ha). congruence.
Qed.

(** The histories of games only grow at their end. *)
Lemma effect_moves `{!ChessJsLaws} env db db' gid :
  wf db -> effect env db db' -> exists tail, gameMoves db' gid = gameMoves db gid ++ tail.
Proof.
  intros Hwf [|gid' event sub db1 f game (g & o & _ & _ & _ & _ & _ & ->) Hg Hm Hf
    |input game player color plan Ha| | | | | | | ];
    try (exists []; by rewrite app_nil_r).
  destruct (decide (gid = sm_gameId input)) as [->|Hne].
  - eexists. by apply E_move_moves; [apply (wf_keyed _ Hwf)|].
  - exists []. rewrite app_nil_r. by apply (E_move_frame _ _ _ _ _ _ _ Hwf Ha).
Qed.

(** Updates of the players of a game that keep the guest and the colour of each. *)
Definition same_seats (l l' : list PlayerRow) : Prop :=
  exists f, l' = map f l /\ (forall p, p_guestSessionId (f p) = p_guestSessionId p) /\
            (forall p, p_color (f p) = p_color p).

Lemma same_seats_refl l : same_seats l l.
Proof. exists (fun p => p). by rewrite map_id. Qed.

Lemma same_seats_player id data l : same_seats l (map (on_player id data) l).
Proof.
  exists (on_player id data). split; [done|].
  split; intros p; unfold on_player; case_decide; by rewrite ?p_guest_set, ?p_color_set.
Qed.

Lemma same_seats_game id data l : same_seats l (map (on_game_players id data) l).
Proof.
  exists (on_game_players id data). split; [done|].
  split; intros p; unfold on_game_players; case_decide; by rewrite ?p_guest_set, ?p_color_set.
Qed.

(** Who plays a game, and with which colour, never changes. *)
Lemma effect_players env db db' gid row :
  keyed db -> effect env db db' -> games db !! gid = Some row ->
  same_seats (gamePlayers db gid) (gamePlayers db' gid).
Proof.
  intros Hk He Hrow.
  destruct He as [|gid' event sub db1 f game Hend Hg Hm Hf|input game player color plan Ha
    |gid' game guest player c grace Hg Hr Hp Hd Hgr|gid' game guest player c Hg Hs Hp Hd
    |gid' game guest player c Hg Hs Hp|input game player Hg Hf Ht Hn|input game player Hg Hf Hs
    |gid' game Hg Hs|input Hne Hnew Hw Hb Hok]; try exact (same_seats_refl _).
  - destruct Hend as (g & o & _ & _ & _ & _ & _ & ->).
    eapply eq_ind_r; [apply same_seats_game|].
    apply (gamePlayers_on_game db (g_id g) gid
             [P_disconnectedAt None; P_reconnectGraceEndsAt None]).
  - eapply eq_ind_r; [apply same_seats_player|apply gamePlayers_on_player].
  - eapply eq_ind_r; [apply same_seats_player|apply gamePlayers_on_player].
  - eapply eq_ind_r; [apply same_seats_player|apply gamePlayers_on_player].
  - eapply eq_ind_r; [apply same_seats_player|apply gamePlayers_on_player].
  - eapply eq_ind_r; [apply same_seats_player|apply gamePlayers_on_player].
  - eapply eq_ind_r; [apply same_seats_refl|].
    apply (gamePlayers_app_other
             (with_games <[Games.al_gameId input := Games.newGameRow env input]> db)).
    repeat (constructor; [simpl; congruence|]). constructor.
Qed.

Lemma plays_map db db' gid guest f :
  gamePlayers db' gid = map f (gamePlayers db gid) ->
  (forall p, p_guestSessionId (f p) = p_guestSessionId p) ->
  (forall p, p_color (f p) = p_color p) ->
  Gameplay.plays db gid guest -> Gameplay.plays db' gid guest.
Proof.
  unfold Gameplay.plays. intros -> Hg Hc. generalize (gamePlayers db gid) as ps.
  unfold Gameplay.findPlayer. induction ps as [|p ps IH]; simpl; [done|].
  rewrite Hg, Hc. destruct (bool_decide _ && _); [|exact IH]. simpl. rewrite Hc.
  by destruct (isColor (p_color p)).
Qed.
(** What a run keeps of a game. *)
Lemma exec_all_keeps `{!ChessJsLaws} steps db gid row :
  wf db -> steps_ok steps db -> games db !! gid = Some row ->
  let db' := exec_all steps db in
  is_Some (games db' !! gid) /\
  (exists tail, gameMoves db' gid = gameMoves db gid ++ tail) /\
  (forall guest, Gameplay.plays db gid guest -> Gameplay.plays db' gid guest) /\
  (forall key command, commands db !! key = Some command -> commands db' !! key = Some command).
Proof.
  revert db row. induction steps as [|[env op] steps IH]; intros db row Hwf Hok Hrow.
  - simpl. split_and!; [eauto|exists []; by rewrite app_nil_r|done|done].
  - destruct Hok as [Hop Hok]. pose proof (wf_keyed _ Hwf) as Hk.
    pose proof (exec_effect _ _ _ Hk Hop) as He.
    destruct (effect_row _ _ _ _ _ Hk He Hrow) as (row1 & Hrow1 & _).
    destruct (IH _ row1 (exec_wf _ _ _ Hwf Hop) Hok Hrow1) as (Hg & [tail Htail] & Hp & Hc).
    destruct (effect_moves _ _ _ gid Hwf He) as [tail1 Htail1].
    destruct (effect_players _ _ _ _ _ Hk He Hrow) as (f & Hf & Hfg & Hfc).
    split_and!; [done| | |].
    + exists (tail1 ++ tail). by rewrite app_assoc, <- Htail1.
    + intros guest Hpl. apply Hp. by eapply plays_map.
    + intros key command Hcmd. apply Hc. by eapply effect_commands.
Qed.

(** C5: an acknowledged move is durable. When submitMove answers a fresh move, then
    whatever operations run afterwards, the game's history holds the move, at the
    ply of the reply and with everything that was played before it unchanged, and
    sending the same command again returns the same reply, marked as a duplicate,
    and changes nothing. *)
Theorem acknowledged_moves_are_durable `{!ChessJsLaws} env input db s db1 steps :
  wf db -> Gameplay.submitMove env input db db = (Ok s, db1) -> ms_duplicate s = false ->
  steps_ok steps db1 -> Gameplay.storable s ->
  let gid := sm_gameId input in
  let db2 := exec_all steps db1 in
  (exists row tail, gameMoves db2 gid = gameMoves db gid ++ row :: tail /\
     m_ply row = am_ply (ms_accepted s) /\ m_ply row = Z.of_nat (length (gameMoves db gid)) + 1 /\
     m_uci row = am_uci (ms_accepted s) /\ m_fenAfter row = am_fenAfter (ms_accepted s) /\
     m_guestSessionId row = sm_guestSessionId input) /\
  exists game2, games db2 !! gid = Some game2 /\
    forall env2 later, lock_fits env2 game2 = true ->
      Gameplay.submitMove env2 input db2 later = (Ok (Gameplay.asDuplicate s), db2).
Proof.
  intros Hwf Hs Hd Hok Hst gid db2. pose proof (wf_keyed _ Hwf) as Hk.
  assert (exec env (OpMove input) db = db1) as Hexec by (simpl; by rewrite Hs).
  assert (wf db1) as Hwf1 by (rewrite <- Hexec; by apply exec_wf).
  apply Gameplay.submitMove_fresh in Hs as (game & player & color & plan & Ha & -> & ->); [|done..].
  pose proof (Gameplay.ad_game _ _ _ _ _ _ _ Ha) as Hg. pose proof (Hk _ _ Hg) as Hid.
  pose proof (E_move_moves _ _ _ _ _ _ _ Hk Ha) as Hms.
  pose proof (Gameplay.admits_chess _ _ _ _ _ _ _ Ha) as (Hply & _).
  pose proof (Gameplay.planMove_submission _ _ _ _ _ _ _ (Gameplay.ad_plan _ _ _ _ _ _ _ Ha))
    as (_ & _ & _ & _ & _ & Hfen & Hap & Huci & _).
  set (db1 := Gameplay.movedDB _ _ _ _ _ _ _ _) in *.
  assert (exists row1, games db1 !! gid = Some row1) as [row1 Hrow1]
    by (unfold db1; rewrite Gameplay.movedDB_games, Hid, lookup_insert_eq; eauto).
  assert (Gameplay.plays db1 gid (sm_guestSessionId input)) as Hpl.
  { change (is_Some (Gameplay.findPlayer (sm_guestSessionId input)
                       (gamePlayers db (sm_gameId input)))).
    rewrite (Gameplay.ad_player _ _ _ _ _ _ _ Ha). eauto. }
  destruct (exec_all_keeps _ _ _ _ Hwf1 Hok Hrow1) as ([game2 Hg2] & [tail Htail] & Hp2 & Hc2).
  split.
  - eexists _, tail. unfold db2. rewrite Htail. unfold gid. rewrite Hms, <- app_assoc.
    split; [reflexivity|]. simpl. by rewrite Hap, Huci, Hfen.
  - exists game2. split; [done|]. intros env2 later Hl.
    rewrite (Gameplay.submitMove_replay env2 input db2 later game2 (Gameplay.mp_submission plan)
               (sm_guestSessionId input)
               (am_gameVersion (ms_accepted (Gameplay.mp_submission plan))));
      [by rewrite decide_True|done|done|by apply Hp2|done|].
    unfold db2. apply Hc2. unfold db1, Gameplay.movedDB. simpl. by rewrite Hid, lookup_insert_eq.
Qed.
(** ** A move against the clock *)

(** C4: a move and the fall of the flag exclude each other. Let a player whose turn
    it is send a legal move while the deadline scheduler adjudicates the game, both
    transactions observing the same moment. Exactly one of them wins, whichever
    runs first: either the move is committed and the timeout does nothing, or the
    move is refused as CLOCK_EXPIRED and the timeout ends the game; after that
    ending the same move is refused, at any later moment, because the game is
    over, and changes nothing. *)
Theorem move_or_timeout `{!ChessJsLaws} env input db later game player color ev s :
  keyed db -> Gameplay.move_ready env input db game player color ev s ->
  s <= env_observedAt env ->
  let gid := sm_gameId input in
  (exists sub db1,
     Gameplay.submitMove env input db later = (Ok sub, db1) /\ ms_duplicate sub = false /\
     Lifecycle.adjudicateTimeout env gid db = (Ok None, db)) \/
  (Gameplay.submitMove env input db later =
     (Err (Gameplay.moveError CLOCK_EXPIRED false (Some (g_version game))), db) /\
   exists sub db1,
     Lifecycle.adjudicateTimeout env gid db = (Ok (Some sub), db1) /\
     eg_termination (ts_ended sub) = timeout /\
     eg_result (ts_ended sub) = (if decide (color = w) then black_win else white_win) /\
     forall env2 later2,
       Gameplay.submitMove env2 input db1 later2 =
         (Err (Gameplay.moveError GAME_ALREADY_ENDED false (Some (g_version game + 1))), db1)).
Proof.
  intros Hk Hr Hle gid. pose proof Hr as [Hg Hs Ht Hst Hok Hroom Hl Hd Hp Htwo Hv Hf Hu Hh Hev Hcol].
  assert (is_running game = true) as Hrun by by apply running_from.
  rewrite (Lifecycle.adjudicateTimeout_eval _ _ _ _ _ Hk Hg Hl Hrun Ht).
  rewrite (Lifecycle.locked_ms_elapsed env game color s Hrun Ht Hst Hle).
  destruct (Z.ltb_spec (elapsed s (env_observedAt env))
              (remainingFor (domain_clock game color) color)) as [Hlt|Hge].
  - left. destruct (Gameplay.planMove_in_time _ _ _ _ _ _ _ _ Hr Hlt) as (plan & Hplan & He & _).
    pose proof (Gameplay.admits_ready _ _ _ _ _ _ _ _ Hr plan Hk Hplan He) as Ha.
    rewrite (proj2 (Z.ltb_lt _ _)) by lia.
    eexists _, _. split; [|split; [|done]].
    { unfold Gameplay.submitMove, run. by rewrite (Gameplay.admits_submits _ _ _ _ _ _ _ Hk Ha). }
    by apply (Gameplay.planMove_submission _ _ _ _ _ _ _ Hplan).
  - right. split; [by apply (Gameplay.submitMove_flagged _ _ _ _ _ _ _ _ _ Hr)|].
    rewrite (proj2 (Z.ltb_ge _ _)) by lia. unfold Lifecycle.ended.
    destruct (Lifecycle.guestTuple_two _ Htwo) as (g1 & g2 & -> & _).
    eexists _, _. split; [reflexivity|]. split; [done|]. split; [by destruct color|].
    intros env2 later2. pose proof (Hk _ _ Hg) as Hid.
    set (row := Lifecycle.endedRow env game (locked_of env game)
                  (winnerOutcome (oppositeColor color) T_COMPLETED timeout)).
    assert (is_running row = false) as Hnr by done.
    rewrite (Gameplay.submitMove_over env2 input _ later2 row); [done|..].
    + simpl. by rewrite Hid, lookup_insert_eq.
    + by apply Games.lock_fits_not_running.
    + eapply plays_map; [apply (gamePlayers_on_game db (g_id game) gid)| | |].
      * intros p. unfold on_game_players. case_decide; by rewrite ?p_guest_set.
      * intros p. unfold on_game_players. case_decide; by rewrite ?p_color_set.
      * unfold Gameplay.plays. unfold gid. rewrite Hp. eauto.
    + done.
    + done.
Qed.
End Runs.

(** ** Witnesses *)

#[local] Existing Instance SampleChess.sample.
#[local] Existing Instance SampleChess.sample_laws.
#[local] Existing Instance sample_prisma.
#[local] Existing Instance Gameplay.sample_zod.

Lemma reachable_states_well_formed_witness :
  wf (exec_all sample_steps Games.empty_db) /\
  g_status <$> games (exec_all sample_steps Games.empty_db) !! "game-1" = Some "COMPLETED".
Proof.
  split; [|vm_compute; reflexivity].
  exact (reachable_states_well_formed sample_steps Games.sample_guests sample_steps_ok).
Defined.

Lemma sample_timely : timely 0 Games.empty_db.
Proof. intros gid row Hr. simpl in Hr. by rewrite lookup_empty in Hr. Qed.

Lemma schema_constraints_never_fire_witness :
  assert_game_allocation_invariants (exec_all sample_start Games.empty_db) "game-1" = None /\
  forall row, games (exec_all sample_start Games.empty_db) !! "game-1" = Some row ->
    games_checks row = true.
Proof.
  destruct (schema_constraints_never_fire sample_start 0 Games.empty_db
    (new_db_wf Games.sample_guests) sample_timely sample_start_ok
    ltac:(repeat split; vm_compute; discriminate) "game-1") as [Ha Hc].
  split; [exact Ha|]. intros row Hrow. exact (proj1 (Hc row Hrow)).
Defined.

Lemma empty_wf : wf Games.empty_db.
Proof. exact (new_db_wf Games.sample_guests). Qed.

Definition started_db : DB := exec_all sample_start Games.empty_db.
Definition finished_db : DB := exec_all sample_steps Games.empty_db.

Lemma started_wf : wf started_db.
Proof. exact (exec_all_wf sample_start Games.empty_db empty_wf sample_start_ok). Qed.

Lemma finished_wf : wf finished_db.
Proof. exact (exec_all_wf sample_steps Games.empty_db empty_wf sample_steps_ok). Qed.

Definition sample_afterwards : list (Env * Op) :=
  [(env_at 940000, OpMove Gameplay.sample_move);
   (env_at 950000, OpDisconnect Games.waiting_db "bob" 60000)].

Lemma sample_afterwards_ok db : steps_ok sample_afterwards db.
Proof. split; [exact I|]. split; [|exact I]. vm_compute. discriminate. Qed.

Lemma sample_end_ok db : steps_ok sample_end db.
Proof. split; [|repeat split]. vm_compute. discriminate. Qed.

(** After Bob resigned, a move and a disconnection change nothing. *)
Lemma finished_games_are_final_witness :
  games (exec_all sample_afterwards finished_db) !! "game-1" = games finished_db !! "game-1" /\
  length (gameMoves (exec_all sample_afterwards finished_db) "game-1") = 1%nat.
Proof.
  assert (g_status <$> games finished_db !! "game-1" = Some "COMPLETED") as Hst
    by (vm_compute; reflexivity).
  assert (length (gameMoves finished_db "game-1") = 1%nat) as Hlen by (vm_compute; reflexivity).
  pose proof finished_wf as Hwf. revert Hst Hlen Hwf. generalize finished_db as db.
  intros db Hst Hlen Hwf.
  destruct (games db !! "game-1") as [row|] eqn:Hrow; [|discriminate Hst].
  assert (isTerminal row = true) as Ht by (apply isTerminal_spec; injection Hst; auto).
  destruct (finished_games_are_final sample_afterwards db "game-1" row Hwf
              (sample_afterwards_ok db) Hrow Ht) as (Hg & _ & Hm & _).
  split; [exact Hg|]. rewrite Hm. exact Hlen.
Defined.

Lemma acknowledged_moves_are_durable_witness :
  exists s db1,
    Gameplay.submitMove (env_at 915000) Gameplay.sample_move started_db started_db = (Ok s, db1) /\
    exists row tail, gameMoves (exec_all sample_end db1) "game-1" = row :: tail /\
                     m_uci row = am_uci (ms_accepted s).
Proof.
  assert (gameMoves started_db "game-1" = []) as Hnil by (vm_compute; reflexivity).
  assert (match (Gameplay.submitMove (env_at 915000) Gameplay.sample_move started_db started_db).1
          with Ok s => ms_duplicate s = false /\ Gameplay.storable s | Err _ => False end) as Hf.
  { vm_compute. repeat split; discriminate. }
  pose proof started_wf as Hwf. revert Hnil Hf Hwf. generalize started_db as db.
  intros db Hnil Hf Hwf.
  destruct (Gameplay.submitMove (env_at 915000) Gameplay.sample_move db db)
    as [[s|e] db1] eqn:E; [|done].
  destruct Hf as [Hd Hst]. exists s, db1. split; [done|].
  destruct (acknowledged_moves_are_durable (env_at 915000) Gameplay.sample_move db s db1 sample_end
    Hwf E Hd (sample_end_ok db1) Hst) as [(row & tail & Hm & _ & _ & Hu & _) _].
  change (sm_gameId Gameplay.sample_move) with "game-1" in Hm.
  exists row, tail. split; [|exact Hu]. by rewrite Hm, Hnil.
Defined.

Lemma move_or_timeout_witness :
  (exists sub db1,
     Gameplay.submitMove (env_at 1181000) Gameplay.sample_move sample_db sample_db = (Ok sub, db1) /\
     ms_duplicate sub = false /\
     Lifecycle.adjudicateTimeout (env_at 1181000) "game-1" sample_db = (Ok None, sample_db)) \/
  Gameplay.submitMove (env_at 1181000) Gameplay.sample_move sample_db sample_db =
    (Err (Gameplay.moveError CLOCK_EXPIRED false (Some 2)), sample_db).
Proof.
  destruct (move_or_timeout (env_at 1181000) Gameplay.sample_move sample_db sample_db sample_row _ w
    Gameplay.sample_evaluation 1000000 Gameplay.sample_keyed
    (Gameplay.sample_move_ready 1181000 ltac:(lia) eq_refl) ltac:(vm_compute; discriminate))
    as [Hm | [Hm _]]; [left; exact Hm|right; exact Hm].
Defined.
