(* ===== verification/CacheInvariant.v ===== *)
(** * What Redis holds is always sound

    Every service of the game and of matchmaking acts on the same database and the
    same keyspace, in any number of processes, interrupted and interleaved in any
    way. This file states what every reachable keyspace satisfies, proves that every
    script and every service keeps it, and concludes with [adequacy] of
    [Programs]. *)

From S2P Require Export GameRuns Reconciliation Matchmaking.
Local Open Scope string_scope.
Local Open Scope list_scope.
Local Open Scope Z_scope.

Module Cache.
Import Scripts.

(** ** The invariant of the keyspace *)

(** The guest is one of the players of a game of the database. *)
Definition seated (db : DB) (gid guest : string) : Prop :=
  is_Some (games db !! gid) /\ guest ∈ map p_guestSessionId (gamePlayers db gid).

Definition string_only (e : Entry) : Prop := en_zset e = ∅ /\ en_hash e = ∅.
Definition zset_only (e : Entry) : Prop := en_str e = None /\ en_hash e = ∅.
Definition hash_only (e : Entry) : Prop := en_str e = None /\ en_zset e = ∅.

Section Invariant.
Context `{Zod} `{ZodUuid}.

Definition queued_ok (g : string) (s : Z) : Prop := zod_uuid g = true /\ 0 <= s <= MAX_SAFE_INTEGER.

(** What may be found under each key. *)
Definition entry_ok (db : DB) (k : Key) (e : Entry) : Prop :=
  match k with
  | KQueue _ => zset_only e /\ map_Forall queued_ok (en_zset e)
  | KPresence _ => zset_only e
  | KGuard _ | KSnapshot _ | KGrace _ _ | KName _ | KRevoked _ | KDenied _ => string_only e
  | KState _ => string_only e /\
      forall s, en_str e = Some s -> s ∈ ["IDLE"; "QUEUED"; "RESERVED"; "IN_GAME"]
  | KActive g => string_only e /\ forall gid, en_str e = Some gid -> seated db gid g
  | KReservation m => hash_only e /\
      (en_hash e = ∅ \/ exists rv, en_hash e = stored rv /\ reservation_ok rv /\
                          rv_matchId rv = m /\ rv_a rv <> rv_b rv)
  end.

Context `{RedisLaws}.

Definition cache_ok (db : DB) (r : Keyspace) : Prop := forall k, entry_ok db k (entry r (name k)).

(** ** Commands *)

(** Names collide only between the two kinds of keys of games, which hold the same
    kind of value. *)
Definition game_key (k : Key) : Prop :=
  match k with KSnapshot _ | KGrace _ _ => True | _ => False end.

Lemma name_cases k k' : name k = name k' -> k = k' \/ (game_key k /\ game_key k').
Proof.
  intros E. destruct k, k'; try (by right); left;
    try (apply name_inj in E; [exact E|done|done]); discriminate E.
Qed.

Lemma entry_ok_ext db k e e' :
  en_str e' = en_str e -> en_zset e' = en_zset e -> en_hash e' = en_hash e ->
  entry_ok db k e -> entry_ok db k e'.
Proof.
  intros Es Ez Eh. unfold entry_ok, string_only, zset_only, hash_only.
  destruct k; by rewrite ?Es, ?Ez, ?Eh.
Qed.

Lemma no_entry_ok db k : entry_ok db k no_entry.
Proof.
  destruct k; simpl; try done; (split; [done|]);
    first [apply map_Forall_empty|by left|by intros ? [=]].
Qed.

(** A command on the key [s] keeps the invariant if it keeps that of the entry of [s]. *)
Lemma cache_ok_at db r r' s :
  (forall k, name k <> s -> entry r' (name k) = entry r (name k)) ->
  (forall k, name k = s -> entry_ok db k (entry r (name k)) -> entry_ok db k (entry r' (name k))) ->
  cache_ok db r -> cache_ok db r'.
Proof.
  intros Hne Heq Hr k. destruct (decide (name k = s)) as [E|E]; [by apply Heq|].
  rewrite Hne by done. apply Hr.
Qed.

Lemma ok_DEL db s r : cache_ok db r -> cache_ok db (DEL s r).
Proof.
  apply (cache_ok_at _ _ _ s); intros k Hk; rewrite entry_DEL; [by rewrite decide_False|].
  intros _. rewrite decide_True by done. apply no_entry_ok.
Qed.

Lemma ok_PEXPIRE db s px r : cache_ok db r -> cache_ok db (PEXPIRE s px r).
Proof.
  apply (cache_ok_at _ _ _ s); intros k Hk; rewrite entry_PEXPIRE; [by rewrite decide_False|].
  rewrite decide_True, <- Hk by done. apply entry_ok_ext; by autorewrite with redis.
Qed.

(** Members of a sorted set taken away. *)
Lemma with_zset_ok db k f e :
  (forall z, f z ⊆ z) -> entry_ok db k e -> entry_ok db k (with_zset f e).
Proof.
  intros Hf.
  assert (f ∅ = ∅) as Hempty by (apply (anti_symm (⊆)); [apply Hf|apply map_empty_subseteq]).
  assert (forall P z, map_Forall P z -> map_Forall P (f z)) as HP
    by (intros P z Hz i x Hx; apply Hz; by apply (lookup_weaken _ _ _ _ Hx)).
  unfold entry_ok, string_only, zset_only, hash_only.
  destruct k; autorewrite with redis; naive_solver congruence.
Qed.

Lemma ok_ZREM db s m r : cache_ok db r -> cache_ok db (ZREM s m r).
Proof.
  apply (cache_ok_at _ _ _ s); intros k Hk; rewrite entry_ZREM; [by rewrite decide_False|].
  rewrite decide_True, <- Hk by done. apply with_zset_ok. intros z. apply delete_subseteq.
Qed.

Lemma ok_ZREMRANGEBYSCORE db s t r : cache_ok db r -> cache_ok db (ZREMRANGEBYSCORE s t r).
Proof.
  apply (cache_ok_at _ _ _ s); intros k Hk; rewrite entry_ZREMRANGEBYSCORE; [by rewrite decide_False|].
  rewrite decide_True, <- Hk by done. apply with_zset_ok. intros z. apply map_filter_subseteq.
Qed.

(** What may be written. *)
Definition may_SET (db : DB) (k : Key) (v : string) : Prop :=
  match k with
  | KGuard _ | KSnapshot _ | KGrace _ _ | KName _ | KRevoked _ | KDenied _ => True
  | KState _ => v ∈ ["IDLE"; "QUEUED"; "RESERVED"; "IN_GAME"]
  | KActive g => seated db v g
  | _ => False
  end.

Lemma ok_SET db k v px r : may_SET db k v -> cache_ok db r -> cache_ok db (SET (name k) v px r).
Proof.
  intros Hv. apply (cache_ok_at _ _ _ (name k)); intros k' Hk; rewrite entry_SET;
    [by rewrite decide_False|].
  rewrite decide_True by done. intros _. apply name_cases in Hk as [->|[Hk' Hk]].
  - destruct k; simpl in *; try done; (split; [done|]); by intros ? [= <-].
  - by destruct k', k.
Qed.

Definition may_ZADD (k : Key) (m : string) (s : Z) : Prop :=
  match k with KQueue _ => queued_ok m s | KPresence _ => True | _ => False end.

Lemma ok_ZADD db k s m r : may_ZADD k m s -> cache_ok db r -> cache_ok db (ZADD (name k) s m r).
Proof.
  intros Hm. apply (cache_ok_at _ _ _ (name k)); intros k' Hk; rewrite entry_ZADD;
    [by rewrite decide_False|].
  rewrite decide_True by done. apply name_cases in Hk as [->|[Hk' Hk]]; [|by destruct k].
  destruct k; simpl in *; try done; unfold zset_only; autorewrite with redis; [|done].
  intros [? ?]. split; [done|]. by apply map_Forall_insert_2.
Qed.

Lemma ok_HSET db rv r :
  reservation_ok rv -> rv_a rv <> rv_b rv ->
  HGETALL r (reservationKey (rv_matchId rv)) = ∅ -> cache_ok db r ->
  cache_ok db (HSET (reservationKey (rv_matchId rv)) (stored_fields rv) r).
Proof.
  intros Hrv Hab Hh. apply (cache_ok_at _ _ _ (name (KReservation (rv_matchId rv))));
    intros k Hk; rewrite entry_HSET; [by rewrite decide_False|].
  rewrite decide_True by done. apply name_cases in Hk as [->|[_ Hk]]; [|done].
  simpl. unfold hash_only, HGETALL in *. rewrite !settle_str, !settle_zset, !settle_hash. simpl.
  intros [? _]. rewrite Hh, (right_id_L ∅ (∪)). split; [done|]. right. by exists rv.
Qed.

(** ** Scripts *)

(** The invariant, while the hashes of the reservations [free] are known to be empty. *)
Definition cache_at (db : DB) (free : string -> Prop) (r : Keyspace) : Prop :=
  cache_ok db r /\ forall m, free m -> HGETALL r (reservationKey m) = ∅.

Definition keeps {A} (I : Keyspace -> Prop) (m : lua A) (Q : A -> Prop) : Prop :=
  forall r, I r -> I (m r).2 /\ Q (m r).1.

Section Keeps.
Context (db : DB) (free : string -> Prop).
Notation I := (cache_at db free).

Lemma keeps_ret {A} (a : A) (Q : A -> Prop) : Q a -> keeps I (mret a) Q.
Proof. by intros HQ r Hr. Qed.

Lemma keeps_bind {A B} (m : lua A) (f : A -> lua B) Q Q' :
  keeps I m Q -> (forall a, Q a -> keeps I (f a) Q') -> keeps I (m ≫= f) Q'.
Proof.
  intros Hm Hf r Hr. destruct (Hm r Hr) as [Hr' HQ]. unfold mbind, lua_bind.
  destruct (m r) as [a r']. by apply Hf.
Qed.

Lemma keeps_ask {A} (f : Keyspace -> A) (Q : A -> Prop) :
  (forall r, I r -> Q (f r)) -> keeps I (ask f) Q.
Proof. intros HQ r Hr. split; [done|by apply HQ]. Qed.

Lemma keeps_mono {A} (m : lua A) (Q Q' : A -> Prop) :
  (forall a, Q a -> Q' a) -> keeps I m Q -> keeps I m Q'.
Proof. intros HQ Hm r Hr. destruct (Hm r Hr) as [? ?]. auto. Qed.

(** A command that keeps the invariant and writes no field of a hash. *)
Lemma keeps_call (f : Keyspace -> Keyspace) :
  (forall r, cache_ok db r -> cache_ok db (f r)) ->
  (forall r k, en_hash (entry (f r) k) = en_hash (entry r k) \/ en_hash (entry (f r) k) = ∅) ->
  keeps I (call f) (fun _ => True).
Proof.
  intros Hok Hh r [Hr Hfree]. split; [|done]. split; [by apply Hok|].
  intros m Hm. unfold HGETALL in *. simpl. destruct (Hh r (reservationKey m)) as [-> | ->]; auto.
Qed.

Lemma keeps_DEL s : keeps I (call (DEL s)) (fun _ => True).
Proof.
  apply keeps_call; [apply ok_DEL|]. intros r k. rewrite entry_DEL. case_decide; auto.
Qed.

Lemma keeps_PEXPIRE s px : keeps I (call (PEXPIRE s px)) (fun _ => True).
Proof.
  apply keeps_call; [apply ok_PEXPIRE|]. intros r k. rewrite entry_PEXPIRE.
  case_decide; subst; autorewrite with redis; auto.
Qed.

Lemma keeps_ZREM s m : keeps I (call (ZREM s m)) (fun _ => True).
Proof.
  apply keeps_call; [apply ok_ZREM|]. intros r k. rewrite entry_ZREM.
  case_decide; subst; autorewrite with redis; auto.
Qed.

Lemma keeps_ZREMRANGEBYSCORE s t : keeps I (call (ZREMRANGEBYSCORE s t)) (fun _ => True).
Proof.
  apply keeps_call; [apply ok_ZREMRANGEBYSCORE|]. intros r k. rewrite entry_ZREMRANGEBYSCORE.
  case_decide; subst; autorewrite with redis; auto.
Qed.

Lemma keeps_SET k v px : may_SET db k v -> keeps I (call (SET (name k) v px)) (fun _ => True).
Proof.
  intros Hv. apply keeps_call; [intros r; by apply ok_SET|]. intros r k'. rewrite entry_SET.
  case_decide; auto.
Qed.

Lemma keeps_ZADD k s m : may_ZADD k m s -> keeps I (call (ZADD (name k) s m)) (fun _ => True).
Proof.
  intros Hm. apply keeps_call; [intros r; by apply ok_ZADD|]. intros r k'. rewrite entry_ZADD.
  case_decide; subst; autorewrite with redis; auto.
Qed.

Lemma keeps_ZPOPMIN mode :
  keeps I (ZPOPMIN (queueKey mode))
    (fun popped => forall g s, popped = Some (g, s) -> queued_ok g s).
Proof.
  intros r Hr. unfold ZPOPMIN. destruct (ZRANGE r (queueKey mode)) as [|[g s] l] eqn:El; [done|].
  split; [by apply (keeps_ZREM (queueKey mode) g r)|]. intros g' s' [= <- <-].
  assert (ZSCORES r (queueKey mode) !! g = Some s) as Hg
    by (apply elem_of_ranked; fold (ZRANGE r (queueKey mode)); rewrite El; left).
  destruct Hr as [Hr _]. destruct (Hr (KQueue mode)) as [_ Hq]. by apply (Hq g s Hg).
Qed.
End Keeps.

Ltac lua_step :=
  lazymatch goal with
  | |- keeps _ (mret _) _ => apply keeps_ret
  | |- keeps _ (ask _) _ => apply (keeps_ask _ _ _ (fun _ => True)); done
  | |- keeps _ (call (DEL _)) _ => apply keeps_DEL
  | |- keeps _ (call (PEXPIRE _ _)) _ => apply keeps_PEXPIRE
  | |- keeps _ (call (ZREM _ _)) _ => apply keeps_ZREM
  | |- keeps _ (call (ZREMRANGEBYSCORE _ _)) _ => apply keeps_ZREMRANGEBYSCORE
  | |- keeps _ (call (SET ?s _ _)) _ => let k := key_of s in apply (keeps_SET _ _ k); simpl
  | |- keeps _ (call (ZADD ?s _ _)) _ => let k := key_of s in apply (keeps_ZADD _ _ k); simpl
  | |- keeps _ (_ ≫= _) _ => eapply keeps_bind; [|intros ? _]
  | |- keeps _ (if ?c then _ else _) _ => destruct c
  | |- keeps _ (match ?x with _ => _ end) _ => destruct x
  | |- keeps _ _ _ => solve [eauto with keeps]
  end.
Ltac lua := repeat lua_step; try done; try set_solver.

Notation keeps_all m := (forall db free, keeps (cache_at db free) m (fun _ => True)).

Lemma is_present_keeps now s : keeps_all (is_present now s).
Proof. intros db free. unfold is_present. lua. Qed.

#[local] Hint Resolve is_present_keeps : keeps.

Lemma enqueue_keeps g mode now t1 t2 :
  queued_ok g now ->
  keeps_all (enqueue_lua (queueKey mode) (guardKey g) (stateKey g) (activeGameKey g) g mode now t1 t2).
Proof. intros Hg db free. unfold enqueue_lua. lua. Qed.

Lemma leave_keeps g mode t : keeps_all (leave_lua (queueKey mode) (guardKey g) (stateKey g) g t).
Proof. intros db free. unfold leave_lua. lua. Qed.

Lemma finalize_keeps db free rv t :
  seated db (rv_gameId rv) (rv_a rv) -> seated db (rv_gameId rv) (rv_b rv) ->
  keeps (cache_at db free)
    (finalize_lua (reservationKey (rv_matchId rv)) (guardKey (rv_a rv)) (stateKey (rv_a rv))
       (activeGameKey (rv_a rv)) (stateKey (rv_b rv)) (activeGameKey (rv_b rv)) (guardKey (rv_b rv))
       (rv_matchId rv) (rv_a rv) (rv_b rv) (rv_gameId rv) t) (fun _ => True).
Proof. intros Ha Hb. unfold finalize_lua. lua. Qed.

Lemma repairCommitted_keeps db free mode gid g_a g_b t :
  seated db gid g_a -> seated db gid g_b ->
  keeps (cache_at db free)
    (repairCommitted_lua (stateKey g_a) (activeGameKey g_a) (stateKey g_b) (activeGameKey g_b)
       (queueKey mode) (guardKey g_a) (guardKey g_b) gid t g_a g_b) (fun _ => True).
Proof. intros Ha Hb. unfold repairCommitted_lua. lua. Qed.

(** What the database said of a guest is one of its games. *)
Definition durable_ok (db : DB) (g : string) (d : Durable) : Prop :=
  forall gid, du_activeGameId d = Some gid -> seated db gid g.

Lemma is_settled_keeps queue mode side : keeps_all (is_settled queue mode side).
Proof. intros db free. unfold is_settled. lua. Qed.

Lemma restore_keeps db free mode now t1 t2 g score d :
  queued_ok g score -> durable_ok db g d ->
  keeps (cache_at db free) (restore (queueKey mode) mode now t1 t2 (sideOf g score d))
    (fun _ => True).
Proof.
  intros Hq Hd. unfold restore. cbn [sideOf sd_guest sd_score sd_assignment sd_eligible sd_state
    sd_active sd_guard sd_presence].
  destruct (du_activeGameId d) as [gid|] eqn:Ed; cbn [default from_option id].
  - specialize (Hd gid Ed). lua.
  - rewrite bool_decide_eq_true_2 by done. cbn [negb]. lua.
Qed.
#[local] Hint Resolve is_settled_keeps restore_keeps : keeps.

Lemma rollback_keeps db free rv d_a d_b now t1 t2 :
  queued_ok (rv_a rv) (rv_aScore rv) -> queued_ok (rv_b rv) (rv_bScore rv) ->
  durable_ok db (rv_a rv) d_a -> durable_ok db (rv_b rv) d_b ->
  keeps (cache_at db free)
    (rollback_lua (queueKey (rv_mode rv)) (reservationKey (rv_matchId rv))
       (sideOf (rv_a rv) (rv_aScore rv) d_a) (sideOf (rv_b rv) (rv_bScore rv) d_b)
       (rv_matchId rv) (rv_gameId rv) (rv_mode rv) now t1 t2) (fun _ => True).
Proof. intros. unfold rollback_lua. lua. Qed.

Lemma sweep_reason_keeps mode now maxWait g s : keeps_all (sweep_reason mode now maxWait g s).
Proof. intros db free. unfold sweep_reason. lua. Qed.
#[local] Hint Resolve sweep_reason_keeps : keeps.

Lemma sweep_entries_keeps mode now maxWait t entries :
  keeps_all (sweep_entries mode (queueKey mode) now maxWait t entries).
Proof.
  intros db free. induction entries as [|[g s] entries IH]; cbn [sweep_entries]; lua.
Qed.
#[local] Hint Resolve sweep_entries_keeps : keeps.

Lemma sweep_keeps mode now maxWait batch t :
  keeps_all (sweep_lua (queueKey mode) now maxWait batch mode t).
Proof. intros db free. unfold sweep_lua. lua. Qed.

(** *** Matching *)

Lemma match_reason_keeps mode now maxWait g s : keeps_all (match_reason mode now maxWait g s).
Proof. intros db free. unfold match_reason. lua. Qed.

Lemma discard_keeps g : keeps_all (discard g).
Proof. intros db free. unfold discard. lua. Qed.
#[local] Hint Resolve match_reason_keeps discard_keeps : keeps.

Definition candidates_ok (cs : list (string * Z)) : Prop := Forall (fun c => queued_ok c.1 c.2) cs.

Lemma scan_queue_keeps db free mode now maxWait scan cs ds :
  candidates_ok cs ->
  keeps (cache_at db free) (scan_queue mode (queueKey mode) now maxWait scan cs ds)
    (fun found => candidates_ok found.1).
Proof.
  revert cs ds. induction scan as [|scan IH]; intros cs ds Hcs; cbn [scan_queue].
  { by apply keeps_ret. }
  case_decide; [by apply keeps_ret|].
  eapply keeps_bind; [apply keeps_ZPOPMIN|]. intros [[g s]|] Hpop; [|by apply keeps_ret].
  specialize (Hpop g s eq_refl). lua_step; [lua|]. lua_step.
  - lua_step; [lua|]. by apply IH.
  - apply IH. apply Forall_app. split; [done|]. by apply Forall_singleton.
Qed.

Lemma put_back_keeps db free mode t cs :
  candidates_ok cs ->
  keeps (cache_at db free) (put_back (queueKey mode) t cs) (fun _ => True).
Proof.
  induction 1 as [|[g s] cs Hg _ IH]; cbn [put_back]; lua.
Qed.

(** A script whose last commands may fill the free reservations. *)
Definition lasts {A} (db : DB) (free : string -> Prop) (m : lua A) : Prop :=
  forall r, cache_at db free r -> cache_ok db (m r).2.

Lemma last_bind {A B} db free (m : lua A) (f : A -> lua B) Q :
  keeps (cache_at db free) m Q -> (forall a, Q a -> lasts db free (f a)) -> lasts db free (m ≫= f).
Proof.
  intros Hm Hf r Hr. destruct (Hm r Hr) as [Hr' HQ]. unfold mbind, lua_bind.
  destruct (m r) as [a r']. by apply Hf.
Qed.

Lemma last_keeps {A} db free (m : lua A) Q : keeps (cache_at db free) m Q -> lasts db free m.
Proof. intros Hm r Hr. by apply (Hm r Hr). Qed.

Lemma cache_at_none db r : cache_ok db r -> cache_at db (fun _ => False) r.
Proof. by split. Qed.

Lemma reserve_last {A} db rv px (reply : A) :
  reservation_ok rv -> rv_a rv <> rv_b rv ->
  lasts db (eq (rv_matchId rv))
    (_ ← call (HSET (reservationKey (rv_matchId rv)) (stored_fields rv));
     _ ← call (PEXPIRE (reservationKey (rv_matchId rv)) px);
     mret reply).
Proof.
  intros Hrv Hab r [Hr Hfree]. unfold mbind, lua_bind, call, mret, lua_ret. simpl.
  apply ok_PEXPIRE, ok_HSET; auto.
Qed.

Lemma tryMatch_keeps db matchId gameId now maxWait t1 t2 maxScan r :
  zod_uuidv4 matchId = true -> zod_uuidv4 gameId = true ->
  0 <= now <= MAX_SAFE_INTEGER -> cache_ok db r ->
  cache_ok db (tryMatch_lua (queueKey "blitz") (reservationKey matchId) "blitz" now maxWait
                 matchId gameId t1 t2 maxScan r).2.
Proof.
  intros Hm Hg Hnow Hr. unfold tryMatch_lua. unfold mbind at 1, lua_bind at 1, ask at 1.
  destruct (EXISTS r (reservationKey matchId)) eqn:Ee; [done|].
  unfold EXISTS in Ee. apply negb_false_iff, bare_spec in Ee as (_ & _ & Eh).
  assert (cache_at db (eq matchId) r) as Hat by (split; [done|]; by intros m <-).
  match goal with |- cache_ok _ (?m r).2 => enough (lasts db (eq matchId) m) as Hends by auto end.
  eapply last_bind; [by apply (scan_queue_keeps _ _ _ _ _ _ [] []), Forall_nil|].
  intros [cs ds] Hcs. simpl in Hcs.
  destruct cs as [|[g_a sa] [|[g_b sb] cs]].
  - apply (last_keeps _ _ _ (fun _ => True)). lua_step; [by apply put_back_keeps|lua].
  - apply (last_keeps _ _ _ (fun _ => True)). lua_step; [by apply put_back_keeps|lua].
  - apply Forall_cons in Hcs as [[Ua Na] Hcs]. apply Forall_cons in Hcs as [[Ub Nb] _]. simpl in *.
    case_decide as Hab; [apply (last_keeps _ _ _ (fun _ => True)); lua|].
    do 4 (eapply last_bind; [lua|intros _ _]).
    apply (reserve_last db (mkReservation g_a sa g_b sb now gameId matchId "blitz")); [|done].
    split_and!; simpl; done || lia.
Qed.

(** *** Presence and the pointers to games *)

Lemma refresh_keeps config g socket now : keeps_all (Presence.refresh_lua config g socket now).
Proof. intros db free. unfold Presence.refresh_lua. lua. Qed.

Lemma remove_keeps g socket now : keeps_all (Presence.remove_lua g socket now).
Proof. intros db free. unfold Presence.remove_lua. lua. Qed.

Lemma count_keeps g now : keeps_all (Presence.count_lua g now).
Proof. intros db free. unfold Presence.count_lua. lua. Qed.

Lemma clearActiveGame_keeps config g gid :
  keeps_all (Ephemeral.clearActiveGame_lua config (activeGameKey g) (stateKey g) gid).
Proof. intros db free. unfold Ephemeral.clearActiveGame_lua. lua. Qed.

(** Scripts on their own, without what is known of reservations. *)
Lemma keeps_alone {A} db (m : lua A) Q r :
  (forall free, keeps (cache_at db free) m Q) -> cache_ok db r -> cache_ok db (m r).2.
Proof. intros Hm Hr. by apply (Hm (fun _ => False) r (cache_at_none _ _ Hr)). Qed.
End Invariant.
End Cache.
