(* ===== verification/CacheTriples.v ===== *)
(** * What programs keep of the shared state

    A program logic for the programs of the services: [triple P p Q] says that [p],
    started where [P] holds and interfered with by any other program, keeps the
    invariant of the database and of the keyspace at each of its actions, and that
    its result satisfies [Q]. What a program knows about the world between its
    actions is only what no other program changes: who plays which game. *)

From S2P Require Export CacheInvariant.
Local Open Scope string_scope.
Local Open Scope list_scope.
Local Open Scope Z_scope.

Module Triples.
Import Scripts Cache.

Section Triples.
Context `{Zod} `{ZodUuid} `{ChessJs} `{!ChessJsLaws} `{Prisma} `{RedisLaws}.

Definition inv (w : World) : Prop := wf (w_db w) /\ cache_ok (w_db w) (w_redis w).

(** The others keep the invariant, and nobody leaves a game it is a player of. *)
Definition moves_on (w w' : World) : Prop :=
  inv w' /\ forall gid g, seated (w_db w) gid g -> seated (w_db w') gid g.
Definition rely (w w' : World) : Prop := inv w -> moves_on w w'.

#[export] Instance rely_preorder : PreOrder rely.
Proof.
  split; [by intros w Hw|]. intros w1 w2 w3 M12 M23 I1.
  destruct (M12 I1) as [I2 S12], (M23 (proj1 (M12 I1))) as [I3 S23]. split; auto.
Qed.

Definition time_ok (t : Z) : Prop := 0 <= t <= MAX_SAFE_INTEGER.

(** What an action is given: new ids for the players of a game, UUIDs, and a time. *)
Definition ext_ok (x : Ext) (w : World) : Prop :=
  (env_playerIds (x_env x)).1 <> (env_playerIds (x_env x)).2 /\
  (forall p, p ∈ players (w_db w) -> p_id p <> (env_playerIds (x_env x)).1 /\
                                     p_id p <> (env_playerIds (x_env x)).2) /\
  zod_uuidv4 (x_uuids x).1 = true /\ zod_uuidv4 (x_uuids x).2 = true /\ time_ok (x_now x).

Definition triple {A} (P : World -> Prop) (p : Prog A) (Q : A -> World -> Prop) : Prop :=
  forall w, inv w -> P w ->
    wp rely rely ext_ok p (fun r w' => inv w' /\ match r with Ok a => Q a w' | Err _ => True end) w.

(** Facts that the moves of others do not change. *)
Definition persists (P : World -> Prop) : Prop :=
  forall w w', P w -> (forall gid g, seated (w_db w) gid g -> seated (w_db w') gid g) -> P w'.

Notation anything := (fun _ _ => True).
Notation always := (fun _ => True).

Lemma wp_keep {A} (p : Prog A) Q F w :
  persists F -> inv w -> F w -> wp rely rely ext_ok p Q w ->
  wp rely rely ext_ok p (fun r w' => F w' /\ Q r w') w.
Proof.
  intros HF. revert w. induction p as [a|e|X act k IH]; intros w Hw Hf Hwp; simpl in *; [done..|].
  intros w1 x HR Hok. destruct (HR Hw) as [I1 S1]. destruct (Hwp w1 x HR Hok) as [HG Hk].
  destruct (HG I1) as [I2 S2]. split; [done|]. apply IH; [done| |done].
  eapply HF; [|exact S2]. by eapply HF.
Qed.

Lemma triple_ret {A} P (a : A) (Q : A -> World -> Prop) : (forall w, P w -> Q a w) -> triple P (mret a) Q.
Proof. intros HQ w Hw HP. simpl. auto. Qed.

Lemma triple_throw {A} P e (Q : A -> World -> Prop) : triple P (Throw e) Q.
Proof. by intros w Hw HP. Qed.

Lemma triple_mono {A} P P' (p : Prog A) Q Q' :
  (forall w, P' w -> P w) -> (forall a w, Q a w -> Q' a w) -> triple P p Q -> triple P' p Q'.
Proof.
  intros HP HQ Hp w Hw Hw'. eapply wp_mono; [|by apply Hp, HP].
  intros [a|e] w' [? ?]; auto.
Qed.

Lemma triple_bind {A B} P (p : Prog A) (f : A -> Prog B) Q Q' :
  persists P -> triple P p Q -> (forall a, triple (fun w => P w /\ Q a w) (f a) Q') ->
  triple P (p ≫= f) Q'.
Proof.
  intros HP Hp Hf w Hw Hw'. apply wp_bind. eapply wp_mono; [|eapply (wp_keep p _ P); [done..|by apply Hp]].
  intros [a|e] w' (HP' & Hinv & HQ); [by apply Hf|done].
Qed.

Lemma triple_catch {A} P (p : Prog A) h Q :
  persists P -> triple P p Q -> (forall e, triple P (h e) Q) -> triple P (catch p h) Q.
Proof.
  intros HP Hp Hh w Hw Hw'. apply wp_catch. eapply wp_mono; [|eapply (wp_keep p _ P); [done..|by apply Hp]].
  intros [a|e] w' (HP' & Hinv & HQ); [done|by apply Hh].
Qed.

Lemma triple_both {A B} P (p : Prog A) (q : Prog B) Q Q' :
  persists P -> triple P p Q -> triple P q Q' -> (forall a, persists (Q a)) ->
  triple P (both p q) (fun ac w => Q ac.1 w /\ Q' ac.2 w).
Proof.
  intros HP Hp Hq HQ w Hw Hw'. apply wp_both. eapply wp_mono; [|eapply (wp_keep p _ P); [done..|by apply Hp]].
  intros [a|e] w1 (HP1 & Hinv1 & HQ1).
  - eapply wp_mono; [|eapply (wp_keep q _ (Q a)); [done..|by apply Hq]].
    intros [c|e] w2 (HQ2 & Hinv2 & HQ'); by split_and!.
  - eapply wp_mono; [|by apply Hq]. intros [c|e'] w2 [Hinv2 _]; done.
Qed.

Lemma triple_attempt {A} P (p : Prog A) Q :
  triple P p Q -> triple P (attempt p) (fun r w => match r with Ok a => Q a w | Err _ => True end).
Proof. intros Hp w Hw HP. apply wp_attempt. by apply Hp. Qed.

(** A fact that does not depend on the world. *)
Lemma triple_pure {A} P (c : Prop) (p : Prog A) Q :
  (c -> triple P p Q) -> triple (fun w => P w /\ c) p Q.
Proof. intros Hp w Hw [HP Hc]. by apply Hp. Qed.

Lemma triple_mapAll {A B} P (f : A -> Prog B) (R : B -> Prop) l :
  persists P -> (forall x, x ∈ l -> triple P (f x) (fun y _ => R y)) ->
  triple P (mapAll f l) (fun ys _ => Forall R ys).
Proof.
  intros HP Hf. induction l as [|x l IH]; [by apply triple_ret|].
  apply (triple_bind P (f x) (fun y => prog_bind_ (fun ys => Ret (y :: ys)) (mapAll f l))
    (fun y _ => R y)); [done|apply Hf; left|].
  intros y. apply triple_pure. intros Hy.
  apply (triple_bind P (mapAll f l) (fun ys => Ret (y :: ys)) (fun ys _ => Forall R ys));
    [done|apply IH; intros; apply Hf; by right|].
  intros ys. apply triple_pure. intros Hys. apply triple_ret. by constructor.
Qed.

(** ** Actions *)

Lemma triple_perform {X} P (act : Ext -> World -> result fault X * World) Q :
  persists P ->
  (forall w x, inv w -> P w -> ext_ok x w ->
     moves_on w (act x w).2 /\ forall a, (act x w).1 = Ok a -> Q a (act x w).2) ->
  triple P (perform act) Q.
Proof.
  intros HP Hact w Hw Hw'. apply wp_perform. intros w1 x HR Hok.
  destruct (HR Hw) as [I1 S1]. destruct (Hact w1 x I1) as [Hm HQ]; [by eapply HP|done|].
  split; [by intros _|]. split; [apply Hm|]. destruct (act x w1) as [[a|e] w2]; simpl in *; auto.
Qed.

Lemma moves_on_refl w : inv w -> moves_on w w.
Proof. by split. Qed.

Lemma moves_on_redis w r' :
  inv w -> cache_ok (w_db w) r' -> moves_on w (mkWorld (w_db w) r').
Proof. intros [Hwf _] Hr. by split. Qed.

Lemma execute_Ok {A} (schema : parser A) (script : Ext -> lua json) x w a :
  (execute schema script x w).1 = Ok a -> exists j, schema j = Some a.
Proof.
  unfold execute. destruct (schema (script x (w_redis w)).1) as [a'|] eqn:Ej;
    destruct (x_link x) as [[] [] [] [| |[]] [] [| |[]]]; simpl; try done;
    intros [= <-]; eauto.
Qed.

(** An action on Redis alone. *)
Lemma triple_redis {X} P (act : Ext -> World -> result fault X * World) Q :
  persists P ->
  (forall w x, inv w -> P w -> ext_ok x w ->
     (act x w).2 = w \/
     exists r', (act x w).2 = mkWorld (w_db w) r' /\ cache_ok (w_db w) r') ->
  (forall w x a, (act x w).1 = Ok a -> Q a) ->
  triple P (perform act) (fun a _ => Q a).
Proof.
  intros HP Hact HQ. apply triple_perform; [done|]. intros w x Hw Hw' Hok. split; [|by eauto].
  destruct (Hact w x Hw Hw' Hok) as [-> | (r' & -> & Hr)];
    [by apply moves_on_refl|by apply moves_on_redis].
Qed.

(** A script sent with [execute]. *)
Lemma triple_execute {A} P (schema : parser A) (script : Ext -> lua json) :
  persists P ->
  (forall w x, inv w -> P w -> ext_ok x w -> cache_ok (w_db w) (script x (w_redis w)).2) ->
  triple P (perform (execute schema script)) (fun a _ => exists j, schema j = Some a).
Proof.
  intros HP Hs. apply triple_redis; [done| |].
  - intros w x Hw Hw' Hok. pose proof (Hs w x Hw Hw' Hok).
    destruct (execute_ran schema script x w) as [-> | ->]; eauto.
  - intros w x a. apply execute_Ok.
Qed.

(** A script whose reply may be an error to throw. *)
Lemma triple_orThrow {A} P error (schema : parser (option A)) (script : Ext -> lua json) :
  persists P ->
  (forall w x, inv w -> P w -> ext_ok x w -> cache_ok (w_db w) (script x (w_redis w)).2) ->
  triple P (perform (fun x w => orThrow error (execute schema script x w)))
    (fun a _ => exists j, schema j = Some (Some a)).
Proof.
  intros HP Hs. apply triple_redis; [done| |].
  - intros w x Hw Hw' Hok. pose proof (Hs w x Hw Hw' Hok). simpl.
    destruct (execute_ran schema script x w) as [-> | ->]; eauto.
  - intros w x a. simpl. destruct (execute _ _ _ _).1 as [[a'|]|e] eqn:E; try done.
    intros [= <-]. by eapply execute_Ok.
Qed.

(** A command keeps the invariant where [P] holds. *)
Definition kept {A} (P : World -> Prop) (c : lua A) : Prop :=
  forall w, P w -> keeps (cache_at (w_db w) (fun _ => False)) c always.

Lemma kept_ok {A} P (c : lua A) w : kept P c -> inv w -> P w -> cache_ok (w_db w) (c (w_redis w)).2.
Proof. intros Hc [_ Hr] Hw. by apply (Hc w Hw (w_redis w)), cache_at_none. Qed.

Lemma sendOp_moves {A} (f : Ext -> lua A) x w :
  (sendOp f x w).2 = w \/ (sendOp f x w).2 = mkWorld (w_db w) (f x (w_redis w)).2.
Proof.
  unfold sendOp. destruct (ln_first _) as [| |[]]; auto. destruct (f x (w_redis w)); auto.
Qed.

Lemma triple_send {A} P (f : Ext -> lua A) :
  persists P -> (forall x, kept P (f x)) -> triple P (send f) anything.
Proof.
  intros HP Hf. apply triple_redis; [done| |done].
  intros w x Hw Hw' _. pose proof (kept_ok P (f x) w (Hf x) Hw Hw').
  destruct (sendOp_moves f x w) as [-> | ->]; eauto.
Qed.

Lemma triple_command {A} P (f : Ext -> lua A) :
  persists P -> (forall x, kept P (f x)) -> triple P (command f) anything.
Proof.
  intros HP Hf. apply triple_redis; [done| |done].
  intros w x Hw Hw' _. pose proof (kept_ok P (f x) w (Hf x) Hw Hw').
  unfold redisOp. destruct (negb _); [by left|].
  destruct (sendOp_moves f x w) as [-> | ->]; eauto.
Qed.

Lemma triple_pipeline {A} P (cs : list (lua A)) :
  persists P -> Forall (kept P) cs -> triple P (pipeline cs) anything.
Proof.
  intros HP Hcs. eapply triple_mono; [done| |apply (triple_mapAll P _ (fun _ => True)); [done|]];
    [done|]. intros c Hc. eapply triple_mono; [done|done|]. apply triple_attempt, triple_send; [done|].
  intros _. by eapply (proj1 (Forall_forall _ _)) in Hc.
Qed.

(** An action that changes nothing. *)
Lemma triple_look {X} P (act : Ext -> World -> result fault X * World) Q :
  persists P -> (forall w x, (act x w).2 = w) ->
  (forall w x a, inv w -> P w -> ext_ok x w -> (act x w).1 = Ok a -> Q a w) ->
  triple P (perform act) Q.
Proof.
  intros HP Hact HQ. apply triple_perform; [done|]. intros w x Hw Hw' Hok. rewrite Hact.
  split; [by apply moves_on_refl|]. eauto.
Qed.

Lemma triple_query {A} P (f : Ext -> DB -> result exn A) Q :
  persists P -> (forall w x a, inv w -> P w -> f x (w_db w) = Ok a -> Q a w) ->
  triple P (query f) Q.
Proof.
  intros HP HQ. apply triple_look; [done| |].
  - intros w x. unfold dbOp. by destruct (x_db x), w.
  - intros w x a Hw Hw' _. unfold dbOp. destruct (x_db x); simpl; [|done..].
    destruct (f x (w_db w)) as [a'|] eqn:E; [|done]. intros [= <-]. by eapply HQ.
Qed.

Lemma triple_lift {A} P (r : result fault A) Q :
  (forall w a, P w -> r = Ok a -> Q a w) -> triple P (lift r) Q.
Proof. intros HQ. destruct r; [apply triple_ret; eauto|apply triple_throw]. Qed.

(** ** What persists *)

Lemma persists_always : persists always.
Proof. done. Qed.

Lemma persists_and P P' : persists P -> persists P' -> persists (fun w => P w /\ P' w).
Proof. intros HP HP' w w' [? ?] Hs. split; [by eapply HP|by eapply HP']. Qed.

Lemma persists_imp (c : Prop) P : (c -> persists P) -> persists (fun w => c -> P w).
Proof. intros HP w w' Hc Hs HC. eapply HP; eauto. Qed.

Lemma persists_const (c : Prop) : persists (fun _ => c).
Proof. by intros w w' Hc _. Qed.

Lemma persists_seated gid g : persists (fun w => seated (w_db w) gid g).
Proof. intros w w' Hg Hs. by apply Hs. Qed.

Lemma persists_all {A} (P : A -> World -> Prop) :
  (forall a, persists (P a)) -> persists (fun w => forall a, P a w).
Proof. intros HP w w' Hw Hs a. by eapply HP. Qed.

(** ** Operations on the database *)

Lemma exec_seated env op db gid g :
  wf db -> op_ok env op db -> seated db gid g -> seated (exec env op db) gid g.
Proof.
  intros Hwf Hok [[row Hrow] Hg]. pose proof (wf_keyed _ Hwf) as Hk.
  pose proof (exec_effect _ _ _ Hk Hok) as He. split.
  - destruct (effect_row _ _ _ _ _ Hk He Hrow) as (row' & -> & _). eauto.
  - destruct (effect_players _ _ _ _ _ Hk He Hrow) as (f & -> & Hf & _).
    rewrite map_map. by erewrite map_ext.
Qed.

Lemma cache_ok_mono db db' r :
  (forall gid g, seated db gid g -> seated db' gid g) -> cache_ok db r -> cache_ok db' r.
Proof.
  intros Hs Hr k. specialize (Hr k). destruct k; simpl in *; try done. naive_solver.
Qed.

Lemma exec_moves_on env op w :
  inv w -> op_ok env op (w_db w) -> moves_on w (mkWorld (exec env op (w_db w)) (w_redis w)).
Proof.
  intros [Hwf Hr] Hok.
  assert (forall gid g, seated (w_db w) gid g -> seated (exec env op (w_db w)) gid g) as Hs
    by (intros; by apply exec_seated).
  split; [split; [by apply exec_wf|by eapply cache_ok_mono]|done].
Qed.

Lemma triple_operation {A} P (operation : Ext -> Op) (op : Ext -> DB -> result exn A * DB) Q :
  persists P ->
  (forall x db, (op x db).2 = exec (x_env x) (operation x) db) ->
  (forall w x, P w -> ext_ok x w -> op_ok (x_env x) (operation x) (w_db w)) ->
  (forall w x a db', inv w -> P w -> op x (w_db w) = (Ok a, db') -> wf db' ->
     Q a (mkWorld db' (w_redis w))) ->
  triple P (database op) Q.
Proof.
  intros HP Hop Hok HQ. apply triple_perform; [done|]. intros w x Hw Hw' Hx.
  pose proof (exec_moves_on (x_env x) (operation x) w Hw (Hok _ _ Hw' Hx)) as Hm.
  rewrite <- Hop in Hm. unfold dbOp. destruct (x_db x); simpl.
  - specialize (HQ w x). destruct (op x (w_db w)) as [[a|e] db'] eqn:E; simpl in *; [|done].
    split; [done|]. intros _ [= <-]. apply HQ; try done. by destruct Hm as [[]].
  - by split; [apply moves_on_refl|].
  - done.
Qed.

(** ** What the repositories answer *)

(** The players of an allocation are players of its game. *)
Definition al_seated (db : DB) (al : Games.GameAllocation) : Prop :=
  seated db (Games.gr_id (Games.ga_game al)) (Games.gp_guestSessionId (Games.ga_players al).1) /\
  seated db (Games.gr_id (Games.ga_game al)) (Games.gp_guestSessionId (Games.ga_players al).2).

Lemma mapAllocation_seated db game al :
  keyed db -> (exists gid, games db !! gid = Some game) ->
  Games.mapAllocation (Games.loadAllocation db game) = Ok al -> al_seated db al.
Proof.
  intros Hk [gid Hg] (Hid & _ & Hps)%Settlement.mapAllocation_inv. cbn [fst snd] in *.
  assert (forall g, g ∈ map (fun q => p_guestSessionId q.1)
                      (Games.withGuests db (gamePlayers db (g_id game))) ->
            seated db (g_id game) g) as Hseat.
  { intros g (q & -> & (p & Hp & Hq)%list_elem_of_omap)%list_elem_of_fmap. split.
    - rewrite (Hk _ _ Hg) in *. eauto.
    - apply list_elem_of_fmap. exists p. split; [|done].
      destruct (guests db !! _); [|done]. by injection Hq as <-. }
  unfold al_seated. rewrite Hid. unfold Games.loadAllocation in Hps. simpl in Hps.
  split; apply Hseat; rewrite Hps; set_solver.
Qed.

Lemma findByMatchId_seated db m al :
  keyed db -> Games.findByMatchId db m = Ok (Some al) -> al_seated db al.
Proof.
  unfold Games.findByMatchId. intros Hk. destruct (findByMatch db m) as [game|] eqn:E; [|done].
  apply Games.findByMatch_Some in E as [_ Hg].
  destruct (Games.mapAllocation _) as [al'|] eqn:Ea; [|done]. simpl. intros [= <-].
  by eapply mapAllocation_seated.
Qed.

Lemma findById_seated db gid al :
  keyed db -> Games.findById db gid = Ok (Some al) -> al_seated db al.
Proof.
  unfold Games.findById. intros Hk. destruct (games db !! gid) as [game|] eqn:E; [|done].
  destruct (Games.mapAllocation _) as [al'|] eqn:Ea; [|done]. simpl. intros [= <-].
  eapply mapAllocation_seated; eauto.
Qed.

Lemma findSnapshot_seated env db gid sn :
  keyed db -> Games.findSnapshot env db gid = Ok (Some sn) -> al_seated db (Games.gsn_allocation sn).
Proof.
  unfold Games.findSnapshot, Games.mapSnapshot. intros Hk.
  destruct (games db !! gid) as [game|] eqn:E; [|done].
  destruct (Games.mapAllocation _) as [al'|] eqn:Ea; [|done].
  simpl. destruct (Games.mapM _ _); [|done]. simpl. intros [= <-].
  eapply mapAllocation_seated; eauto.
Qed.

Lemma findById_id db gid al :
  keyed db -> Games.findById db gid = Ok (Some al) -> Games.gr_id (Games.ga_game al) = gid.
Proof.
  unfold Games.findById. intros Hk. destruct (games db !! gid) as [game|] eqn:E; [|done].
  destruct (Games.mapAllocation _) as [al'|] eqn:Ea; [|done]. simpl. intros [= <-].
  apply Settlement.mapAllocation_inv in Ea as (Ei & _). etrans; [exact Ei|]. by apply (Hk _ _ E).
Qed.

Lemma findSnapshot_id env db gid sn :
  keyed db -> Games.findSnapshot env db gid = Ok (Some sn) ->
  Games.gr_id (Games.ga_game (Games.gsn_allocation sn)) = gid.
Proof.
  unfold Games.findSnapshot, Games.mapSnapshot. intros Hk.
  destruct (games db !! gid) as [game|] eqn:E; [|done].
  destruct (Games.mapAllocation _) as [al'|] eqn:Ea; [|done].
  simpl. destruct (Games.mapM _ _); [|done]. simpl. intros [= <-].
  apply Settlement.mapAllocation_inv in Ea as (Ei & _). etrans; [exact Ei|]. by apply (Hk _ _ E).
Qed.

Lemma mapM_Forall {A B} (f : A -> result exn B) (P : B -> Prop) l l' :
  (forall x y, x ∈ l -> f x = Ok y -> P y) -> Games.mapM f l = Ok l' -> Forall P l'.
Proof.
  intros HP. revert l'. induction l as [|x l IH]; simpl; intros l'; [by intros [= <-]|].
  destruct (f x) as [y|] eqn:Ef; [|done]. simpl.
  destruct (Games.mapM f l) as [ys|] eqn:El; [|done]. simpl. intros [= <-].
  constructor; [by eapply HP; [left|]|]. apply IH; [|done]. intros z z' Hz. apply HP. by right.
Qed.

Lemma findActiveAllocations_seated db limit cursor als :
  keyed db -> Games.findActiveAllocations db limit cursor = Ok als -> Forall (al_seated db) als.
Proof.
  intros Hk. apply mapM_Forall. intros game al Hg. apply mapAllocation_seated; [done|].
  unfold Games.activePage in Hg. apply elem_of_take in Hg as (i & Hi & _).
  apply list_elem_of_lookup_2 in Hi. rewrite orderBy_perm in Hi.
  apply list_elem_of_filter in Hi as [_ Hi].
  apply list_elem_of_fmap in Hi as (kv & E & Hin). exists kv.1.
  apply elem_of_map_to_list. by destruct kv; simpl in *; subst.
Qed.

Lemma eligibility_seated db g t gid :
  wf db -> Games.ge_activeGameId (Games.getGuestMatchEligibility db g t) = Some gid ->
  seated db gid g.
Proof.
  intros Hwf. unfold Games.getGuestMatchEligibility. destruct (guests db !! g); [|done].
  simpl. intros Ha. destruct (wf_assigned _ Hwf _ _ Ha) as [row Hrow]. split; [by exists row|].
  exact (proj2 (proj1 (gi_assigned _ _ _ _ (wf_games _ Hwf _ _ Hrow) g) Ha)).
Qed.

(** ** Rules for programs *)

Lemma triple_seq {A B} P (p : Prog A) (f : A -> Prog B) Q :
  persists P -> triple P p anything -> (forall a, triple P (f a) Q) -> triple P (p ≫= f) Q.
Proof.
  intros HP Hp Hf. eapply triple_bind; [done|exact Hp|]. intros a.
  apply (triple_mono P _ _ Q Q); [tauto|done|apply Hf].
Qed.

Lemma triple_any {A} P (p : Prog A) Q : triple P p Q -> triple P p anything.
Proof. by apply triple_mono. Qed.

Lemma triple_weaken {A} P P' (p : Prog A) Q : (forall w, P' w -> P w) -> triple P p Q -> triple P' p Q.
Proof. intros HP. by apply triple_mono. Qed.


Lemma persists_Forall {A} (P : A -> World -> Prop) l :
  (forall a, persists (P a)) -> persists (fun w => Forall (fun a => P a w) l).
Proof. intros HP w w' Hw Hs. eapply Forall_impl; [exact Hw|]. intros a Ha. exact (HP a w w' Ha Hs). Qed.

Lemma persists_al_seated al : persists (fun w => al_seated (w_db w) al).
Proof. apply persists_and; apply persists_seated. Qed.

Lemma persists_durable g d : persists (fun w => durable_ok (w_db w) g d).
Proof. intros w w' Hd Hs gid Hgid. by apply Hs, Hd. Qed.

(** An action [act] that is [orThrow] of a script that keeps the invariant. *)
Lemma script_triple {A} P error (schema : parser (option A)) (script : lua json)
    (act : Ext -> World -> result fault A * World) :
  (forall x w, act x w = orThrow error (execute schema (fun _ => script) x w)) ->
  persists P -> kept P script ->
  triple P (perform act) (fun a _ => exists j, schema j = Some (Some a)).
Proof.
  intros Hact HP Hs. apply triple_redis; [done| |].
  - intros w x Hw Hw' _. pose proof (kept_ok P script w Hs Hw Hw') as Hr. rewrite Hact. simpl.
    edestruct (execute_ran schema (fun _ => script) x w) as [-> | ->]; eauto.
  - intros w x a. rewrite Hact. simpl. destruct (execute _ _ _ _).1 as [[a'|]|e] eqn:E; try done.
    intros [= <-]. by eapply execute_Ok.
Qed.
End Triples.

Create HintDb persists.

Ltac persist :=
  cbv beta;
  first [ assumption | exact persists_always | apply persists_al_seated
        | solve [auto with persists] | apply persists_durable | apply persists_seated
        | apply persists_const | apply persists_and; persist
        | apply persists_all; intros ?; persist | apply persists_imp; intros ?; persist
        | apply persists_Forall; intros ?; persist ].

(** One step of a program: what [t] says of its first part is known of the rest. *)
Ltac prog_bind t := eapply triple_bind; [persist|t|intros ?; cbn beta].
Ltac prog_seq t := eapply triple_seq; [persist|t|intros ?].
Ltac prog_ret := apply triple_ret; try done.
End Triples.
