(* ===== verification/CacheMatchmaking.v ===== *)
(** * What matchmaking keeps of the shared state

    Every program of [Matchmaking] and [Allocation] keeps the invariant of
    [CacheInvariant]. What a program passes on to its scripts is known to be right:
    a reservation has been parsed, an allocation is a game of the database, and a
    guest's active game is one it plays. *)

From S2P Require Export CacheTriples.
Local Open Scope string_scope.
Local Open Scope list_scope.
Local Open Scope Z_scope.

Module MatchmakingSafety.
Import Scripts Cache Triples.

Section Programs.
Context `{Zod} `{ZodUuid} `{ChessJs} `{!ChessJsLaws} `{Prisma} `{RedisLaws} `{JsonText}.
Context `{LifecycleDelivery} (config : AppConfig).

Notation anything := (fun _ _ => True).
Notation always := (fun _ => True).

(** ** Allocation *)

(** [new Chess(DEFAULT_POSITION)] is at that position, with White to move. *)
Definition start_law : Prop :=
  exists chess, newChess DEFAULT_POSITION = Some chess /\
    chess_fen chess = DEFAULT_POSITION /\ chess_turn chess = w.

Lemma newGame_start initial :
  start_law -> newGame = Ok initial ->
  exists chess, replayHistory (rp_fen initial) [] = Ok chess /\
    chess_fen chess = rp_fen initial /\ chess_turn chess = w.
Proof.
  intros (c & Hc & Hf & Ht). unfold newGame, replay.
  destruct (replayHistory DEFAULT_POSITION []) as [c'|] eqn:E; [|done]. simpl. intros [= <-].
  assert (c' = c) as ->.
  { unfold replayHistory, createPosition in E. rewrite Hc in E.
    destruct (validateFen _); simpl in E; [by injection E|done]. }
  exists c. simpl. rewrite Hf. by split_and!.
Qed.

Lemma z_nonnegative_Some j n : z_int_nonnegative j = Some n -> 0 <= n <= MAX_SAFE_INTEGER.
Proof.
  destruct j as [| |m| | |]; try done. simpl. destruct (_ && _) eqn:E; [|done].
  js_bool. intros [= <-]. lia.
Qed.

Lemma reservationSchema_ok j rv : reservationSchema j = Some rv -> reservation_ok rv.
Proof.
  unfold reservationSchema, z_object. destruct j as [| | | | |fields]; try done.
  destruct (forallb _ _); [|done].
  intros (g_a & E1 & (s_a & E2 & (g_b & E3 & (s_b & E4 & (t & E5 & (gid & E6 & (m & E7 &
    (mode & E8 & E)%bind_Some)%bind_Some)%bind_Some)%bind_Some)%bind_Some)%bind_Some)%bind_Some)%bind_Some.
  injection E as <-.
  apply (z_field_Some _ _ _ _ _ (z_string_where_valid _)) in E1, E3, E6, E7, E8.
  apply (z_field_Some _ _ _ _ _ z_nonnegative_Some) in E2, E4, E5.
  apply bool_decide_eq_true in E8. unfold reservation_ok. simpl. naive_solver.
Qed.

Lemma matchResponseSchema_ok j at_ rv :
  matchResponseSchema j = Some (Some at_) -> mt_reservation at_ = Some rv -> reservation_ok rv.
Proof.
  unfold matchResponseSchema, z_discriminated. destruct j as [| | | | |fields]; try done.
  destruct (property fields "status") as [[| | |s| |]|]; try done.
  cbn [List.find fst]. unfold z_object at 2. unfold errorSchema, z_object.
  case_bool_decide; cbn [snd].
  { destruct (forallb _ _); [|done]. by intros (? & _ & (? & _ & [=])%bind_Some)%bind_Some. }
  case_bool_decide; cbn [snd].
  { destruct (forallb _ _); [|done].
    by intros (? & _ & (? & _ & [= <-])%bind_Some)%bind_Some [=]. }
  case_bool_decide; cbn [snd]; [|done]. destruct (forallb _ _); [|done].
  intros (ds & _ & (rv' & Hrv & (? & _ & [= <-])%bind_Some)%bind_Some)%bind_Some [= ->].
  by apply (z_field_Some _ _ _ _ _ reservationSchema_ok) in Hrv.
Qed.

(** ** Matchmaking *)
Import Matchmaking.

Context (start : start_law).

(** What an allocation is known to be for a reservation. *)
Definition allocated_for (rv : MatchReservation) (al : Games.GameAllocation) (w : World) : Prop :=
  al_seated (w_db w) al /\ Matchmaking.matchesReservation al rv = true.

Lemma persists_allocated_for rv al : persists (allocated_for rv al).
Proof. apply persists_and; [apply persists_al_seated|apply persists_const]. Qed.
#[local] Hint Resolve persists_allocated_for : persists.

Lemma matchesReservation_seated db rv al :
  al_seated db al -> Matchmaking.matchesReservation al rv = true ->
  seated db (rv_gameId rv) (rv_a rv) /\ seated db (rv_gameId rv) (rv_b rv).
Proof.
  intros [Hs1 Hs2]. unfold Matchmaking.matchesReservation. intros Hm. js_bool.
  match goal with E : orderBy _ _ = orderBy _ _ |- _ => rename E into Es end.
  match goal with E : Games.gr_id _ = _ |- _ => rewrite E in * end.
  assert (forall g, g ∈ [rv_a rv; rv_b rv] -> seated db (rv_gameId rv) g) as Hg.
  { intros g Hg. rewrite <- (orderBy_perm String.leb), <- Es, orderBy_perm in Hg.
    apply elem_of_cons in Hg as [->|Hg]; [done|]. by apply list_elem_of_singleton in Hg as ->. }
  split; apply Hg; set_solver.
Qed.

Lemma allocate_Ok env rv t coin initial db al db' :
  Games.owned db -> keyed db' ->
  Games.allocate env (Allocation.allocateInput config rv t coin initial) db = (Ok al, db') ->
  al_seated db' al /\ Matchmaking.matchesReservation al rv = true.
Proof.
  intros Ho Hk Ha. destruct (decide (rv_a rv = rv_b rv)) as [E|Hne].
  - unfold Games.allocate in Ha. rewrite bool_decide_eq_true_2 in Ha; [done|].
    simpl. destruct coin; congruence.
  - apply Settlement.allocate_found in Ha as [Hf Hm]; [|done..]. split; [|done].
    by eapply findByMatchId_seated.
Qed.

Lemma allocate_keeps P rv t :
  persists P -> triple P (Allocation.allocate config rv t) (allocated_for rv).
Proof.
  intros HP. unfold Allocation.allocate. destruct newGame as [initial|] eqn:En; [|apply triple_throw].
  apply (triple_operation _ (fun x => OpAllocate (Allocation.allocateInput config rv t (x_coin x) initial)));
    [done|done| |].
  - intros w x _ (Hne & Hnew & _). 
    do 3 (split; [simpl; done || lia|]). split; [by apply newGame_start|done].
  - intros w x al db' [Hwf _] _ Ha Hwf'. eapply allocate_Ok; [| |exact Ha]; apply wf_owned || apply wf_keyed; done.
Qed.

(** The scripts, as actions. *)
Lemma finalize_triple P rv :
  persists P -> (forall w, P w -> seated (w_db w) (rv_gameId rv) (rv_a rv) /\
                                  seated (w_db w) (rv_gameId rv) (rv_b rv)) ->
  triple P (perform (finalize config rv)) anything.
Proof.
  intros HP Hs. apply triple_redis; [done| |done]. intros w x Hw Hw' _.
  unfold finalize. set (script := fun _ : Ext => finalize_lua _ _ _ _ _ _ _ _ _ _ _ _).
  change (let w' := (execute finalizeResponseSchema script x w).2 in
          w' = w \/ exists r', w' = mkWorld (w_db w) r' /\ cache_ok (w_db w) r').
  destruct (execute_ran finalizeResponseSchema script x w) as [E|E]; rewrite E; [by left|].
  right. eexists. split; [reflexivity|]. apply (kept_ok P (script x)); [|done..].
  intros w0 [Ha Hb]%Hs. unfold script. apply finalize_keeps; [exact Ha|exact Hb].
Qed.

Lemma repairCommitted_triple P mode gid g_a g_b :
  persists P -> (forall w, P w -> seated (w_db w) gid g_a /\ seated (w_db w) gid g_b) ->
  triple P (perform (repairCommitted config mode gid g_a g_b)) anything.
Proof.
  intros HP Hs. eapply triple_any, script_triple; [by intros|done|].
  intros w [Ha Hb]%Hs. by apply repairCommitted_keeps.
Qed.

Lemma rollback_triple P rv d_a d_b t :
  persists P -> reservation_ok rv ->
  (forall w, P w -> durable_ok (w_db w) (rv_a rv) d_a /\ durable_ok (w_db w) (rv_b rv) d_b) ->
  triple P (perform (rollback config rv d_a d_b t)) anything.
Proof.
  intros HP (Ua & Ub & _ & _ & _ & Na & Nb & _) Hs.
  eapply triple_any, script_triple; [by intros|done|].
  intros w [Ha Hb]%Hs. by apply rollback_keeps.
Qed.

(** The eligibility of a guest names a game it plays. *)
Definition eligible_ok (g : string) (e : Games.GuestMatchEligibility) (w : World) : Prop :=
  durable_ok (w_db w) g (durableOf e).

Lemma eligibility_triple P g t :
  persists P -> triple P (Allocation.eligibility g t) (eligible_ok g).
Proof.
  intros HP. apply triple_query; [done|]. intros w x e [Hwf _] _ [= <-] gid Hgid.
  by apply (eligibility_seated _ _ t).
Qed.

Lemma findByMatchId_triple P m :
  persists P ->
  triple P (Allocation.findByMatchId m)
    (fun found w => forall al, found = Some al -> al_seated (w_db w) al).
Proof.
  intros HP. apply triple_query; [done|]. intros w x found [Hwf _] _ Hf al ->.
  by eapply findByMatchId_seated; [apply wf_keyed|].
Qed.

Lemma listActive_triple P limit cursor :
  persists P ->
  triple P (Allocation.listActive limit cursor) (fun als w => Forall (al_seated (w_db w)) als).
Proof.
  intros HP. apply triple_query; [done|]. intros w x als [Hwf _] _.
  by apply findActiveAllocations_seated, wf_keyed.
Qed.

Lemma queueSize_triple P mode : persists P -> triple P (queueSize mode) anything.
Proof.
  intros HP. unfold queueSize, orUnavailable. apply triple_catch; [done| |].
  - apply triple_command; [done|]. intros x w Hw. by apply keeps_ask.
  - intros e. destruct e; apply triple_throw.
Qed.

Lemma refreshQueueDepth_triple P mode : persists P -> triple P (refreshQueueDepth mode) anything.
Proof.
  intros HP. unfold refreshQueueDepth. apply triple_catch; [done| |intros e; prog_ret].
  prog_seq ltac:(by apply queueSize_triple). prog_ret.
Qed.

(** The games that are announced were allocated for their players. *)
Definition effects_seated (effects : MatchmakingEffects) (w : World) : Prop :=
  Forall (al_seated (w_db w)) (me_allocations effects).

Lemma persists_effects effects : persists (effects_seated effects).
Proof. apply persists_Forall. intros al. apply persists_al_seated. Qed.

Lemma merge_seated effects effects' w :
  effects_seated effects w -> effects_seated effects' w -> effects_seated (mergeEffects effects effects') w.
Proof. apply Forall_app_2. Qed.

#[local] Hint Resolve persists_effects : persists.

Lemma finalizeCommitted_triple P rv al :
  persists P -> (forall w, P w -> allocated_for rv al w) ->
  triple P (finalizeCommitted config rv al) anything.
Proof.
  intros HP Hal. unfold finalizeCommitted. apply triple_catch; [done| |].
  - prog_seq ltac:(apply finalize_triple; [done|]); [|prog_ret].
    intros w [Hs Hm]%Hal. by apply (matchesReservation_seated _ _ al).
  - intros e. destruct e; try apply triple_throw.
    match goal with code : MatchmakingErrorCode |- _ => destruct code end; try apply triple_throw; [prog_ret|].
    destruct (Games.ga_players al) as [p_a p_b] eqn:Ep.
    prog_seq ltac:(apply repairCommitted_triple; [done|]); [|prog_ret].
    intros w [[Ha Hb] _]%Hal. by rewrite Ep in Ha, Hb.
Qed.

Lemma recover_triple P rv t :
  persists P -> reservation_ok rv ->
  triple P (recoverAfterAllocationFailure config rv t)
    (fun e w => forall effects, e = Some effects -> effects_seated effects w).
Proof.
  intros HP Hrv. unfold recoverAfterAllocationFailure.
  eapply (triple_bind _ _ _ (fun found w => forall al e_a e_b, found = Some (al, (e_a, e_b)) ->
    (forall a, al = Some a -> al_seated (w_db w) a) /\
    eligible_ok (rv_a rv) e_a w /\ eligible_ok (rv_b rv) e_b w)); [persist| |].
  - apply triple_catch; [persist| |intros e; prog_ret].
    prog_bind ltac:(apply triple_both; [persist|apply findByMatchId_triple; persist|
      apply triple_both; [persist|apply eligibility_triple; persist..|intros ?; persist]|
      intros ?; persist]).
    apply triple_ret. intros w (_ & H1' & H2' & H3') al e_a e_b [= ->]. by split_and!.
  - intros [[existing [e_a e_b]]|]; [|prog_ret]. cbv beta.
    assert (triple (fun w => P w /\ (forall al e_a' e_b',
        Some (existing, (e_a, e_b)) = Some (al, (e_a', e_b')) ->
        (forall a, al = Some a -> al_seated (w_db w) a) /\
        eligible_ok (rv_a rv) e_a' w /\ eligible_ok (rv_b rv) e_b' w))
      (requeued ← perform (rollback config rv (durableOf e_a) (durableOf e_b) t);
       mret (Some (mkEffects [] requeued [])))
      (fun e w => forall effects, e = Some effects -> effects_seated effects w)) as Hback.
    { prog_seq ltac:(apply rollback_triple; [persist|done|]).
      - intros w [_ Hw]. by apply (Hw existing).
      - apply triple_ret. intros w _ effects [= <-]. constructor. }
    destruct existing as [al|]; [|done]. destruct (Matchmaking.matchesReservation al rv) eqn:Em; [|done].
    prog_seq ltac:(apply finalizeCommitted_triple; [persist|]).
    + intros w [_ Hw]. split; [|done]. by eapply Hw.
    + apply triple_ret. intros w [_ Hw] effects [= <-]. apply Forall_singleton. by eapply Hw.
Qed.

Lemma processReservation_triple P rv t :
  persists P -> reservation_ok rv -> triple P (processReservation config rv t) effects_seated.
Proof.
  intros HP Hrv. unfold processReservation. apply triple_catch; [done| |intros e].
  - prog_bind ltac:(by apply allocate_keeps).
    prog_seq ltac:(apply finalizeCommitted_triple; [persist|by intros ? []]).
    apply triple_ret. intros w [_ [Hs _]]. by apply Forall_singleton.
  - prog_bind ltac:(by apply recover_triple).
    match goal with |- triple _ (match ?r with _ => _ end) _ => destruct r end;
      [|apply triple_throw]. apply triple_ret. intros w [_ Hw]. by apply Hw.
Qed.

Lemma attemptMatch_triple P t :
  persists P -> time_ok t -> triple P (attemptMatch config "blitz" t) effects_seated.
Proof.
  intros HP Ht. unfold attemptMatch.
  eapply (triple_bind _ _ _ (fun at_ _ => forall rv, mt_reservation at_ = Some rv -> reservation_ok rv));
    [done| |].
  - apply triple_redis; [done| |].
    + intros w x [_ Hr] _ (_ & _ & U1 & U2 & _). unfold tryMatch.
      set (script := fun _ : Ext => tryMatch_lua _ _ _ _ _ _ _ _ _ _).
      cbn [orThrow snd]. destruct (execute_ran matchResponseSchema script x w) as [E|E]; rewrite E;
        [by left|]. right. eexists. split; [reflexivity|]. by apply tryMatch_keeps.
    + intros w x at_. unfold tryMatch, orThrow. cbn [fst].
      destruct (execute _ _ _ _).1 as [[a|]|e] eqn:E; try done. intros [= <-] rv.
      apply execute_Ok in E as [j Ej]. by apply (matchResponseSchema_ok j).
  - intros at_. unfold effectsFromAttempt. destruct (mt_reservation at_) as [rv|] eqn:Erv.
    2: { apply triple_ret. constructor. }
    apply triple_pure. intros Hrv.
    prog_bind ltac:(apply processReservation_triple; [done|by apply Hrv]).
    apply triple_ret. by intros w [_ Hw].
Qed.

Lemma leave_triple P guest mode :
  persists P -> triple P (perform (Scripts.leave config guest mode)) anything.
Proof.
  intros HP. eapply triple_any, (triple_execute P); [done|]. intros w x Hw Hw' _.
  apply (kept_ok P (leave_lua _ _ _ _ _)); [|done..]. intros w0 _. apply leave_keeps.
Qed.

Lemma service_leave_triple P guest mode :
  persists P -> triple P (Matchmaking.leave config guest mode) anything.
Proof.
  intros HP. prog_seq ltac:(by apply leave_triple).
  prog_seq ltac:(by apply refreshQueueDepth_triple). prog_ret.
Qed.

Lemma isPresent_triple P guest t : persists P -> triple P (Presence.isPresent guest t) anything.
Proof.
  intros HP. prog_seq ltac:(apply triple_catch; [done| |intros e; apply triple_throw]); [|prog_ret].
  apply triple_command; [done|]. intros x w _. apply count_keeps.
Qed.

Lemma join_triple P guest t :
  persists P -> zod_uuid guest = true -> time_ok t ->
  triple P (Matchmaking.join config guest "blitz" t) (fun r => effects_seated r.1).
Proof.
  intros HP Hg Ht. unfold Matchmaking.join.
  prog_seq ltac:(eapply triple_any, triple_both;
    [done|by apply eligibility_triple|by apply isPresent_triple|intros ?; persist]).
  match goal with |- triple _ (let (_, _) := ?a in _) _ => destruct a as [e present] end.
  destruct (negb (isNull _)); [apply triple_throw|].
  destruct (negb (Games.ge_eligible e)); [apply triple_throw|].
  destruct (negb present); [apply triple_throw|].
  prog_seq ltac:(eapply triple_any, script_triple; [by intros|done|]).
  { intros w _. by apply enqueue_keeps. }
  prog_bind ltac:(by apply attemptMatch_triple).
  prog_seq ltac:(apply refreshQueueDepth_triple; persist). apply triple_ret. by intros w [_ Hw].
Qed.

Lemma drainPairs_triple P t pairs effects :
  persists P -> time_ok t -> (forall w, P w -> effects_seated effects w) ->
  triple P (drainPairs config "blitz" t pairs effects) effects_seated.
Proof.
  intros HP Ht. revert P HP effects. induction pairs as [|pairs IH]; intros P HP effects He;
    cbn [drainPairs]; [by apply triple_ret|].
  prog_bind ltac:(by apply attemptMatch_triple). cbv zeta.
  match goal with |- triple (fun w => _ /\ effects_seated ?c w) _ _ => set (cycle := c) in * end.
  assert (forall w, P w /\ effects_seated cycle w -> effects_seated (mergeEffects effects cycle) w) as Hm
    by (intros w [Hw Hc]; apply merge_seated; auto).
  destruct (me_allocations cycle); [by apply triple_ret|apply IH; [persist|exact Hm]].
Qed.

Lemma drain_triple P t :
  persists P -> time_ok t -> triple P (drain config "blitz" t) effects_seated.
Proof.
  intros HP Ht. unfold drain. prog_seq ltac:(by apply queueSize_triple).
  destruct (_ <? 2).
  - prog_seq ltac:(by apply refreshQueueDepth_triple). apply triple_ret. constructor.
  - prog_bind ltac:(apply drainPairs_triple; [done|done|constructor]).
    prog_seq ltac:(apply refreshQueueDepth_triple; persist). apply triple_ret. by intros w [_ Hw].
Qed.

Lemma sweep_triple P mode t :
  persists P -> triple P (Matchmaking.sweep config mode t) effects_seated.
Proof.
  intros HP. unfold Matchmaking.sweep. prog_seq ltac:(eapply triple_any, (triple_execute P); [done|]).
  { intros w x Hw Hw' _. apply (kept_ok P (sweep_lua _ _ _ _ _ _)); [|done..].
    intros w0 _. apply sweep_keeps. }
  prog_seq ltac:(by apply refreshQueueDepth_triple). apply triple_ret. constructor.
Qed.

Lemma readPage_triple P limit keys found :
  persists P -> Forall reservation_ok found ->
  triple P (readPage limit keys found) (fun r _ => Forall reservation_ok r.1).
Proof.
  intros HP. revert found. induction keys as [|key keys IH]; intros found Hf; cbn [readPage].
  { by apply triple_ret. }
  prog_seq ltac:(apply triple_command; [done|]; intros x w _; by apply keeps_ask).
  case_decide; [by apply IH|].
  match goal with |- triple _ (match ?r with _ => _ end) _ => destruct r as [rv|] eqn:Erv end;
    [|apply triple_throw].
  assert (Forall reservation_ok (found ++ [rv])) as Hf'
    by (apply Forall_app; split; [done|]; by apply Forall_singleton, (reservationSchema_ok _ _ Erv)).
  cbv zeta. case_decide; [by apply triple_ret|by apply IH].
Qed.

Lemma listReservations_triple P limit pages :
  persists P -> triple P (listReservations limit pages) (fun rvs _ => Forall reservation_ok rvs).
Proof.
  intros HP. unfold listReservations, orUnavailable. apply triple_catch; [done| |].
  - assert (Forall reservation_ok []) as Hf by constructor. revert Hf.
    generalize (@nil MatchReservation) as found.
    induction pages as [|keys pages IH]; intros found Hf; cbn [scanReservations];
      [by apply triple_ret|].
    prog_seq ltac:(apply triple_command; [done|]; intros x w _; by apply keeps_ask).
    prog_bind ltac:(by apply readPage_triple).
    match goal with |- triple _ (let (_, _) := ?r in _) _ => destruct r as [found' full] end.
    apply triple_pure. intros Hf'. cbn [fst] in Hf'.
    destruct full; [by apply (triple_ret P)|by apply IH].
  - intros e. destruct e; apply triple_throw.
Qed.

Lemma processAll_triple P rvs t effects handled :
  persists P -> Forall reservation_ok rvs -> (forall w, P w -> effects_seated effects w) ->
  triple P (processAll config rvs t effects handled) (fun r => effects_seated r.1).
Proof.
  intros HP Hrvs. revert P HP effects handled.
  induction Hrvs as [|rv rvs Hrv _ IH]; intros P HP effects handled He; cbn [processAll];
    [by apply triple_ret|].
  prog_bind ltac:(by apply processReservation_triple).
  apply IH; [persist|]. intros w [Hw Hc]. apply merge_seated; auto.
Qed.

Lemma repairAll_triple P active effects handled :
  persists P -> (forall w, P w -> Forall (al_seated (w_db w)) active) ->
  (forall w, P w -> effects_seated effects w) ->
  triple P (repairAll config active effects handled) effects_seated.
Proof.
  intros HP. revert effects handled.
  induction active as [|al active IH]; intros effects handled Hal He; cbn [repairAll];
    [by apply triple_ret|].
  assert (forall w, P w -> al_seated (w_db w) al /\ Forall (al_seated (w_db w)) active) as Hrest
    by (intros w Hw; by apply Forall_cons, Hal).
  cbv zeta. case_bool_decide; [apply IH; [by intros w Hw; apply Hrest|done]|].
  destruct (Games.ga_players al) as [p_a p_b] eqn:Ep.
  prog_seq ltac:(apply repairCommitted_triple; [done|]).
  { intros w Hw. destruct (Hrest w Hw) as [[Ha Hb] _]. by rewrite Ep in Ha, Hb. }
  apply IH; [by intros w Hw; apply Hrest|]. intros w Hw. case_match; [|auto].
  apply merge_seated; [auto|]. apply Forall_singleton. by apply Hrest.
Qed.

Lemma reconcile_triple P pages t :
  persists P -> triple P (reconcile config pages t) effects_seated.
Proof.
  intros HP. unfold reconcile. prog_bind ltac:(by apply listReservations_triple).
  apply triple_pure. intros Hrvs. prog_bind ltac:(apply processAll_triple; [done|done|constructor]).
  match goal with |- triple _ (let (_, _) := ?r in _) _ => destruct r as [effects handled] end.
  prog_bind ltac:(apply listActive_triple; persist). apply repairAll_triple; [persist|by intros w []|].
  by intros w [[_ He] _].
Qed.
End Programs.
End MatchmakingSafety.
