(* ===== verification/CacheGames.v ===== *)
(** * What the game services keep of the shared state

    Every program of [Ephemeral], [Services], [Reconciliation] and [Presence] keeps
    the invariant of [CacheInvariant]: a pointer to a game is written only for a
    player of that game. *)

From S2P Require Export CacheMatchmaking.
Local Open Scope string_scope.
Local Open Scope list_scope.
Local Open Scope Z_scope.

Module GamesSafety.
Import Scripts Cache Triples MatchmakingSafety Ephemeral Services.

Section Programs.
Context `{Zod} `{ZodUuid} `{ChessJs} `{!ChessJsLaws} `{Prisma} `{RedisLaws} `{JsonText}.
Context `{LifecycleDelivery} (config : AppConfig).

Notation anything := (fun _ _ => True).
Notation always := (fun _ => True).

(** ** Presence *)

Lemma presence_triple {A} P (script : lua A) :
  persists P -> kept P script ->
  triple P (Presence.orRealtimeUnavailable (command (fun _ => script))) anything.
Proof.
  intros HP Hs. apply triple_catch; [done| |intros e; apply triple_throw].
  apply triple_command; [done|]. by intros _.
Qed.

Lemma refresh_triple P guest socket t :
  persists P -> triple P (Presence.refresh config guest socket t) anything.
Proof. intros HP. apply presence_triple; [done|]. intros w _. apply refresh_keeps. Qed.

Lemma remove_triple P guest socket t :
  persists P -> triple P (Presence.remove guest socket t) anything.
Proof. intros HP. apply presence_triple; [done|]. intros w _. apply remove_keeps. Qed.

(** ** The ephemeral state *)

Lemma read_triple {A} P (f : Keyspace -> A) :
  persists P -> triple P (command (fun _ => ask f)) anything.
Proof. intros HP. apply triple_command; [done|]. intros _ w _. by apply keeps_ask. Qed.

Lemma clock_triple P : persists P -> triple P clock anything.
Proof. intros HP. by apply triple_look. Qed.

Lemma ensureConnected_triple P : persists P -> triple P ensureConnected anything.
Proof. intros HP. by apply triple_look. Qed.

Lemma all_ok_triple {A} P (results : list (result fault A)) :
  persists P -> triple P (all_ok results) anything.
Proof.
  intros HP. induction results as [|[a|e] results IH]; cbn [all_ok];
    [prog_ret| |apply triple_throw].
  prog_seq ltac:(apply IH). prog_ret.
Qed.

Lemma clearActiveGame_triple P guest gid :
  persists P -> triple P (clearActiveGame config guest gid) anything.
Proof.
  intros HP. apply triple_catch; [done| |intros e; prog_ret].
  prog_seq ltac:(apply triple_command; [done|]); [|prog_ret].
  intros _ w _. apply clearActiveGame_keeps.
Qed.

Lemma readActiveGame_triple P guest : persists P -> triple P (readActiveGame guest) anything.
Proof.
  intros HP. apply triple_catch; [done| |intros e; prog_ret].
  prog_seq ltac:(by apply read_triple). prog_ret.
Qed.

Lemma readSnapshot_triple P gid guest : persists P -> triple P (readSnapshot gid guest) anything.
Proof.
  intros HP. apply triple_catch; [done| |intros e; prog_ret].
  prog_seq ltac:(by apply read_triple). repeat case_match; prog_ret.
Qed.

Lemma kept_point_to P gid guest :
  (forall w, P w -> seated (w_db w) gid guest) -> Forall (kept P) (point_to config gid guest).
Proof.
  intros Hs. unfold point_to. constructor; [|constructor; [|constructor]]; intros w Hw.
  - apply (keeps_SET _ _ (KActive guest)). by apply Hs.
  - apply (keeps_SET _ _ (KState guest)). simpl. set_solver.
Qed.

Lemma restoreActiveGame_triple P gid guest :
  persists P -> (forall w, P w -> seated (w_db w) gid guest) ->
  triple P (restoreActiveGame config gid guest) anything.
Proof.
  intros HP Hs. apply triple_catch; [done| |intros e; prog_ret].
  prog_seq ltac:(by apply ensureConnected_triple).
  prog_seq ltac:(by apply triple_pipeline, kept_point_to).
  prog_seq ltac:(by apply all_ok_triple). prog_ret.
Qed.

Lemma inspectAllocation_triple P al : persists P -> triple P (inspectAllocation al) anything.
Proof.
  intros HP. apply triple_catch; [done| |intros e; prog_ret].
  prog_seq ltac:(by apply ensureConnected_triple).
  prog_seq ltac:(apply triple_pipeline; [done|]).
  { assert (forall (f : string -> Keyspace -> Inspected) l,
      Forall (kept P) (map (fun g => ask (f g)) l)) as Hask.
    { intros f l. apply Forall_forall. intros c (g & -> & _)%list_elem_of_fmap w _.
      by apply keeps_ask. }
    unfold inspection. rewrite !Forall_app. split_and!; try apply Hask.
    apply Forall_singleton. intros w _. by apply keeps_ask. }
  prog_seq ltac:(by apply all_ok_triple). prog_seq ltac:(by apply clock_triple). prog_ret.
Qed.

Lemma forget_triple P keys : persists P -> triple P (forget keys) anything.
Proof.
  intros HP. apply triple_catch; [done| |intros e; prog_ret]. apply triple_command; [done|].
  intros _ w _. induction keys as [|k keys IH]; simpl; [by apply keeps_ret|].
  by eapply keeps_bind; [apply keeps_DEL|].
Qed.

Lemma kept_SET {P k v px} :
  (forall w, P w -> may_SET (w_db w) k v) -> kept P (call (SET (name k) v px)).
Proof. intros Hv w Hw. by apply keeps_SET, Hv. Qed.

Lemma kept_DEL P key : kept P (call (DEL key)).
Proof. intros w _. apply keeps_DEL. Qed.

Lemma clear_all_triple P gid guests :
  persists P -> triple P (mapAll (fun guest => clearActiveGame config guest gid) guests) anything.
Proof.
  intros HP. eapply triple_any, (triple_mapAll P _ (fun _ => True)); [done|].
  intros guest _. by apply clearActiveGame_triple.
Qed.

Lemma grace_command_triple P gid player :
  persists P -> triple P (grace_command gid player) (fun c _ => kept P c).
Proof.
  intros HP. unfold grace_command.
  destruct (Games.gp_reconnectGraceEndsAt player) as [t|]; [|apply triple_ret; intros; apply kept_DEL].
  prog_seq ltac:(by apply clock_triple). destruct (_ <? t).
  - prog_seq ltac:(by apply clock_triple). apply triple_ret. intros w _.
    by apply (kept_SET (k := KGrace gid (Games.gp_guestSessionId player))).
  - apply triple_ret. intros; apply kept_DEL.
Qed.

(** The players of a view are players of its game. *)
Definition view_seated (view : GameSnapshotView) (w : World) : Prop :=
  al_seated (w_db w) (Games.gsn_allocation (sv_snapshot view)).

Lemma kept_point_all P view :
  (forall w, P w -> view_seated view w) ->
  Forall (kept P) (concat (map (point_to config (Games.gr_id (sv_game view)))
                             (map Games.gp_guestSessionId (sv_players view)))).
Proof.
  intros Hv. unfold sv_players. cbn [map concat]. rewrite app_nil_r.
  apply Forall_app. split; apply kept_point_to; intros w Hw; by apply Hv.
Qed.

Lemma restoreSnapshot_triple P view :
  persists P -> (forall w, P w -> view_seated view w) ->
  triple P (restoreSnapshot config view) anything.
Proof.
  intros HP Hv. apply triple_catch; [done| |intros e; prog_ret].
  prog_seq ltac:(by apply ensureConnected_triple).
  prog_seq ltac:(by apply triple_lift). cbv beta.
  eapply triple_bind; [done|apply (triple_mapAll P _ (kept P)); [done|]|].
  { intros player _. by apply grace_command_triple. }
  intros graces. cbv beta. apply triple_pure. intros Hg.
  prog_seq ltac:(apply triple_pipeline; [done|]).
  { apply Forall_app. split; [|apply Forall_app; split; [|done]].
    - apply Forall_singleton.
      by apply (kept_SET (k := KSnapshot (Games.gr_id (sv_game view)))).
    - destruct (is_active view); [by apply kept_point_all|constructor]. }
  prog_seq ltac:(by apply all_ok_triple).
  prog_seq ltac:(destruct (is_active view); [prog_ret|by apply clear_all_triple]). prog_ret.
Qed.

Lemma afterTerminal_triple P gid guests :
  persists P -> triple P (afterTerminal config gid guests) anything.
Proof.
  intros HP. apply triple_catch; [done| |intros e; prog_ret].
  prog_seq ltac:(by apply ensureConnected_triple).
  prog_seq ltac:(apply triple_pipeline; [done|]).
  { simpl. constructor; [apply kept_DEL|].
    constructor; [|constructor; [|constructor]]; intros w Hw;
      (eapply keeps_bind; [apply keeps_DEL|intros; apply keeps_DEL]). }
  prog_seq ltac:(by apply clear_all_triple). prog_ret.
Qed.

Lemma afterMove_triple P submission : persists P -> triple P (afterMove config submission) anything.
Proof.
  intros HP. unfold afterMove. destruct (ms_ended submission);
    [by apply afterTerminal_triple|by apply forget_triple].
Qed.

Lemma afterDisconnect_triple P gid guest t :
  persists P -> triple P (afterDisconnect gid guest t) anything.
Proof.
  intros HP. apply triple_catch; [done| |intros e; prog_ret].
  prog_seq ltac:(by apply ensureConnected_triple). prog_seq ltac:(by apply clock_triple).
  prog_seq ltac:(apply triple_send; [done|intros _]).
  { by apply (kept_SET (k := KGrace gid guest)). }
  apply triple_send; [done|]. intros _. apply kept_DEL.
Qed.

(** ** The services of games *)

Lemma operation_triple {A} P (operation : Ext -> Op) (op : Ext -> DB -> result exn A * DB) :
  persists P -> (forall x db, (op x db).2 = exec (x_env x) (operation x) db) ->
  (forall x db, op_ok (x_env x) (operation x) db) ->
  triple P (database op) anything.
Proof. intros HP Hop Hok. by apply (triple_operation P operation). Qed.

Lemma scheduleGame_triple P gid : persists P -> triple P (scheduleGame gid) anything.
Proof.
  intros HP. apply triple_catch; [done| |intros e; prog_ret].
  prog_seq ltac:(by apply triple_query). prog_ret.
Qed.

Lemma member_seated db al guest :
  al_seated db al -> is_member al guest = true -> seated db (Games.gr_id (Games.ga_game al)) guest.
Proof.
  intros [Hs1 Hs2]. unfold is_member. simpl. intros Hm.
  apply orb_true_iff in Hm as [Hm|Hm]; [|apply orb_true_iff in Hm as [Hm|Hm]; [|done]];
    apply bool_decide_eq_true in Hm; by subst.
Qed.

(** A guest is shown only games it plays. *)
Lemma snapshot_triple P gid guest :
  persists P ->
  triple P (snapshot gid guest) (fun view w => view_seated view w /\ seated (w_db w) gid guest).
Proof.
  intros HP. unfold snapshot.
  eapply (triple_bind _ _ _ (fun found w =>
    forall sn, found = Some sn -> al_seated (w_db w) (Games.gsn_allocation sn) /\
      Games.gr_id (Games.ga_game (Games.gsn_allocation sn)) = gid)); [done| |].
  - apply triple_query; [done|]. intros w x found [Hwf _] _ Hf sn ->. apply wf_keyed in Hwf.
    split; [by eapply findSnapshot_seated|by eapply findSnapshot_id].
  - intros [sn|]; [|apply triple_throw]. destruct (is_member _ _) eqn:Em; simpl; [|apply triple_throw].
    apply triple_lift. intros w view [_ Hsn]. unfold viewOf.
    destruct (clockViewAt _ _); [|done]. intros [= <-]. destruct (Hsn sn eq_refl) as [Hseat Hid].
    split; [done|]. rewrite <- Hid. by apply member_seated.
Qed.

Lemma activeSnapshot_triple P guest : persists P -> triple P (activeSnapshot guest) anything.
Proof.
  intros HP. unfold activeSnapshot. prog_seq ltac:(by apply clock_triple).
  prog_seq ltac:(by apply triple_query).
  match goal with |- triple _ (match ?o with _ => _ end) _ => destruct o end; [|apply triple_throw].
  by eapply triple_any, snapshot_triple.
Qed.

Lemma authorize_triple P gid guest :
  persists P -> triple P (authorize gid guest) (fun _ w => seated (w_db w) gid guest).
Proof.
  intros HP. unfold authorize.
  eapply (triple_bind _ _ _ (fun found w =>
    forall al, found = Some al -> al_seated (w_db w) al /\ Games.gr_id (Games.ga_game al) = gid)); [done| |].
  - apply triple_query; [done|]. intros w x found [Hwf _] _ Hf al ->. apply wf_keyed in Hwf.
    split; [by eapply findById_seated|by eapply findById_id].
  - intros [al|]; [|apply triple_throw]. destruct (is_member _ _) eqn:Em; simpl; [|apply triple_throw].
    apply triple_ret. intros w [_ Hal]. destruct (Hal al eq_refl) as [Hseat <-]. by apply member_seated.
Qed.

Lemma ready_triple P gid guest version t : persists P -> triple P (ready gid guest version t) anything.
Proof.
  intros HP. unfold ready.
  prog_seq ltac:(by apply (operation_triple P
    (fun _ => OpReady (Games.mkMarkGameReady version gid guest t)))).
  prog_seq ltac:(idtac).
  - case_bool_decide; [|prog_ret].
    prog_seq ltac:(by apply (operation_triple P (fun _ => OpStart gid))).
    match goal with |- triple _ (if ?c then _ else _) _ => destruct c end; [|prog_ret].
    prog_seq ltac:(by apply triple_lift). prog_seq ltac:(by apply forget_triple). prog_ret.
  - prog_seq ltac:(by eapply triple_any, snapshot_triple).
    prog_seq ltac:(by apply scheduleGame_triple). prog_ret.
Qed.

(** ** Whom an end is announced to *)

Definition pair_seated (db : DB) (gid : string) (guests : string * string) : Prop :=
  seated db gid guests.1 /\ seated db gid guests.2.

Definition submission_seated (s : MoveSubmission) (w : World) : Prop :=
  ms_duplicate s = false -> forall ended, ms_ended s = Some ended ->
  pair_seated (w_db w) (eg_gameId ended) (ms_guestSessionIds s).

Definition terminal_seated (s : TerminalSubmission) (w : World) : Prop :=
  ts_duplicate s = false -> pair_seated (w_db w) (eg_gameId (ts_ended s)) (ts_guestSessionIds s).

Lemma persists_pair gid guests : persists (fun w => pair_seated (w_db w) gid guests).
Proof. apply persists_and; apply persists_seated. Qed.

Lemma persists_submission s : persists (submission_seated s).
Proof. apply persists_imp; intros _. apply persists_all; intros e. apply persists_imp; intros _. apply persists_pair. Qed.

Lemma persists_terminal s : persists (terminal_seated s).
Proof. apply persists_imp; intros _. apply persists_pair. Qed.

#[local] Hint Resolve persists_pair persists_submission persists_terminal : persists.

Lemma players_seated db gid g1 g2 :
  is_Some (games db !! gid) -> map p_guestSessionId (gamePlayers db gid) = [g1; g2] ->
  pair_seated db gid (g1, g2).
Proof. intros Hg Hp. split; (split; [done|]); rewrite Hp; set_solver. Qed.

Lemma moved_seated env input db later s db' ended :
  keyed db -> Gameplay.submitMove env input db later = (Ok s, db') -> ms_duplicate s = false ->
  ms_ended s = Some ended -> pair_seated db (eg_gameId ended) (ms_guestSessionIds s).
Proof.
  intros Hk Hs Hd He. apply Gameplay.submitMove_fresh in Hs as (game & player & c & plan & Ha & -> & _); [|done..].
  pose proof (Gameplay.ad_game _ _ _ _ _ _ _ Ha) as Hg.
  destruct (Gameplay.planMove_inr _ _ _ _ _ _ _ (Gameplay.ad_plan _ _ _ _ _ _ _ Ha))
    as (el & g1 & g2 & _ & _ & _ & _ & Hp & Hsub).
  rewrite Hsub in He |- *. unfold Gameplay.submissionOf in *. simpl in *.
  destruct (Gameplay.mp_terminal plan); [|done]. injection He as <-. simpl.
  rewrite (Hk _ _ Hg). by apply players_seated; [eexists|].
Qed.

Lemma ended_seated env gid db event sub db' :
  keyed db -> Lifecycle.ends_game env gid db event sub db' ->
  pair_seated db (eg_gameId (ts_ended sub)) (ts_guestSessionIds sub).
Proof.
  intros Hk (game & outcome & Hg & _ & _ & Hgt & Hsub & _). rewrite Hsub. simpl. rewrite (Hk _ _ Hg).
  destruct (ts_guestSessionIds sub) as [g1 g2]. apply players_seated; [by eexists|].
  pose proof (Lifecycle.guestTuple_length _ _ Hgt) as Hl.
  destruct (Lifecycle.guestTuple_two _ Hl) as (f & g & Hgt' & ->). congruence.
Qed.

(** An operation that may end a game, and leaves the players where they are. *)
Lemma ending_triple {A} P (operation : Ext -> Op) (op : Ext -> DB -> result exn A * DB)
    (Q : A -> DB -> Prop) :
  persists P -> (forall x db, (op x db).2 = exec (x_env x) (operation x) db) ->
  (forall x db, op_ok (x_env x) (operation x) db) ->
  (forall a, persists (fun w => Q a (w_db w))) ->
  (forall x db a db', keyed db -> op x db = (Ok a, db') -> Q a db) ->
  triple P (database op) (fun a w => Q a (w_db w)).
Proof.
  intros HP Hop Hok HQ Hq. apply (triple_operation P operation); [done..|].
  intros w x a db' [Hwf Hr] _ E Hwf'. apply (HQ a w).
  - by eapply Hq; [apply wf_keyed|].
  - intros gid g Hs. simpl. specialize (Hop x (w_db w)). rewrite E in Hop. simpl in Hop. rewrite Hop.
    by apply exec_seated.
Qed.

Lemma submit_triple P input : persists P -> triple P (submit config input) submission_seated.
Proof.
  intros HP. unfold submit. prog_bind ltac:(apply triple_catch; [done| |]).
  - apply (ending_triple P (fun _ => OpMove input) _ (fun s db =>
      ms_duplicate s = false -> forall ended, ms_ended s = Some ended ->
      pair_seated db (eg_gameId ended) (ms_guestSessionIds s))); try done.
    + intros s. apply persists_submission.
    + intros x db s db' Hk E Hd ended He. by eapply moved_seated.
  - intros e. repeat case_match; apply triple_throw.
  - prog_seq ltac:(apply afterMove_triple; persist).
    prog_seq ltac:(destruct (ms_ended _); [prog_ret|apply scheduleGame_triple; persist]).
    apply triple_ret. by intros w [_ Hw].
Qed.

Lemma completeTerminal_triple P submission :
  persists P -> triple P (completeTerminal config submission) anything.
Proof.
  intros HP. unfold completeTerminal. prog_seq ltac:(by apply afterTerminal_triple).
  destruct (ts_duplicate submission); [prog_ret|by apply triple_lift].
Qed.

Lemma resign_triple P input : persists P -> triple P (resign config input) terminal_seated.
Proof.
  intros HP. apply triple_catch; [done| |intros e; repeat case_match; apply triple_throw].
  prog_bind ltac:(apply (ending_triple P (fun _ => OpResign input) _ (fun s db =>
      ts_duplicate s = false -> pair_seated db (eg_gameId (ts_ended s)) (ts_guestSessionIds s)));
      [done|done|done|intros s; apply persists_terminal|]).
  - intros x db s db' Hk E Hd.
    apply Lifecycle.resign_fresh in E as (game & player & c & db1 & _ & _ & _ & _ & He & _); [|done..].
    by eapply ended_seated.
  - prog_seq ltac:(apply completeTerminal_triple; persist). apply triple_ret. by intros w [_ Hw].
Qed.

Lemma observe_triple P : persists P -> triple P observe anything.
Proof. intros HP. by apply triple_look. Qed.

Lemma disconnected_triple P guest : persists P -> triple P (disconnected config guest) anything.
Proof.
  intros HP. unfold disconnected. prog_seq ltac:(by apply observe_triple).
  prog_seq ltac:(by eapply (operation_triple P (fun _ => OpDisconnect _ guest _))).
  prog_seq ltac:(idtac); [|prog_ret].
  match goal with |- triple _ (match ?o with _ => _ end) _ => destruct o end; [|prog_ret].
  prog_seq ltac:(by apply afterDisconnect_triple). by apply triple_lift.
Qed.

Lemma reconnected_triple P guest : persists P -> triple P (reconnected guest) anything.
Proof.
  intros HP. unfold reconnected. prog_seq ltac:(by apply observe_triple).
  prog_seq ltac:(by eapply (operation_triple P (fun _ => OpReconnect _ guest))).
  prog_seq ltac:(idtac); [|prog_ret].
  match goal with |- triple _ (match ?o with _ => _ end) _ => destruct o end; [|prog_ret].
  prog_seq ltac:(by apply forget_triple). by apply triple_lift.
Qed.

(** A game that an adjudication ended, if it did. *)
Definition adjudicated_seated (r : option TerminalSubmission) (w : World) : Prop :=
  forall s, r = Some s -> terminal_seated s w.

Lemma persists_adjudicated r : persists (adjudicated_seated r).
Proof. apply persists_all; intros s. apply persists_imp; intros _. apply persists_terminal. Qed.

#[local] Hint Resolve persists_adjudicated : persists.

Lemma completed_triple P terminal otherwise :
  persists P -> (forall w, P w -> adjudicated_seated terminal w) ->
  triple P otherwise adjudicated_seated ->
  triple P (completed config terminal otherwise) adjudicated_seated.
Proof.
  intros HP Ht Ho. unfold completed. destruct terminal; [|done].
  prog_seq ltac:(by apply completeTerminal_triple). by apply triple_ret.
Qed.

Lemma adjudication_triple P (operation : Ext -> Op)
    (op : Ext -> DB -> result exn (option TerminalSubmission) * DB) :
  persists P -> (forall x db, (op x db).2 = exec (x_env x) (operation x) db) ->
  (forall x db, op_ok (x_env x) (operation x) db) ->
  (forall x db s db', keyed db -> op x db = (Ok (Some s), db') ->
     exists gid event, Lifecycle.ends_game (x_env x) gid db event s db') ->
  triple P (database op) adjudicated_seated.
Proof.
  intros HP Hop Hok He. apply (ending_triple P operation op (fun r db => forall s, r = Some s ->
    ts_duplicate s = false -> pair_seated db (eg_gameId (ts_ended s)) (ts_guestSessionIds s))); try done.
  - intros r. apply persists_adjudicated.
  - intros x db r db' Hk E s -> _. destruct (He x db s db' Hk E) as (gid & event & Hends).
    by eapply ended_seated.
Qed.

Lemma endedForReset_triple P guest :
  persists P -> triple P (endedForReset config guest) adjudicated_seated.
Proof.
  intros HP. unfold endedForReset. prog_seq ltac:(by apply observe_triple).
  match goal with |- context [Lifecycle.terminateForReset _ ?before] =>
    prog_bind ltac:(apply (adjudication_triple P (fun _ => OpReset before guest)); [done..|]) end.
  { intros x db s db' Hk E. apply Lifecycle.terminateForReset_inv in E
      as [[? _]|(sub & gid & ? & ? & c & [= <-] & _ & _ & _ & _ & E)]; [done| |done]. eauto. }
  prog_seq ltac:(idtac); [|by apply triple_ret; intros w []].
  match goal with |- triple _ (match ?o with _ => _ end) _ => destruct o end; [|prog_ret].
  apply completeTerminal_triple; persist.
Qed.

Lemma terminateForReset_triple P guest :
  persists P -> triple P (terminateForReset config guest) anything.
Proof.
  intros HP. unfold terminateForReset.
  prog_seq ltac:(by eapply triple_any, endedForReset_triple). prog_ret.
Qed.

Lemma absentGuests_triple P guests : persists P -> triple P (absentGuests guests) anything.
Proof.
  intros HP. apply triple_catch; [done| |intros e; prog_ret].
  prog_seq ltac:(eapply triple_any, (triple_mapAll P _ (fun _ => True)); [done|]); [|prog_ret].
  intros guest _. prog_seq ltac:(by apply clock_triple).
  prog_seq ltac:(by apply isPresent_triple). prog_ret.
Qed.

Lemma adjudicateGame_triple P gid :
  persists P -> triple P (adjudicateGame config gid) adjudicated_seated.
Proof.
  intros HP. unfold adjudicateGame.
  prog_bind ltac:(apply (adjudication_triple P (fun _ => OpNoShow gid)); [done..|]).
  { intros x db s db' Hk E. apply Lifecycle.adjudicateNoShow_inv in E as [[? _]|(sub & ? & ? & [= <-] & E)]; [done| |done].
    eexists _, _. apply E. }
  apply completed_triple; [persist|by intros w []|].
  prog_bind ltac:(eapply (adjudication_triple _ (fun _ => OpTimeout gid)); [persist|done|done|]).
  { intros x db s db' Hk E. apply Lifecycle.adjudicateTimeout_inv in E as [[? _]|(sub & ? & ? & [= <-] & E)]; [done| |done].
    eexists _, _. apply E. }
  apply completed_triple; [persist|by intros w []|]. prog_seq ltac:(apply triple_query; [persist|done]).
  match goal with |- triple _ (match ?o with _ => _ end) _ => destruct o end; [|apply triple_ret; by intros w _ s].
  prog_seq ltac:(apply absentGuests_triple; persist).
  match goal with |- triple _ (match ?o with _ => _ end) _ => destruct o as [absent|] end;
    [|apply triple_ret; by intros w _ s].
  destruct (negb _); [apply triple_ret; by intros w _ s|].
  prog_bind ltac:(eapply (adjudication_triple _ (fun _ => OpAbandon gid absent)); [persist|done|done|]).
  { intros x db s db' Hk E. apply Lifecycle.adjudicateAbandonment_inv in E as [[? _]|(sub & ? & [= <-] & E)]; [done| |done].
    eexists _, _. apply E. }
  apply completed_triple; [persist|by intros w []|apply triple_ret; by intros w _ s].
Qed.

Lemma mapDatabaseFailure_triple {A} P (p : Prog A) Q :
  persists P -> triple P p Q -> triple P (mapDatabaseFailure p) Q.
Proof.
  intros HP Hp. apply triple_catch; [done..|]. intros e. repeat case_match; apply triple_throw.
Qed.

(** The game a guest is assigned to is one it plays. *)
Lemma assigned_triple P guest t :
  persists P ->
  triple P (query (fun _ db => Ok (Games.getGuestMatchEligibility db guest t)))
    (fun e w => forall gid, Games.ge_activeGameId e = Some gid -> seated (w_db w) gid guest).
Proof.
  intros HP. apply triple_query; [done|]. intros w x e [Hwf _] _ [= <-] gid.
  by apply eligibility_seated.
Qed.

Lemma activeGameId_triple P guest :
  persists P ->
  triple P (activeGameId config guest)
    (fun r w => forall gid, r = Some gid -> seated (w_db w) gid guest).
Proof.
  intros HP. apply mapDatabaseFailure_triple; [done|].
  prog_seq ltac:(by apply readActiveGame_triple). prog_seq ltac:(by apply clock_triple).
  prog_bind ltac:(by apply assigned_triple). cbv zeta.
  prog_seq ltac:(idtac); [|apply triple_ret; by intros w []].
  match goal with |- triple _ (match ?o with _ => _ end) _ => destruct o as [gid|] eqn:Eo end.
  - apply restoreActiveGame_triple; [persist|]. intros w [_ Hs]. by apply Hs.
  - repeat case_match; first [by apply clearActiveGame_triple; persist|prog_ret].
Qed.

Lemma snapshotInternal_triple P gid guest :
  persists P ->
  triple P (snapshotInternal config gid guest)
    (fun r w => rs_gameId r = gid /\ seated (w_db w) gid guest).
Proof.
  intros HP.
  assert (triple P (recoverFresh config gid guest)
            (fun r w => rs_gameId r = gid /\ seated (w_db w) gid guest)) as Hfresh.
  { unfold recoverFresh. prog_bind ltac:(by apply snapshot_triple).
    prog_seq ltac:(by apply triple_lift).
    prog_seq ltac:(apply restoreSnapshot_triple; [persist|by intros w (_ & Hv & _)]).
    apply triple_ret. by intros w (_ & _ & Hs). }
  apply mapDatabaseFailure_triple; [done|]. prog_seq ltac:(by apply readSnapshot_triple).
  destruct (cachedTerminal _) as [[version payload]|]; [|done].
  prog_bind ltac:(by apply authorize_triple). destruct (_ && _).
  - apply triple_ret. by intros w [_ Hs].
  - eapply triple_weaken; [|exact Hfresh]. by intros w [].
Qed.

Lemma activeRecovered_triple P guest :
  persists P ->
  triple P (activeRecovered config guest) (fun r w => seated (w_db w) (rs_gameId r) guest).
Proof.
  intros HP. unfold activeRecovered. prog_seq ltac:(by eapply triple_any, activeGameId_triple).
  match goal with |- triple _ (match ?o with _ => _ end) _ => destruct o as [gid|] end;
    [|apply triple_throw].
  eapply triple_mono; [done| |by apply (snapshotInternal_triple P gid guest)]. by intros r w [-> Hs].
Qed.

(** ** Reconciliation *)
Import Reconciliation.

Lemma attempt_triple {A} P (p : Prog A) :
  triple P p anything -> triple P (attempt p) anything.
Proof. intros Hp. by eapply triple_any, triple_attempt. Qed.

Lemma reconcileGame_triple P al report :
  persists P -> triple P (reconcileGame config al report) anything.
Proof.
  intros HP. unfold reconcileGame. prog_seq ltac:(by apply inspectAllocation_triple).
  destruct (negb _); [apply triple_throw|]. destruct (_ =? 0); [prog_ret|].
  prog_bind ltac:(by apply snapshot_triple).
  prog_seq ltac:(apply restoreSnapshot_triple; [persist|by intros w (_ & Hv & _)]).
  destruct (negb _); [apply triple_throw|prog_ret].
Qed.

Lemma reconcileDurableGames_triple P cursor :
  persists P -> triple P (reconcileDurableGames config cursor) anything.
Proof.
  intros HP. unfold reconcileDurableGames.
  prog_seq ltac:(by eapply attempt_triple, triple_any, listActive_triple).
  match goal with |- triple _ (match ?o with _ => _ end) _ => destruct o as [als|] end; [|prog_ret].
  prog_seq ltac:(apply attempt_triple); [|prog_ret].
  generalize no_repairs as report. induction als as [|al als IH]; intros report;
    cbn [reconcileAll]; [prog_ret|].
  prog_seq ltac:(by apply reconcileGame_triple). apply IH.
Qed.

Lemma reconcileKey_triple P key : persists P -> triple P (reconcileKey config key) anything.
Proof.
  intros HP. unfold reconcileKey. cbv zeta. destruct (negb _); [prog_ret|].
  prog_seq ltac:(apply triple_send; [done|]; intros _ w _; by apply keeps_ask).
  prog_seq ltac:(by apply clock_triple). prog_bind ltac:(by apply assigned_triple).
  case_bool_decide; [prog_ret|].
  match goal with |- triple _ (match ?o with _ => _ end) _ => destruct o as [gid|] eqn:Eo end.
  - apply restoreActiveGame_triple; [persist|]. intros w [_ Hs]. by apply Hs.
  - apply clearActiveGame_triple; persist.
Qed.

Lemma reconcileRedisActiveKeys_triple P cursor page :
  persists P -> triple P (reconcileRedisActiveKeys config cursor page) anything.
Proof.
  intros HP. unfold reconcileRedisActiveKeys. prog_seq ltac:(apply attempt_triple).
  { prog_seq ltac:(by apply ensureConnected_triple). apply triple_send; [done|].
    intros _ w _. by apply keeps_ask. }
  match goal with |- triple _ (match ?o with _ => _ end) _ => destruct o end; [|prog_ret].
  prog_seq ltac:(apply attempt_triple); [|prog_ret].
  generalize 0 as repairs. induction (take _ _) as [|key keys IH]; intros repairs;
    cbn [reconcileKeys]; [prog_ret|].
  prog_seq ltac:(by apply reconcileKey_triple). apply IH.
Qed.

Lemma runOnce_triple P cursors page : persists P -> triple P (runOnce config cursors page) anything.
Proof.
  intros HP. unfold runOnce. prog_seq ltac:(by apply reconcileDurableGames_triple).
  match goal with |- triple _ (let (_, _) := ?r in _) _ => destruct r as [cursor [report|e]] end;
    [|prog_ret].
  prog_seq ltac:(by apply reconcileRedisActiveKeys_triple).
  match goal with |- triple _ (let (_, _) := ?r in _) _ => destruct r as [cursor' repairs] end.
  prog_ret.
Qed.
End Programs.
End GamesSafety.
