(* ===== verification/CacheSessions.v ===== *)
(** * The session services among the others

    The session service calls the game services through [SessionPorts]: here is the
    instance they make, with the proof that it leaves the tables of sessions alone;
    and the proof that the programs of the session services keep what the other
    services rely on. *)

From S2P Require Export CacheGames SessionInvariant.
Local Open Scope string_scope.
Local Open Scope list_scope.
Local Open Scope Z_scope.

(** [guest-socket-disconnect-registry.ts]: the sockets of a guest are closed by the
    delegate of the registry, if one is bound. *)
Class GuestSocketDisconnect : Type := { delegate : option (string -> result fault ()) }.

Definition disconnect_delegate `{GuestSocketDisconnect} `{Redis} (guest : string) : Prog () :=
  lift (match delegate with Some disconnectGuest => disconnectGuest guest | None => Ok () end).

(** ** The game services leave the sessions alone *)

(** What a transaction does when it commits. *)
Definition tx_moves {S E A} (R : S -> S -> Prop) (m : tx S E A) : Prop :=
  forall s a s', m s = Ok (a, s') -> R s s'.

Definition tables_kept (db db' : DB) : Prop :=
  guests db' = guests db /\ sessionCommands db' = sessionCommands db.

Lemma tables_kept_trans db1 db2 db3 : tables_kept db1 db2 -> tables_kept db2 db3 -> tables_kept db1 db3.
Proof. intros [? ?] [? ?]. split; congruence. Qed.

Lemma tables_ret {E A} (a : A) : tx_moves tables_kept (mret a : tx DB E A).
Proof. by intros db a' db' [= _ <-]. Qed.

Lemma tables_bind {E A B} (m : tx DB E A) (f : A -> tx DB E B) :
  tx_moves tables_kept m -> (forall a, tx_moves tables_kept (f a)) -> tx_moves tables_kept (m ≫= f).
Proof.
  intros Hm Hf db c db' (a & db1 & H1 & H2)%tx_bind_Ok.
  eapply tables_kept_trans; [by eapply Hm|by eapply Hf].
Qed.

Lemma tables_lift {E A} (r : result E A) : tx_moves tables_kept (tx_lift r : tx DB E A).
Proof. intros db a db'. unfold tx_lift. destruct r; [|done]. by intros [= _ <-]. Qed.

Lemma tables_read {E A} (f : DB -> A) : tx_moves tables_kept (tx_read f : tx DB E A).
Proof. by intros db a db' [= _ <-]. Qed.

Lemma tables_write {E} (f : DB -> DB) :
  (forall db, tables_kept db (f db)) -> tx_moves tables_kept (tx_write f : tx DB E ()).
Proof. intros Hf db a db' [= _ <-]. apply Hf. Qed.

Section Game.
Context `{Zod} `{Prisma}.

Lemma tables_updateMany env gid v data : tx_moves tables_kept (game_updateMany env gid v data).
Proof.
  intros db a db'. unfold game_updateMany. destruct (games db !! gid); [|by intros [= _ <-]].
  by destruct (_ =? _); intros [= _ <-].
Qed.

Lemma tables_lockGameClock env gid : tx_moves tables_kept (lockGameClock env gid).
Proof.
  unfold lockGameClock, game_findUnique. apply tables_bind; [apply tables_read|].
  intros [row|]; [|apply tables_ret].
  apply tables_bind; [apply tables_lift|intros ?]. apply tables_bind; [apply tables_lift|intros ?].
  apply tables_ret.
Qed.

Lemma tables_finalizeTerminal env game ps locked outcome :
  tx_moves tables_kept (Lifecycle.finalizeTerminal env game ps locked outcome).
Proof.
  unfold Lifecycle.finalizeTerminal. apply tables_bind; [apply tables_lift|intros ids].
  apply tables_bind; [apply tables_updateMany|intros count].
  destruct (negb _); [apply tables_ret|].
  apply tables_bind; [by apply tables_write|intros _].
  apply tables_bind; [by apply tables_write|intros _]. apply tables_ret.
Qed.

Lemma tables_run {A} (work : tx DB exn A) db :
  tx_moves tables_kept work -> tables_kept db (run work db).2.
Proof.
  intros Hw. unfold run. destruct (work db) as [[a db']|e] eqn:E; [|done]. by eapply Hw.
Qed.

Lemma terminateForReset_tables env before guest db :
  tables_kept db (Lifecycle.terminateForReset env before guest db).2.
Proof.
  unfold Lifecycle.terminateForReset. apply tables_run.
  destruct (assignments before !! guest) as [gid|]; [|apply tables_ret].
  apply tables_bind; [apply tables_lockGameClock|]. intros [locked|]; [|apply tables_ret].
  apply tables_bind; [apply tables_read|]. intros [[game ps]|]; [|apply tables_ret].
  destruct (negb _); [apply tables_ret|].
  destruct (Lifecycle.playerFor ps guest) as [[player color]|]; [|apply tables_ret].
  apply tables_bind; [apply tables_lift|intros outcome]. apply tables_finalizeTerminal.
Qed.
End Game.

Section Ports.
Context `{Zod} `{ChessJs} `{Prisma} `{Redis} `{JsonText} `{LifecycleDelivery} `{GuestSocketDisconnect}.
Context (config : AppConfig).

#[export] Instance game_ports : SessionPorts :=
  {| terminateForReset := Services.terminateForReset config;
     disconnectGuest := disconnect_delegate |}.

Lemma kept_redis w r : same_sessions w (mkWorld (w_db w) r).
Proof. done. Qed.

Lemma same_refl w : same_sessions w w.
Proof. done. Qed.

Lemma clearActiveGame_tables guest gid :
  acts same_sessions (Ephemeral.clearActiveGame config guest gid).
Proof.
  apply acts_catch; [|done]. apply acts_bind; [|done].
  apply acts_command; [exact same_refl|]. intros; apply kept_redis.
Qed.

Lemma completeTerminal_tables submission :
  acts same_sessions (Services.completeTerminal config submission).
Proof.
  unfold Services.completeTerminal, Ephemeral.afterTerminal. apply acts_bind.
  - apply acts_catch; [|done]. apply acts_bind; [by apply acts_look|intros _].
    apply acts_bind; [apply acts_pipeline; [exact same_refl|intros; apply kept_redis]|intros _].
    apply acts_bind; [apply acts_mapAll; intros g; apply clearActiveGame_tables|done].
  - intros _. destruct (ts_duplicate submission); [done|apply acts_lift].
Qed.

#[export] Instance game_ports_laws : SessionPortsLaws.
Proof.
  split; [|intros guest; apply acts_lift].
  intros guest. change (acts same_sessions (Services.terminateForReset config guest)).
  unfold Services.terminateForReset, Services.endedForReset.
  apply acts_bind; [|done]. apply acts_bind; [by apply acts_look|intros before].
  apply acts_bind; [|intros submission; apply acts_bind; [|done];
                     destruct submission; [apply completeTerminal_tables|done]].
  apply acts_database; [exact same_refl|]. intros x w. apply terminateForReset_tables.
Qed.
End Ports.

(** ** The session services among the others *)
Module SessionsSafety.
Import Scripts Cache Triples GamesSafety Sessions Identity Tokens SessionServices SessionActions SessionInvariant.

Section Safety.
Context `{Zod} `{ZodUuid} `{ChessJs} `{!ChessJsLaws} `{Prisma} `{RedisLaws} `{JsonText}.
Context `{LifecycleDelivery} `{GuestSocketDisconnect} `{NodeCrypto} `{NodeHash} (config : AppConfig).
Context (tokens : JwtTokenService) (cookieName : string) (batchSize : nat) (retentionMs : Z).

(** A program each of whose actions the others can rely on. *)
Lemma triple_acts {A} P (p : Prog A) : acts rely p -> triple P p (fun _ _ => True).
Proof.
  intros Hp w Hw _. revert w Hw. induction p as [a|e|X act k IH]; intros w Hw; simpl; [done..|].
  destruct Hp as [Ha Hk]. intros w1 x HR _. split; [apply Ha|].
  apply IH; [done|]. apply Ha. by apply HR.
Qed.

(** A change of the tables of sessions only. *)
Lemma rely_sessions w db' :
  games db' = games (w_db w) -> players db' = players (w_db w) -> moves db' = moves (w_db w) ->
  assignments db' = assignments (w_db w) -> commands db' = commands (w_db w) ->
  rely w (mkWorld db' (w_redis w)).
Proof.
  intros Eg Ep Em Ea Ec [Hwf Hr]. destruct db' as [g' p' m' a' c' s' sc']. simpl in *. subst.
  split; [split; [by destruct Hwf; split|done]|done].
Qed.

Lemma rely_redis w r :
  (cache_ok (w_db w) (w_redis w) -> cache_ok (w_db w) r) -> rely w (mkWorld (w_db w) r).
Proof. intros Hr [Hwf Hc]. by apply moves_on_redis; [|apply Hr]. Qed.

#[export] Instance rely_guarantee : SessionGuarantee rely.
Proof.
  split.
  - reflexivity.
  - intros w k v px Hk. apply rely_redis, ok_SET. by destruct k.
  - intros w n. apply rely_redis, ok_DEL.
  - intros w db' Hw. destruct Hw as [input x r Hw|input r Hw|input r Hw|cutoff limit locked r Hw].
    + apply createWork_Ok in Hw as (_ & _ & _ & _ & _ & _ & ->). by apply rely_sessions.
    + apply renewWork_Ok in Hw as (row & _ & _ & _ & _ & _ & _ & _ & ->). by apply rely_sessions.
    + apply resetWork_Ok in Hw as (row & _ & _ & _ & _ & _ & _ & ->). by apply rely_sessions.
    + injection Hw as _ <-. by apply rely_sessions.
Qed.

Let ports : SessionPorts := game_ports config.
#[local] Existing Instance ports.

Lemma finishReset_triple P session guest :
  persists P -> triple P (finishReset tokens session guest) (fun _ _ => True).
Proof.
  intros HP. unfold finishReset. prog_seq ltac:(by apply (terminateForReset_triple config)).
  apply triple_acts, acts_bind; [apply revoke_acts, rely_guarantee|intros _]. apply acts_lift.
Qed.

Lemma resetSession_triple P guest key revoked :
  persists P -> triple P (resetSession tokens guest key revoked) (fun _ _ => True).
Proof.
  intros HP. unfold resetSession, stably.
  prog_seq ltac:(by apply triple_acts, acts_lift). apply triple_catch; [done| |intros e; apply triple_throw].
  prog_seq ltac:(apply triple_acts, findCommand_acts, rely_guarantee).
  match goal with |- triple _ (match ?o with _ => _ end) _ => destruct o as [existing|] end.
  { prog_seq ltac:(by apply triple_acts, acts_lift). by apply finishReset_triple. }
  destruct revoked; [apply triple_throw|].
  prog_seq ltac:(apply triple_acts, acts_look; reflexivity).
  prog_seq ltac:(apply triple_acts, reset_acts, rely_guarantee).
  prog_seq ltac:(by apply triple_acts, acts_lift). by apply finishReset_triple.
Qed.

(** Every program of the session services keeps what the others rely on. *)
Lemma session_service_triple A p :
  session_service tokens cookieName batchSize retentionMs A p ->
  triple (fun _ => True) p (fun _ _ => True).
Proof.
  intros Hp. destruct Hp; try (by apply resetSession_triple); apply triple_acts;
    eauto using authenticate_acts, createSession_acts, renewSession_acts, getCurrent_acts,
      reconcileSafely_acts, cleanupSafely_acts, runOnce_acts with typeclass_instances.
Qed.
End Safety.
End SessionsSafety.
