(* ===== verification/CacheRealtime.v ===== *)
(** * The commands of sockets among the others

    A program logic for programs that announce, and what every command does to the
    shared state and says: it keeps what the other programs rely on, a socket joins the room
    of a game only for a player of it, and events about a game go to its room or to
    its players. *)

From S2P Require Export CacheSessions Gateway.
Local Open Scope string_scope.
Local Open Scope list_scope.
Local Open Scope Z_scope.

Module RealtimeSafety.
Import Scripts Cache Triples MatchmakingSafety GamesSafety SessionsSafety.
Import Protocol RealtimeProtocol Realtime Gateway.

(** ** A logic for programs that announce *)

Section Talks.
Context `{Zod} `{ZodUuid} `{ChessJs} `{!ChessJsLaws} `{Prisma} `{RedisLaws}.
Context (guest : string).

(** The game an event is about, or tells of. *)
Definition told_game (payload : ServerPayload) (about : Subject) : option string :=
  match payload with
  | SessionReady active _ => active
  | _ => sj_gameId about
  end.

Definition tells (event : ServerEventEnvelope) : option string :=
  told_game (se_payload event) (se_subject event).

(** Only players of a game hear of it: the rooms a socket of the guest may join are its
    own, and those of its games; events about a game go to its room, or to its players. *)
Definition room_ok (o : Output) (w : World) : Prop :=
  match o with
  | JoinRoom room =>
      room = guestRoom guest \/ exists gid, room = gameRoom gid /\ seated (w_db w) gid guest
  | Emit room event =>
      forall gid, tells event = Some gid ->
        room = gameRoom gid \/ exists player, room = guestRoom player /\ seated (w_db w) gid player
  | EmitSocket event => forall gid, tells event = Some gid -> seated (w_db w) gid guest
  | _ => True
  end.

Definition rooms_ok (outs : list Output) (w : World) : Prop := Forall (fun o => room_ok o w) outs.

(** [triple] for a program that always returns. *)
Definition returning {A} (P : World -> Prop) (p : Prog A) (Q : A -> World -> Prop) : Prop :=
  forall w, inv w -> P w ->
    wp rely rely ext_ok p (fun r w' => inv w' /\ exists a, r = Ok a /\ Q a w') w.

(** The program comes to an end, and what it says keeps to the rooms, also if it fails. *)
Definition ttriple {A} (P : World -> Prop) (p : Talk A) (Q : A -> World -> Prop) : Prop :=
  returning P (talk p) (fun r w => rooms_ok r.1 w /\ match r.2 with Ok a => Q a w | Err _ => True end).

Notation anything := (fun _ _ => True).

Lemma persists_room o : persists (room_ok o).
Proof.
  destruct o; try apply persists_const; intros w w' Ho Hmono.
  - intros gid Hg. destruct (Ho gid Hg) as [->|(player & -> & Hs)]; [by left|right; eauto].
  - intros gid Hg. by apply Hmono, Ho.
  - destruct Ho as [->|(gid & -> & Hs)]; [by left|right; eauto].
Qed.

Lemma persists_rooms outs : persists (rooms_ok outs).
Proof. apply persists_Forall, persists_room. Qed.

Lemma rooms_app outs outs' w : rooms_ok outs w -> rooms_ok outs' w -> rooms_ok (outs ++ outs') w.
Proof. apply Forall_app_2. Qed.

Lemma returning_ret {A} P (a : A) (Q : A -> World -> Prop) :
  (forall w, P w -> Q a w) -> returning P (mret a) Q.
Proof. intros HQ w Hw HP. split; [done|]. exists a. auto. Qed.

Lemma returning_mono {A} P P' (p : Prog A) (Q Q' : A -> World -> Prop) :
  (forall w, P' w -> P w) -> (forall a w, Q a w -> Q' a w) -> returning P p Q -> returning P' p Q'.
Proof.
  intros HP HQ Hp w Hw Hw'. eapply wp_mono; [|by apply Hp, HP].
  intros r w' [Hinv (a & -> & Ha)]. eauto.
Qed.

Lemma returning_weaken {A} P P' (p : Prog A) Q :
  (forall w, P' w -> P w) -> returning P p Q -> returning P' p Q.
Proof. intros HP. by apply returning_mono. Qed.

Lemma returning_keep {A} P (p : Prog A) (Q : A -> World -> Prop) :
  persists P -> returning P p Q -> returning P p (fun a w => P w /\ Q a w).
Proof.
  intros HP Hp w Hw Hw'. eapply wp_mono; [|eapply (wp_keep _ _ P); [done..|by apply Hp]].
  intros r w' (HP' & Hinv & a & -> & Ha). eauto.
Qed.

Lemma returning_bind {A B} P (p : Prog A) (f : A -> Prog B) (Q : A -> World -> Prop) Q' :
  persists P -> returning P p Q -> (forall a, returning (fun w => P w /\ Q a w) (f a) Q') ->
  returning P (p ≫= f) Q'.
Proof.
  intros HP Hp Hf w Hw Hw'. apply wp_bind. eapply wp_mono; [|by eapply (returning_keep P)].
  intros r w' (Hinv & a & -> & HPQ). by apply Hf.
Qed.

Lemma returning_attempt {A} P (p : Prog A) (Q : A -> World -> Prop) :
  triple P p Q ->
  returning P (attempt p) (fun r w => match r with Ok a => Q a w | Err _ => True end).
Proof.
  intros Hp w Hw Hw'. apply wp_attempt. eapply wp_mono; [|by apply Hp]. intros r w' [Hinv Hr]. eauto.
Qed.

Lemma returning_triple {A} P (p : Prog A) (Q : A -> World -> Prop) : returning P p Q -> triple P p Q.
Proof.
  intros Hp w Hw Hw'. eapply wp_mono; [|by apply Hp]. by intros r w' (Hinv & a & -> & Ha).
Qed.

Lemma talk_ret_triple {A} P (a : A) (Q : A -> World -> Prop) :
  (forall w, P w -> Q a w) -> ttriple P (mret a) Q.
Proof. intros HQ. apply returning_ret. intros w Hw. split; [constructor|by apply HQ]. Qed.

Lemma talk_throw_triple {A} P e (Q : A -> World -> Prop) : ttriple P (throw e) Q.
Proof. apply returning_ret. intros w _. split; [constructor|done]. Qed.

Lemma say_triple P o Q :
  (forall w, P w -> room_ok o w /\ Q tt w) -> ttriple P (say o) Q.
Proof.
  intros HQ. apply returning_ret. intros w Hw. destruct (HQ w Hw).
  split; [by apply Forall_singleton|done].
Qed.

Lemma say_lift_triple {A} P (r : result fault A) Q :
  (forall w a, P w -> r = Ok a -> Q a w) -> ttriple P (say_lift r) Q.
Proof. intros HQ. apply returning_ret. intros w Hw. split; [constructor|]. destruct r; [by eapply HQ|done]. Qed.

Lemma hear_triple {A} P (p : Prog A) Q : persists P -> triple P p Q -> ttriple P (hear p) Q.
Proof.
  intros HP Hp. unfold ttriple, hear. simpl.
  eapply returning_bind; [done|by apply returning_attempt|]. intros r. apply returning_ret.
  intros w [_ Hr]. split; [constructor|done].
Qed.

(** What is left to do after [r], which said [r.1], and what is said then. *)
Lemma rest_triple {A B} P (outs : list Output) (q : Talk B) (Q : A -> World -> Prop) Q' :
  persists P -> ttriple P q Q' ->
  returning (fun w => P w /\ rooms_ok outs w) (r' ← talk q; mret (outs ++ r'.1, r'.2))
    (fun r w => rooms_ok r.1 w /\ match r.2 with Ok a => Q' a w | Err _ => True end).
Proof.
  intros HP Hq. eapply returning_bind;
    [apply persists_and; [done|apply persists_rooms]|eapply returning_weaken; [|exact Hq]; by intros w []|].
  intros r'. apply returning_ret. intros w [[_ Ho] [Ho' Hr]]. split; [by apply rooms_app|done].
Qed.

Lemma talk_bind_triple {A B} P (p : Talk A) (f : A -> Talk B) Q Q' :
  persists P -> (forall a, persists (Q a)) -> ttriple P p Q ->
  (forall a, ttriple (fun w => P w /\ Q a w) (f a) Q') -> ttriple P (p ≫= f) Q'.
Proof.
  intros HP HQ Hp Hf. unfold ttriple. cbn [talk mbind talk_bind].
  eapply returning_bind; [done|exact Hp|]. intros [outs [a|e]]; cbn [fst snd].
  - eapply returning_weaken; [|eapply (rest_triple (A := A) _ outs (f a) Q); [|apply Hf]];
      [|by apply persists_and]. cbv beta. tauto.
  - apply returning_ret. by intros w (_ & Ho & _).
Qed.

Lemma talk_seq_triple {A B} P (p : Talk A) (f : A -> Talk B) Q' :
  persists P -> ttriple P p anything -> (forall a, ttriple P (f a) Q') -> ttriple P (p ≫= f) Q'.
Proof.
  intros HP Hp Hf. eapply talk_bind_triple; [done| |exact Hp|]; [by intros a w w'|].
  intros a. eapply returning_weaken; [|apply Hf]. by intros w [].
Qed.

Lemma handle_triple {A} P (p : Talk A) h Q :
  persists P -> ttriple P p Q -> (forall e, ttriple P (h e) Q) -> ttriple P (handle p h) Q.
Proof.
  intros HP Hp Hh. unfold ttriple, handle. cbn [talk].
  eapply returning_bind; [done|exact Hp|]. intros [outs [a|e]]; cbn [fst snd].
  - apply returning_ret. by intros w (_ & Ho & HQ).
  - eapply returning_weaken; [|eapply (rest_triple (A := A) _ outs (h e) Q); [done|apply Hh]].
    cbv beta. tauto.
Qed.

Lemma settled_triple {A} P (p : Talk A) Q : persists P -> ttriple P p Q -> ttriple P (settled p) anything.
Proof.
  intros HP Hp. unfold ttriple, settled. cbn [talk].
  eapply returning_bind; [done|exact Hp|]. intros [outs r]. apply returning_ret. by intros w (_ & Ho & _).
Qed.

Lemma sayAll_triple {A} P (f : A -> Talk ()) l :
  persists P -> (forall a, a ∈ l -> ttriple P (f a) anything) -> ttriple P (sayAll f l) anything.
Proof.
  intros HP. induction l as [|a l IH]; intros Hf; cbn [sayAll]; [by apply talk_ret_triple|].
  apply talk_seq_triple; [done|apply Hf; left|intros _; apply IH; intros b Hb; apply Hf; by right].
Qed.

Lemma ttriple_weaken {A} P P' (p : Talk A) Q : (forall w, P' w -> P w) -> ttriple P p Q -> ttriple P' p Q.
Proof. apply returning_weaken. Qed.

Lemma ttriple_mono {A} P (p : Talk A) Q Q' :
  (forall a w, Q a w -> Q' a w) -> ttriple P p Q -> ttriple P p Q'.
Proof. intros HQ. apply returning_mono; [done|]. intros r w [Ho Hr]. split; [done|]. destruct r.2; auto. Qed.

Lemma ttriple_keep {A} P (p : Talk A) Q :
  persists P -> ttriple P p Q -> ttriple P p (fun a w => P w /\ Q a w).
Proof.
  intros HP Hp. eapply returning_mono; [done| |by apply (returning_keep P)].
  intros [outs [a|e]] w; simpl; tauto.
Qed.

Lemma ttriple_any {A} P (p : Talk A) Q : ttriple P p Q -> ttriple P p anything.
Proof. apply returning_mono; [done|]. intros r w [Ho _]. split; [done|by destruct r.2]. Qed.
End Talks.

(** ** Keys of the limits of requests and connections *)

Lemma limits_foreign s k : name k <> "rl:" +:+ s.
Proof. destruct k; discriminate. Qed.

Section Foreign.
Context `{Zod} `{ZodUuid} `{ChessJs} `{!ChessJsLaws} `{Prisma}.
Context `{Redis, !RedisLaws, !RedisCounters, !RedisCountersLaws} `{NodeHash}.
Context (config : AppConfig) (limits : RateLimits.RateLimitConfig) (connectionLimit : positive).

Notation anything := (fun _ _ => True).

(** A script that leaves the keys of the services alone. *)
Definition foreign {A} (c : lua A) : Prop := forall r k, entry (c r).2 (name k) = entry r (name k).

Lemma foreign_bind {A B} (m : lua A) (f : A -> lua B) :
  foreign m -> (forall a, foreign (f a)) -> foreign (m ≫= f).
Proof.
  intros Hm Hf r k. unfold mbind, lua_bind. specialize (Hm r k). destruct (m r) as [a r'].
  simpl in *. by rewrite (Hf a r' k).
Qed.

Lemma foreign_ret {A} (a : A) : foreign (mret a).
Proof. done. Qed.
Lemma foreign_ask {A} (f : Keyspace -> A) : foreign (ask f).
Proof. done. Qed.
Lemma foreign_INCR s : foreign (INCR ("rl:" +:+ s)).
Proof. intros r k. apply INCR_other, limits_foreign. Qed.
Lemma foreign_PEXPIRE s px : foreign (call (PEXPIRE ("rl:" +:+ s) px)).
Proof. intros r k. simpl. rewrite entry_PEXPIRE. by rewrite decide_False by apply limits_foreign. Qed.
Lemma foreign_ZADD s m t : foreign (call (ZADD ("rl:" +:+ s) m t)).
Proof. intros r k. simpl. rewrite entry_ZADD. by rewrite decide_False by apply limits_foreign. Qed.
Lemma foreign_ZREM s m : foreign (call (ZREM ("rl:" +:+ s) m)).
Proof. intros r k. simpl. rewrite entry_ZREM. by rewrite decide_False by apply limits_foreign. Qed.
Lemma foreign_ZREMRANGEBYSCORE s t : foreign (call (ZREMRANGEBYSCORE ("rl:" +:+ s) t)).
Proof.
  intros r k. simpl. rewrite entry_ZREMRANGEBYSCORE. by rewrite decide_False by apply limits_foreign.
Qed.

Lemma foreign_kept {A} P (c : lua A) : foreign c -> kept P c.
Proof.
  intros Hc w _ r [Hr _]. split; [split; [|done]|done]. intros k. rewrite Hc. apply Hr.
Qed.

Ltac foreign_script :=
  repeat first [apply foreign_ret|apply foreign_ask|apply foreign_INCR|apply foreign_PEXPIRE
               |apply foreign_ZADD|apply foreign_ZREM|apply foreign_ZREMRANGEBYSCORE
               |case_match|apply foreign_bind; [|intros ?]].

Lemma count_request_triple P s windowMs :
  persists P -> triple P (RateLimits.count_request ("rl:" +:+ s) windowMs) anything.
Proof.
  intros HP. apply triple_command; [done|]. intros x. apply foreign_kept.
  unfold RateLimits.count_request_lua. foreign_script.
Qed.

Lemma limited_triple {A} P s windowMs (f : Z * Z -> Prog A) h Q :
  persists P -> (forall c, triple P (f c) Q) -> (forall e, triple P (h e) Q) ->
  triple P (catch (RateLimits.count_request ("rl:" +:+ s) windowMs ≫= f) h) Q.
Proof.
  intros HP Hf Hh. apply triple_catch; [done| |done].
  eapply triple_seq; [done|by apply count_request_triple|done].
Qed.

Ltac limited :=
  intros HP; apply limited_triple; [done|intros [count ttl]|intros e];
  repeat case_match; first [apply triple_throw|by apply triple_ret].

Lemma consume_triple P event guest : persists P -> triple P (RateLimits.consume limits event guest) anything.
Proof. limited. Qed.
Lemma consume_session_triple P policy id :
  persists P -> triple P (RateLimits.consume_session limits policy id) anything.
Proof. limited. Qed.
Lemma consume_recovery_triple P policy guest :
  persists P -> triple P (RateLimits.consume_recovery limits policy guest) anything.
Proof. limited. Qed.

(** ** Connections *)

Lemma acquire_triple P hash member now :
  persists P -> triple P (Connections.acquire config connectionLimit hash member now) anything.
Proof.
  intros HP. apply triple_catch; [done| |intros e; case_match; apply triple_throw].
  eapply triple_seq; [done| |intros count; case_match; [apply triple_throw|by apply triple_ret]].
  apply triple_command; [done|]. intros x. apply foreign_kept.
  unfold Connections.acquire_lua, Connections.connectionKey. cbv zeta.
  change ("rl:conn:" +:+ hash) with ("rl:" +:+ ("conn:" +:+ hash)). foreign_script.
Qed.

Lemma connection_refresh_triple P hash member now :
  persists P -> triple P (Connections.refresh config hash member now) anything.
Proof.
  intros HP. apply triple_catch; [done| |intros e; apply triple_throw].
  apply triple_command; [done|]. intros x. apply foreign_kept.
  unfold Connections.refresh_multi, Connections.connectionKey. cbv zeta.
  change ("rl:conn:" +:+ hash) with ("rl:" +:+ ("conn:" +:+ hash)). foreign_script.
Qed.

Lemma connection_release_triple P hash member :
  persists P -> triple P (Connections.release hash member) anything.
Proof.
  intros HP. apply triple_catch; [done| |intros e; apply triple_throw].
  apply triple_command; [done|]. intros x. apply foreign_kept. unfold Connections.connectionKey.
  change ("rl:conn:" +:+ hash) with ("rl:" +:+ ("conn:" +:+ hash)). foreign_script.
Qed.
End Foreign.

(** ** Announcements *)

Section Commands.
Context `{Zod} `{ZodUuid} `{ZodDatetime} `{ChessJs} `{!ChessJsLaws} `{Prisma}.
Context `{Redis, !RedisLaws, !RedisCounters, !RedisCountersLaws} `{JsonText} `{NodeCrypto} `{NodeHash}.
Context (config : AppConfig) (start : start_law).

#[local] Existing Instance delivery.

Notation anything := (fun _ _ => True).

Lemma time_triple P : persists P -> triple P clock (fun t _ => time_ok t).
Proof.
  intros HP. apply triple_look; [done..|]. intros w x t _ _ (_ & _ & _ & _ & Ht) [= <-]. done.
Qed.

Lemma uuid_triple P : persists P -> triple P randomUUID anything.
Proof. intros HP. by apply triple_look. Qed.

Lemma createServerEvent_triple P d :
  persists P -> Codec.shape_ok (dr_payload d) (dr_subject d) ->
  triple P (createServerEvent d)
    (fun event _ => tells event = told_game (dr_payload d) (dr_subject d) /\
                    se_payload event = dr_payload d).
Proof.
  intros HP Hs. unfold createServerEvent. prog_seq ltac:(by apply uuid_triple).
  prog_seq ltac:(by apply clock_triple). apply triple_lift. intros w event _.
  unfold parsed. destruct (serverEnvelopeSchema _) as [s|] eqn:E; [|done]. intros [= <-].
  by pose proof (Codec.same_server_event (stamped d _ _) s Hs E) as ->.
Qed.

Section Announce.
Context (guest : string).

Notation ttriple := (ttriple guest).

Lemma createEvent_triple P d :
  persists P -> Codec.shape_ok (dr_payload d) (dr_subject d) ->
  ttriple P (createEvent d)
    (fun event _ => tells event = told_game (dr_payload d) (dr_subject d) /\
                    se_payload event = dr_payload d).
Proof. intros HP Hs. by apply hear_triple, createServerEvent_triple. Qed.

Lemma seq_hear_triple {A B} P (p : Prog A) (f : A -> Talk B) Q :
  persists P -> triple P p anything -> (forall a, ttriple P (f a) Q) -> ttriple P (hear p ≫= f) Q.
Proof. intros HP Hp. by apply talk_seq_triple, hear_triple. Qed.

(** An event about a game, to its room or to one of its players. *)
Definition addressed (room : string) (d : ServerEventDraft) (w : World) : Prop :=
  forall gid, told_game (dr_payload d) (dr_subject d) = Some gid ->
    room = gameRoom gid \/ exists player, room = guestRoom player /\ seated (w_db w) gid player.

Lemma emit_triple P room d event Q :
  (forall w, P w -> tells event = told_game (dr_payload d) (dr_subject d) /\ addressed room d w /\ Q tt w) ->
  ttriple P (emit room event) Q.
Proof.
  intros HQ. apply say_triple. intros w Hw. destruct (HQ w Hw) as (Ht & Ha & HQw).
  split; [|done]. intros gid Hg. apply Ha. congruence.
Qed.

Lemma announce_triple P room d :
  persists P -> Codec.shape_ok (dr_payload d) (dr_subject d) ->
  (forall w, P w -> addressed room d w) ->
  ttriple P (event ← createEvent d; emit room event) anything.
Proof.
  intros HP Hs Ha. eapply talk_bind_triple;
    [done| |by apply createEvent_triple|intros event]; [by intros ? ? ?|].
  apply (emit_triple _ _ d). intros w (Hw & Ht & _). auto.
Qed.

Ltac to_room := apply announce_triple; [done|simpl; eauto|intros w _ gid' [= <-]; by left].

Lemma publishStarted_triple P started : persists P -> ttriple P (publishStarted started) anything.
Proof. intros HP. to_room. Qed.
Lemma publishAccepted_triple P accepted : persists P -> ttriple P (publishAccepted accepted) anything.
Proof. intros HP. to_room. Qed.
Lemma playerDisconnected_triple P event : persists P -> ttriple P (playerDisconnected event) anything.
Proof. intros HP. to_room. Qed.
Lemma playerReconnected_triple P event : persists P -> ttriple P (playerReconnected event) anything.
Proof. intros HP. to_room. Qed.

Lemma quiet_triple P o Q : (forall w, room_ok guest o w) -> (forall w, P w -> Q tt w) -> ttriple P (say o) Q.
Proof. intros Ho HQ. apply say_triple. auto. Qed.

Lemma gameEnded_triple P submission :
  persists P ->
  (forall w, P w -> pair_seated (w_db w) (eg_gameId (ts_ended submission)) (ts_guestSessionIds submission)) ->
  ttriple P (gameEnded submission) anything.
Proof.
  intros HP Hseat. unfold gameEnded. cbv zeta.
  set (d := ended_draft (ts_ended submission)).
  eapply talk_bind_triple;
    [done| |apply createEvent_triple; [done|simpl; eauto]|intros event]; [by intros ? ? ?|].
  pose (P' w := P w /\ tells event = told_game (dr_payload d) (dr_subject d)).
  assert (persists P') as HP' by (apply persists_and; [done|apply persists_const]).
  apply (ttriple_weaken guest P'); [by intros w (Hw & Ht & _)|].
  apply talk_seq_triple; [done| |intros _; apply talk_seq_triple; [done| |intros _]].
  - apply (emit_triple _ _ d). intros w [Hw Ht]. split; [done|]. split; [|done].
    intros gid [= <-]. right. eexists. split; [done|]. by apply Hseat.
  - apply (emit_triple _ _ d). intros w [Hw Ht]. split; [done|]. split; [|done].
    intros gid [= <-]. right. eexists. split; [done|]. by apply Hseat.
  - apply talk_seq_triple; [done|by apply quiet_triple|intros _; by apply quiet_triple].
Qed.

Lemma publishMatchFound_triple P allocation player opponent :
  persists P ->
  (forall w, P w -> seated (w_db w) (Games.gr_id (Games.ga_game allocation)) (Games.gp_guestSessionId player)) ->
  ttriple P (publishMatchFound allocation player opponent) anything.
Proof.
  intros HP Hs. unfold publishMatchFound.
  destruct (Games.gr_joinDeadlineAt _) as [deadline|]; [|apply talk_throw_triple].
  set (d := match_draft allocation player opponent deadline).
  eapply talk_bind_triple;
    [done| |apply createEvent_triple; [done|simpl; eauto]|intros left]; [by intros ? ? ?|].
  assert (forall c : Prop, persists (fun w => P w /\ c)) as Hc
    by (intros c; apply persists_and; [done|apply persists_const]).
  eapply talk_bind_triple;
    [apply Hc| |apply createEvent_triple; [apply Hc|simpl; eauto]|intros found]; [by intros ? ? ?|].
  apply talk_seq_triple; [apply persists_and; [apply Hc|apply persists_const]| |intros _].
  - apply (emit_triple _ _ (left_draft LeftMatched)). intros w ((Hw & Ht & _) & _). split; [done|]. by split.
  - apply (emit_triple _ _ d). intros w ((Hw & _) & Ht & _). split; [done|]. split; [|done].
    intros gid [= <-]. right. eexists. split; [done|]. by apply Hs.
Qed.

Lemma publishAllocation_triple P allocation :
  persists P -> (forall w, P w -> al_seated (w_db w) allocation) ->
  ttriple P (publishAllocation allocation) anything.
Proof.
  intros HP Hs. unfold publishAllocation, al_seated in *.
  destruct (Games.ga_players allocation) as [first second].
  apply talk_seq_triple; [done|apply publishMatchFound_triple; [done|]|intros _].
  { intros w Hw. by apply Hs. }
  apply talk_seq_triple; [done|apply publishMatchFound_triple; [done|]|intros _; by apply quiet_triple].
  intros w Hw. by apply Hs.
Qed.

Lemma publishEffects_triple P effects :
  persists P -> (forall w, P w -> effects_seated effects w) ->
  ttriple P (publishEffects effects) anything.
Proof.
  intros HP Hs. unfold publishEffects.
  apply talk_seq_triple; [done|apply sayAll_triple; [done|]|intros _].
  { intros removed _. by apply announce_triple. }
  apply talk_seq_triple; [done|apply sayAll_triple; [done|]|intros _].
  { intros requeued _. by apply announce_triple. }
  apply sayAll_triple; [done|]. intros al Hal. apply publishAllocation_triple; [done|].
  intros w Hw. by apply (proj1 (Forall_forall _ _) (Hs w Hw)).
Qed.

Lemma announcing_triple {A} P (service : Prog A) announce Q :
  persists P -> (forall a, persists (Q a)) -> triple P service Q ->
  (forall a, ttriple (fun w => P w /\ Q a w) (announce a) anything) ->
  ttriple P (announcing service announce) Q.
Proof.
  intros HP HQ Hs Ha. unfold announcing.
  eapply talk_bind_triple; [done|exact HQ|by apply hear_triple|intros a].
  apply talk_seq_triple; [by apply persists_and|apply Ha|intros _]. apply talk_ret_triple. by intros w [].
Qed.
End Announce.

(** ** The commands *)

Section Sockets.
Context (identity : AuthenticatedSocketIdentity) (drainGraceMs : positive).
Let guest : string := si_guestSessionId identity.

Notation ttriple := (ttriple guest).

Lemma joinQueue_triple P isReady :
  zod_uuid guest = true -> persists P ->
  ttriple P (joinQueue config drainGraceMs isReady identity) anything.
Proof.
  intros Hg HP. unfold joinQueue. destruct (negb isReady); [apply talk_throw_triple|].
  eapply (talk_bind_triple _ _ _ _ (fun r => effects_seated r.1));
    [done|intros r; apply persists_effects|apply hear_triple; [done|]|intros r].
  - prog_bind ltac:(by apply time_triple). apply triple_pure. intros Ht. by apply join_triple.
  - apply talk_seq_triple; [|apply publishEffects_triple|intros _; by apply talk_ret_triple];
      try (apply persists_and; [done|apply persists_effects]). by intros w [].
Qed.

Lemma leaveQueue_triple P : persists P -> ttriple P (leaveQueue config identity) anything.
Proof.
  intros HP. unfold leaveQueue. cbv zeta.
  apply seq_hear_triple; [done|by apply service_leave_triple|intros _].
  eapply talk_bind_triple; [done| |by apply createEvent_triple|intros event]; [by intros ? ? ?|].
  apply talk_seq_triple; [apply persists_and; [done|apply persists_const]| |intros _; by apply talk_ret_triple].
  apply (emit_triple _ _ _ (draft (QueueLeft LeftRequested))). intros w (_ & Ht & _). split; [done|]. by split.
Qed.

Lemma joinGameRoom_triple P gid :
  (forall w, P w -> seated (w_db w) gid guest) -> ttriple P (joinGameRoom gid) anything.
Proof. intros Hs. apply say_triple. intros w Hw. split; [|done]. right. eauto. Qed.

Lemma readyGame_triple P gid version :
  persists P -> ttriple P (readyGame gid version identity) anything.
Proof.
  intros HP. unfold readyGame. cbv zeta.
  eapply talk_bind_triple;
    [done| |by apply hear_triple; [|apply (authorize_triple P gid)]|intros al; cbv beta];
    [intros al; apply persists_seated|].
  apply talk_seq_triple; [apply persists_and; [done|apply persists_seated]| |intros _].
  { apply joinGameRoom_triple. by intros w []. }
  apply (ttriple_weaken guest P); [by intros w []|].
  apply seq_hear_triple; [done| |intros result].
  { prog_seq ltac:(by apply clock_triple). by apply ready_triple. }
  apply talk_seq_triple; [done| |intros _].
  - destruct result.2; [by apply publishStarted_triple|by apply talk_ret_triple].
  - apply talk_seq_triple; [done|by apply say_lift_triple|intros payload; by apply talk_ret_triple].
Qed.

Lemma syncGame_triple P gameId :
  persists P -> ttriple P (syncGame config gameId identity) anything.
Proof.
  intros HP. unfold syncGame. cbv zeta.
  eapply (talk_bind_triple _ _ _ _ (fun r w => seated (w_db w) (Services.rs_gameId r) guest));
    [done|intros r; apply persists_seated|apply hear_triple; [done|]|intros snapshot; cbv beta].
  - destruct gameId as [gid|]; [|by apply activeRecovered_triple].
    eapply triple_mono; [done| |by apply (snapshotInternal_triple config P gid)]. by intros r w [-> Hs].
  - apply talk_seq_triple; [apply persists_and; [done|apply persists_seated]| |intros _].
    { apply joinGameRoom_triple. by intros w []. }
    apply (ttriple_weaken guest P); [by intros w []|].
    apply seq_hear_triple; [done|by apply scheduleGame_triple|intros _; by apply talk_ret_triple].
Qed.

#[local] Hint Resolve persists_submission persists_terminal persists_adjudicated persists_effects : persists.

Lemma submitMove_triple P mid gid version from to promotion :
  persists P -> ttriple P (submitMove config mid gid version from to promotion identity) anything.
Proof.
  intros HP. unfold submitMove.
  eapply talk_bind_triple;
    [done| |by apply hear_triple; [|apply submit_triple]|intros submission; cbv beta];
    [intros r; apply persists_submission|].
  assert (persists (fun w => P w /\ submission_seated submission w)) as HP' by persist.
  apply talk_seq_triple; [done| |intros _; by apply talk_ret_triple].
  destruct (ms_duplicate submission) eqn:Ed; [by apply talk_ret_triple|].
  apply talk_seq_triple; [done| |intros _].
  { destruct (ms_started submission); [by apply publishStarted_triple|by apply talk_ret_triple]. }
  apply talk_seq_triple; [done|by apply publishAccepted_triple|intros _].
  destruct (ms_ended submission) as [ended|] eqn:Ee; [|by apply talk_ret_triple].
  apply gameEnded_triple; [done|]. intros w [_ Hs]. by apply Hs.
Qed.

(** The end of a game, if a service ended it, is announced to its players. *)
Lemma endAnnounced_triple P submission :
  persists P -> (forall w, P w -> adjudicated_seated submission w) ->
  ttriple P (endAnnounced submission) anything.
Proof.
  intros HP Hs. unfold endAnnounced. destruct submission as [s|]; [|by apply talk_ret_triple].
  destruct (ts_duplicate s) eqn:Ed; [by apply talk_ret_triple|].
  apply gameEnded_triple; [done|]. intros w Hw. by apply (Hs w Hw).
Qed.

Lemma ending_announced_triple P (service : Prog (option TerminalSubmission)) :
  persists P -> triple P service adjudicated_seated ->
  ttriple P (announcing service endAnnounced) adjudicated_seated.
Proof.
  intros HP Hs. apply announcing_triple; [done|apply persists_adjudicated|done|intros submission].
  apply endAnnounced_triple; [persist|by intros w []].
Qed.

Lemma timedOut_triple P gid : persists P -> ttriple P (timedOut config gid) anything.
Proof.
  intros HP. eapply ttriple_any, ending_announced_triple; [done|by apply adjudicateGame_triple].
Qed.

Lemma endedForReset_announced_triple P g : persists P -> ttriple P (Realtime.endedForReset config g) anything.
Proof.
  intros HP. eapply ttriple_any, ending_announced_triple; [done|by apply endedForReset_triple].
Qed.

(** A service that may end a game, and what is announced of it. *)
Lemma resigned_triple P (service : Prog TerminalSubmission) :
  persists P -> triple P service terminal_seated ->
  ttriple P (announcing service (fun submission => endAnnounced (Some submission))) terminal_seated.
Proof.
  intros HP Hs. apply announcing_triple; [done|apply persists_terminal|done|intros submission].
  apply endAnnounced_triple; [persist|]. intros w [_ Hw] s [= <-]. exact Hw.
Qed.

Lemma resignGame_triple P gid version eventId :
  persists P -> ttriple P (resignGame config gid version eventId identity) anything.
Proof.
  intros HP. unfold resignGame. apply talk_seq_triple; [done| |intros s; by apply talk_ret_triple].
  apply (ttriple_any guest P _ terminal_seated), resigned_triple; [done|by apply resign_triple].
Qed.

Lemma execute_triple P isReady event :
  zod_uuid guest = true -> persists P ->
  ttriple P (execute config drainGraceMs isReady event identity) anything.
Proof.
  intros Hg HP. unfold execute. destruct (ce_event event).
  - by apply joinQueue_triple.
  - by apply leaveQueue_triple.
  - by apply readyGame_triple.
  - by apply submitMove_triple.
  - by apply resignGame_triple.
  - by apply syncGame_triple.
  - apply talk_throw_triple.
Qed.

(** ** Presence *)

Lemma finallyDisconnected_triple P :
  persists P -> ttriple P (finallyDisconnected config guest) anything.
Proof.
  intros HP. unfold finallyDisconnected.
  apply talk_seq_triple; [done| |intros queueResult].
  { apply (settled_triple guest P _ anything); [done|]. apply hear_triple; [done|].
    by apply service_leave_triple. }
  apply talk_seq_triple; [done| |intros gameResult].
  { apply (settled_triple guest P _ anything); [done|].
    apply announcing_triple; [done|done|by apply disconnected_triple|intros event].
    assert (persists (fun w => P w /\ True)) as HP' by persist.
    destruct event; [by apply playerDisconnected_triple|by apply talk_ret_triple]. }
  apply talk_seq_triple; [done| |intros _].
  { repeat case_match; first [by apply talk_ret_triple|by apply announce_triple]. }
  repeat case_match; first [by apply talk_ret_triple|by apply hear_triple, scheduleGame_triple].
Qed.

Lemma reconnectedGuest_triple P : persists P -> ttriple P (reconnectedGuest guest) anything.
Proof.
  intros HP. unfold reconnectedGuest. apply talk_seq_triple; [done| |intros event].
  - apply announcing_triple; [done|done|by apply reconnected_triple|intros event].
    assert (persists (fun w => P w /\ True)) as HP' by persist.
    destruct event; [by apply playerReconnected_triple|by apply talk_ret_triple].
  - destruct event; [by apply hear_triple, scheduleGame_triple|by apply talk_ret_triple].
Qed.

(** ** Jobs *)

Lemma job_work_triple P pages name : persists P -> triple P (job_work config pages name) effects_seated.
Proof.
  intros HP. unfold job_work. prog_bind ltac:(by apply time_triple). apply triple_pure. intros Ht.
  destruct name; [by apply drain_triple|by apply reconcile_triple|by apply sweep_triple].
Qed.

Lemma runJob_triple P pages running name :
  persists P -> ttriple P (runJob config pages running name) anything.
Proof.
  intros HP. unfold runJob. destruct running; [by apply talk_ret_triple|].
  apply handle_triple; [done| |intros e; by apply talk_ret_triple].
  eapply talk_bind_triple;
    [done| |by apply hear_triple; [|apply job_work_triple]|intros effects; cbv beta];
    [intros effects; apply persists_effects|].
  apply publishEffects_triple; [persist|by intros w []].
Qed.
End Sockets.
End Commands.
End RealtimeSafety.
