(* ===== verification/CacheEdge.v ===== *)
(** * The gateway and the HTTP endpoints among the others

    What sockets and requests set off keeps what the other programs rely on, and
    shows games only to their players. *)

From S2P Require Export CacheRealtime HttpApi.
Local Open Scope string_scope.
Local Open Scope list_scope.
Local Open Scope Z_scope.

Module EdgeSafety.
Import Scripts Cache Triples MatchmakingSafety GamesSafety SessionsSafety RealtimeSafety.
Import Protocol RealtimeProtocol Realtime Gateway.

(** ** The gateway *)

(** What is known of an identity that was let in. *)
Definition admitted (identity : AuthenticatedSocketIdentity) : Prop :=
  UUID_V4 (si_guestSessionId identity) = true.

Section Edge.
Context `{Zod} `{ZodUuid} `{ZodDatetime} `{ChessJs} `{!ChessJsLaws} `{Prisma}.
Context `{Redis, !RedisLaws, !RedisCounters, !RedisCountersLaws} `{JsonText} `{NodeCrypto} `{NodeHash}.
Context `{ErrorMessages} (config : AppConfig) (start : start_law).
Context (limits : RateLimits.RateLimitConfig) (connectionLimit : positive).
Context (tokens : Tokens.JwtTokenService) (instanceId : string) (maxPayloadBytes drainGraceMs : positive).

#[local] Existing Instance delivery.

Notation anything := (fun _ _ => True).

Lemma isRevoked_triple P identity : persists P -> triple P (SessionServices.isRevoked identity) anything.
Proof.
  intros HP. apply triple_catch; [done| |intros e; apply triple_throw].
  prog_seq ltac:(by apply read_triple). prog_ret.
Qed.

Lemma uuid_returning P : persists P -> returning P randomUUID anything.
Proof.
  intros HP w Hw Hw' w1 x HR Hok. destruct (HR Hw) as [Hw1 _]. split; [done|]. simpl. eauto.
Qed.

Lemma attempted_triple {A} P (p : Prog A) : triple P p anything -> triple P (attempt p) anything.
Proof. intros Hp. by eapply triple_any, triple_attempt. Qed.

(** Whoever is let in has a token that was signed for it. *)
Lemma authenticate_triple P auth socketId address correlation :
  persists P ->
  triple P (Connections.authenticate config connectionLimit tokens instanceId auth socketId address correlation)
    (fun data _ => admitted (Connections.sd_identity data)).
Proof.
  intros HP. unfold Connections.authenticate. destruct (Connections.handshakeAuthSchema auth) as [token|];
    [|apply triple_throw].
  apply triple_catch; [done| |intros e; destruct e; apply triple_throw].
  prog_seq ltac:(by apply clock_triple).
  prog_bind ltac:(apply (triple_lift _ _ (fun guest _ => UUID_V4 (Tokens.ag_guestSessionId guest) = true))).
  { intros w guest _. destruct (Tokens.verify _ _ _) as [g|] eqn:Ev; [|done]. intros [= <-].
    by apply Tokens.verified_token_is_signed in Ev as (? & ? & ? & ? & ? & Hv); tauto. }
  apply triple_pure. intros Hv. prog_seq ltac:(by apply isRevoked_triple).
  match goal with |- triple _ (if ?c then _ else _) _ => destruct c end; [apply triple_throw|].
  prog_bind ltac:(apply (triple_lift _ _ (fun identity _ => admitted identity))).
  { intros w identity _. unfold Connections.identity_of, admitted. case_match; [|done]. by intros [= <-]. }
  cbv zeta. prog_seq ltac:(apply clock_triple; persist).
  prog_seq ltac:(apply acquire_triple; persist).
  prog_seq ltac:(apply triple_catch; [persist| |intros e]).
  { prog_seq ltac:(apply clock_triple; persist). apply refresh_triple; persist. }
  { eapply triple_seq; [persist| |intros _; apply triple_throw].
    apply triple_catch; [persist|apply connection_release_triple; persist|intros e']. prog_ret. }
  apply triple_ret. by intros w [].
Qed.

Lemma handshake_triple P isReady header auth socketId address :
  persists P ->
  triple P (handshake config connectionLimit tokens instanceId drainGraceMs isReady header auth socketId address)
    (fun result _ => forall data, result = LetIn data -> admitted (identity data)).
Proof.
  intros HP. unfold handshake.
  prog_seq ltac:(unfold correlationId; repeat case_match; first [by apply uuid_triple|prog_ret]).
  destruct (negb isReady); [by apply triple_ret|].
  apply triple_catch; [done| |intros e; by apply triple_ret].
  prog_bind ltac:(by apply authenticate_triple). apply triple_ret. by intros w [_ Hw] data [= <-].
Qed.

Section Socket.
Context (socket : Socket) (admitted_uuid : zod_uuid (guest_of socket) = true).

Notation ttriple := (ttriple (guest_of socket)).

Lemma emitServerError_triple P error correlation :
  persists P -> ttriple P (emitServerError error correlation) anything.
Proof.
  intros HP. unfold emitServerError.
  eapply talk_bind_triple; [done| |by apply createEvent_triple|intros event]; [by intros ? ? ?|].
  apply say_triple. intros w (_ & Ht & _). split; [|done]. intros gid. by rewrite Ht.
Qed.

Lemma emitDrainAdvisory_triple P : persists P -> ttriple P (emitDrainAdvisory drainGraceMs) anything.
Proof.
  intros HP. unfold emitDrainAdvisory.
  eapply talk_bind_triple; [done| |by apply createEvent_triple|intros event]; [by intros ? ? ?|].
  apply say_triple. intros w (_ & Ht & _). split; [|done]. intros gid. by rewrite Ht.
Qed.

Lemma findActiveGameId_triple P guest :
  persists P ->
  triple P (findActiveGameId guest) (fun r w => forall gid, r = Some gid -> seated (w_db w) gid guest).
Proof.
  intros HP. apply triple_query; [done|]. intros w x r [Hwf _] _ [= <-] gid Ha.
  destruct (wf_assigned _ Hwf _ _ Ha) as [row Hrow]. split; [by exists row|].
  exact (proj2 (proj1 (gi_assigned _ _ _ _ (wf_games _ Hwf _ _ Hrow) guest) Ha)).
Qed.

Lemma executeEvent_triple P isReady event :
  persists P -> ttriple P (executeEvent config drainGraceMs isReady socket event) anything.
Proof.
  intros HP.
  pose proof (execute_triple config start (identity socket) drainGraceMs P isReady event admitted_uuid HP) as Hx.
  unfold executeEvent. destruct (ce_event event) as [| |gid v|mid gid v from to promotion|gid v|gid v|v];
    try exact Hx.
  - apply seq_hear_triple; [done| |intros _].
    { unfold refresh_settled. prog_seq ltac:(apply attempted_triple).
      { prog_seq ltac:(by apply clock_triple). by apply refresh_triple. }
      prog_seq ltac:(apply attempted_triple); [|prog_ret].
      prog_seq ltac:(by apply clock_triple). by apply connection_refresh_triple. }
    destruct gid as [gid|]; [exact Hx|].
    apply seq_hear_triple; [done|by eapply triple_any, findActiveGameId_triple|intros active].
    destruct active; [exact Hx|by apply talk_ret_triple].
  - apply seq_hear_triple; [done| |intros _].
    { unfold heartbeat. eapply triple_any, (triple_both _ _ _ anything anything); [done|..|done].
      - prog_seq ltac:(by apply clock_triple). by apply refresh_triple.
      - prog_seq ltac:(by apply clock_triple). by apply connection_refresh_triple. }
    apply seq_hear_triple; [done|by apply clock_triple|intros now; by apply talk_ret_triple].
Qed.

Lemma acknowledge_triple P (made : result fault RealtimeAck) :
  persists P -> ttriple P (ack ← say_lift made; say (Acknowledge ack)) anything.
Proof.
  intros HP. apply talk_seq_triple; [done|by apply say_lift_triple|intros ack]. by apply quiet_triple.
Qed.

Lemma handleIncoming_triple P isReady name raw acknowledgment :
  persists P ->
  ttriple P (handleIncoming config limits maxPayloadBytes drainGraceMs isReady socket name raw acknowledgment)
    anything.
Proof.
  intros HP. unfold handleIncoming.
  assert (forall value, triple P (correlationId value) anything) as Hid.
  { intros value. unfold correlationId. repeat case_match; first [by apply uuid_triple|prog_ret]. }
  apply seq_hear_triple; [done|apply Hid|intros correlation].
  apply seq_hear_triple; [done|apply Hid|intros requestId].
  apply handle_triple; [done| |intros error].
  - unfold command_body. destruct (negb acknowledgment); [apply talk_throw_triple|].
    apply talk_seq_triple; [done|by apply say_lift_triple|intros event].
    apply seq_hear_triple; [done|by apply consume_triple|intros _].
    apply talk_seq_triple; [done|by apply executeEvent_triple|intros result].
    by apply acknowledge_triple.
  - unfold command_failed. cbv zeta. destruct acknowledgment; [by apply acknowledge_triple|].
    by apply emitServerError_triple.
Qed.

(** ** Connections *)

Lemma emitInitialGameSnapshot_triple P isReady gid :
  persists P -> (forall w, P w -> seated (w_db w) gid (guest_of socket)) ->
  ttriple P (emitInitialGameSnapshot config drainGraceMs isReady socket gid) anything.
Proof.
  intros HP Hs. unfold emitInitialGameSnapshot.
  apply seq_hear_triple; [done|by apply uuid_triple|intros eventId].
  apply seq_hear_triple; [done|by apply clock_triple|intros timestamp].
  apply talk_seq_triple; [done|apply (execute_triple config start (identity socket)); [exact admitted_uuid|done]|].
  intros result. destruct (cr_payload result); try apply talk_throw_triple.
  destruct (cr_gameVersion result); [|apply talk_throw_triple].
  eapply talk_bind_triple;
    [done| |apply createEvent_triple; [done|simpl; eauto]|intros event]; [by intros ? ? ?|].
  apply say_triple. intros w (Hw & Ht & _). split; [|done]. intros gid'. rewrite Ht. intros [= <-].
  by apply Hs.
Qed.

Lemma sessionReadyEvent_triple P correlation :
  persists P ->
  ttriple P (sessionReadyEvent (identity socket) correlation)
    (fun event w => forall gid, tells event = Some gid -> seated (w_db w) gid (guest_of socket)).
Proof.
  intros HP. unfold sessionReadyEvent.
  eapply talk_bind_triple;
    [done| |by apply hear_triple; [|apply findActiveGameId_triple]|intros active; cbv beta];
    [intros r; persist|].
  assert (persists (fun w => P w /\ forall gid, active = Some gid -> seated (w_db w) gid (guest_of socket)))
    as HP' by persist.
  eapply ttriple_mono; [|apply ttriple_keep; [exact HP'|by apply createEvent_triple]].
  intros event w ((_ & Hs) & Ht & _) gid. rewrite Ht. apply Hs.
Qed.

Lemma initializeSocket_triple P isReady :
  persists P -> ttriple P (initializeSocket config drainGraceMs isReady socket) anything.
Proof.
  intros HP. unfold initializeSocket. apply handle_triple; [done| |intros error].
  - apply talk_seq_triple; [done| |intros _]. { apply say_triple. intros w _. split; [by left|done]. }
    apply talk_seq_triple; [done|by apply reconnectedGuest_triple|intros _].
    eapply talk_bind_triple; [done| |by apply sessionReadyEvent_triple|intros event; cbv beta];
      [intros event; persist|].
    set (P' := fun w => P w /\ _). assert (persists P') as HP' by (unfold P'; persist).
    apply talk_seq_triple; [done| |intros _]. { apply say_triple. by intros w [_ Hs]. }
    destruct (se_payload event) as [active ? | | | | | | | | | | | |] eqn:Ep; try by apply talk_ret_triple.
    destruct active as [gid|]; [|by apply talk_ret_triple].
    apply emitInitialGameSnapshot_triple; [done|]. intros w [_ Hs]. apply Hs. unfold tells. by rewrite Ep.
  - apply talk_seq_triple; [done|by apply emitServerError_triple|intros _]. by apply quiet_triple.
Qed.

Lemma handleConnection_triple P isReady :
  persists P -> ttriple P (handleConnection config drainGraceMs isReady socket) anything.
Proof.
  intros HP. unfold handleConnection. destruct (negb isReady); [|by apply initializeSocket_triple].
  apply talk_seq_triple; [done|by apply emitDrainAdvisory_triple|intros _]. by apply quiet_triple.
Qed.

Lemma cleanUpSocket_triple P : persists P -> ttriple P (cleanUpSocket config socket) anything.
Proof.
  intros HP. unfold cleanUpSocket.
  apply talk_seq_triple; [done| |intros presence].
  { apply (settled_triple _ P _ anything); [done|]. apply hear_triple; [done|].
    prog_seq ltac:(by apply clock_triple). by apply remove_triple. }
  apply talk_seq_triple; [done| |intros _].
  { apply (settled_triple _ P _ anything); [done|]. apply hear_triple; [done|].
    by apply connection_release_triple. }
  repeat case_match; try by apply talk_ret_triple.
  apply handle_triple; [done| |intros e; by apply talk_ret_triple].
  by apply (finallyDisconnected_triple config (identity socket)).
Qed.
(** What an event of a socket, of the server or of a timer sets off, and what the reset of
    a session announces of the game it ends. *)
Inductive edge_program : Talk () -> Prop :=
| Connects isReady : edge_program (handleConnection config drainGraceMs isReady socket)
| Sends isReady name raw acknowledgment :
    edge_program (handleIncoming config limits maxPayloadBytes drainGraceMs isReady socket name raw acknowledgment)
| Closes : edge_program (cleanUpSocket config socket)
| Runs pages running name : edge_program (runJob config pages running name)
| TimesOut gid : edge_program (_ ← timedOut config gid; mret ())
| Resets guest : edge_program (_ ← Realtime.endedForReset config guest; mret ()).

Lemma edge_triple P p : edge_program p -> persists P -> ttriple P p anything.
Proof.
  intros Hp HP. destruct Hp.
  - by apply handleConnection_triple.
  - by apply handleIncoming_triple.
  - by apply cleanUpSocket_triple.
  - by apply (runJob_triple config start (identity socket)).
  - apply talk_seq_triple; [done|by apply timedOut_triple|intros _; by apply talk_ret_triple].
  - apply talk_seq_triple; [done|by apply endedForReset_announced_triple|intros _; by apply talk_ret_triple].
Qed.
End Socket.
End Edge.

(** ** The HTTP endpoints *)

Section Endpoints.
Import HttpApi.
Context `{Zod} `{ZodUuid} `{ZodDatetime} `{ChessJs} `{!ChessJsLaws} `{Prisma}.
Context `{Redis, !RedisLaws, !RedisCounters, !RedisCountersLaws} `{JsonText} `{NodeCrypto} `{NodeHash}.
Context `{ErrorMessages} `{GuestSocketDisconnect} (config : AppConfig).
Context (limits : RateLimits.RateLimitConfig) (tokens : Tokens.JwtTokenService).
Context (cookieEnabled : bool) (cookieName : string) (secureCookie : bool).

#[local] Existing Instance delivery.
Let ports : SessionServices.SessionPorts := game_ports config.
#[local] Existing Instance ports.

Notation anything := (fun _ _ => True).

(** The guest whose token the request carries. *)
Definition carries (request : HttpRequest) (guest : Tokens.AuthenticatedGuest) : Prop :=
  exists token now, SessionServices.extractToken cookieName (hr_auth request) = Some token /\
    Tokens.verify tokens token now = Ok guest.

(** The games of a response are games of whoever asked. *)
Definition shown (route : Route) (request : HttpRequest) (response : HttpResponse) (w : World) : Prop :=
  rs_status response = 200 ->
  match route with
  | GetGamesActive =>
      exists guest, carries request guest /\
        forall gid, key_of (rs_body response) "gameId" = Some (JStr gid) ->
          seated (w_db w) gid (Tokens.ag_guestSessionId guest)
  | GetGamesSnapshot raw =>
      exists guest gid, carries request guest /\ gameIdParameterSchema (JStr raw) = Some gid /\
        seated (w_db w) gid (Tokens.ag_guestSessionId guest)
  | _ => True
  end.

Lemma canActivate_triple P request allowRevoked :
  persists P ->
  triple P (canActivate tokens cookieName request allowRevoked) (fun r _ => carries request r.1).
Proof.
  intros HP. unfold canActivate, SessionServices.authenticate.
  apply triple_catch; [done| |intros e; destruct e; apply triple_throw].
  prog_bind ltac:(apply (triple_lift _ _ (fun token _ =>
    SessionServices.extractToken cookieName (hr_auth request) = Some token))).
  { intros w token _. case_match; [|done]. by intros [= <-]. }
  apply triple_pure. intros Htoken. prog_bind ltac:(by apply clock_triple).
  apply (triple_weaken P); [by intros w []|].
  prog_bind ltac:(apply (triple_lift _ _ (fun identity _ => carries request identity))).
  { intros w identity _. case_match; [|done]. intros [= <-]. eexists _, _. eauto. }
  apply triple_pure. intros Hb. prog_seq ltac:(by apply isRevoked_triple).
  match goal with |- triple _ (if ?c then _ else _) _ => destruct c end; [apply triple_throw|].
  by apply triple_ret.
Qed.

Definition seen (route : Route) (request : HttpRequest) (answer : Answer) (w : World) : Prop :=
  forall body, an_body answer = Ok body ->
  shown route request (mkHttpResponse (an_status answer) "" (an_cookie answer) None body) w.

Lemma handler_triple P route request correlationId :
  persists P ->
  triple P (handler config limits tokens cookieEnabled cookieName secureCookie route request correlationId)
    (seen route request).
Proof.
  intros HP. destruct route as [random| | | | |raw]; cbn [handler].
  - unfold create. prog_seq ltac:(by apply triple_lift). prog_seq ltac:(by apply consume_session_triple).
    prog_seq ltac:(apply triple_acts, SessionActions.createSession_acts, rely_guarantee).
    prog_seq ltac:(by apply triple_lift). apply triple_ret. by intros w _ body _.
  - unfold renew. prog_seq ltac:(by eapply triple_any, canActivate_triple).
    match goal with |- triple _ (let (_, _) := ?a in _) _ => destruct a as [identity revoked] end.
    prog_seq ltac:(by apply triple_lift). prog_seq ltac:(by apply consume_session_triple).
    prog_seq ltac:(apply triple_acts, SessionActions.renewSession_acts, rely_guarantee).
    prog_seq ltac:(by apply triple_lift). apply triple_ret. by intros w _ body _.
  - unfold getCurrent. prog_seq ltac:(by eapply triple_any, canActivate_triple).
    match goal with |- triple _ (let (_, _) := ?a in _) _ => destruct a as [identity revoked] end.
    prog_seq ltac:(by apply consume_session_triple). prog_seq ltac:(by apply clock_triple).
    prog_seq ltac:(apply triple_acts, SessionActions.getCurrent_acts, rely_guarantee).
    prog_seq ltac:(by apply triple_lift). prog_seq ltac:(by apply triple_lift).
    apply triple_ret. by intros w _ body _.
  - unfold reset. prog_seq ltac:(by eapply triple_any, canActivate_triple).
    match goal with |- triple _ (let (_, _) := ?a in _) _ => destruct a as [identity revoked] end.
    prog_seq ltac:(by apply triple_lift). prog_seq ltac:(by apply consume_session_triple).
    prog_seq ltac:(by apply resetSession_triple). apply triple_ret. by intros w _ body _.
  - unfold active. prog_bind ltac:(by apply canActivate_triple).
    match goal with |- triple _ (let (_, _) := ?a in _) _ => destruct a as [identity revoked] end.
    apply triple_pure. intros Hb. prog_seq ltac:(by apply consume_recovery_triple).
    prog_bind ltac:(by apply activeGameId_triple). apply triple_ret. intros w [_ Hs] body.
    cbn [an_body an_status an_cookie]. unfold checked. case_match; [|done]. intros [= <-] _.
    exists identity. split; [done|]. intros gid. simpl. case_match; [|done]. intros [= <-]. by apply Hs.
  - unfold snapshot. prog_bind ltac:(by apply canActivate_triple).
    match goal with |- triple _ (let (_, _) := ?a in _) _ => destruct a as [identity revoked] end.
    apply triple_pure. intros Hb.
    prog_bind ltac:(apply (triple_lift _ _ (fun gid _ => gameIdParameterSchema (JStr raw) = Some gid))).
    { intros w gid _. case_match; [|done]. by intros [= <-]. }
    apply triple_pure. intros Hgid. prog_seq ltac:(by apply consume_recovery_triple).
    prog_bind ltac:(by apply snapshotInternal_triple). apply triple_ret. intros w (_ & _ & Hs) body _ _.
    eauto.
Qed.

Lemma recovery_error_status error : he_status (recovery_error error) <> 200.
Proof. destruct error; simpl; repeat case_match; done. Qed.

Lemma shown_failure route request correlationId cookie error w :
  shown route request (failure correlationId cookie (filter_of route error)) w.
Proof.
  destruct route; try (by intros _); intros Hs; by destruct (recovery_error_status error).
Qed.

Lemma correlate_returning P requestId :
  persists P -> returning P (correlate requestId) anything.
Proof.
  intros HP. unfold correlate. destruct requestId as [id|]; [destruct (RealtimeProtocol.UUID_V4 id)|];
    [by apply returning_ret|by apply uuid_returning..].
Qed.

Lemma serve_returning P route requestId request :
  persists P ->
  returning P (serve config limits tokens cookieEnabled cookieName secureCookie route requestId request)
    (shown route request).
Proof.
  intros HP. unfold serve, respond.
  eapply returning_bind; [done|by apply correlate_returning|intros correlationId].
  apply (returning_weaken P); [by intros w []|].
  eapply returning_bind; [done|by apply returning_attempt, handler_triple|intros r]. apply returning_ret.
  intros w [_ Hr]. destruct r as [answer|error]; [|apply shown_failure].
  destruct (an_body answer) as [body|error] eqn:Eb; [|apply shown_failure]. exact (Hr body Eb).
Qed.
End Endpoints.
(** ** Games and their players *)

Section Players.
Context `{Zod} `{ZodUuid} `{ZodDatetime} `{ChessJs} `{!ChessJsLaws} `{Prisma}.
Context `{Redis, !RedisLaws, !RedisCounters, !RedisCountersLaws} `{JsonText} `{NodeCrypto} `{NodeHash}.
Context `{ErrorMessages} `{GuestSocketDisconnect} (config : AppConfig).
Context (limits : RateLimits.RateLimitConfig) (tokens : Tokens.JwtTokenService).
Context (maxPayloadBytes drainGraceMs : positive).
Context (cookieEnabled : bool) (cookieName : string) (secureCookie : bool).

#[local] Existing Instance delivery.
Let ports : SessionServices.SessionPorts := game_ports config.
#[local] Existing Instance ports.

(** C40: only players follow games. From any state in which the database and what Redis
    holds are sound, whatever the other programs do between the actions of these and
    whatever becomes of their requests to the database and to Redis: whatever is set off
    by a socket that connects, sends anything or disconnects, by a job, by a game that runs
    out of time, or by a reset of a session that ends a game, it comes to an end; the socket then has joined no rooms but its guest's own and those of games of which
    the guest is a player; every event about a game was sent to the room of that
    game, or to one of its players, and to the socket only if its guest is one. And
    every HTTP request is answered; if it is answered with a game, it carried
    a signed token of a guest who is a player of that game. *)
Theorem only_players_follow_games w :
  start_law -> inv w ->
  (forall socket p, zod_uuid (guest_of socket) = true ->
     edge_program config limits maxPayloadBytes drainGraceMs socket p ->
     wp rely rely ext_ok (talk p) (fun r w' => inv w' /\
       exists outs ended, r = Ok (outs, ended) /\ rooms_ok (guest_of socket) outs w') w) /\
  (forall route requestId request,
     wp rely rely ext_ok
       (HttpApi.serve config limits tokens cookieEnabled cookieName secureCookie route requestId request)
       (fun r w' => inv w' /\
          exists response, r = Ok response /\ shown tokens cookieName route request response w') w).
Proof.
  intros Hstart Hw. split.
  - intros socket p Hguest Hp.
    assert (ttriple (guest_of socket) (fun _ => True) p (fun _ _ => True)) as Ht
      by (by eapply edge_triple).
    eapply wp_mono; [|by apply Ht]. intros r w' [Hinv ([outs ended] & -> & Ho & _)]. eauto.
  - intros route requestId request. by apply (serve_returning config limits tokens _ _ _ (fun _ => True)).
Qed.
End Players.
End EdgeSafety.
