(* ===== verification/CacheSafety.v ===== *)
(** * What Redis holds of games and of the queue is always sound

    Any number of server processes run the programs of the services, and what the events
    of sockets and the HTTP requests set off. Each program may be started at any time, with
    the arguments the edge of the system checks; it is interrupted at each of its actions
    by any other program, and may crash there. In the meantime sessions come and go and
    Redis loses keys. [cache_is_sound] says what
    holds of the keyspace in every state they reach. *)

From S2P Require Export CacheEdge RealtimeExamples.
Local Open Scope string_scope.
Local Open Scope list_scope.
Local Open Scope Z_scope.

Module Safety.
Import Scripts Cache Triples MatchmakingSafety GamesSafety SessionsSafety Services.
Import RealtimeSafety EdgeSafety.
Import SessionServices SessionInvariant.

Section Safety.
Context `{Zod} `{ZodUuid} `{ZodDatetime} `{ChessJs} `{!ChessJsLaws} `{Prisma}.
Context `{Redis, !RedisLaws, !RedisCounters, !RedisCountersLaws} `{JsonText} `{NodeCrypto} `{NodeHash}.
Context `{Realtime.ErrorMessages} `{GuestSocketDisconnect} (config : AppConfig) (limits : RateLimits.RateLimitConfig).
Context (tokens : Tokens.JwtTokenService) (connectionLimit maxPayloadBytes drainGraceMs : positive).
Context (cookieEnabled : bool) (cookieName : string) (secureCookie : bool).
Context (batchSize : nat) (retentionMs : Z).

#[local] Existing Instance Realtime.delivery.
Let ports : SessionPorts := game_ports config.
#[local] Existing Instance ports.

(** The programs, as started by a request, an event of a socket, a timer or a job. *)
Inductive service : forall A : Type, Prog A -> Prop :=
| S_join guest t : zod_uuid guest = true -> time_ok t ->
    service _ (Matchmaking.join config guest "blitz" t)
| S_leave guest mode : service _ (Matchmaking.leave config guest mode)
| S_finallyDisconnected guest mode : service _ (Matchmaking.finallyDisconnected config guest mode)
| S_drain t : time_ok t -> service _ (Matchmaking.drain config "blitz" t)
| S_sweep mode t : service _ (Matchmaking.sweep config mode t)
| S_reconcile pages t : service _ (Matchmaking.reconcile config pages t)
| S_refresh guest socket t : service _ (Presence.refresh config guest socket t)
| S_remove guest socket t : service _ (Presence.remove guest socket t)
| S_ready gid guest version t : service _ (ready gid guest version t)
| S_activeSnapshot guest : service _ (activeSnapshot guest)
| S_submit input : service _ (submit config input)
| S_resign input : service _ (resign config input)
| S_reset guest : service _ (terminateForReset config guest)
| S_disconnected guest : service _ (disconnected config guest)
| S_reconnected guest : service _ (reconnected guest)
| S_adjudicate gid : service _ (adjudicateGame config gid)
| S_recover gid guest : service _ (snapshotInternal config gid guest)
| S_activeRecovered guest : service _ (activeRecovered config guest)
| S_repair cursors page : service _ (Reconciliation.runOnce config cursors page)
| S_session {A} (p : Prog A) :
    session_service tokens cookieName batchSize retentionMs A p -> service A p
| S_handshake instanceId isReady header auth socketId address :
    service _ (Gateway.handshake config connectionLimit tokens instanceId drainGraceMs isReady header auth
                 socketId address)
| S_socket socket p : zod_uuid (Gateway.guest_of socket) = true ->
    edge_program config limits maxPayloadBytes drainGraceMs socket p -> service _ (Realtime.talk p)
| S_request route requestId request :
    service _ (HttpApi.serve config limits tokens cookieEnabled cookieName secureCookie route requestId
                 request).

Inductive spawned : Prog () -> Prop :=
| Spawned {A} (p : Prog A) : service A p -> spawned (_ ← p; mret ()).

(** What happens besides: guest sessions are created, changed and deleted, and keys
    expire or are lost. *)
Inductive outside : World -> World -> Prop :=
| O_sessions w sessions sent :
    let db := w_db w in
    outside w (mkWorld (mkDB (games db) (players db) (moves db) (assignments db) (commands db)
                          sessions sent) (w_redis w))
| O_lost w key : outside w (mkWorld (w_db w) (DEL key (w_redis w))).

Lemma outside_rely w w' : outside w w' -> rely w w'.
Proof.
  intros Ho [Hwf Hr]. destruct Ho as [w sessions sent db|w key].
  - split; [|done]. split; [|done]. by destruct Hwf; split.
  - split; [|done]. split; [done|]. by apply ok_DEL.
Qed.

Lemma service_keeps A p :
  start_law -> service A p -> triple (fun _ => True) p (fun _ _ => True).
Proof.
  intros Hstart Hp. destruct Hp.
  - by eapply triple_any, join_triple.
  - by apply service_leave_triple.
  - by apply service_leave_triple.
  - by eapply triple_any, drain_triple.
  - by eapply triple_any, sweep_triple.
  - by eapply triple_any, reconcile_triple.
  - by apply refresh_triple.
  - by apply remove_triple.
  - by apply ready_triple.
  - by apply activeSnapshot_triple.
  - by eapply triple_any, submit_triple.
  - by eapply triple_any, resign_triple.
  - by apply terminateForReset_triple.
  - by apply disconnected_triple.
  - by apply reconnected_triple.
  - by eapply triple_any, adjudicateGame_triple.
  - by eapply triple_any, snapshotInternal_triple.
  - by eapply triple_any, activeRecovered_triple.
  - by apply runOnce_triple.
  - by apply (session_service_triple config tokens cookieName batchSize retentionMs).
  - by eapply triple_any, handshake_triple.
  - by eapply triple_any, returning_triple, edge_triple.
  - by eapply triple_any, returning_triple, serve_returning.
Qed.

Lemma spawned_keeps p w :
  start_law -> inv w -> spawned p -> wp rely rely ext_ok p (fun _ _ => True) w.
Proof.
  intros Hstart Hw [A q Hq].
  assert (triple (fun _ => True) (_ ← q; mret ()) (fun _ _ => True)) as Hp
    by (prog_seq ltac:(by apply service_keeps); prog_ret).
  eapply wp_mono; [|by apply Hp]. done.
Qed.

Lemma parseReservation_entry db r m :
  cache_ok db r -> HGETALL r (reservationKey m) <> ∅ ->
  exists rv, parseReservation (HGETALL r (reservationKey m)) = Some rv /\
    rv_matchId rv = m /\ rv_a rv <> rv_b rv.
Proof.
  intros Hr Hne. destruct (Hr (KReservation m)) as [_ [He|(rv & He & Hrv & Hm & Hab)]]; [done|].
  exists rv. unfold HGETALL. simpl in He. rewrite He. split; [by apply parse_stored|done].
Qed.

(** C9: what Redis holds is sound. Start from a well-formed database and an empty
    Redis, and let any number of processes run whatever sockets and HTTP requests, jobs
    and timers set off: any programs of matchmaking, presence, play, recovery and repair and
    of guest sessions, interleaved in any way, each possibly stopped at any of its actions, with answers of the database and of Redis that may be lost, while
    sessions change and keys of Redis are lost. Then at every time: a guest's pointer
    names an existing game of which that guest is a player, so that nobody is ever
    sent to a game of others; a guest's state is one of the four; the queues hold
    guest ids with times; and every reservation is readable, stored under its own
    match, and for two different guests. The database is well formed. *)
Theorem cache_is_sound ts w w' :
  start_law -> wf (w_db w) -> (forall key, entry (w_redis w) key = no_entry) ->
  rtc (machine_step ext_ok spawned outside) ([], w) (ts, w') ->
  wf (w_db w') /\
  (forall guest gid, GET (w_redis w') (activeGameKey guest) = Some gid ->
     is_Some (games (w_db w') !! gid) /\
     guest ∈ map p_guestSessionId (gamePlayers (w_db w') gid)) /\
  (forall guest state, GET (w_redis w') (stateKey guest) = Some state ->
     state ∈ ["IDLE"; "QUEUED"; "RESERVED"; "IN_GAME"]) /\
  (forall mode guest score, ZSCORE (w_redis w') (queueKey mode) guest = Some score ->
     zod_uuid guest = true /\ 0 <= score <= MAX_SAFE_INTEGER) /\
  (forall m, HGETALL (w_redis w') (reservationKey m) <> ∅ ->
     exists rv, parseReservation (HGETALL (w_redis w') (reservationKey m)) = Some rv /\
       rv_matchId rv = m /\ rv_a rv <> rv_b rv).
Proof.
  intros Hstart Hwf Hempty Hrun.
  assert (inv w) as Hinv
    by (split; [done|]; intros k; rewrite Hempty; apply no_entry_ok).
  destruct (adequacy rely rely ext_ok spawned outside (fun _ _ HR => HR) outside_rely inv
    (fun _ _ Hw HR => proj1 (HR Hw)) (fun p w0 Hw Hp => spawned_keeps p w0 Hstart Hw Hp)
    [] w ts w' Hrun Hinv (Forall_nil_2 _)) as [_ [Hwf' Hr]].
  split; [done|]. split_and!.
  - intros guest gid Hg. by apply (Hr (KActive guest)).
  - intros guest state Hg. by apply (Hr (KState guest)).
  - intros mode guest score Hs. destruct (Hr (KQueue mode)) as [_ Hq]. by apply (Hq guest score).
  - intros m. by apply (parseReservation_entry (w_db w')).
Qed.
End Safety.

(** ** A run

    Alice's socket connects: Redis, which was empty, points to her game again, and the socket
    joins the room of that game. *)
#[local] Existing Instance MapRedis.map_redis.
#[local] Existing Instance MapRedis.map_redis_laws.
#[local] Existing Instance RateLimits.map_counters.
#[local] Existing Instance RateLimits.map_counters_laws.
#[local] Existing Instance RateLimits.sample_hash.
#[local] Existing Instance Gameplay.sample_zod.
#[local] Existing Instance any_zod_uuid.
#[local] Existing Instance RealtimeExamples.any_datetime.
#[local] Existing Instance RealtimeExamples.one_message.
#[local] Existing Instance sample_prisma.
#[local] Existing Instance SampleChess.sample.
#[local] Existing Instance SampleChess.sample_laws.
#[local] Existing Instance Tokens.sample_crypto.

#[local] Instance no_sockets : GuestSocketDisconnect := {| delegate := None |}.

Definition sample_ext : Ext :=
  mkExt (mkEnv 920000000 920000 ("p-1", "p-2")) DbUp good_link 920000 ("match-2", "game-2") true [].

Definition sample_world : World := mkWorld started_db ∅.

(** [ext_ok], decided. *)
Definition ext_check (x : Ext) (w : World) : bool :=
  bool_decide ((env_playerIds (x_env x)).1 <> (env_playerIds (x_env x)).2) &&
  forallb (fun p => negb (bool_decide (p_id p = (env_playerIds (x_env x)).1)) &&
                    negb (bool_decide (p_id p = (env_playerIds (x_env x)).2))) (players (w_db w)) &&
  zod_uuidv4 (x_uuids x).1 && zod_uuidv4 (x_uuids x).2 &&
  ((0 <=? x_now x) && (x_now x <=? MAX_SAFE_INTEGER)).

Lemma ext_check_ok x w : ext_check x w = true -> ext_ok x w.
Proof.
  unfold ext_check, ext_ok. intros Hc. js_bool. split_and!; try done.
  intros p Hp. match goal with E : forallb _ _ = true |- _ => rename E into Ef end.
  rewrite forallb_forall in Ef. specialize (Ef p (proj1 (list_elem_of_In _ _) Hp)). js_bool. done.
Qed.

Lemma sample_start_law : start_law.
Proof. eexists. split; [reflexivity|]. split; reflexivity. Qed.

(** Alice's socket connects, and nobody interferes. *)
Definition connecting : Realtime.Talk () :=
  Gateway.handleConnection default_config 1000 true RealtimeExamples.alice_socket.

Definition sample_run : option (result fault (list Realtime.Output * result fault ()) * World * list Ext) :=
  alone (Realtime.talk connecting) (repeat sample_ext 60) sample_world.

Lemma connecting_safe : alone_check ext_check (Realtime.talk connecting) (repeat sample_ext 60) sample_world = true.
Proof. vm_compute. reflexivity. Qed.

Lemma sample_inv : inv sample_world.
Proof. split; [exact started_wf|]. intros k. apply no_entry_ok. Qed.

(** What a program establishes, if it runs alone with answers that may be given. *)
Lemma wp_alone_check {A} (p : Prog A) Q exts w r w' left :
  alone_check ext_check p exts w = true -> alone p exts w = Some (r, w', left) ->
  wp rely rely ext_ok p Q w -> Q r w'.
Proof.
  revert exts w. induction p as [a|e|X act k IH]; intros exts w Hc Hrun Hwp; simpl in *;
    [by injection Hrun as <- <- _..|].
  destruct exts as [|x exts]; [done|]. simpl in *.
  apply andb_true_iff in Hc as [Hx%ext_check_ok Hc].
  destruct (Hwp w x (reflexivity w) Hx) as [_ Hk]. destruct (act x w) as [v w1]. by eapply IH.
Qed.

(** Alice's socket joins the room of the game she plays. *)
Lemma only_players_follow_games_witness :
  exists outs ended w' left, sample_run = Some (Ok (outs, ended), w', left) /\
    Realtime.JoinRoom "game:game-1" ∈ outs /\ seated (w_db w') "game-1" "alice".
Proof.
  assert (match sample_run with
          | Some (Ok (outs, _), _, _) =>
              existsb (fun o => match o with
                                | Realtime.JoinRoom room => bool_decide (room = "game:game-1")
                                | _ => false end) outs
          | _ => false
          end = true) as Hjoined by (vm_compute; reflexivity).
  destruct (only_players_follow_games default_config RateLimits.sample_limits Tokens.sample_service
    16384 1000 true "guest" true sample_world sample_start_law sample_inv) as [Hsockets _].
  assert (zod_uuid (Gateway.guest_of RealtimeExamples.alice_socket) = true) as Halice by reflexivity.
  pose proof (Hsockets RealtimeExamples.alice_socket connecting Halice (Connects _ _ _ _ _ true)) as Hwp.
  destruct sample_run as [[[r w'] left]|] eqn:E; [|discriminate Hjoined].
  destruct (wp_alone_check _ _ _ _ _ _ _ connecting_safe E Hwp) as [_ (outs & ended & -> & Ho)].
  apply existsb_exists in Hjoined as (o & Hin%list_elem_of_In & Hroom).
  destruct o as [| | |room| | | |]; try discriminate Hroom. apply bool_decide_eq_true in Hroom as ->.
  exists outs, ended, w', left. split; [reflexivity|]. split; [exact Hin|].
  destruct (proj1 (Forall_forall _ _) Ho _ Hin) as [Hg|(gid & Hg & Hs)]; [discriminate Hg|].
  assert (gid = "game-1") as -> by (by destruct (inj (String.append "game:") "game-1" gid Hg)).
  exact Hs.
Defined.

Lemma cache_is_sound_witness :
  exists ts w', rtc (machine_step ext_ok (spawned default_config RateLimits.sample_limits Tokens.sample_service
      10 16384 1000 true "guest" true 100 0) outside) ([], sample_world) (ts, w') /\
    GET (w_redis w') (activeGameKey "alice") = Some "game-1" /\
    is_Some (games (w_db w') !! "game-1") /\
    "alice" ∈ map p_guestSessionId (gamePlayers (w_db w') "game-1").
Proof.
  set (p := _ ← Realtime.talk connecting; mret ()).
  set (step := machine_step ext_ok (spawned default_config RateLimits.sample_limits Tokens.sample_service
    10 16384 1000 true "guest" true 100 0) outside).
  assert (match alone p (repeat sample_ext 60) sample_world with
          | Some (_, w', _) => GET (w_redis w') (activeGameKey "alice") = Some "game-1"
          | None => False
          end) as Hget by (vm_compute; reflexivity).
  assert (alone_check ext_check p (repeat sample_ext 60) sample_world = true) as Hcheck
    by (vm_compute; reflexivity).
  apply (ran_to _ (fun w' => GET (w_redis w') (activeGameKey "alice") = Some "game-1")) in Hget
    as (r & w' & rest & E & Hget).
  destruct (machine_alone ext_ok (spawned default_config RateLimits.sample_limits Tokens.sample_service
      10 16384 1000 true "guest" true 100 0) outside ext_check p _ _ _ _ _
              ext_check_ok Hcheck E) as [p' Hrun].
  assert (rtc step ([], sample_world) ([p'], w')) as Hall.
  { eapply rtc_l; [|exact Hrun]. apply M_spawn, Spawned.
    apply (S_socket _ _ _ _ _ _ _ _ _ _ _ RealtimeExamples.alice_socket); [reflexivity|].
    exact (Connects _ _ _ _ _ true). }
  exists [p'], w'. split; [exact Hall|]. split; [exact Hget|].
  destruct (cache_is_sound default_config RateLimits.sample_limits Tokens.sample_service
      10 16384 1000 true "guest" true 100 0 [p'] sample_world w') as (_ & Hp & _).
  - exact sample_start_law.
  - exact started_wf.
  - intros key. reflexivity.
  - exact Hall.
  - exact (Hp "alice" "game-1" Hget).
Defined.
End Safety.
